(* ===== verification/_CoqProject ===== *)
-Q . S2P
Prelude.v
Text.v
BTree.v
Float64.v
Codec.v
Wal.v
Model.v
MemTable.v
Fs.v
Hash.v
ZoneMap.v
Bloom.v
Arrow.v
SSTable.v
Partition.v
Compaction.v
Engine.v
EngineSafety.v
Durability.v
Ring.v
Cluster.v
Membership.v
Ast.v
Lexer.v
Parser.v
Printer.v
Plan.v
Eval.v
Executor.v
Sort.v
Query.v
Typing.v
Like.v
FlushQuery.v
Store.v
Otlp.v
Normalizer.v
Json.v
JsonDecoder.v
OtlpJson.v
Ingest.v
Handlers.v
EndToEnd.v
IngestQuery.v
Server.v
Rpc.v
Operator.v
Deploy.v
Tests.v
