(* ===== verification/Prelude.v ===== *)
(** * InfraLens: a verification library

    InfraLens stores logs, metrics and traces in an LSM-style engine, shards
    and replicates them over a cluster, and answers queries in a small SQL
    dialect (IQL).  This library models the Rust crates under [crates/] as
    executable Rocq definitions and proves what makes them correct, or, where
    the code does not do what it means to, what it does instead.

    ** The program and its parts

    - [infralens-common]: the records, the Arrow schemas, the configuration.
    - [infralens-storage]: a write goes to the write-ahead log of its time
      partition and to the active memtable of the partition; a full memtable
      is frozen and queued; a worker drains the queue, writes one SSTable per
      signal (a Parquet file, a Bloom filter, a zone map), registers it in the
      partition and checkpoints the log; another worker compacts the SSTables
      of a partition.
    - [infralens-cluster]: a view of the live nodes kept from etcd events, a
      consistent hash ring, a router from series to primary and replicas, and
      bounded replication queues.
    - [infralens-query]: lexer, parser, planner, optimizer, evaluator and
      pull-based operators, which read the SSTables of the engine.
    - [infralens-ingest]: the OTLP endpoints (HTTP with JSON or protobuf
      bodies, gRPC), which turn requests into records and hand them through a
      bounded channel to a task that writes them to the engine.
    - [infralens-rpc]: the calls between nodes (replication stream, shard
      queries) and the scatter and gather of a distributed query.
    - [infralens-server]: the process around the engine and the pipeline; the
      operator in [deploy/kubernetes/operator] deploys it.

    ** Files

    Shared:
    - [Prelude]: outcomes of Rust code (a value, an error, a panic), a state
      and error monad, integers at their width, little-endian bytes, stable
      sorting by a key, the hint database [infra] and small tactics.
    - [Text], [BTree], [Float64], [Codec], [Fs], [Hash]: strings and decimal
      text, ordered maps ([BTreeMap]), binary64 arithmetic, a reference codec
      for countable types, the file system ([std::fs]) with faults and a full
      disk, and the default hasher (SipHash-1-3 as an instance).

    Storage ([crates/infralens-storage/src] and [infralens-common/src]):
    - [Wal] ([wal.rs], [error.rs]): buffered appends with checksums, sync,
      checkpoints, recovery.
    - [Model] ([model.rs], [schema.rs], [config.rs]): the records.
    - [MemTable] ([memtable.rs]), [ZoneMap] ([zone_map.rs]), [Bloom]
      ([bloom.rs]).
    - [Arrow]: arrays, batches and Parquet files as the code uses them.
    - [SSTable] ([sstable.rs]), [Partition] ([partition.rs]), [Compaction]
      ([compaction.rs]).
    - [Engine] ([engine.rs]): the whole engine as a state over a heap of
      memtables, so that a table can be active, frozen or lost, with one
      definition per call and per turn of a worker; [EngineSafety] has the
      Hoare rules, the invariant and the theorems; [Durability] follows the
      bytes of the logs through the calls of the engine.

    Cluster ([crates/infralens-cluster/src]):
    - [Ring] ([ring.rs], [error.rs]), [Cluster] ([config.rs], the view of
      [membership.rs], [router.rs], [replication.rs]), [Membership]
      (registration and lease of [membership.rs]).
    - [Rpc] ([crates/infralens-rpc/src/server.rs], [scatter_gather.rs]).

    Query ([crates/infralens-query/src]):
    - [Ast] ([ast.rs], [error.rs], the tokens of [lexer.rs]), [Lexer]
      ([lexer.rs]), [Parser] ([parser.rs]).
    - [Printer]: a printer with minimal parentheses, the specification the
      parser is checked against.
    - [Plan] ([catalog.rs], [planner.rs], [optimizer/]), [Eval]
      ([functions/eval.rs], [functions/temporal.rs]), [Executor]
      ([executor/], [lib.rs]).
    - [Typing]: static types of expressions, an abstract specification of the
      evaluator; [Like]: what a pattern matches, the specification of the
      [LIKE] matcher; [Sort]: what [ORDER BY] promises.
    - [Query]: a statement from its text to its rows; [FlushQuery]: a flush
      followed by a query; [Store]: the abstract store of logs, a bag of held
      and a bag of stored records, and its refinement by the engine, the files
      and the query engine together.

    Ingest ([crates/infralens-ingest/src]):
    - [Otlp] (the messages of [proto/opentelemetry]), [Normalizer]
      ([normalizer.rs]), [Json] (values of [serde_json]), [JsonDecoder]
      ([json_decoder.rs]).
    - [OtlpJson]: a reference encoder of requests into OTLP/JSON, the
      specification the two decoders are compared with.
    - [Ingest] ([processor.rs], [error.rs]): the pipeline and its schedules;
      [Handlers] ([http.rs], [grpc.rs]).
    - [EndToEnd]: a request through its handler, the pipeline and the engine;
      [IngestQuery]: from there through the flush to the answer of a query.

    Processes:
    - [Server] ([crates/infralens-server/src/main.rs], [telemetry.rs], the
      rest of [config.rs]): the process, with a step relation over requests,
      workers and the disk; [Operator] ([deploy/kubernetes/operator/src/crd.rs],
      [reconciler.rs], [main.rs]); [Deploy]: the server in a container of
      the operator, with the configuration it gets.
    - [Tests]: the unit tests of the crates and the integration tests of the
      engine, evaluated on the model.

    ** Interfaces

    Third-party crates are classes with their documented behaviour as laws,
    and a reference instance of each shows that the laws can hold: the
    checksum ([Crc32]), the hasher ([DefaultHasher]), the logarithm ([Libm]),
    [bincode] ([Bincode]), [serde_json] ([SerdeJson], [NodeJson]), [arrow] and
    [parquet] ([ArrowLib], [ParquetLib], [Kernels], [SliceKernel],
    [SortKernels], with the laws of a sort in [SortLaws] and the shapes of
    results in [KernelShapes], and what a null slot holds, which arrow leaves
    open, in [NullSlots]), [chrono] ([Chrono]), the body codecs of the endpoints
    and the body limit of the framework ([BodyCodecs]), the etcd service ([EtcdApi], [EtcdLaws]), the transport
    and Arrow IPC ([ShardNet], [IpcReader]), the layered configuration
    ([ConfigLib], [ConfigLaws]), logging and the metrics exporter ([TelemetryLib]) and the
    Kubernetes API server ([KubeApi], [KubeLaws]).  The
    trait [PhysicalOperator] of the executor is a class too: the theorems
    about an operator hold over any child that satisfies [OperatorLaws]; and
    the pipeline is proved over any [StorageSink], of which the engine is an
    instance.

    ** What the theorems show

    - Log: on a device with room that answers syncs, after any appends, syncs
      and checkpoints and a crash that keeps at least the synced bytes,
      recovery returns the entries since the last
      checkpoint up to the crash; a changed byte is reported, recovery always
      ends, and a second handle on the same file corrupts it.
    - Tables: a memtable drains the rows of a signal stably sorted by time; a
      zone map never hides a row; a Bloom filter of fewer than [2^64 - 7]
      bits has no false negatives and survives its byte form; an SSTable reads back as it was written.
    - Partitions and compaction: buckets and directory names are unambiguous,
      opening a directory finds its tables, a compaction keeps all rows, one
      input after the other and not sorted by time, and removes its inputs; its Bloom filter is empty, and an error
      forgets the tables.
    - Engine: in every reachable state frozen and active tables are separate
      and every row is in its partition; an accepted write is in the log and
      in a table; a flush of decodable rows registers them all; a full queue
      loses an acknowledged write, and rows that do not decode are dropped.
    - Durability: after any acknowledged batches, before a flush, the log of each partition is
      the sequence of its records, and a crash recovers a prefix of it that
      misses at most one buffer; but a record alone is acknowledged before a
      byte of it is on the disk, and nothing flushes the buffer.
    - Store: every run of the engine from an empty disk through acknowledged
      log batches, [flush_all] or [close], flushes and merges is a run of the
      abstract store: memory holds the held records, a query gives the stored
      ones, and together they are the accepted ones, each once.  The run
      assumes what the engine does not check: the flush queue has room, the
      disk takes the files, the records decode to themselves, and fewer than
      [2^64] records and turns.  After a restart a query gives nothing until
      the partitions are opened again, and then what it gave before.
    - Cluster: the primary is the next position clockwise, replicas are
      distinct, a change of topology moves only what it must; the view and the
      ring agree; queues are bounded and ordered.
    - Membership and rpc: a registration lives while no two refreshes in a row
      fail, and once gone does not come back; a scatter gives the same batches
      and the same failed nodes in whatever order the shards finish; a replica
      acknowledges entries in order.
    - Ingest: the pipeline is a bounded first-in first-out buffer in front of
      the engine and every accepted batch is eventually written; the JSON and
      the protobuf form of a log or trace request give the same records, those
      of a metric request differ in exactly two ways (requests of the part
      both formats share); the answer to every method and path of the HTTP
      server is characterised; some ids make the JSON decoder panic.  A
      request with one record ends in the log and in a table of its partition.
    - Processes: a running server keeps the invariants of the pipeline and of
      the engine through requests, workers, failures and closing in any
      order; shutting down loses the queued batches, and a server whose writer
      has died looks ready for ever.  Reconciliation converges to objects that
      fit together, and the controller keeps them so over any turns and
      refusals; but the servers it deploys ignore the settings of the resource
      and run on the defaults.
    - Query text: lexer and parser terminate without a panic on every input;
      printing and parsing agree; an interval literal is exact or wraps.
    - Plans and execution: constant folding keeps values, with the calls of
      now() it replaces read at planning; pruning keeps every partition that
      matters and no partition outside the range, the filter and limit operators give exactly the
      rows they should over any batches, and the sort operator a sorted
      permutation; a value of an expression has its static type and one slot
      per row; [LIKE] never accepts too much, and accepts all it should when
      the pattern ends in a percent sign; and three defects: [HAVING] replaces
      [WHERE], comparisons of the timestamp with a literal never evaluate, and
      [GROUP BY] never gives a result.
    - Queries end to end: the text of a query over one table, whose [WHERE]
      clause evaluates, gives exactly the rows it describes, whatever the
      files and their batches; a limit cuts
      the scan before ordering and offset, and the projection is ignored.
      Rows that were flushed are in the answer of the next query, and so is a
      record that came in over HTTP.
    - Tests: the model passes the tests of the repository, and the storage
      tests pass on an engine none of whose logs survive.

    ** Conventions, bounds and fuel

    Integers are [Z] with the range or the wrap-around of their Rust type
    written out; arithmetic that can overflow wraps as a release build does.
    A Rust [String] is the list of its UTF-8 bytes.  Loops that are not
    structural take fuel, and running out of it is a panic, which the
    theorems exclude: the lexer gets one unit per byte and consumes at least
    one in each turn ([tokenise_total]); the parser gets one per token, and
    every nested call and every turn of a loop has consumed one
    ([parse_statement_total]); log recovery gets one per byte
    ([recover_total]); a loop over a child operator gets the budget of the
    child, which every batch uses up ([OperatorLaws]); the number printer gets
    one per binary digit.

    A query reads the clock at planning and again at every evaluation of
    [now()]; the model has one reading per occurrence, chosen freely
    ([Clock], [QueryClock]).

    ** Steps and threads

    A step of the model is a call of the code on the shared state.  A batch
    written as one step is the sequence of its records written one by one
    ([write_batch_records]), so the runs of one-record batches show what other
    threads do between two records.  A compaction is one step in the runs of
    the engine; in the code it holds no lock between draining the list of
    tables and registering the result, and what another thread sees then is
    stated in [compact_signal_window], not interleaved.  The refresh ticks of a
    lease come one interval apart, as the timer of the code asks for.

    ** What is not modelled

    Logging, the metrics exporter, timers and the tokio runtime: a lock or a
    channel makes the operations it guards steps of the model, and tasks are
    explicit steps.  Sockets, the HTTP and gRPC frameworks (routing excepted)
    and the watch and timers that drive the controller are I/O of libraries:
    which request, turn or end of a task comes next is left open.  The build scripts and the generated protobuf code are left
    out (the messages are modelled from the .proto files), as are the parts
    in other languages (gateway, copilot). *)

From stdpp Require Import base tactics list numbers option sorting.
From Stdlib Require Import ZArith Lia List Sorted Permutation.

#[global] Open Scope Z_scope.

(** ** Outcomes of Rust code

    A Rust function returns [Ok], returns an [Err] of its error type, or
    panics.  The three ends are kept apart: a panic is not an error the
    caller can handle. *)

Inductive outcome (E A : Type) : Type :=
| Ret (a : A)
| Fail (e : E)
| Panic.

Arguments Ret {E A} a.
Arguments Fail {E A} e.
Arguments Panic {E A}.

#[export] Instance outcome_ret E : MRet (outcome E) := fun A a => Ret a.
#[export] Instance outcome_bind E : MBind (outcome E) := fun A B f m =>
  match m with
  | Ret a => f a
  | Fail e => Fail e
  | Panic => Panic
  end.
#[export] Instance outcome_fmap E : FMap (outcome E) := fun A B f m =>
  match m with
  | Ret a => Ret (f a)
  | Fail e => Fail e
  | Panic => Panic
  end.

(** [Result::map_err]. *)
Definition map_err {E F A} (f : E -> F) (m : outcome E A) : outcome F A :=
  match m with
  | Ret a => Ret a
  | Fail e => Fail (f e)
  | Panic => Panic
  end.

(** [Option::ok_or]. *)
Definition ok_or {E A} (o : option A) (e : E) : outcome E A :=
  match o with
  | Some a => Ret a
  | None => Fail e
  end.

(** [Result::ok]. *)
Definition ok {E A} (m : outcome E A) : option A :=
  match m with
  | Ret a => Some a
  | _ => None
  end.

(** A [for] loop whose body may return early with an error. *)
Fixpoint foldM {E A S} (f : S -> A -> outcome E S) (s : S) (l : list A) : outcome E S :=
  match l with
  | [] => Ret s
  | a :: l => s' ← f s a; foldM f s' l
  end.

(** [iter.map(f).collect::<Result<Vec<_>, _>>()]. *)
Fixpoint mapM_out {E A B} (f : A -> outcome E B) (l : list A) : outcome E (list B) :=
  match l with
  | [] => Ret []
  | a :: l => b ← f a; bs ← mapM_out f l; Ret (b :: bs)
  end.

Lemma bind_Ret {E A B} (m : outcome E A) (f : A -> outcome E B) b :
  (m ≫= f) = Ret b -> exists a, m = Ret a /\ f a = Ret b.
Proof. destruct m; simpl; intros H; try discriminate; eauto. Qed.

Lemma bind_Panic {E A B} (m : outcome E A) (f : A -> outcome E B) :
  (m ≫= f) = Panic -> m = Panic \/ exists a, m = Ret a /\ f a = Panic.
Proof. destruct m; simpl; intros H; try discriminate; eauto. Qed.

Lemma fmap_Panic {E A B} (f : A -> B) (m : outcome E A) : f <$> m = Panic -> m = Panic.
Proof. destruct m; simpl; intros H; try discriminate; done. Qed.

Lemma fmap_Ret {E A B} (f : A -> B) (m : outcome E A) b : f <$> m = Ret b -> exists a, m = Ret a /\ f a = b.
Proof. destruct m; simpl; intros H; try discriminate. injection H as <-. eauto. Qed.

Lemma foldM_app {E A S} (f : S -> A -> outcome E S) s l1 l2 :
  foldM f s (l1 ++ l2) = (s' ← foldM f s l1; foldM f s' l2).
Proof.
  revert s; induction l1 as [|a l1 IH]; intros s; simpl; [done|].
  destruct (f s a); simpl; auto.
Qed.

Lemma foldM_total {E A S} (f : S -> A -> outcome E S) (g : S -> A -> S) l :
  (forall s a, In a l -> f s a = Ret (g s a)) ->
  forall s, foldM f s l = Ret (fold_left g l s).
Proof.
  induction l as [|a l IH]; intros H s; simpl; [done|].
  rewrite H by (left; done). simpl. apply IH. intros; apply H; by right.
Qed.

Lemma mapM_out_total {E A B} (f : A -> outcome E B) (g : A -> B) l :
  (forall a, In a l -> f a = Ret (g a)) -> mapM_out f l = Ret (map g l).
Proof.
  induction l as [|a l IH]; intros H; simpl; [done|].
  rewrite H by (left; done); simpl. rewrite IH; [done|]. intros; apply H; by right.
Qed.

(** ** Stateful code

    A call that reads and changes a state and may end early; what it did to
    the state before an error or a panic stays done. *)

Definition st (S E A : Type) : Type := S -> outcome E A * S.

#[export] Instance st_ret S E : MRet (st S E) := fun A a s => (Ret a, s).
#[export] Instance st_bind S E : MBind (st S E) := fun A B f m s =>
  match m s with
  | (Ret a, s') => f a s'
  | (Fail e, s') => (Fail e, s')
  | (Panic, s') => (Panic, s')
  end.

#[export] Instance st_fmap S E : FMap (st S E) := fun A B f m => a ← m; mret (f a).

Definition st_get {S E} : st S E S := fun s => (Ret s, s).
Definition st_modify {S E} (f : S -> S) : st S E unit := fun s => (Ret tt, f s).
Definition st_lift {S E A} (m : outcome E A) : st S E A := fun s => (m, s).

(** Run to a value: the caller inspects the [Result] itself. *)
Definition st_try {S E F A} (m : st S E A) : st S F (outcome E A) := fun s =>
  match m s with
  | (Ret a, s') => (Ret (Ret a), s')
  | (Fail e, s') => (Ret (Fail e), s')
  | (Panic, s') => (Panic, s')
  end.

(** Run a call on a part of the state. *)
Definition st_on {S T E A} (get : S -> T) (set : T -> S -> S) (m : st T E A) : st S E A := fun s =>
  let '(r, t) := m (get s) in (r, set t s).

(** A [for] loop in stateful code. *)
Fixpoint st_iter {S E A} (f : A -> st S E unit) (l : list A) : st S E unit :=
  match l with
  | [] => mret tt
  | a :: l => _ ← f a; st_iter f l
  end.

Lemma st_bind_Ret {S E A B} (m : st S E A) (f : A -> st S E B) s a s' :
  m s = (Ret a, s') -> (m ≫= f) s = f a s'.
Proof. intros E1. unfold mbind, st_bind. by rewrite E1. Qed.

Lemma st_bind_inv {S E A B} (m : st S E A) (f : A -> st S E B) s b s' :
  (m ≫= f) s = (Ret b, s') -> exists a s1, m s = (Ret a, s1) /\ f a s1 = (Ret b, s').
Proof. unfold mbind, st_bind. destruct (m s) as [[a|e|] s1]; intros H; simplify_eq; eauto. Qed.

Lemma st_bind_fail {S E A B} (m : st S E A) (f : A -> st S E B) s e s' :
  (m ≫= f) s = (Fail e, s') ->
  m s = (Fail e, s') \/ exists a s1, m s = (Ret a, s1) /\ f a s1 = (Fail e, s').
Proof. unfold mbind, st_bind. destruct (m s) as [[a|e'|] s1]; intros H; simplify_eq; eauto. Qed.

(** ** Machine integers *)

Definition u8_max : Z := 255.
Definition u32_max : Z := 4294967295.
Definition u64_max : Z := 18446744073709551615.
Definition i64_min : Z := -9223372036854775808.
Definition i64_max : Z := 9223372036854775807.

Abbreviation two32 := 4294967296 (only parsing).
Abbreviation two64 := 18446744073709551616 (only parsing).

Definition is_u8 (z : Z) : Prop := 0 <= z < 256.
Definition is_u32 (z : Z) : Prop := 0 <= z < two32.
Definition is_u64 (z : Z) : Prop := 0 <= z < two64.
Definition is_i64 (z : Z) : Prop := i64_min <= z <= i64_max.
Definition is_i32 (z : Z) : Prop := -2147483648 <= z < 2147483648.

(** Wrapping conversions ([as u64], [as i64], ...) and release-mode arithmetic. *)
Definition wrap_u32 (z : Z) : Z := z mod two32.
Definition wrap_u64 (z : Z) : Z := z mod two64.
Definition wrap_i32 (z : Z) : Z :=
  let m := z mod two32 in if m <? 2147483648 then m else m - two32.
Definition wrap_i64 (z : Z) : Z :=
  let m := z mod two64 in if m <=? i64_max then m else m - two64.

(** [checked_*] on [i64]: [None] when the exact result does not fit. *)
Definition checked_i64 (z : Z) : option Z :=
  if (i64_min <=? z) && (z <=? i64_max) then Some z else None.

(** [u64::saturating_sub]. *)
Definition saturating_sub (a b : Z) : Z := Z.max 0 (a - b).

Ltac unfold_ints :=
  unfold is_u8, is_u32, is_u64, is_i64, is_i32, u8_max, u32_max, u64_max, i64_min, i64_max,
    wrap_u32, wrap_u64, wrap_i32, wrap_i64, checked_i64, saturating_sub in *.

(** Linear arithmetic over the machine-integer predicates. *)
Ltac int_lia := unfold_ints; lia.

Lemma wrap_u64_small z : is_u64 z -> wrap_u64 z = z.
Proof. intros; unfold wrap_u64; apply Z.mod_small; int_lia. Qed.

Lemma wrap_u32_small z : is_u32 z -> wrap_u32 z = z.
Proof. intros; unfold wrap_u32; apply Z.mod_small; int_lia. Qed.

Lemma wrap_u64_range z : is_u64 (wrap_u64 z).
Proof. unfold wrap_u64, is_u64. apply Z.mod_pos_bound. lia. Qed.

Lemma wrap_u32_range z : is_u32 (wrap_u32 z).
Proof. unfold wrap_u32, is_u32. apply Z.mod_pos_bound. lia. Qed.

Lemma wrap_i64_range z : is_i64 (wrap_i64 z).
Proof.
  unfold wrap_i64. pose proof (Z.mod_pos_bound z two64 ltac:(lia)).
  destruct (Z.leb_spec (z mod two64) i64_max); int_lia.
Qed.

Lemma wrap_i64_small z : is_i64 z -> wrap_i64 z = z.
Proof.
  intros H. unfold wrap_i64.
  destruct (Z.leb_spec (z mod two64) i64_max) as [Hle|Hgt]; unfold_ints.
  - destruct (Z.le_gt_cases 0 z) as [Hz|Hz]; [apply Z.mod_small; lia|].
    exfalso. assert (z mod two64 = z + two64) as E.
    { rewrite <- (Z.mod_small (z + two64) two64) by lia.
      rewrite Z.add_mod, Z.mod_same, Z.add_0_r, Z.mod_mod by lia. done. }
    lia.
  - destruct (Z.le_gt_cases 0 z) as [Hz|Hz].
    + rewrite Z.mod_small in Hgt; lia.
    + assert (z mod two64 = z + two64) as ->; [|lia].
      rewrite <- (Z.mod_small (z + two64) two64) by lia.
      rewrite Z.add_mod, Z.mod_same, Z.add_0_r, Z.mod_mod by lia. done.
Qed.

Lemma wrap_i32_small z : is_i32 z -> wrap_i32 z = z.
Proof.
  intros H. unfold wrap_i32. unfold_ints. destruct (Z.le_gt_cases 0 z).
  - rewrite Z.mod_small by lia. destruct (Z.ltb_spec z 2147483648); lia.
  - rewrite <- (Z.mod_add z 1) by lia. rewrite Z.mod_small by lia.
    destruct (Z.ltb_spec (z + 1 * two32) 2147483648); lia.
Qed.

Lemma checked_i64_Some z v : checked_i64 z = Some v -> v = z /\ is_i64 z.
Proof.
  unfold checked_i64.
  destruct (Z.leb_spec i64_min z), (Z.leb_spec z i64_max); simpl; intros E;
    simplify_eq; int_lia.
Qed.

(** ** Little-endian encodings ([to_le_bytes], [from_le_bytes]) *)

Fixpoint le_bytes (n : nat) (z : Z) : list Z :=
  match n with
  | O => []
  | S n => z mod 256 :: le_bytes n (z / 256)
  end.

Fixpoint le_value (bs : list Z) : Z :=
  match bs with
  | [] => 0
  | b :: bs => b + 256 * le_value bs
  end.

Lemma length_le_bytes n z : length (le_bytes n z) = n.
Proof. revert z; induction n; intros; simpl; auto. Qed.

Lemma le_value_bytes n z : le_value (le_bytes n z) = z mod 256 ^ Z.of_nat n.
Proof.
  revert z; induction n as [|n IH]; intros z; simpl le_bytes; simpl le_value.
  - by rewrite Z.mod_1_r.
  - rewrite IH, Nat2Z.inj_succ, Z.pow_succ_r by lia.
    rewrite Z.rem_mul_r by (try apply Z.pow_pos_nonneg; lia). lia.
Qed.

Lemma le_bytes_u8 n z : Forall is_u8 (le_bytes n z).
Proof.
  revert z; induction n; intros; simpl; constructor; auto.
  apply Z.mod_pos_bound; lia.
Qed.

Lemma le_value_bytes_u32 z : is_u32 z -> le_value (le_bytes 4 z) = z.
Proof. intros. rewrite le_value_bytes. apply Z.mod_small. int_lia. Qed.

Lemma le_value_bytes_u64 z : is_u64 z -> le_value (le_bytes 8 z) = z.
Proof. intros. rewrite le_value_bytes. apply Z.mod_small. int_lia. Qed.

Lemma le_value_range bs :
  Forall is_u8 bs -> 0 <= le_value bs < 256 ^ Z.of_nat (length bs).
Proof.
  induction 1 as [|b bs Hb Hbs IH]; simpl le_value; simpl length; [lia|].
  rewrite Nat2Z.inj_succ, Z.pow_succ_r by lia. int_lia.
Qed.

(** ** Lists *)

(** Length as an unsigned machine integer. *)
Definition zlen {A} (l : list A) : Z := Z.of_nat (length l).

Lemma zlen_nonneg {A} (l : list A) : 0 <= zlen l.
Proof. unfold zlen; lia. Qed.

Lemma zlen_app {A} (l1 l2 : list A) : zlen (l1 ++ l2) = zlen l1 + zlen l2.
Proof. unfold zlen. rewrite length_app. lia. Qed.

Lemma zlen_nil {A} : zlen (@nil A) = 0.
Proof. done. Qed.

Lemma zlen_cons {A} (a : A) l : zlen (a :: l) = 1 + zlen l.
Proof. unfold zlen; simpl length; lia. Qed.

Lemma zlen_le_bytes n z : zlen (le_bytes n z) = Z.of_nat n.
Proof. unfold zlen. by rewrite length_le_bytes. Qed.

(** [iter.filter_map(f)]. *)
Fixpoint filter_map {A B} (f : A -> option B) (l : list A) : list B :=
  match l with
  | [] => []
  | a :: l => match f a with
              | Some b => b :: filter_map f l
              | None => filter_map f l
              end
  end.

Lemma filter_map_app {A B} (f : A -> option B) l1 l2 :
  filter_map f (l1 ++ l2) = filter_map f l1 ++ filter_map f l2.
Proof.
  induction l1 as [|a l1 IH]; simpl; [done|]. destruct (f a); simpl; by rewrite IH.
Qed.

Lemma filter_map_all {A B} (f : A -> option B) (g : A -> B) l :
  (forall a, In a l -> f a = Some (g a)) -> filter_map f l = map g l.
Proof.
  induction l as [|a l IH]; intros H; simpl; [done|].
  rewrite H by (left; done). rewrite IH; [done|]. intros; apply H; by right.
Qed.

Lemma filter_map_map {A B C} (f : B -> option C) (g : A -> B) l :
  filter_map f (map g l) = filter_map (fun a => f (g a)) l.
Proof. induction l as [|a l IH]; simpl; [done|]. destruct (f (g a)); by rewrite IH. Qed.

Lemma in_filter_map {A B} (f : A -> option B) l b :
  In b (filter_map f l) <-> exists a, In a l /\ f a = Some b.
Proof.
  induction l as [|a l IH]; simpl; [naive_solver|].
  destruct (f a) eqn:E; simpl; rewrite IH; naive_solver.
Qed.

Lemma filter_map_filter {A B} (f : A -> option B) (p : A -> bool) l :
  (forall a, In a l -> p a = false -> f a = None) ->
  filter_map f (List.filter p l) = filter_map f l.
Proof.
  induction l as [|a l IH]; intros H; simpl; [done|].
  assert (forall a0, In a0 l -> p a0 = false -> f a0 = None) by (intros; apply H; simpl; auto).
  destruct (p a) eqn:E; simpl; rewrite IH by done; [done|].
  by rewrite (H a) by (simpl; auto).
Qed.

Lemma filter_map_perm {A B} (f : A -> option B) l l' : l ≡ₚ l' -> filter_map f l ≡ₚ filter_map f l'.
Proof.
  induction 1 as [|x l l' _ IH|x y l|l1 l2 l3 _ IH1 _ IH2]; cbn [filter_map]; [done| | |by transitivity (filter_map f l2)].
  - destruct (f x); by rewrite ?IH.
  - destruct (f x), (f y); try done. apply perm_swap.
Qed.

Lemma NoDup_filter_map {A B} (f : A -> option B) l :
  List.NoDup l -> (forall a a' y, In a l -> In a' l -> f a = Some y -> f a' = Some y -> a = a') -> List.NoDup (filter_map f l).
Proof.
  induction 1 as [|a l Hin _ IH]; intros Hf; cbn [filter_map]; [constructor|]. assert (List.NoDup (filter_map f l)) as Hl by (apply IH; intros; eapply Hf; simpl; eauto).
  destruct (f a) as [y|] eqn:E; [|done]. constructor; [|done]. intros Hy. apply in_filter_map in Hy as (a' & Ha' & E'). apply Hin.
  by rewrite (Hf a a' y (or_introl eq_refl) (or_intror Ha') E E').
Qed.

Lemma filter_map_fmap {A B C} (f : A -> option B) (g : B -> C) l : map g (filter_map f l) = filter_map (fun a => g <$> f a) l.
Proof. induction l as [|a l IH]; [done|]. cbn [filter_map]. destruct (f a); cbn; by rewrite IH. Qed.

(** Sum of a list of integers. *)
Definition zsum (l : list Z) : Z := fold_right Z.add 0 l.

Lemma zsum_app l1 l2 : zsum (l1 ++ l2) = zsum l1 + zsum l2.
Proof. induction l1; simpl; lia. Qed.

Lemma zsum_nonneg l : Forall (fun z => 0 <= z) l -> 0 <= zsum l.
Proof. induction 1; simpl; lia. Qed.

(** ** Stable sorting ([sort_by_key]) *)

Section SortByKey.
Context {A : Type} (key : A -> Z).

(** Place a value after everything that is not greater. *)
Fixpoint insert_by (x : A) (l : list A) : list A :=
  match l with
  | [] => [x]
  | y :: l' => if key x <? key y then x :: l else y :: insert_by x l'
  end.

Definition sort_by_key (l : list A) : list A := fold_left (fun acc x => insert_by x acc) l [].

Lemma insert_by_Permutation x l : Permutation (insert_by x l) (x :: l).
Proof.
  induction l as [|y l IH]; simpl; [done|]. destruct (_ <? _); [done|].
  rewrite IH. apply perm_swap.
Qed.

Lemma insert_by_sorted x l :
  StronglySorted Z.le (map key l) -> StronglySorted Z.le (map key (insert_by x l)).
Proof.
  induction l as [|y l IH]; simpl; intros Hs; [repeat constructor|].
  inversion Hs as [|? ? Hs' Hf]; subst.
  destruct (Z.ltb_spec (key x) (key y)); simpl.
  - constructor; [done|]. constructor; [lia|].
    eapply List.Forall_impl; [|exact Hf]. simpl; lia.
  - constructor; [auto|]. rewrite insert_by_Permutation. simpl. constructor; [lia|done].
Qed.

Lemma sort_acc_spec l acc :
  StronglySorted Z.le (map key acc) ->
  StronglySorted Z.le (map key (fold_left (fun acc x => insert_by x acc) l acc)) /\
  Permutation (fold_left (fun acc x => insert_by x acc) l acc) (acc ++ l).
Proof.
  revert acc; induction l as [|x l IH]; intros acc Hs; simpl; [by rewrite app_nil_r|].
  destruct (IH (insert_by x acc)) as [Hs' Hp]; [by apply insert_by_sorted|].
  split; [done|]. rewrite Hp, insert_by_Permutation. simpl. by rewrite Permutation_middle.
Qed.

Lemma sort_by_key_spec l :
  StronglySorted Z.le (map key (sort_by_key l)) /\ Permutation (sort_by_key l) l.
Proof. apply (sort_acc_spec l []). constructor. Qed.

Lemma insert_by_filter t x l :
  StronglySorted Z.le (map key l) ->
  List.filter (fun y => key y =? t) (insert_by x l) =
  List.filter (fun y => key y =? t) l ++ (if key x =? t then [x] else []).
Proof.
  induction l as [|y l IH]; simpl; intros Hs; [done|]. inversion Hs as [|? ? Hs' Hf]; subst.
  destruct (Z.ltb_spec (key x) (key y)); simpl.
  - destruct (Z.eqb_spec (key x) t); [|by rewrite app_nil_r].
    assert (List.filter (fun y => key y =? t) (y :: l) = []) as E.
    { apply List.incl_l_nil. intros z Hz. apply filter_In in Hz as [Hz Ez].
      apply Z.eqb_eq in Ez. rewrite List.Forall_forall in Hf. destruct Hz as [<-|Hz]; [lia|].
      specialize (Hf (key z) (in_map key _ _ Hz)). lia. }
    simpl in E. by rewrite E.
  - rewrite IH by done. destruct (key y =? t); done.
Qed.

(** Stability: values of equal keys keep their order. *)
Lemma sort_by_key_stable t l :
  List.filter (fun y => key y =? t) (sort_by_key l) = List.filter (fun y => key y =? t) l.
Proof.
  unfold sort_by_key.
  enough (forall acc, StronglySorted Z.le (map key acc) ->
    List.filter (fun y => key y =? t) (fold_left (fun acc x => insert_by x acc) l acc) =
    List.filter (fun y => key y =? t) acc ++ List.filter (fun y => key y =? t) l) as H
    by (apply (H []); constructor).
  induction l as [|x l IH]; intros acc Hs; simpl; [by rewrite app_nil_r|].
  rewrite IH by (by apply insert_by_sorted). rewrite insert_by_filter by done.
  rewrite <- app_assoc. by destruct (key x =? t).
Qed.

Lemma insert_by_before x l : Forall (fun y => key x < key y) l -> insert_by x l = x :: l.
Proof.
  destruct 1 as [|y l Hy _]; simpl; [done|]. by rewrite (proj2 (Z.ltb_lt _ _) Hy).
Qed.
End SortByKey.

Lemma insert_by_map {A B} (key : B -> Z) (f : A -> B) x l :
  insert_by key (f x) (map f l) = map f (insert_by (fun a => key (f a)) x l).
Proof. induction l as [|y l IH]; simpl; [done|]. destruct (_ <? _); simpl; by rewrite ?IH. Qed.

Lemma sort_by_key_map {A B} (key : B -> Z) (f : A -> B) l :
  sort_by_key key (map f l) = map f (sort_by_key (fun a => key (f a)) l).
Proof.
  unfold sort_by_key. enough (forall acc, fold_left (fun acc x => insert_by key x acc) (map f l) (map f acc) =
    map f (fold_left (fun acc x => insert_by (fun a => key (f a)) x acc) l acc)) as H by exact (H []).
  induction l as [|x l IH]; intros acc; simpl; [done|]. by rewrite insert_by_map, IH.
Qed.

(** ** Automation

    [infra] holds the lemmas that close the routine side conditions:
    machine-integer ranges, lengths of encodings, list membership. *)

Create HintDb infra.
#[export] Hint Resolve wrap_u64_range wrap_u32_range wrap_i64_range le_bytes_u8 zlen_nonneg : infra.
#[export] Hint Rewrite @zlen_app @zlen_nil @zlen_cons zlen_le_bytes @length_app length_le_bytes
  : infra.

(** Case analysis on the boolean comparisons of the code. *)
Ltac zcases :=
  repeat match goal with
  | |- context [?a <=? ?b] => destruct (Z.leb_spec a b)
  | |- context [?a <? ?b] => destruct (Z.ltb_spec a b)
  | |- context [?a =? ?b] => destruct (Z.eqb_spec a b)
  | H : context [?a <=? ?b] |- _ => destruct (Z.leb_spec a b)
  | H : context [?a <? ?b] |- _ => destruct (Z.ltb_spec a b)
  | H : context [?a =? ?b] |- _ => destruct (Z.eqb_spec a b)
  end.

(** Invert a successful monadic computation. *)
Ltac inv_ret :=
  repeat match goal with
  | H : (_ ≫= _) = Ret _ |- _ => apply bind_Ret in H as (? & ? & ?)
  | H : Ret _ = Ret _ |- _ => injection H as H; subst
  | H : Fail _ = Ret _ |- _ => discriminate H
  | H : Panic = Ret _ |- _ => discriminate H
  end.
