(* ===== verification/Text.v ===== *)
(** * Strings and decimal text

    The operations of Rust's [str], [String] and [char] that the program
    uses.  A Rust [String] is a [string] of 8-bit characters: its UTF-8
    bytes.  The file also gives the decimal printer and the integer parsers
    ([u64::from_str], [i64::from_str]) with their round trip. *)

From stdpp Require Import base tactics list numbers option strings.
From Stdlib Require Import ZArith Lia Ascii String.
From S2P Require Import Prelude.

Local Open Scope string_scope.
Local Open Scope list_scope.
Local Open Scope Z_scope.

(** Let [simpl] compute concatenations again (the string library freezes them). *)
#[global] Arguments String.append : simpl nomatch.

(** ** Bytes *)

Definition byte_of_ascii (a : ascii) : Z := Z.of_N (N_of_ascii a).
Definition ascii_of_byte (b : Z) : ascii := ascii_of_N (Z.to_N b).

Fixpoint bytes_of_string (s : string) : list Z :=
  match s with
  | "" => []
  | String a s => byte_of_ascii a :: bytes_of_string s
  end.

Lemma byte_of_ascii_u8 a : is_u8 (byte_of_ascii a).
Proof.
  unfold byte_of_ascii, is_u8. pose proof (N_ascii_bounded a). lia.
Qed.

Lemma ascii_byte_of_ascii a : ascii_of_byte (byte_of_ascii a) = a.
Proof.
  unfold ascii_of_byte, byte_of_ascii. rewrite N2Z.id. apply ascii_N_embedding.
Qed.

Lemma bytes_of_string_u8 s : Forall is_u8 (bytes_of_string s).
Proof. induction s; simpl; constructor; auto using byte_of_ascii_u8. Qed.

(** The string with the given bytes. *)
Fixpoint string_of_bytes (bs : list Z) : string :=
  match bs with
  | [] => ""
  | b :: bs => String (ascii_of_byte b) (string_of_bytes bs)
  end.

Lemma byte_of_ascii_of_byte b : is_u8 b -> byte_of_ascii (ascii_of_byte b) = b.
Proof.
  unfold is_u8, byte_of_ascii, ascii_of_byte. intros H. rewrite N_ascii_embedding by lia. lia.
Qed.

Lemma bytes_of_string_of_bytes bs : Forall is_u8 bs -> bytes_of_string (string_of_bytes bs) = bs.
Proof. induction 1; simpl; [done|]. by rewrite byte_of_ascii_of_byte, IHForall. Qed.

(** [String::len]: the number of bytes. *)
Definition slen (s : string) : Z := Z.of_nat (String.length s).

Lemma zlen_bytes_of_string s : zlen (bytes_of_string s) = slen s.
Proof.
  unfold zlen, slen. f_equal. induction s; simpl; congruence.
Qed.

(** ** Character classes ([u8::is_ascii_digit] and the ranges of the lexer) *)

Definition in_range (a lo hi : ascii) : bool :=
  (byte_of_ascii lo <=? byte_of_ascii a) && (byte_of_ascii a <=? byte_of_ascii hi).

Definition is_digit (a : ascii) : bool := in_range a "0" "9".
Definition is_upper (a : ascii) : bool := in_range a "A" "Z".
Definition is_lower (a : ascii) : bool := in_range a "a" "z".

(** [to_ascii_uppercase], [to_ascii_lowercase]. *)
Definition ascii_upper (a : ascii) : ascii :=
  if is_lower a then ascii_of_byte (byte_of_ascii a - 32) else a.
Definition ascii_lower (a : ascii) : ascii :=
  if is_upper a then ascii_of_byte (byte_of_ascii a + 32) else a.

Fixpoint smap (f : ascii -> ascii) (s : string) : string :=
  match s with
  | "" => ""
  | String a s => String (f a) (smap f s)
  end.

Definition to_ascii_uppercase : string -> string := smap ascii_upper.
Definition to_ascii_lowercase : string -> string := smap ascii_lower.

(** [char::is_ascii_whitespace] restricted to the bytes [str::trim] strips
    from ASCII text: space, [\t], [\n], [\x0b], [\x0c], [\r]. *)
Definition is_space (a : ascii) : bool :=
  let b := byte_of_ascii a in (b =? 32) || ((9 <=? b) && (b <=? 13)).

Fixpoint trim_start (s : string) : string :=
  match s with
  | "" => ""
  | String a s' => if is_space a then trim_start s' else s
  end.

Fixpoint srev (s acc : string) : string :=
  match s with
  | "" => acc
  | String a s => srev s (String a acc)
  end.

Definition trim_end (s : string) : string := srev (trim_start (srev s "")) "".
Definition trim (s : string) : string := trim_end (trim_start s).

(** [str::starts_with], and the suffix that follows the prefix. *)
Fixpoint strip_prefix (p s : string) : option string :=
  match p, s with
  | "", _ => Some s
  | String a p, String b s => if Ascii.eqb a b then strip_prefix p s else None
  | String _ _, "" => None
  end.

Definition starts_with (p s : string) : bool :=
  match strip_prefix p s with Some _ => true | None => false end.

Lemma strip_prefix_app p s : strip_prefix p (p +:+ s) = Some s.
Proof. induction p as [|a p IH]; simpl; [done|]. by rewrite Ascii.eqb_refl. Qed.

Lemma strip_prefix_Some p s r : strip_prefix p s = Some r -> s = p +:+ r.
Proof.
  revert s; induction p as [|a p IH]; intros [|b s]; simpl; intros H; simplify_eq; try done.
  destruct (Ascii.eqb_spec a b); simplify_eq. by rewrite (IH s).
Qed.

Lemma string_app_assoc (a b c : string) : (a +:+ b) +:+ c = a +:+ (b +:+ c).
Proof. induction a as [|x a IH]; simpl; [done|]. f_equal. exact IH. Qed.

Lemma string_app_nil_r (a : string) : a +:+ "" = a.
Proof. induction a as [|x a IH]; simpl; [done|]. f_equal. exact IH. Qed.

Lemma string_length_app (a b : string) : String.length (a +:+ b) = (String.length a + String.length b)%nat.
Proof. induction a as [|x a IH]; simpl; [done|]. f_equal. exact IH. Qed.

Lemma string_app_inj_r (x y s : string) : x +:+ s = y +:+ s -> x = y.
Proof.
  revert y; induction x as [|c x IH]; intros [|d y] E; [done| | |].
  - apply (f_equal String.length) in E. simpl in E. rewrite string_length_app in E. lia.
  - apply (f_equal String.length) in E. simpl in E. rewrite string_length_app in E. lia.
  - injection E as -> E. f_equal. by apply IH.
Qed.

(** ** Decimal text *)

Definition digit_val (a : ascii) : Z := byte_of_ascii a - 48.

(** The value of a string of decimal digits; [None] when a character is not one. *)
Fixpoint digits_val (acc : Z) (s : string) : option Z :=
  match s with
  | "" => Some acc
  | String a s => if is_digit a then digits_val (10 * acc + digit_val a) s else None
  end.

(** [u64::from_str]: an optional ['+'], at least one digit, no overflow. *)
Definition parse_u64 (s : string) : option Z :=
  let body := match s with String "+" s' => s' | _ => s end in
  match body with
  | "" => None
  | _ => v ← digits_val 0 body; if v <=? u64_max then Some v else None
  end.

(** [i64::from_str]: an optional sign, at least one digit, no overflow. *)
Definition parse_i64 (s : string) : option Z :=
  let '(neg, body) := match s with
    | String "+" s' => (false, s')
    | String "-" s' => (true, s')
    | _ => (false, s)
    end in
  match body with
  | "" => None
  | _ => v ← digits_val 0 body; checked_i64 (if neg then - v else v)
  end.

Definition digit_char (d : Z) : ascii := ascii_of_byte (48 + d).

(** The decimal digits of [z], in front of [acc].  The number of binary
    digits bounds the number of decimal ones. *)
Fixpoint show_aux (fuel : nat) (z : Z) (acc : string) : string :=
  match fuel with
  | O => acc
  | S fuel =>
      let acc := String (digit_char (z mod 10)) acc in
      if z <? 10 then acc else show_aux fuel (z / 10) acc
  end.

Definition show_fuel (z : Z) : nat := S (Z.to_nat (Z.log2 z)).

(** [u64::to_string]. *)
Definition show_u64 (z : Z) : string := show_aux (show_fuel z) z "".

(** [i64::to_string]. *)
Definition show_i64 (z : Z) : string :=
  if z <? 0 then "-" +:+ show_u64 (- z) else show_u64 z.

Fixpoint zeros (n : nat) : string :=
  match n with O => "" | S n => String "0" (zeros n) end.

(** [format!("{seq:06}")]: left-padded with zeros to at least six characters. *)
Definition pad6 (z : Z) : string :=
  let s := show_u64 z in zeros (6 - String.length s) +:+ s.

Lemma digit_char_spec d : 0 <= d < 10 -> is_digit (digit_char d) = true /\ digit_val (digit_char d) = d.
Proof.
  intros H.
  assert (d = 0 \/ d = 1 \/ d = 2 \/ d = 3 \/ d = 4 \/ d = 5 \/ d = 6 \/ d = 7 \/ d = 8 \/ d = 9)
    as Hd by lia.
  repeat destruct Hd as [-> | Hd]; try subst d; vm_compute; auto.
Qed.

Lemma digits_val_app acc s1 s2 :
  digits_val acc (s1 +:+ s2) = (v ← digits_val acc s1; digits_val v s2).
Proof.
  revert acc; induction s1 as [|a s1 IH]; intros acc; simpl; [done|].
  destruct (is_digit a); [apply IH|done].
Qed.

Lemma show_aux_app fuel z acc : show_aux fuel z acc = show_aux fuel z "" +:+ acc.
Proof.
  revert z acc; induction fuel as [|fuel IH]; intros z acc; simpl; [done|].
  destruct (z <? 10); [done|].
  rewrite IH, (IH _ (String _ "")), string_app_assoc. done.
Qed.

Lemma show_aux_val fuel z :
  0 <= z < 2 ^ Z.of_nat fuel -> (0 < fuel)%nat -> digits_val 0 (show_aux fuel z "") = Some z.
Proof.
  revert z; induction fuel as [|fuel IH]; intros z Hz Hf; [lia|]. simpl.
  pose proof (Z.mod_pos_bound z 10 ltac:(lia)) as Hm.
  destruct (digit_char_spec _ Hm) as [Hd Hv].
  rewrite Nat2Z.inj_succ, Z.pow_succ_r in Hz by lia.
  destruct (Z.ltb_spec z 10); [simpl; rewrite Hd, Hv; f_equal; rewrite Z.mod_small; lia|].
  assert (0 < fuel)%nat by (destruct fuel; [simpl in Hz|]; lia).
  rewrite show_aux_app, digits_val_app, IH; [|split; [apply Z.div_pos; lia|]|done].
  - simpl. rewrite Hd, Hv. f_equal. pose proof (Z.div_mod z 10). lia.
  - apply Z.div_lt_upper_bound; lia.
Qed.

Lemma show_u64_val z : 0 <= z -> digits_val 0 (show_u64 z) = Some z.
Proof.
  intros H. apply show_aux_val; [|unfold show_fuel; lia]. split; [done|].
  unfold show_fuel. rewrite Nat2Z.inj_succ, Z2Nat.id by apply Z.log2_nonneg.
  destruct (Z.eq_dec z 0) as [->|]; [done|]. apply Z.log2_spec; lia.
Qed.

Lemma show_aux_digit fuel z acc :
  0 <= z -> (0 < fuel)%nat -> exists a s, show_aux fuel z acc = String a s /\ is_digit a = true.
Proof.
  revert z acc; induction fuel as [|fuel IH]; intros z acc Hz Hf; [lia|]. simpl.
  destruct (digit_char_spec (z mod 10) (Z.mod_pos_bound z 10 ltac:(lia))) as [Hd _].
  destruct (z <? 10); [eauto|].
  destruct fuel; [simpl; eauto|]. apply IH; [apply Z.div_pos|]; lia.
Qed.

Lemma digits_val_zeros n s : digits_val 0 (zeros n +:+ s) = digits_val 0 s.
Proof. induction n; simpl; [done|]. exact IHn. Qed.

(** A digit string is not empty and starts with no sign. *)
Definition digit_head (s : string) : Prop := exists a s', s = String a s' /\ is_digit a = true.

Lemma pad6_digit_head z : 0 <= z -> digit_head (pad6 z).
Proof.
  intros Hz. unfold pad6, digit_head.
  destruct (6 - _)%nat as [|n]; simpl; [|eauto].
  destruct (show_aux_digit (show_fuel z) z "") as (a & s & E & Ha); eauto; unfold show_fuel; lia.
Qed.

Lemma show_u64_digit_head z : 0 <= z -> digit_head (show_u64 z).
Proof. intros Hz. apply show_aux_digit; [done|unfold show_fuel; lia]. Qed.

Lemma digit_not_sign a : is_digit a = true -> a <> "+"%char /\ a <> "-"%char.
Proof. intros H; split; intros ->; vm_compute in H; discriminate. Qed.

Lemma parse_u64_digits s v :
  digit_head s -> digits_val 0 s = Some v -> v <= u64_max -> parse_u64 s = Some v.
Proof.
  intros (a & s' & -> & Ha) Hv Hle. destruct (digit_not_sign a Ha) as [Hp _].
  unfold parse_u64.
  assert (match String a s' with String "+" t => t | _ => String a s' end = String a s') as ->.
  { destruct a as [[] [] [] [] [] [] [] []]; done. }
  rewrite Hv. simpl. by rewrite (proj2 (Z.leb_le _ _) Hle).
Qed.

Lemma parse_i64_digits s v :
  digit_head s -> digits_val 0 s = Some v -> parse_i64 s = checked_i64 v.
Proof.
  intros (a & s' & -> & Ha) Hv. destruct (digit_not_sign a Ha) as [Hp Hm].
  unfold parse_i64.
  assert (match String a s' with
          | String "+" t => (false, t) | String "-" t => (true, t)
          | _ => (false, String a s') end = (false, String a s')) as ->.
  { destruct a as [[] [] [] [] [] [] [] []]; done. }
  by rewrite Hv.
Qed.

(** Printing and parsing an unsigned integer round-trips, padded or not. *)
Lemma parse_show_u64 z : is_u64 z -> parse_u64 (show_u64 z) = Some z.
Proof.
  intros H. apply parse_u64_digits; [apply show_u64_digit_head|apply show_u64_val|]; int_lia.
Qed.

Lemma parse_pad6 z : is_u64 z -> parse_u64 (pad6 z) = Some z.
Proof.
  intros H. apply parse_u64_digits; [apply pad6_digit_head; int_lia| |int_lia].
  unfold pad6. rewrite digits_val_zeros. apply show_u64_val. int_lia.
Qed.

Lemma parse_show_i64 z : 0 <= z <= i64_max -> parse_i64 (show_u64 z) = Some z.
Proof.
  intros H. rewrite (parse_i64_digits _ z).
  - unfold checked_i64. zcases; int_lia || done.
  - apply show_u64_digit_head; lia.
  - apply show_u64_val; lia.
Qed.

(** Printing and parsing a signed integer round-trips. *)
Lemma parse_show_signed z : is_i64 z -> parse_i64 (show_i64 z) = Some z.
Proof.
  intros H. unfold show_i64. destruct (Z.ltb_spec z 0); [|apply parse_show_i64; int_lia].
  unfold parse_i64. destruct (show_u64_digit_head (- z)) as (a & s & E & _); [lia|].
  simpl (_ +:+ _). rewrite E, <- E, show_u64_val by lia. simpl.
  unfold checked_i64. zcases; int_lia || (f_equal; lia).
Qed.

#[export] Hint Resolve byte_of_ascii_u8 bytes_of_string_u8 : infra.
#[export] Hint Rewrite zlen_bytes_of_string string_app_assoc string_app_nil_r : infra.
