(* ===== verification/BTree.v ===== *)
(** * Ordered maps

    [std::collections::BTreeMap] as a list of bindings in strictly
    increasing key order, over any totally ordered key type.  The MemTable
    ([RowKey] keys) and the hash ring ([u64] keys) are both such maps. *)

From stdpp Require Import base tactics list numbers option.
From Stdlib Require Import ZArith Lia Sorted Permutation.
From S2P Require Import Prelude.

(** ** Total orders ([Ord]) *)

Class TotalOrd (K : Type) := {
  kcmp : K -> K -> comparison;
  kcmp_eq : forall a b, kcmp a b = Eq <-> a = b;
  kcmp_antisym : forall a b, kcmp b a = CompOpp (kcmp a b);
  kcmp_trans : forall a b c, kcmp a b = Lt -> kcmp b c = Lt -> kcmp a c = Lt
}.

#[export, program] Instance Z_TotalOrd : TotalOrd Z := {| kcmp := Z.compare |}.
Next Obligation. intros; apply Z.compare_eq_iff. Qed.
Next Obligation. intros; apply Z.compare_antisym. Qed.
Next Obligation. intros a b c; rewrite !Z.compare_lt_iff; lia. Qed.

Section Order.
Context {K : Type} `{!TotalOrd K}.

Definition klt (a b : K) : Prop := kcmp a b = Lt.

Lemma kcmp_refl a : kcmp a a = Eq.
Proof. by apply kcmp_eq. Qed.

Lemma klt_irrefl a : ~ klt a a.
Proof. unfold klt. by rewrite kcmp_refl. Qed.

Lemma klt_gt a b : klt a b -> kcmp b a = Gt.
Proof. unfold klt. intros H. by rewrite kcmp_antisym, H. Qed.

Lemma kcmp_gt a b : kcmp a b = Gt -> klt b a.
Proof. unfold klt. intros H. by rewrite kcmp_antisym, H. Qed.

#[export] Instance klt_trans : Transitive klt.
Proof. intros a b c; apply kcmp_trans. Qed.
End Order.

(** ** Bindings in key order *)

Section BTreeMap.
Context {K : Type} `{!TotalOrd K} {V : Type}.
Implicit Types (m : list (K * V)) (k : K) (v : V).

Definition bt_wf m : Prop := StronglySorted klt (map fst m).

Fixpoint bt_get k m : option V :=
  match m with
  | [] => None
  | (k', v') :: m' =>
      match kcmp k k' with Lt => None | Eq => Some v' | Gt => bt_get k m' end
  end.

Fixpoint bt_insert k v m : list (K * V) :=
  match m with
  | [] => [(k, v)]
  | (k', v') :: m' =>
      match kcmp k k' with
      | Lt => (k, v) :: m
      | Eq => (k, v) :: m'
      | Gt => (k', v') :: bt_insert k v m'
      end
  end.

Fixpoint bt_remove k m : list (K * V) :=
  match m with
  | [] => []
  | (k', v') :: m' =>
      match kcmp k k' with
      | Lt => m
      | Eq => m'
      | Gt => (k', v') :: bt_remove k m'
      end
  end.

(** [range(k..)]: the bindings at [k] or after it. *)
Definition bt_range_from k m : list (K * V) :=
  List.filter (fun kv => match kcmp (fst kv) k with Lt => false | _ => true end) m.

Lemma bt_wf_nil : bt_wf [].
Proof. constructor. Qed.

Lemma bt_wf_inv k v m : bt_wf ((k, v) :: m) -> bt_wf m /\ Forall (fun kv => klt k (fst kv)) m.
Proof.
  intros H. inversion H as [|x l Hs Hf]; subst. split; [done|].
  exact (proj1 (List.Forall_map _ _ _) Hf).
Qed.

Lemma bt_wf_cons k v m : bt_wf m -> Forall (fun kv => klt k (fst kv)) m -> bt_wf ((k, v) :: m).
Proof. intros H Hf. constructor; [done|]. exact (proj2 (List.Forall_map _ _ _) Hf). Qed.

Lemma Forall_insert (P : K * V -> Prop) k v m : P (k, v) -> Forall P m -> Forall P (bt_insert k v m).
Proof.
  intros Hk; induction 1 as [|[k' v'] m Hkv Hm IH]; simpl; [by repeat constructor|].
  destruct (kcmp k k'); repeat constructor; auto.
Qed.

Lemma Forall_remove (P : K * V -> Prop) k m : Forall P m -> Forall P (bt_remove k m).
Proof.
  induction 1 as [|[k' v'] m Hkv Hm IH]; simpl; [done|].
  destruct (kcmp k k'); repeat constructor; auto.
Qed.

Lemma bt_insert_wf k v m : bt_wf m -> bt_wf (bt_insert k v m).
Proof.
  induction m as [|[k' v'] m IH]; intros Hwf; simpl; [repeat constructor|].
  pose proof (bt_wf_inv _ _ _ Hwf) as [Hm Hf].
  destruct (kcmp k k') eqn:E.
  - apply kcmp_eq in E as ->. by apply bt_wf_cons.
  - apply bt_wf_cons; [done|]. constructor; [done|].
    eapply List.Forall_impl; [|exact Hf]. intros ?; by apply transitivity.
  - apply bt_wf_cons; [auto|]. apply Forall_insert; [|done]. by apply kcmp_gt.
Qed.

Lemma bt_remove_wf k m : bt_wf m -> bt_wf (bt_remove k m).
Proof.
  induction m as [|[k' v'] m IH]; intros Hwf; simpl; [done|].
  pose proof (bt_wf_inv _ _ _ Hwf) as [Hm Hf].
  destruct (kcmp k k'); auto. apply bt_wf_cons; auto. by apply Forall_remove.
Qed.

Lemma bt_get_lt k m : Forall (fun kv => klt k (fst kv)) m -> bt_get k m = None.
Proof. destruct m as [|[k' v'] m]; simpl; [done|]. inversion 1 as [|x l Hk]; subst. unfold klt in Hk; simpl in Hk. by rewrite Hk. Qed.

Lemma bt_get_insert k v k' m :
  bt_wf m -> bt_get k' (bt_insert k v m) = match kcmp k' k with Eq => Some v | _ => bt_get k' m end.
Proof.
  induction m as [|[k0 v0] m IH]; intros Hwf; simpl.
  - destruct (kcmp k' k); done.
  - pose proof (bt_wf_inv _ _ _ Hwf) as [Hm Hf]. destruct (kcmp k k0) eqn:E; simpl.
    + apply kcmp_eq in E as ->. destruct (kcmp k' k0); done.
    + destruct (kcmp k' k) eqn:E'; [done| |done].
      by rewrite (kcmp_trans _ _ _ E' E).
    + rewrite IH by done. destruct (kcmp k' k0) eqn:E0; [| |done].
      * apply kcmp_eq in E0 as ->. rewrite kcmp_antisym, E. done.
      * apply kcmp_gt in E. by rewrite (kcmp_trans _ _ _ E0 E).
Qed.

Lemma bt_get_remove k k' m :
  bt_wf m -> bt_get k' (bt_remove k m) = match kcmp k' k with Eq => None | _ => bt_get k' m end.
Proof.
  induction m as [|[k0 v0] m IH]; intros Hwf; simpl.
  - destruct (kcmp k' k); done.
  - pose proof (bt_wf_inv _ _ _ Hwf) as [Hm Hf]. destruct (kcmp k k0) eqn:E; simpl.
    + apply kcmp_eq in E as ->. destruct (kcmp k' k0) eqn:E0; [| |done].
      * apply kcmp_eq in E0 as ->. by apply bt_get_lt.
      * apply bt_get_lt. eapply List.Forall_impl; [|exact Hf]. intros kv; by apply kcmp_trans.
    + destruct (kcmp k' k) eqn:E'; [|done|done].
      apply kcmp_eq in E' as ->. by rewrite E.
    + rewrite IH by done. destruct (kcmp k' k0) eqn:E0; [| |done].
      * apply kcmp_eq in E0 as ->. rewrite kcmp_antisym, E. done.
      * apply kcmp_gt in E. by rewrite (kcmp_trans _ _ _ E0 E).
Qed.

Lemma bt_get_in k v m : bt_wf m -> bt_get k m = Some v <-> In (k, v) m.
Proof.
  induction m as [|[k' v'] m IH]; intros Hwf; simpl; [naive_solver|].
  pose proof (bt_wf_inv _ _ _ Hwf) as [Hm Hf]. rewrite List.Forall_forall in Hf.
  assert (forall w, In (k, w) m -> klt k' k) as Hin.
  { intros w Hw. exact (Hf (k, w) Hw). }
  specialize (IH Hm). destruct (kcmp k k') eqn:E.
  - apply kcmp_eq in E as ->. split; [naive_solver|].
    intros [[= ->]|Hw]; [done|]. exfalso. eapply klt_irrefl, Hin, Hw.
  - split; [done|]. intros [[= -> ->]|Hw].
    + by rewrite kcmp_refl in E.
    + apply Hin, klt_gt in Hw. congruence.
  - rewrite IH. split; [auto|]. intros [[= -> ->]|]; [|done]. by rewrite kcmp_refl in E.
Qed.

(** Inserting a fresh key adds exactly one binding. *)
Lemma bt_insert_fresh k v m : bt_wf m -> bt_get k m = None -> Permutation (bt_insert k v m) ((k, v) :: m).
Proof.
  induction m as [|[k' v'] m IH]; intros Hwf Hg; simpl in *; [done|].
  pose proof (bt_wf_inv _ _ _ Hwf) as [Hm _].
  destruct (kcmp k k') eqn:E; [done|done|].
  rewrite IH by done. apply perm_swap.
Qed.

(** Two maps with the same lookups are the same list of bindings. *)
Lemma bt_ext m1 m2 : bt_wf m1 -> bt_wf m2 -> (forall k, bt_get k m1 = bt_get k m2) -> m1 = m2.
Proof.
  revert m2; induction m1 as [|[k1 v1] m1 IH]; intros [|[k2 v2] m2] H1 H2 E; [done| | |].
  - specialize (E k2); simpl in E. by rewrite kcmp_refl in E.
  - specialize (E k1); simpl in E. by rewrite kcmp_refl in E.
  - pose proof (bt_wf_inv _ _ _ H1) as [Hm1 Hf1]. pose proof (bt_wf_inv _ _ _ H2) as [Hm2 Hf2].
    assert (kcmp k1 k2 = Eq) as Ek.
    { pose proof (E k1) as E1. pose proof (E k2) as E2. simpl in E1, E2.
      rewrite kcmp_refl in E1, E2. rewrite (kcmp_antisym k1 k2) in E2.
      destruct (kcmp k1 k2); done. }
    apply kcmp_eq in Ek as ->.
    pose proof (E k2) as Ev; simpl in Ev. rewrite kcmp_refl in Ev. simplify_eq.
    f_equal. apply IH; [done..|]. intros k. specialize (E k). simpl in E.
    destruct (kcmp k k2) eqn:Ek; [|rewrite !bt_get_lt; try done|done].
    + apply kcmp_eq in Ek as ->. by rewrite !bt_get_lt.
    + eapply List.Forall_impl; [|exact Hf2]. intros kv; by apply kcmp_trans.
    + eapply List.Forall_impl; [|exact Hf1]. intros kv; by apply kcmp_trans.
Qed.

Lemma bt_keys_NoDup m : bt_wf m -> List.NoDup (map fst m).
Proof.
  unfold bt_wf. induction 1 as [|k l Hs IH Hf]; constructor; [|done].
  intros Hin. rewrite List.Forall_forall in Hf. exact (klt_irrefl k (Hf k Hin)).
Qed.

(** The range query starts at the least key that is not before [k]. *)
Lemma bt_range_from_in k kv m : In kv (bt_range_from k m) <-> In kv m /\ ~ klt (fst kv) k.
Proof.
  unfold bt_range_from, klt. rewrite filter_In.
  destruct (kcmp (fst kv) k); naive_solver.
Qed.
End BTreeMap.

#[export] Hint Resolve bt_wf_nil bt_insert_wf bt_remove_wf : infra.
