(* ===== verification/Float64.v ===== *)
(** * IEEE 754 binary64

    Rust's [f64] as the Standard Library's specification floats at
    precision 53 and maximal exponent 1024: every operation is exact
    arithmetic followed by one rounding to nearest, ties to even.  The
    casts saturate as Rust's [as] does. *)

From Stdlib Require Import ZArith Lia SpecFloat.
From stdpp Require Import base tactics list numbers option.
From S2P Require Import Prelude.

Definition f64 : Type := spec_float.

Definition prec : Z := 53.
Definition emax : Z := 1024.

Definition f64_add : f64 -> f64 -> f64 := SFadd prec emax.
Definition f64_sub : f64 -> f64 -> f64 := SFsub prec emax.
Definition f64_mul : f64 -> f64 -> f64 := SFmul prec emax.
Definition f64_div : f64 -> f64 -> f64 := SFdiv prec emax.
Definition f64_neg : f64 -> f64 := SFopp.
Definition f64_lt : f64 -> f64 -> bool := SFltb.
Definition f64_le : f64 -> f64 -> bool := SFleb.
Definition f64_eq : f64 -> f64 -> bool := SFeqb.
Definition f64_gt (a b : f64) : bool := SFltb b a.

Definition f64_zero : f64 := S754_zero false.
Definition f64_inf : f64 := S754_infinity false.
Definition f64_neg_inf : f64 := S754_infinity true.

(** [n as f64] for an integer [n]. *)
Definition f64_of_Z (z : Z) : f64 := binary_normalize prec emax z 0 false.

(** The decimal [m / 10^k], correctly rounded: [str::parse::<f64>] on digits. *)
Definition f64_of_decimal (m : Z) (k : nat) : f64 :=
  match m with
  | Zpos p =>
      let '(mz, ez, lz) := SFdiv_core_binary prec emax (Zpos p) 0 (10 ^ Z.of_nat k) 0 in
      binary_round_aux prec emax false mz ez lz
  | _ => f64_zero
  end.

(** The integer part, truncated toward zero; [None] on NaN and infinities. *)
Definition f64_trunc (x : f64) : option Z :=
  match x with
  | S754_zero _ => Some 0
  | S754_finite s m e =>
      let a := if 0 <=? e then Zpos m * 2 ^ e else Zpos m / 2 ^ (- e) in
      Some (if s then - a else a)
  | _ => None
  end.

(** [f64::ceil]. *)
Definition f64_ceil (x : f64) : f64 :=
  match x with
  | S754_finite s m e =>
      if 0 <=? e then x
      else
        let q := Zpos m / 2 ^ (- e) in
        let a := if s then - q else if Zpos m mod 2 ^ (- e) =? 0 then q else q + 1 in
        if a =? 0 then S754_zero s else f64_of_Z a
  | _ => x
  end.

(** [f64::round]: half away from zero. *)
Definition f64_round (x : f64) : f64 :=
  match x with
  | S754_finite s m e =>
      if 0 <=? e then x
      else
        let q := (2 * Zpos m + 2 ^ (- e)) / (2 * 2 ^ (- e)) in
        if q =? 0 then S754_zero s else f64_of_Z (if s then - q else q)
  | _ => x
  end.

(** [x as u64], [x as u32]: NaN is 0, the rest is clamped. *)
Definition f64_cast (max : Z) (x : f64) : Z :=
  match x with
  | S754_nan => 0
  | S754_infinity s => if s then 0 else max
  | _ => match f64_trunc x with
         | Some z => Z.min max (Z.max 0 z)
         | None => 0
         end
  end.

Definition f64_to_u64 : f64 -> Z := f64_cast u64_max.
Definition f64_to_u32 : f64 -> Z := f64_cast u32_max.

Lemma f64_cast_range max x : 0 <= max -> 0 <= f64_cast max x <= max.
Proof.
  intros H. destruct x as [| [] | |]; simpl; try lia.
Qed.

Lemma f64_to_u64_range x : is_u64 (f64_to_u64 x).
Proof. pose proof (f64_cast_range u64_max x). unfold f64_to_u64. int_lia. Qed.

Lemma f64_to_u32_range x : is_u32 (f64_to_u32 x).
Proof. pose proof (f64_cast_range u32_max x). unfold f64_to_u32. int_lia. Qed.

#[export] Hint Resolve f64_to_u64_range f64_to_u32_range : infra.

Example f64_add_ex : f64_add (f64_of_decimal 1 1) (f64_of_decimal 2 1) = f64_of_decimal 30000000000000004 17.
Proof. vm_compute. reflexivity. Qed.

Example f64_ceil_ex : f64_to_u64 (f64_ceil (f64_of_decimal 125 2)) = 2.
Proof. vm_compute. reflexivity. Qed.

Example f64_round_ex : f64_to_u64 (f64_round (f64_of_decimal 25 1)) = 3.
Proof. vm_compute. reflexivity. Qed.

Example f64_big_ex : f64_to_u64 (f64_of_Z 9007199254740993) = 9007199254740992.
Proof. vm_compute. reflexivity. Qed.
