(* ===== verification/Codec.v ===== *)
(** * A reference codec

    Bytes for any countable type, with a decoder.  The serialisation crates
    are interfaces; this codec instantiates them where a theorem is run on
    concrete data. *)

From Stdlib Require Import ZArith Lia SpecFloat.
From stdpp Require Import base tactics list numbers option countable strings gmap.
From S2P Require Import Prelude Float64.

(** A byte per binary digit, low digit first, and a final mark. *)
Fixpoint pos_bytes (p : positive) : list Z :=
  match p with
  | xI p => 1 :: pos_bytes p
  | xO p => 0 :: pos_bytes p
  | xH => [2]
  end.

Fixpoint bytes_pos (bs : list Z) : option positive :=
  match bs with
  | [] => None
  | b :: bs =>
      if b =? 2 then match bs with [] => Some xH | _ => None end
      else match bytes_pos bs with
           | Some p => if b =? 1 then Some (xI p) else if b =? 0 then Some (xO p) else None
           | None => None
           end
  end.

Lemma bytes_pos_bytes p : bytes_pos (pos_bytes p) = Some p.
Proof. induction p as [p IH|p IH|]; cbn [pos_bytes bytes_pos]; simpl; by rewrite ?IH. Qed.

Definition codec_encode {A} `{Countable A} (a : A) : list Z := pos_bytes (encode a).

Definition codec_decode {A} `{Countable A} (bs : list Z) : option A :=
  p ← bytes_pos bs; decode p.

Lemma codec_roundtrip {A} `{Countable A} (a : A) : codec_decode (codec_encode a) = Some a.
Proof. unfold codec_decode, codec_encode. rewrite bytes_pos_bytes. simpl. apply decode_encode. Qed.

#[export] Instance f64_eq_dec : EqDecision f64.
Proof. unfold f64; intros a b. unfold Decision. decide equality; apply bool_dec || apply Z.eq_dec || apply Pos.eq_dec. Defined.

#[export] Instance f64_countable : Countable f64.
Proof.
  set (enc := fun x : f64 => match x with
    | S754_zero s => inl (inl s) | S754_infinity s => inl (inr s)
    | S754_nan => inr None | S754_finite s m e => inr (Some (s, m, e)) end).
  set (dec := fun x : (bool + bool) + option (bool * positive * Z) => match x return f64 with
    | inl (inl s) => S754_zero s | inl (inr s) => S754_infinity s
    | inr None => S754_nan | inr (Some (s, m, e)) => S754_finite s m e end).
  apply (inj_countable' enc dec). by intros [].
Defined.
