(* ===== verification/Wal.v ===== *)
(** * The write-ahead log

    [crates/infralens-storage/src/wal.rs]: the append path ([Wal::open],
    [append], [sync], [checkpoint]) through a [BufWriter] on an append-only
    file, and [recover].  [crc32fast] is an interface ([Crc32]) of which
    only the result type matters; the IEEE polynomial is an instance. *)

From Stdlib Require Import ZArith Lia.
From stdpp Require Import base tactics list numbers option strings.
From S2P Require Import Prelude Text.

(** ** Errors of the storage crate ([error.rs]) *)

Inductive StorageError : Type :=
| Io (msg : string)
| WalCrcMismatch (offset expected actual : Z)
| WalTruncated (offset : Z)
| Serialisation (msg : string)
| Arrow (msg : string)
| Parquet (msg : string)
| PartitionNotFound (msg : string)
| Closed
| Compaction (msg : string).

(** ** [crc32fast::hash] *)

Class Crc32 := {
  crc32 : list Z -> Z;
  crc32_u32 : forall bs, is_u32 (crc32 bs)
}.

(** ** Entries *)

Definition ENTRY_LOG : Z := 1.
Definition ENTRY_METRIC : Z := 2.
Definition ENTRY_SPAN : Z := 3.
Definition ENTRY_CHECKPOINT : Z := 255.
Definition HEADER_SIZE : Z := 9.

Record WalEntry := { entry_type : Z; entry_data : list Z }.

Definition is_checkpoint (e : WalEntry) : bool := entry_type e =? ENTRY_CHECKPOINT.

(** ** The file system below the log

    A file opened with [append(true)]: its bytes, how many more bytes the
    device accepts ([write] fails once they are used up), and whether it
    answers [sync_data]. *)

Record osfile := { os_bytes : list Z; os_room : nat; os_sync : bool }.

(** [Write::write_all] on the file: the bytes that fit are written. *)
Definition os_write_all (f : osfile) (bs : list Z) : osfile * list Z :=
  ({| os_bytes := os_bytes f ++ take (os_room f) bs; os_room := os_room f - length bs; os_sync := os_sync f |},
   drop (os_room f) bs).

(** ** The writer *)

Record Wal := { wal_path : string; wal_writer : list Z; wal_offset : Z }.

Definition WRITER_CAPACITY : Z := 256 * 1024.

Abbreviation wal_io A := ((osfile * Wal) * outcome StorageError A)%type.

Definition io_error : StorageError := Io "write failed".

Definition with_writer (w : Wal) (buf : list Z) : Wal :=
  {| wal_path := wal_path w; wal_writer := buf; wal_offset := wal_offset w |}.

(** [BufWriter::flush_buf]: what could not be written stays in the buffer. *)
Definition flush_buf (s : osfile * Wal) : wal_io unit :=
  let '(f, w) := s in
  let '(f', rest) := os_write_all f (wal_writer w) in
  ((f', with_writer w rest), match rest with [] => Ret tt | _ => Fail io_error end).

(** [BufWriter::write_all]: buffer the bytes when they fit strictly, else
    flush first when they do not fit, and bypass the buffer when they are
    as large as it. *)
Definition write_all (s : osfile * Wal) (bs : list Z) : wal_io unit :=
  let '(f, w) := s in
  let spare := WRITER_CAPACITY - zlen (wal_writer w) in
  if zlen bs <? spare then ((f, with_writer w (wal_writer w ++ bs)), Ret tt)
  else
    let '(s', r) := if spare <? zlen bs then flush_buf s else (s, Ret tt) in
    match r with
    | Ret _ =>
        let '(f', w') := s' in
        if WRITER_CAPACITY <=? zlen bs then
          let '(f'', rest) := os_write_all f' bs in
          ((f'', w'), match rest with [] => Ret tt | _ => Fail io_error end)
        else ((f', with_writer w' (wal_writer w' ++ bs)), Ret tt)
    | Fail e => (s', Fail e)
    | Panic => (s', Panic)
    end.

(** [Wal::open]: the offset starts at the length of the file. *)
Definition wal_open (p : string) (f : osfile) : Wal :=
  {| wal_path := p; wal_writer := []; wal_offset := zlen (os_bytes f) |}.

Section Writer.
Context `{Crc32}.

(** The nine header bytes. *)
Definition wal_header (t : Z) (d : list Z) : list Z :=
  le_bytes 4 (crc32 (t :: d)) ++ le_bytes 4 (wrap_u32 (zlen d)) ++ [t].

(** [Wal::append]. *)
Definition append (s : osfile * Wal) (t : Z) (d : list Z) : wal_io Z :=
  let start_offset := wal_offset (snd s) in
  let '(s1, r1) := write_all s (wal_header t d) in
  match r1 with
  | Ret _ =>
      let '(s2, r2) := write_all s1 d in
      match r2 with
      | Ret _ =>
          let '(f, w) := s2 in
          ((f, {| wal_path := wal_path w; wal_writer := wal_writer w;
                  wal_offset := wrap_u64 (wal_offset w + HEADER_SIZE + zlen d) |}),
           Ret start_offset)
      | Fail e => (s2, Fail e)
      | Panic => (s2, Panic)
      end
  | Fail e => (s1, Fail e)
  | Panic => (s1, Panic)
  end.

(** [File::sync_data]: no byte changes, but the device may refuse. *)
Definition sync_data (f : osfile) : outcome StorageError unit :=
  if os_sync f then Ret tt else Fail (Io "sync failed").

(** [Wal::sync]: flush the buffer, then [sync_data]. *)
Definition sync (s : osfile * Wal) : wal_io unit :=
  let '(s', r) := flush_buf s in
  match r with
  | Ret _ => (s', sync_data (fst s'))
  | _ => (s', r)
  end.

(** [Wal::checkpoint]. *)
Definition checkpoint (s : osfile * Wal) : wal_io unit :=
  let '(s1, r1) := append s ENTRY_CHECKPOINT [] in
  match r1 with
  | Ret _ => sync s1
  | Fail e => (s1, Fail e)
  | Panic => (s1, Panic)
  end.

(** ** Recovery *)

(** One turn of the loop per unit of fuel; [len] is the length of the
    file, [rest] the bytes the reader has not consumed. *)
Fixpoint recover_loop (fuel : nat) (len off : Z) (rest : list Z) (entries : list WalEntry)
    : outcome StorageError (list WalEntry) :=
  match fuel with
  | O => Panic
  | S fuel =>
      if len <=? off then Ret entries
      else if zlen rest <? HEADER_SIZE then Ret entries
      else
        let header := take 9 rest in
        let rest := drop 9 rest in
        let expected_crc := le_value (take 4 header) in
        let data_len := Z.to_nat (le_value (take 4 (drop 4 header))) in
        let t := nth 8 header 0 in
        if (length rest <? data_len)%nat then Ret entries
        else
          let d := take data_len rest in
          let rest := drop data_len rest in
          let actual_crc := crc32 (t :: d) in
          if negb (actual_crc =? expected_crc) then
            Fail (WalCrcMismatch off expected_crc actual_crc)
          else
            let off := off + HEADER_SIZE + Z.of_nat data_len in
            if t =? ENTRY_CHECKPOINT then recover_loop fuel len off rest []
            else recover_loop fuel len off rest (entries ++ [{| entry_type := t; entry_data := d |}])
  end.

(** [recover]: [None] is a missing file. *)
Definition recover (file : option (list Z)) : outcome StorageError (list WalEntry) :=
  match file with
  | None => Ret []
  | Some bs => recover_loop (S (length bs)) (zlen bs) 0 bs []
  end.
End Writer.

(** ** Specification

    What a log means: the entries written since the last checkpoint. *)

Definition replay_step (acc : list WalEntry) (e : WalEntry) : list WalEntry :=
  if is_checkpoint e then [] else acc ++ [e].

Definition replay (es : list WalEntry) : list WalEntry := fold_left replay_step es [].

(** An entry the format can represent: its length fits the 32-bit field. *)
Definition entry_ok (e : WalEntry) : Prop := is_u8 (entry_type e) /\ is_u32 (zlen (entry_data e)).

Section Format.
Context `{Crc32}.

Definition encode (e : WalEntry) : list Z := wal_header (entry_type e) (entry_data e) ++ entry_data e.
Definition encode_all (es : list WalEntry) : list Z := concat (map encode es).

Lemma length_wal_header t d : length (wal_header t d) = 9%nat.
Proof. unfold wal_header. by rewrite !length_app, !length_le_bytes. Qed.

Lemma length_encode e : length (encode e) = (9 + length (entry_data e))%nat.
Proof. unfold encode. by rewrite length_app, length_wal_header. Qed.

Lemma zlen_encode e : zlen (encode e) = HEADER_SIZE + zlen (entry_data e).
Proof. unfold zlen. rewrite length_encode. unfold HEADER_SIZE. lia. Qed.

Lemma encode_all_cons e es : encode_all (e :: es) = encode e ++ encode_all es.
Proof. done. Qed.

Lemma encode_all_one e : encode_all [e] = encode e.
Proof. exact (app_nil_r (encode e)). Qed.

Lemma encode_all_app es1 es2 : encode_all (es1 ++ es2) = encode_all es1 ++ encode_all es2.
Proof. unfold encode_all. by rewrite map_app, concat_app. Qed.

Lemma encode_all_snoc es e : encode_all (es ++ [e]) = encode_all es ++ encode e.
Proof. by rewrite encode_all_app, encode_all_one. Qed.

(** What the reader takes out of a header is what the writer put in. *)
Lemma header_fields t d :
  is_u32 (zlen d) ->
  le_value (take 4 (wal_header t d)) = crc32 (t :: d) /\
  le_value (take 4 (drop 4 (wal_header t d))) = zlen d /\
  nth 8 (wal_header t d) 0 = t.
Proof.
  intros Hd. unfold wal_header.
  assert (length (le_bytes 4 (crc32 (t :: d))) = 4%nat) as L1 by apply length_le_bytes.
  assert (length (le_bytes 4 (wrap_u32 (zlen d))) = 4%nat) as L2 by apply length_le_bytes.
  rewrite take_app_le, take_ge by lia. rewrite drop_app_length', take_app_le, take_ge by lia.
  split_and!; [apply le_value_bytes_u32, crc32_u32| |].
  - rewrite le_value_bytes_u32 by auto with infra. by apply wrap_u32_small.
  - rewrite app_nth2, L1 by lia. rewrite app_nth2, L2 by lia. done.
Qed.

(** One whole entry costs one turn of the loop. *)
Lemma recover_loop_entry fuel len off e rest acc :
  entry_ok e -> off < len ->
  recover_loop (S fuel) len off (encode e ++ rest) acc =
  recover_loop fuel len (off + zlen (encode e)) rest (replay_step acc e).
Proof.
  intros [_ Hd] Hlt. destruct e as [t d]; cbn [entry_type entry_data] in *.
  destruct (header_fields t d Hd) as (Hc & Hl & Ht).
  rewrite zlen_encode. unfold encode. cbn [recover_loop entry_type entry_data]; cbv zeta.
  rewrite (proj2 (Z.leb_gt len off)) by lia.
  assert (take 9 ((wal_header t d ++ d) ++ rest) = wal_header t d) as ->.
  { rewrite <- (length_wal_header t d) at 1. rewrite <- app_assoc. apply take_app_length. }
  assert (drop 9 ((wal_header t d ++ d) ++ rest) = d ++ rest) as ->.
  { rewrite <- (length_wal_header t d) at 1. rewrite <- app_assoc. apply drop_app_length. }
  rewrite Hc, Hl, Ht.
  assert (Z.to_nat (zlen d) = length d) as -> by (unfold zlen; lia).
  rewrite take_app_length, drop_app_length, length_app.
  assert ((zlen ((wal_header t d ++ d) ++ rest) <? HEADER_SIZE) = false) as ->.
  { apply Z.ltb_ge. unfold zlen. rewrite !length_app, length_wal_header. unfold HEADER_SIZE. lia. }
  assert ((length d + length rest <? length d)%nat = false) as -> by (apply Nat.ltb_ge; lia).
  unfold replay_step, is_checkpoint; simpl. rewrite Z.eqb_refl; simpl.
  replace (off + HEADER_SIZE + Z.of_nat (length d)) with (off + (HEADER_SIZE + zlen d))
    by (unfold zlen; lia).
  by destruct (t =? ENTRY_CHECKPOINT).
Qed.

Lemma recover_loop_entries es fuel len off rest acc :
  Forall entry_ok es -> off + zlen (encode_all es) <= len ->
  recover_loop (length es + fuel) len off (encode_all es ++ rest) acc =
  recover_loop fuel len (off + zlen (encode_all es)) rest (fold_left replay_step es acc).
Proof.
  intros Hes. revert off acc. induction Hes as [|e es He Hes IH]; intros off acc Hlen.
  - simpl. by rewrite Z.add_0_r.
  - rewrite encode_all_cons, zlen_app in *. pose proof (zlen_encode e). pose proof (zlen_nonneg (encode_all es)).
    pose proof (zlen_nonneg (entry_data e)). unfold HEADER_SIZE in *.
    rewrite <- app_assoc. simpl length. rewrite Nat.add_succ_l, recover_loop_entry by (done || lia).
    rewrite IH by lia. simpl. by rewrite Z.add_assoc.
Qed.

(** A torn tail: a proper prefix of an entry stops recovery quietly. *)
Lemma recover_loop_torn fuel off e n acc :
  entry_ok e -> (n < length (encode e))%nat ->
  recover_loop (S fuel) (off + Z.of_nat n) off (take n (encode e)) acc = Ret acc.
Proof.
  intros [_ Hd] Hn. rewrite length_encode in Hn. cbn [recover_loop]; cbv zeta.
  destruct (Z.leb_spec (off + Z.of_nat n) off); [done|].
  assert (length (take n (encode e)) = n) as Hln by (rewrite length_take, length_encode; lia).
  destruct (Z.ltb_spec (zlen (take n (encode e))) HEADER_SIZE) as [|Hge]; [done|].
  unfold zlen, HEADER_SIZE in Hge. rewrite Hln in Hge.
  destruct (header_fields (entry_type e) (entry_data e) Hd) as (Hc & Hl & Ht).
  assert (take 9 (take n (encode e)) = wal_header (entry_type e) (entry_data e)) as ->.
  { rewrite take_take. replace (9 `min` n)%nat with 9%nat by lia. unfold encode.
    rewrite <- (length_wal_header (entry_type e) (entry_data e)) at 1. apply take_app_length. }
  rewrite Hl, length_drop, Hln.
  assert ((n - 9 <? Z.to_nat (zlen (entry_data e)))%nat = true) as ->; [|done].
  apply Nat.ltb_lt. unfold zlen. lia.
Qed.

Lemma length_encode_all es : (length es <= length (encode_all es))%nat.
Proof.
  induction es as [|e es IH]; [simpl; lia|].
  rewrite encode_all_cons, length_app, length_encode. simpl. lia.
Qed.

(** Reading back whole entries followed by a torn one. *)
Lemma recover_prefix es e n :
  Forall entry_ok es -> entry_ok e -> (n < length (encode e))%nat ->
  recover (Some (encode_all es ++ take n (encode e))) = Ret (replay es).
Proof.
  intros Hes He Hn. unfold recover. pose proof (length_encode_all es) as Hlen.
  set (fuel := S (length (encode_all es ++ take n (encode e)))).
  assert (exists k, fuel = (length es + S k)%nat) as [k ->].
  { exists (fuel - length es - 1)%nat. subst fuel. rewrite length_app. lia. }
  assert (zlen (encode_all es ++ take n (encode e)) = zlen (encode_all es) + Z.of_nat n) as ->.
  { rewrite zlen_app. unfold zlen. rewrite length_take. lia. }
  rewrite recover_loop_entries by (done || lia). by apply recover_loop_torn.
Qed.
End Format.

#[local] Arguments os_write_all : simpl never.
#[local] Arguments flush_buf : simpl never.
#[local] Arguments write_all : simpl never.
#[local] Arguments encode : simpl never.
#[local] Arguments encode_all : simpl never.

(** ** What the writer puts on disk

    [stream] is everything handed to the writer: the bytes on disk followed
    by the bytes still buffered.  [budget] is the size the file can reach. *)

Definition stream (s : osfile * Wal) : list Z := os_bytes (fst s) ++ wal_writer (snd s).
Definition budget (s : osfile * Wal) : nat := (os_room (fst s) + length (os_bytes (fst s)))%nat.

(** Nothing on disk is ever rewritten. *)
Definition disk_grows (s s' : osfile * Wal) : Prop := os_bytes (fst s) `prefix_of` os_bytes (fst s').

#[export] Instance disk_grows_preorder : PreOrder disk_grows.
Proof. unfold disk_grows. split; [intros s; done|intros a b c; apply transitivity]. Qed.

Lemma os_write_all_room f bs :
  (length bs <= os_room f)%nat ->
  os_write_all f bs = ({| os_bytes := os_bytes f ++ bs; os_room := os_room f - length bs; os_sync := os_sync f |}, []).
Proof. intros Hr. unfold os_write_all. by rewrite take_ge, drop_ge by lia. Qed.

(** The contract of the two buffered primitives when the device has room. *)
Definition writes (s : osfile * Wal) (bs : list Z) (s' : osfile * Wal) : Prop :=
  stream s' = stream s ++ bs /\ budget s' = budget s /\ disk_grows s s' /\
  wal_offset (snd s') = wal_offset (snd s) /\ os_sync (fst s') = os_sync (fst s).

Lemma flush_buf_spec s :
  (length (stream s) <= budget s)%nat ->
  exists s', flush_buf s = (s', Ret tt) /\ writes s [] s' /\ wal_writer (snd s') = [].
Proof.
  destruct s as [f w]; unfold stream, budget; cbn [fst snd]. rewrite length_app. intros Hb.
  unfold flush_buf. rewrite os_write_all_room by lia.
  eexists; split; [done|]. unfold writes, stream, budget, disk_grows; simpl.
  split_and!; [by rewrite !app_nil_r|rewrite length_app; lia|by eexists|done|done|done].
Qed.

(** A sync the device answers is a flush of the buffer. *)
Lemma sync_spec s :
  (length (stream s) <= budget s)%nat -> os_sync (fst s) = true ->
  exists s', sync s = (s', Ret tt) /\ writes s [] s' /\ wal_writer (snd s') = [].
Proof.
  intros Hb Hs. destruct (flush_buf_spec s Hb) as (s' & E & Hw & Hn). exists s'. unfold sync, sync_data.
  rewrite E. destruct Hw as (? & ? & ? & ? & Hk). rewrite Hk, Hs. done.
Qed.

(** A refused sync is an error of a log whose bytes reached the file. *)
Lemma sync_refused s :
  (length (stream s) <= budget s)%nat -> os_sync (fst s) = false ->
  exists s', sync s = (s', Fail (Io "sync failed")) /\ os_bytes (fst s') = stream s.
Proof.
  intros Hb Hs. destruct (flush_buf_spec s Hb) as (s' & E & (S' & _ & _ & _ & Hk) & Hn). exists s'.
  unfold sync, sync_data. rewrite E, Hk, Hs. split; [done|]. rewrite app_nil_r in S'. rewrite <- S'.
  unfold stream. by rewrite Hn, app_nil_r.
Qed.

Lemma writes_trans s1 s2 s3 a b : writes s1 a s2 -> writes s2 b s3 -> writes s1 (a ++ b) s3.
Proof.
  intros (E1 & B1 & D1 & O1 & K1) (E2 & B2 & D2 & O2 & K2). unfold writes.
  split_and!; [by rewrite E2, E1, app_assoc|congruence|by etrans|congruence..].
Qed.

Lemma write_all_spec s bs :
  (length (stream s) + length bs <= budget s)%nat ->
  exists s', write_all s bs = (s', Ret tt) /\ writes s bs s'.
Proof.
  intros Hb. unfold write_all. destruct s as [f w].
  assert (forall f w : _, writes (f, w) bs (f, with_writer w (wal_writer w ++ bs))) as Hbuf.
  { intros. unfold writes, stream, budget, disk_grows; simpl. by rewrite app_assoc. }
  destruct (Z.ltb_spec (zlen bs) (WRITER_CAPACITY - zlen (wal_writer w))); [eauto|].
  assert (exists s', (if WRITER_CAPACITY - zlen (wal_writer w) <? zlen bs
                      then flush_buf (f, w) else (f, w, Ret tt)) = (s', Ret tt) /\
                     writes (f, w) [] s' /\
                     (WRITER_CAPACITY <= zlen bs -> wal_writer (snd s') = [])) as (s' & -> & Hw & Hnil).
  { destruct (Z.ltb_spec (WRITER_CAPACITY - zlen (wal_writer w)) (zlen bs)).
    - destruct (flush_buf_spec (f, w)) as (s' & -> & Hw & Hn); [lia|eauto].
    - eexists; split; [done|]. split; [unfold writes; by rewrite app_nil_r|].
      simpl. intros. destruct (wal_writer w); [done|]. rewrite zlen_cons in *.
      pose proof (zlen_nonneg l). lia. }
  destruct s' as [f' w']. destruct (Z.leb_spec WRITER_CAPACITY (zlen bs)).
  - specialize (Hnil ltac:(done)). pose proof Hw as (E & B & _).
    unfold stream, budget in *; cbn [fst snd] in *. rewrite Hnil, !app_nil_r in E.
    rewrite os_write_all_room by (rewrite E, length_app in B; rewrite length_app in Hb; lia).
    eexists; split; [done|]. apply (writes_trans _ _ _ [] bs Hw).
    unfold writes, stream, budget, disk_grows; simpl. rewrite Hnil, !app_nil_r.
    split_and!; [done| |by eexists|done|done].
    rewrite length_app. rewrite E, length_app in B. rewrite length_app in Hb.
    rewrite E, length_app. lia.
  - eexists; split; [done|]. apply (writes_trans _ _ _ [] bs Hw), Hbuf.
Qed.

Section WriterFacts.
Context `{Crc32}.

(** Appending an entry extends the stream by its encoding. *)
Lemma append_spec s e :
  (length (stream s) + length (encode e) <= budget s)%nat ->
  exists s', append s (entry_type e) (entry_data e) = (s', Ret (wal_offset (snd s))) /\
    stream s' = stream s ++ encode e /\ budget s' = budget s /\ disk_grows s s' /\
    wal_offset (snd s') = wrap_u64 (wal_offset (snd s) + zlen (encode e)) /\
    os_sync (fst s') = os_sync (fst s).
Proof.
  intros Hb. rewrite length_encode in Hb. unfold append.
  destruct (write_all_spec s (wal_header (entry_type e) (entry_data e))) as (s1 & -> & W1).
  { rewrite length_wal_header. lia. }
  destruct (write_all_spec s1 (entry_data e)) as (s2 & -> & W2).
  { destruct W1 as (-> & -> & _). rewrite length_app, length_wal_header. lia. }
  destruct (writes_trans _ _ _ _ _ W1 W2) as (E & B & D & O & K).
  destruct s2 as [f w]. eexists; split; [done|]. unfold stream, budget, disk_grows in *; simpl in *.
  split_and!; [done..| |done]. rewrite O, zlen_encode. f_equal. lia.
Qed.

(** *** Sequences of operations *)

Inductive wal_op := OpAppend (e : WalEntry) | OpSync | OpCheckpoint.

Definition run_op (s : osfile * Wal) (op : wal_op) : wal_io unit :=
  match op with
  | OpAppend e => let '(s', r) := append s (entry_type e) (entry_data e) in (s', (fun _ => tt) <$> r)
  | OpSync => sync s
  | OpCheckpoint => checkpoint s
  end.

(** The state after the operations, stopping at the first failure. *)
Fixpoint run (s : osfile * Wal) (ops : list wal_op) : wal_io unit :=
  match ops with
  | [] => (s, Ret tt)
  | op :: ops =>
      let '(s', r) := run_op s op in
      match r with Ret _ => run s' ops | _ => (s', r) end
  end.

Definition checkpoint_entry : WalEntry := {| entry_type := ENTRY_CHECKPOINT; entry_data := [] |}.

Lemma checkpoint_entry_ok : entry_ok checkpoint_entry.
Proof. split; unfold is_u8, is_u32, zlen; simpl; unfold ENTRY_CHECKPOINT; lia. Qed.

Definition op_entries (op : wal_op) : list WalEntry :=
  match op with
  | OpAppend e => [e]
  | OpSync => []
  | OpCheckpoint => [checkpoint_entry]
  end.

Definition ops_entries (ops : list wal_op) : list WalEntry := concat (map op_entries ops).

Definition op_ok (op : wal_op) : Prop := match op with OpAppend e => entry_ok e | _ => True end.

Lemma ops_entries_ok ops : Forall op_ok ops -> Forall entry_ok (ops_entries ops).
Proof.
  induction 1 as [|op ops Ho Hops IH]; [constructor|].
  unfold ops_entries; simpl. apply Forall_app. split; [|exact IH].
  destruct op; simpl in *; auto using checkpoint_entry_ok.
Qed.

Lemma run_op_spec s op :
  (length (stream s) + length (encode_all (op_entries op)) <= budget s)%nat -> os_sync (fst s) = true ->
  exists s', run_op s op = (s', Ret tt) /\
    stream s' = stream s ++ encode_all (op_entries op) /\ budget s' = budget s /\ disk_grows s s' /\
    os_sync (fst s') = true.
Proof.
  destruct op as [e| |]; cbn [op_entries]; rewrite ?encode_all_one; intros Hb Hs.
  - destruct (append_spec s e Hb) as (s' & E & ? & ? & ? & _ & K). exists s'. simpl. rewrite E.
    split_and!; congruence || done.
  - destruct (sync_spec s) as (s' & E & (? & ? & ? & ? & K) & ?); [simpl in Hb; lia|done|].
    exists s'. simpl. rewrite E. split_and!; congruence || done.
  - destruct (append_spec s checkpoint_entry Hb) as (s1 & E & S1 & B1 & D1 & _ & K1).
    destruct (sync_spec s1) as (s' & E' & (S' & B' & D' & _ & K') & ?).
    { rewrite S1, length_app, B1. lia. }
    { congruence. }
    exists s'. simpl. unfold checkpoint. simpl in E. rewrite E, E'.
    split_and!; [done|by rewrite S', S1, app_nil_r|congruence|by etrans|congruence].
Qed.

(** Any run on a device with room that answers syncs succeeds and writes exactly the
    encodings of its entries, in order. *)
Lemma run_spec ops s :
  (length (stream s) + length (encode_all (ops_entries ops)) <= budget s)%nat -> os_sync (fst s) = true ->
  exists s', run s ops = (s', Ret tt) /\
    stream s' = stream s ++ encode_all (ops_entries ops) /\ budget s' = budget s /\ disk_grows s s' /\
    os_sync (fst s') = true.
Proof.
  revert s; induction ops as [|op ops IH]; intros s Hb Hs.
  - exists s. simpl. by rewrite app_nil_r.
  - unfold ops_entries in *; simpl in *. rewrite encode_all_app, length_app in *.
    destruct (run_op_spec s op) as (s1 & -> & S1 & B1 & D1 & K1); [lia|done|].
    destruct (IH s1) as (s' & E & S' & B' & D' & K'); [rewrite S1, length_app, B1; lia|done|].
    exists s'. split_and!; [done| |congruence|by etrans|done].
    by rewrite S', S1, app_assoc.
Qed.

Lemma run_app s ops1 ops2 :
  run s (ops1 ++ ops2) =
  let '(s', r) := run s ops1 in match r with Ret _ => run s' ops2 | _ => (s', r) end.
Proof.
  revert s; induction ops1 as [|op ops1 IH]; intros s; simpl; [done|].
  destruct (run_op s op) as [s' [[]|e|]]; [apply IH|done|done].
Qed.

(** A prefix of a log that contains its first [k] entries reads back as a
    prefix of at least [k] entries and a torn one. *)
Lemma prefix_of_log es k x :
  Forall entry_ok es -> encode_all (take k es) `prefix_of` x -> x `prefix_of` encode_all es ->
  exists n e j, (k <= n)%nat /\ entry_ok e /\ (j < length (encode e))%nat /\
    x = encode_all (take n es) ++ take j (encode e).
Proof.
  intros Hes; revert k x; induction Hes as [|e es He Hes IH]; intros k x Hk Hx.
  - exists k, checkpoint_entry, 0%nat. apply prefix_nil_inv in Hx as ->.
    rewrite take_nil, length_encode. split_and!; [done|apply checkpoint_entry_ok|lia|done].
  - rewrite encode_all_cons in Hx.
    destruct (decide (length x < length (encode e))%nat) as [Hlt|Hge].
    + destruct k as [|k].
      * exists 0%nat, e, (length x). split_and!; [lia|done|done|]. simpl.
        destruct Hx as [y Hy]. apply (f_equal (take (length x))) in Hy.
        rewrite take_app_le, take_app_length in Hy by lia. done.
      * exfalso. apply prefix_length in Hk. simpl take in Hk.
        rewrite encode_all_cons, length_app in Hk. lia.
    + assert (exists x', x = encode e ++ x') as [x' ->].
      { destruct Hx as [y Hy]. exists (drop (length (encode e)) x).
        apply (f_equal (take (length (encode e)))) in Hy.
        rewrite take_app_length, take_app_le in Hy by lia. by rewrite Hy at 1; rewrite take_drop. }
      apply prefix_app_inv in Hx.
      destruct (IH (pred k) x') as (n & e' & j & Hn & He' & Hj & Ex); [|done|].
      { destruct k as [|k]; cbn [pred take] in *; [rewrite take_0; apply prefix_nil|].
        rewrite encode_all_cons in Hk. by apply prefix_app_inv in Hk. }
      exists (S n), e', j. split_and!; [lia|done|done|].
      simpl take. by rewrite encode_all_cons, <- app_assoc, <- Ex.
Qed.
End WriterFacts.

(** ** The IEEE CRC-32, an instance of the interface *)

Fixpoint crc_bits (n : nat) (c : Z) : Z :=
  match n with
  | O => c
  | S n => crc_bits n (if Z.testbit c 0 then Z.lxor (Z.shiftr c 1) 3988292384 else Z.shiftr c 1)
  end.

Definition crc32_ieee (bs : list Z) : Z :=
  wrap_u32 (Z.lxor (fold_left (fun c b => crc_bits 8 (Z.lxor c b)) bs u32_max) u32_max).

Definition Crc32_ieee : Crc32 :=
  {| crc32 := crc32_ieee; crc32_u32 := fun bs => wrap_u32_range _ |}.

Example crc32_check_value : crc32_ieee (bytes_of_string "123456789") = 3421780262.
Proof. vm_compute. reflexivity. Qed.

(** An entry whose stored checksum differs stops recovery with an error. *)
Lemma recover_bad_entry `{Crc32} es t d c rest :
  Forall entry_ok es -> is_u8 t -> is_u32 (zlen d) -> is_u32 c -> c <> crc32 (t :: d) ->
  recover (Some (encode_all es ++ (le_bytes 4 c ++ le_bytes 4 (zlen d) ++ [t]) ++ d ++ rest)) =
  Fail (WalCrcMismatch (zlen (encode_all es)) c (crc32 (t :: d))).
Proof.
  intros Hes Ht Hd Hc Hne. set (h := le_bytes 4 c ++ le_bytes 4 (zlen d) ++ [t]).
  assert (length h = 9%nat) as Lh by (unfold h; by rewrite !length_app, !length_le_bytes).
  unfold recover. set (bs := encode_all es ++ h ++ d ++ rest).
  pose proof (length_encode_all es) as Hlen.
  assert (exists k, S (length bs) = (length es + S k)%nat) as [k ->].
  { exists (length bs - length es)%nat. unfold bs. rewrite length_app. lia. }
  assert (zlen bs = zlen (encode_all es) + 9 + zlen d + zlen rest) as Hbs.
  { unfold bs. rewrite !zlen_app. unfold zlen at 2. rewrite Lh. lia. }
  pose proof (zlen_nonneg d); pose proof (zlen_nonneg rest).
  unfold bs at 2. rewrite recover_loop_entries by (done || lia). rewrite Z.add_0_l.
  cbn [recover_loop]; cbv zeta.
  rewrite (proj2 (Z.leb_gt _ _)) by lia.
  assert ((zlen (h ++ d ++ rest) <? HEADER_SIZE) = false) as ->.
  { apply Z.ltb_ge. unfold zlen, HEADER_SIZE. rewrite length_app, Lh. lia. }
  replace (take 9 (h ++ d ++ rest)) with h by (rewrite <- Lh at 1; by rewrite take_app_length).
  replace (drop 9 (h ++ d ++ rest)) with (d ++ rest) by (rewrite <- Lh at 1; by rewrite drop_app_length).
  assert (le_value (take 4 h) = c) as ->.
  { unfold h. rewrite take_app_le, take_ge by (rewrite length_le_bytes; lia). by apply le_value_bytes_u32. }
  assert (le_value (take 4 (drop 4 h)) = zlen d) as ->.
  { unfold h. rewrite drop_app_length' by by rewrite length_le_bytes.
    rewrite take_app_le, take_ge by (rewrite length_le_bytes; lia). by apply le_value_bytes_u32. }
  assert (nth 8 h 0 = t) as -> by done.
  assert (Z.to_nat (zlen d) = length d) as -> by (unfold zlen; lia).
  rewrite length_app, take_app_length.
  assert ((length d + length rest <? length d)%nat = false) as -> by (apply Nat.ltb_ge; lia).
  by rewrite (proj2 (Z.eqb_neq _ _)) by auto.
Qed.


(** Buffered writes that stay in the buffer, and those that push it out. *)
Lemma write_all_fits f w bs :
  zlen (wal_writer w) + zlen bs < WRITER_CAPACITY ->
  write_all (f, w) bs = ((f, with_writer w (wal_writer w ++ bs)), Ret tt).
Proof. intros. unfold write_all. by rewrite (proj2 (Z.ltb_lt _ _)) by lia. Qed.

Lemma write_all_spills f w bs :
  WRITER_CAPACITY < zlen (wal_writer w) + zlen bs -> zlen bs < WRITER_CAPACITY ->
  (length (wal_writer w) <= os_room f)%nat ->
  write_all (f, w) bs =
  (({| os_bytes := os_bytes f ++ wal_writer w; os_room := os_room f - length (wal_writer w);
    os_sync := os_sync f |},
    with_writer w bs), Ret tt).
Proof.
  intros. unfold write_all.
  rewrite (proj2 (Z.ltb_ge _ _)), (proj2 (Z.ltb_lt _ _)) by lia.
  unfold flush_buf. rewrite os_write_all_room by done.
  by rewrite (proj2 (Z.leb_gt _ _)) by lia.
Qed.

(** A checkpoint through a fresh handle ends up right behind the file. *)
Lemma fresh_checkpoint `{Crc32} p f :
  (length (encode checkpoint_entry) <= os_room f)%nat -> os_sync f = true ->
  exists s, checkpoint (f, wal_open p f) = (s, Ret tt) /\
    os_bytes (fst s) = os_bytes f ++ encode checkpoint_entry /\ budget s = budget (f, wal_open p f) /\ os_sync (fst s) = true.
Proof.
  intros Hr Hs. destruct (append_spec (f, wal_open p f) checkpoint_entry) as (s1 & E1 & S1 & B1 & _ & _ & K1).
  { unfold stream, budget; cbn [fst snd wal_open wal_writer]. rewrite app_nil_r. lia. }
  destruct (sync_spec s1) as (s2 & E2 & (S2 & B2 & _ & _ & K2) & N2); [|cbn in K1; congruence|].
  { rewrite S1, B1. unfold stream, budget; cbn [fst snd wal_open wal_writer]. rewrite app_nil_r, length_app. lia. }
  exists s2. unfold checkpoint. cbn [entry_type entry_data checkpoint_entry] in E1. rewrite E1.
  split; [exact E2|]. split; [|split; cbn in K1; congruence]. rewrite app_nil_r, S1 in S2. unfold stream in S2.
  cbn [fst snd wal_open wal_writer] in S2. by rewrite N2, !app_nil_r in S2.
Qed.

(** Recovery of an entry whose data does not follow its header. *)
Lemma recover_split_entry `{Crc32} d1 t d2 ins :
  let e1 := encode {| entry_type := ENTRY_LOG; entry_data := d1 |} in
  is_u8 t -> is_u32 (zlen d1) -> is_u32 (zlen d2) ->
  crc32 (t :: d2) <> crc32 (t :: take (length d2) (ins ++ d2)) ->
  recover (Some (e1 ++ wal_header t d2 ++ ins ++ d2)) =
  Fail (WalCrcMismatch (zlen e1) (crc32 (t :: d2)) (crc32 (t :: take (length d2) (ins ++ d2)))).
Proof.
  intros e1 Ht Hd1 Hd2 Hcrc. rewrite <- (take_drop (length d2) (ins ++ d2)) at 1.
  assert (zlen (take (length d2) (ins ++ d2)) = zlen d2) as Zt.
  { unfold zlen. rewrite length_take, length_app. lia. }
  assert (e1 = encode_all [{| entry_type := ENTRY_LOG; entry_data := d1 |}]) as -> by (symmetry; apply encode_all_one).
  unfold wal_header. rewrite wrap_u32_small by done. rewrite <- Zt.
  apply recover_bad_entry; [|done|by rewrite Zt|apply crc32_u32|done].
  constructor; [|constructor]. split; [unfold ENTRY_LOG; simpl; int_lia|done].
Qed.

(** ** Properties *)

(** C7: crash recovery.  Take a log file that already holds the entries
    [es0], open it, run any operations, [sync], and run any more.  If the
    device has room and answers [sync_data] every operation succeeds, and
    whatever bytes are on disk
    when the process stops, [recover] returns exactly the entries after the
    last checkpoint of a prefix of everything appended; that prefix includes
    [es0] and every entry appended before the [sync]. *)
Theorem wal_crash_recovery `{Crc32} es0 ops1 ops2 p room :
  Forall entry_ok es0 -> Forall op_ok ops1 -> Forall op_ok ops2 ->
  (length (encode_all (ops_entries (ops1 ++ ops2))) <= room)%nat ->
  let f := {| os_bytes := encode_all es0; os_room := room; os_sync := true |} in
  exists s n,
    run (f, wal_open p f) (ops1 ++ OpSync :: ops2) = (s, Ret tt) /\
    (length es0 + length (ops_entries ops1) <= n)%nat /\
    recover (Some (os_bytes (fst s))) = Ret (replay (take n (es0 ++ ops_entries (ops1 ++ ops2)))).
Proof.
  intros H0 H1 H2 Hroom f. set (s0 := (f, wal_open p f)).
  assert (stream s0 = encode_all es0) as S0 by (unfold stream; simpl; by rewrite app_nil_r).
  assert (budget s0 = room + length (encode_all es0))%nat as B0 by done.
  assert (ops_entries (ops1 ++ ops2) = ops_entries ops1 ++ ops_entries ops2) as Eops.
  { unfold ops_entries. by rewrite map_app, concat_app. }
  rewrite Eops, encode_all_app, length_app in Hroom.
  destruct (run_spec ops1 s0) as (s1 & R1 & S1 & B1 & D1 & K1); [rewrite S0, B0; lia|done|].
  destruct (sync_spec s1) as (s2 & R2 & (S2 & B2 & D2 & _ & K2) & N2); [|done|].
  { rewrite S1, S0, B1, B0, length_app. lia. }
  destruct (run_spec ops2 s2) as (s3 & R3 & S3 & B3 & D3 & _); [|congruence|].
  { rewrite S2, S1, S0, B2, B1, B0, app_nil_r, length_app. lia. }
  assert (os_bytes (fst s2) = encode_all (es0 ++ ops_entries ops1)) as E2.
  { rewrite encode_all_app, <- S0, <- S1. rewrite app_nil_r in S2. rewrite <- S2.
    unfold stream. by rewrite N2, app_nil_r. }
  destruct (prefix_of_log (es0 ++ ops_entries (ops1 ++ ops2)) (length es0 + length (ops_entries ops1))
              (os_bytes (fst s3))) as (n & e & j & Hn & He & Hj & Ex).
  - rewrite Eops. rewrite !Forall_app. auto using ops_entries_ok.
  - rewrite Eops, app_assoc, <- length_app, take_app_length, <- E2. exact D3.
  - rewrite Eops, !encode_all_app, app_assoc. rewrite <- S0, <- S1.
    rewrite app_nil_r in S2. rewrite <- S2, <- S3. by exists (wal_writer (snd s3)).
  - exists s3, n. split_and!; [|done|].
    + rewrite run_app, R1. simpl. rewrite R2. exact R3.
    + rewrite Ex. apply recover_prefix; [|done|done].
      apply Forall_take. rewrite Eops, !Forall_app. auto using ops_entries_ok.
Qed.

Lemma wal_crash_recovery_witness :
  let H := Crc32_ieee in
  let e := {| entry_type := ENTRY_LOG; entry_data := [7; 8] |} in
  let f := {| os_bytes := encode_all [e]; os_room := 100; os_sync := true |} in
  exists s n,
    run (f, wal_open "wal.log" f) ([OpAppend e] ++ OpSync :: [OpCheckpoint; OpAppend e]) = (s, Ret tt) /\
    (1 + 1 <= n)%nat /\
    recover (Some (os_bytes (fst s))) =
      Ret (replay (take n ([e] ++ ops_entries ([OpAppend e] ++ [OpCheckpoint; OpAppend e])))).
Proof.
  assert (entry_ok {| entry_type := ENTRY_LOG; entry_data := [7; 8] |}) as He.
  { split; unfold is_u8, is_u32, zlen; simpl; unfold ENTRY_LOG; lia. }
  apply (@wal_crash_recovery Crc32_ieee); [by repeat constructor|by repeat constructor|by repeat constructor|].
  vm_compute. lia.
Defined.

(** A corrupt entry is an error, never silently skipped.  When intact
    entries are followed by one whose stored checksum is not that of its type
    and data, [recover] fails with the offset of that entry, the stored and
    the computed checksum, whatever follows it. *)
Theorem recover_crc_mismatch `{Crc32} es t d c rest :
  Forall entry_ok es -> is_u8 t -> is_u32 (zlen d) -> is_u32 c -> c <> crc32 (t :: d) ->
  recover (Some (encode_all es ++ (le_bytes 4 c ++ le_bytes 4 (zlen d) ++ [t]) ++ d ++ rest)) =
  Fail (WalCrcMismatch (zlen (encode_all es)) c (crc32 (t :: d))).
Proof. apply recover_bad_entry. Qed.

Lemma recover_crc_mismatch_witness :
  let H := Crc32_ieee in
  recover (Some (encode_all [checkpoint_entry] ++
                 (le_bytes 4 1 ++ le_bytes 4 (zlen [5]) ++ [ENTRY_LOG]) ++ [5] ++ [])) =
  Fail (WalCrcMismatch (zlen (encode_all [checkpoint_entry])) 1 (crc32_ieee [ENTRY_LOG; 5])).
Proof.
  apply (@recover_crc_mismatch Crc32_ieee).
  - repeat constructor; apply checkpoint_entry_ok.
  - unfold ENTRY_LOG; int_lia.
  - unfold zlen; simpl; int_lia.
  - int_lia.
  - vm_compute. discriminate.
Defined.

(** Recovery always ends.  On any file content the loop stops within its
    bound: the result is a list of entries or a checksum error, and nothing
    else ([recover] cannot panic or run on). *)
Theorem recover_total `{Crc32} file :
  (exists es, recover file = Ret es) \/
  (exists off expected actual, recover file = Fail (WalCrcMismatch off expected actual)).
Proof.
  destruct file as [bs|]; [|left; by eexists]. unfold recover.
  assert (length bs < S (length bs))%nat as Hf by lia.
  revert Hf. generalize (S (length bs)) as fuel. generalize (zlen bs) as len.
  generalize (@nil WalEntry) as acc. generalize 0 as off.
  intros off acc len fuel. revert off acc bs.
  induction fuel as [|fuel IH]; intros off acc bs Hf; [lia|].
  cbn [recover_loop]; cbv zeta.
  repeat case_match; try (left; by eexists); try (right; by do 3 eexists).
  all: apply IH; rewrite !length_drop; unfold zlen, HEADER_SIZE in *;
    match goal with E : (_ <? 9) = false |- _ => apply Z.ltb_ge in E end; lia.
Qed.

(** The flush worker's checkpoint can split an entry.  The engine writes
    through one handle while [flush_immutable] opens a second one for the
    checkpoint.  When the engine's buffer spills between the header and the
    data of an entry, the checkpoint lands between them: once the engine's
    handle is synced, [recover] fails with a checksum error at that entry,
    although every operation succeeded. *)
Theorem second_handle_checkpoint_corrupts `{Crc32} p t d1 d2 room :
  let ckpt := encode checkpoint_entry in
  let e1 := encode {| entry_type := ENTRY_LOG; entry_data := d1 |} in
  is_u8 t -> zlen d1 = WRITER_CAPACITY - 19 -> 2 <= zlen d2 < WRITER_CAPACITY ->
  crc32 (t :: d2) <> crc32 (t :: take (length d2) (ckpt ++ d2)) ->
  (length e1 + (9 + length d2) + length ckpt <= room)%nat ->
  let f0 := {| os_bytes := []; os_room := room; os_sync := true |} in
  exists s1 s2 s3 s4,
    append (f0, wal_open p f0) ENTRY_LOG d1 = (s1, Ret 0) /\
    append s1 t d2 = (s2, Ret (zlen e1)) /\
    checkpoint (fst s2, wal_open p (fst s2)) = (s3, Ret tt) /\
    sync (fst s3, snd s2) = (s4, Ret tt) /\
    recover (Some (os_bytes (fst s4))) =
      Fail (WalCrcMismatch (zlen e1) (crc32 (t :: d2)) (crc32 (t :: take (length d2) (ckpt ++ d2)))).
Proof.
  intros ckpt e1 Ht Hd1 Hd2 Hcrc Hroom f0.
  assert (zlen (wal_header ENTRY_LOG d1) = 9 /\ zlen (wal_header t d2) = 9) as [Hh1 Hh2].
  { unfold zlen. by rewrite !length_wal_header. }
  assert (length e1 = 9 + length d1)%nat as Le1 by (unfold e1; by rewrite length_encode).
  assert (zlen e1 = WRITER_CAPACITY - 10) as Ze1 by (unfold zlen in *; rewrite Le1; lia).
  set (s1 := (f0, {| wal_path := p; wal_writer := e1; wal_offset := wrap_u64 (zlen e1) |})).
  set (f2 := {| os_bytes := e1 ++ wal_header t d2; os_room := room - length (e1 ++ wal_header t d2); os_sync := true |}).
  set (s2 := (f2, {| wal_path := p; wal_writer := d2;
                     wal_offset := wrap_u64 (wrap_u64 (zlen e1) + HEADER_SIZE + zlen d2) |})).
  assert (length (e1 ++ wal_header t d2) = 9 + length e1)%nat as Lf by (rewrite length_app, length_wal_header; lia).
  destruct (fresh_checkpoint p f2) as (s3 & E3 & D3 & B3 & K3); [cbn [f2 os_room]; fold ckpt; lia|done|].
  destruct (sync_spec (fst s3, snd s2)) as (s4 & E4 & (S4 & _) & N4); [|done|].
  { unfold budget, stream in *. cbn [fst snd wal_open wal_writer os_bytes os_room f2 s2] in *.
    rewrite B3, D3. fold ckpt. rewrite !length_app, length_wal_header. lia. }
  assert (os_bytes (fst s4) = e1 ++ wal_header t d2 ++ ckpt ++ d2) as D4.
  { rewrite app_nil_r in S4. unfold stream in S4. cbn [fst snd s2 wal_writer] in S4.
    rewrite N4, app_nil_r, D3 in S4. cbn [f2 os_bytes] in S4. by rewrite <- !app_assoc in S4. }
  exists s1, s2, s3, s4. split_and!; [| |exact E3|exact E4|].
  - unfold append. rewrite write_all_fits by (cbn [wal_open wal_writer]; rewrite zlen_nil; unfold WRITER_CAPACITY in *; lia).
    cbn [with_writer wal_open wal_writer app].
    rewrite write_all_fits by (cbn [with_writer wal_writer]; unfold WRITER_CAPACITY in *; lia).
    unfold s1, e1. rewrite zlen_encode. done.
  - unfold s1, append. cbn [snd wal_offset].
    rewrite write_all_fits by (cbn [wal_writer]; lia). cbn [with_writer wal_writer].
    rewrite write_all_spills.
    2: { cbn [with_writer wal_writer]. rewrite zlen_app. lia. }
    2: lia.
    2: { cbn [with_writer wal_writer]. rewrite length_app, length_wal_header. unfold f0. cbn [os_room]. lia. }
    unfold s2, f2. do 3 f_equal. apply wrap_u64_small. unfold WRITER_CAPACITY in *. int_lia.
  - rewrite D4. apply recover_split_entry; [done|unfold WRITER_CAPACITY in *; int_lia..|exact Hcrc].
Qed.

Lemma second_handle_checkpoint_corrupts_witness :
  let H := Crc32_ieee in
  let d1 := replicate (Z.to_nat 262125) 0 in
  let e1 := encode {| entry_type := ENTRY_LOG; entry_data := d1 |} in
  let f0 := {| os_bytes := []; os_room := length e1 + (9 + 2) + length (encode checkpoint_entry); os_sync := true |} in
  exists s1 s2 s3 s4,
    append (f0, wal_open "wal.log" f0) ENTRY_LOG d1 = (s1, Ret 0) /\
    append s1 ENTRY_SPAN [1; 2] = (s2, Ret (zlen e1)) /\
    checkpoint (fst s2, wal_open "wal.log" (fst s2)) = (s3, Ret tt) /\
    sync (fst s3, snd s2) = (s4, Ret tt) /\
    recover (Some (os_bytes (fst s4))) =
      Fail (WalCrcMismatch (zlen e1) (crc32 (ENTRY_SPAN :: [1; 2]))
              (crc32 (ENTRY_SPAN :: take 2 (encode checkpoint_entry ++ [1; 2])))).
Proof.
  apply (@second_handle_checkpoint_corrupts Crc32_ieee "wal.log" ENTRY_SPAN (replicate (Z.to_nat 262125) 0) [1; 2]).
  - unfold ENTRY_SPAN; int_lia.
  - unfold zlen. rewrite length_replicate, Z2Nat.id; unfold WRITER_CAPACITY; lia.
  - unfold zlen, WRITER_CAPACITY. simpl. lia.
  - vm_compute. discriminate.
  - apply Nat.le_refl.
Defined.
