(* ===== verification/Model.v ===== *)
(** * The data model

    [crates/infralens-common/src/model.rs] (signals, attribute values, the
    three record types, the batch envelope), [schema.rs] (the Arrow schemas)
    and the storage and ingest sections of [config.rs]. *)

From Stdlib Require Import ZArith Lia.
From stdpp Require Import base tactics list numbers option strings gmap.
From S2P Require Import Prelude Text Float64.

(** ** Signals *)

Inductive SignalType : Type := Log | Metric | Span.

#[export] Instance SignalType_eq_dec : EqDecision SignalType.
Proof. solve_decision. Defined.

(** The [repr(u8)] discriminant: [sig as u8]. *)
Definition signal_u8 (s : SignalType) : Z :=
  match s with Log => 0 | Metric => 1 | Span => 2 end.

Inductive CommonError : Type :=
| InvalidSignalType (v : Z)
| CommonSerialisation (msg : string)
| CommonIo (msg : string).

(** [TryFrom<u8> for SignalType]. *)
Definition signal_try_from (v : Z) : outcome CommonError SignalType :=
  if v =? 0 then Ret Log
  else if v =? 1 then Ret Metric
  else if v =? 2 then Ret Span
  else Fail (InvalidSignalType v).

(** ** Attribute values *)

Inductive AnyValue : Type :=
| AVString (s : string)
| AVBool (b : bool)
| AVInt (i : Z)
| AVDouble (d : f64)
| AVBytes (bs : list Z)
| AVArray (vs : list AnyValue)
| AVMap (m : gmap string AnyValue).

Abbreviation attrs := (gmap string AnyValue).

Record InstrumentationScope := {
  scope_name : string;
  scope_version : string;
  scope_attributes : attrs
}.

(** [InstrumentationScope::default()]. *)
Definition scope_default : InstrumentationScope :=
  {| scope_name := ""; scope_version := ""; scope_attributes := ∅ |}.

(** ** Records *)

Record LogRecord := {
  lr_timestamp_ns : Z;
  lr_observed_timestamp_ns : Z;
  lr_trace_id : option (list Z);
  lr_span_id : option (list Z);
  lr_severity_number : Z;
  lr_severity_text : string;
  lr_body : option AnyValue;
  lr_attributes : attrs;
  lr_resource_attributes : attrs;
  lr_scope : InstrumentationScope;
  lr_schema_url : string
}.

Inductive MetricType : Type :=
| Gauge
| Sum (is_monotonic : bool) (temporality : Z)
| Histogram (temporality : Z)
| ExponentialHistogram (temporality : Z)
| Summary.

Record HistogramData := {
  hd_count : Z;
  hd_sum : option f64;
  hd_min : option f64;
  hd_max : option f64;
  hd_explicit_bounds : list f64;
  hd_bucket_counts : list Z
}.

Record MetricPoint := {
  mp_timestamp_ns : Z;
  mp_start_timestamp_ns : Z;
  mp_name : string;
  mp_description : string;
  mp_unit : string;
  mp_metric_type : MetricType;
  mp_value_double : option f64;
  mp_value_int : option Z;
  mp_histogram : option HistogramData;
  mp_attributes : attrs;
  mp_resource_attributes : attrs;
  mp_scope : InstrumentationScope;
  mp_schema_url : string
}.

Record SpanEvent := {
  se_timestamp_ns : Z;
  se_name : string;
  se_attributes : attrs
}.

Record SpanLink := {
  sl_trace_id : list Z;
  sl_span_id : list Z;
  sl_trace_state : string;
  sl_attributes : attrs
}.

Record SpanRecord := {
  sr_trace_id : list Z;
  sr_span_id : list Z;
  sr_parent_span_id : option (list Z);
  sr_name : string;
  sr_kind : Z;
  sr_start_time_ns : Z;
  sr_end_time_ns : Z;
  sr_duration_ns : Z;
  sr_status_code : Z;
  sr_status_message : string;
  sr_attributes : attrs;
  sr_resource_attributes : attrs;
  sr_scope : InstrumentationScope;
  sr_events : list SpanEvent;
  sr_links : list SpanLink;
  sr_schema_url : string
}.

(** ** The batch envelope *)

Inductive IngestBatch : Type :=
| Logs (v : list LogRecord)
| Metrics (v : list MetricPoint)
| Spans (v : list SpanRecord).

Definition signal_type (b : IngestBatch) : SignalType :=
  match b with Logs _ => Log | Metrics _ => Metric | Spans _ => Span end.

Definition batch_len (b : IngestBatch) : Z :=
  match b with Logs v => zlen v | Metrics v => zlen v | Spans v => zlen v end.

Definition batch_is_empty (b : IngestBatch) : bool := batch_len b =? 0.

(** ** Configuration *)

Record StorageConfig := {
  data_dir : string;
  memtable_size_bytes : Z;
  l0_compaction_trigger : Z;
  compaction_interval_secs : Z;
  partition_hours : Z;
  parquet_row_group_size : Z;
  wal_sync_interval_ms : Z
}.

Record IngestConfig := { buffer_depth : nat; max_batch_records : nat }.

(** The storage section of [InfraLensConfig::default()]. *)
Definition default_storage : StorageConfig :=
  {| data_dir := "./data"; memtable_size_bytes := 64 * 1024 * 1024; l0_compaction_trigger := 4;
     compaction_interval_secs := 30; partition_hours := 1; parquet_row_group_size := 1000000;
     wal_sync_interval_ms := 100 |}.

(** ** Arrow schemas ([schema.rs]) *)

Inductive DataType : Type := UInt64 | Int64 | Int32 | Int8 | Float64 | Utf8 | Binary | Boolean.

#[export] Instance DataType_eq_dec : EqDecision DataType.
Proof. solve_decision. Defined.

Record Field := { field_name : string; field_type : DataType; field_nullable : bool }.

#[export] Instance Field_eq_dec : EqDecision Field.
Proof. solve_decision. Defined.

Abbreviation Schema := (list Field).

Definition F (n : string) (t : DataType) (nullable : bool) : Field :=
  {| field_name := n; field_type := t; field_nullable := nullable |}.

Definition log_schema : Schema :=
  [ F "timestamp_ns" UInt64 false;
    F "observed_timestamp_ns" UInt64 false;
    F "trace_id" Binary true;
    F "span_id" Binary true;
    F "severity_number" Int32 false;
    F "severity_text" Utf8 true;
    F "body" Utf8 true;
    F "attributes" Utf8 true;
    F "resource_attributes" Utf8 true;
    F "scope_name" Utf8 true;
    F "scope_version" Utf8 true;
    F "schema_url" Utf8 true ].

Definition metric_schema : Schema :=
  [ F "timestamp_ns" UInt64 false;
    F "start_timestamp_ns" UInt64 true;
    F "name" Utf8 false;
    F "description" Utf8 true;
    F "unit" Utf8 true;
    F "metric_type" Int8 false;
    F "value_double" Float64 true;
    F "value_int" Int64 true;
    F "histogram_count" UInt64 true;
    F "histogram_sum" Float64 true;
    F "histogram_bounds" Binary true;
    F "histogram_counts" Binary true;
    F "attributes" Utf8 true;
    F "resource_attributes" Utf8 true;
    F "scope_name" Utf8 true;
    F "scope_version" Utf8 true;
    F "schema_url" Utf8 true ].

Definition span_schema : Schema :=
  [ F "trace_id" Binary false;
    F "span_id" Binary false;
    F "parent_span_id" Binary true;
    F "name" Utf8 false;
    F "kind" Int32 false;
    F "start_time_ns" UInt64 false;
    F "end_time_ns" UInt64 false;
    F "duration_ns" UInt64 false;
    F "status_code" Int32 false;
    F "status_message" Utf8 true;
    F "attributes" Utf8 true;
    F "resource_attributes" Utf8 true;
    F "scope_name" Utf8 true;
    F "scope_version" Utf8 true;
    F "events" Utf8 true;
    F "links" Utf8 true;
    F "schema_url" Utf8 true ].

(** ** Serialisation of records ([bincode])

    [serialize] and [deserialize] of the [bincode] crate at one type.  No law
    is part of the interface: [bincode] does not deserialise untagged enums
    such as [AnyValue], so the theorems name the records they need to
    survive the round trip. *)

Class Bincode (A : Type) := {
  serialize : A -> option (list Z);
  deserialize : list Z -> option A
}.

(** [a] is written and read back as itself. *)
Definition roundtrips {A} `{!Bincode A} (a : A) : Prop :=
  exists bs, serialize a = Some bs /\ deserialize bs = Some a.
