(* ===== verification/MemTable.v ===== *)
(** * The MemTable

    [crates/infralens-storage/src/memtable.rs]: rows keyed by timestamp,
    signal and sequence number in an ordered map, with a byte count that
    decides when the table is frozen.  The refinement theorem says what a
    flush reads: for each signal, a stable sort of the arrivals by time. *)

From Stdlib Require Import ZArith Lia Sorted Permutation.
From stdpp Require Import base tactics list numbers option strings gmap.
From S2P Require Import Prelude Text BTree Float64 Model Wal.

(** ** Row keys *)

Record RowKey := { rk_timestamp_ns : Z; rk_signal_type : Z; rk_sequence : Z }.

(** The derived [Ord]: lexicographic in declaration order. *)
Definition rowkey_cmp (a b : RowKey) : comparison :=
  match rk_timestamp_ns a ?= rk_timestamp_ns b with
  | Eq => match rk_signal_type a ?= rk_signal_type b with
          | Eq => rk_sequence a ?= rk_sequence b
          | c => c
          end
  | c => c
  end.

Lemma rowkey_cmp_lt a b :
  rowkey_cmp a b = Lt <->
  rk_timestamp_ns a < rk_timestamp_ns b \/
  (rk_timestamp_ns a = rk_timestamp_ns b /\
   (rk_signal_type a < rk_signal_type b \/
    (rk_signal_type a = rk_signal_type b /\ rk_sequence a < rk_sequence b))).
Proof.
  unfold rowkey_cmp.
  destruct (Z.compare_spec (rk_timestamp_ns a) (rk_timestamp_ns b)); try (split; [done|lia]); [|split; auto].
  destruct (Z.compare_spec (rk_signal_type a) (rk_signal_type b)); try (split; [done|lia]); [|split; auto].
  rewrite Z.compare_lt_iff. lia.
Qed.

#[export, program] Instance RowKey_TotalOrd : TotalOrd RowKey := {| kcmp := rowkey_cmp |}.
Next Obligation.
  intros [t s q] [t' s' q']. unfold rowkey_cmp; simpl.
  destruct (Z.compare_spec t t'), (Z.compare_spec s s'), (Z.compare_spec q q'); subst;
    split; intros; try done; simplify_eq; lia.
Qed.
Next Obligation.
  intros [t s q] [t' s' q']. unfold rowkey_cmp; simpl.
  rewrite (Z.compare_antisym t t'), (Z.compare_antisym s s'), (Z.compare_antisym q q').
  by destruct (t ?= t'), (s ?= s'), (q ?= q').
Qed.
Next Obligation. intros a b c. rewrite !rowkey_cmp_lt. lia. Qed.

(** [std::mem::size_of::<RowKey>()]: two [u64] and a [u8], aligned to 8. *)
Definition ROW_KEY_SIZE : Z := 24.

(** ** State and operations *)

Record MemTable := {
  mt_inner : list (RowKey * list Z);
  mt_size_bytes : Z;
  mt_max_size : Z;
  mt_sequence : Z
}.

Definition new (max_size_bytes : Z) : MemTable :=
  {| mt_inner := []; mt_size_bytes := 0; mt_max_size := max_size_bytes; mt_sequence := 0 |}.

(** [MemTable::insert]; both [fetch_add]s wrap. *)
Definition insert (m : MemTable) (timestamp_ns signal : Z) (d : list Z) : MemTable :=
  let key := {| rk_timestamp_ns := timestamp_ns; rk_signal_type := signal;
                rk_sequence := mt_sequence m |} in
  {| mt_inner := bt_insert key d (mt_inner m);
     mt_size_bytes := wrap_u64 (mt_size_bytes m + (ROW_KEY_SIZE + zlen d));
     mt_max_size := mt_max_size m;
     mt_sequence := wrap_u64 (mt_sequence m + 1) |}.

Definition bincode_error : StorageError := Serialisation "bincode".

Definition write_log `{!Bincode LogRecord} (m : MemTable) (r : LogRecord) : outcome StorageError MemTable :=
  d ← ok_or (serialize r) bincode_error;
  Ret (insert m (lr_timestamp_ns r) (signal_u8 Log) d).

Definition write_metric `{!Bincode MetricPoint} (m : MemTable) (r : MetricPoint) : outcome StorageError MemTable :=
  d ← ok_or (serialize r) bincode_error;
  Ret (insert m (mp_timestamp_ns r) (signal_u8 Metric) d).

Definition write_span `{!Bincode SpanRecord} (m : MemTable) (r : SpanRecord) : outcome StorageError MemTable :=
  d ← ok_or (serialize r) bincode_error;
  Ret (insert m (sr_start_time_ns r) (signal_u8 Span) d).

Definition size_bytes (m : MemTable) : Z := mt_size_bytes m.
Definition is_full (m : MemTable) : bool := mt_max_size m <=? size_bytes m.
Definition len (m : MemTable) : Z := zlen (mt_inner m).
Definition is_empty (m : MemTable) : bool := match mt_inner m with [] => true | _ => false end.

(** The rows of one signal, in key order. *)
Definition drain_signal (m : MemTable) (signal : Z) : list (RowKey * list Z) :=
  List.filter (fun kv => rk_signal_type (fst kv) =? signal) (mt_inner m).

Definition iter_all (m : MemTable) : list (RowKey * list Z) := mt_inner m.

(** ** Specification *)

(** What callers insert: a timestamp, a signal byte and the encoded record. *)
Definition arrival : Type := Z * Z * list Z.

Definition insert_all (m : MemTable) (ws : list arrival) : MemTable :=
  fold_left (fun m '(ts, sig, d) => insert m ts sig d) ws m.

(** Rows sorted by timestamp, equal timestamps in order of arrival. *)
Definition stable_sort : list (Z * list Z) -> list (Z * list Z) := sort_by_key fst.

(** The arrivals of one signal, in order of arrival. *)
Definition arrivals_of (sig : Z) (ws : list arrival) : list (Z * list Z) :=
  filter_map (fun '(ts, s, d) => if s =? sig then Some (ts, d) else None) ws.

(** A drained row without its key's signal and sequence. *)
Definition timed (kv : RowKey * list Z) : Z * list Z := (rk_timestamp_ns (fst kv), snd kv).

(** ** Invariant *)

(** Keys are in order and were all issued before the next sequence number. *)
Record mt_inv (m : MemTable) : Prop := {
  inv_wf : bt_wf (mt_inner m);
  inv_seq : Forall (fun kv => rk_sequence (fst kv) < mt_sequence m) (mt_inner m)
}.

Lemma mt_inv_new n : mt_inv (new n).
Proof. by split; constructor. Qed.

Lemma insert_inv m ts sig d :
  mt_inv m -> mt_sequence m + 1 < two64 -> 0 <= mt_sequence m -> mt_inv (insert m ts sig d).
Proof.
  intros [Hwf Hs] Hb Hn. assert (wrap_u64 (mt_sequence m + 1) = mt_sequence m + 1) as E
    by (apply wrap_u64_small; int_lia).
  split; cbn [insert mt_inner mt_sequence]; [by apply bt_insert_wf|]. rewrite E.
  apply Forall_insert; [simpl; lia|]. eapply List.Forall_impl; [|exact Hs]. simpl; lia.
Qed.

#[export] Hint Resolve mt_inv_new insert_inv : infra.

(** ** Refinement of a drain by a stable sort *)

(** A key with the largest sequence number is placed after every row of its
    signal that is not later. *)
Lemma drain_insert ts s q d sig (inner : list (RowKey * list Z)) :
  bt_wf inner -> Forall (fun kv => rk_sequence (fst kv) < q) inner ->
  let row := fun kv : RowKey * list Z => rk_signal_type (fst kv) =? sig in
  let k := {| rk_timestamp_ns := ts; rk_signal_type := s; rk_sequence := q |} in
  map timed (List.filter row (bt_insert k d inner)) =
  if s =? sig then insert_by fst (ts, d) (map timed (List.filter row inner))
  else map timed (List.filter row inner).
Proof.
  intros Hwf Hq row k. induction inner as [|[k0 v0] inner IH]; simpl.
  { unfold row; simpl. by destruct (s =? sig). }
  apply bt_wf_inv in Hwf as [Hwf Hlt]. inversion Hq as [|? ? Hq0 Hq']; subst. simpl in Hq0.
  specialize (IH Hwf Hq'). destruct (rowkey_cmp k k0) eqn:E; simpl.
  - change (kcmp k k0 = Eq) in E. apply kcmp_eq in E. subst k0. simpl in Hq0. lia.
  - unfold row at 1; simpl. destruct (Z.eqb_spec s sig) as [->|Hn]; [|done]. simpl.
    symmetry. change (timed (k, d)) with (ts, d). apply insert_by_before.
    apply List.Forall_map, List.Forall_forall. intros [k1 v1] Hin. simpl.
    change ((if row (k0, v0) then (k0, v0) :: List.filter row inner else List.filter row inner))
      with (List.filter row ((k0, v0) :: inner)) in Hin.
    apply filter_In in Hin as [Hin Hr]. unfold row in Hr; simpl in Hr. apply Z.eqb_eq in Hr.
    assert (rowkey_cmp k k1 = Lt) as Hk.
    { destruct Hin as [[= <- <-]|Hin]; [done|].
      rewrite List.Forall_forall in Hlt. exact (kcmp_trans _ _ _ E (Hlt _ Hin)). }
    apply rowkey_cmp_lt in Hk; simpl in Hk.
    assert (rk_sequence k1 < q) by (destruct Hin as [[= <- <-]|Hin]; [done|];
      rewrite List.Forall_forall in Hq'; exact (Hq' _ Hin)). lia.
  - change (kcmp k k0 = Gt) in E. apply kcmp_gt, rowkey_cmp_lt in E. simpl in E.
    destruct (row (k0, v0)) eqn:Er; [|exact IH]. simpl. rewrite IH.
    unfold row in Er; simpl in Er. apply Z.eqb_eq in Er.
    destruct (Z.eqb_spec s sig); [|done]. subst.
    destruct (Z.ltb_spec ts (rk_timestamp_ns k0)); [lia|done].
Qed.

Lemma insert_all_app m ws1 ws2 : insert_all m (ws1 ++ ws2) = insert_all (insert_all m ws1) ws2.
Proof. apply fold_left_app. Qed.

Lemma insert_all_spec n ws :
  zlen ws < two64 ->
  let m := insert_all (new n) ws in
  mt_inv m /\ mt_sequence m = zlen ws /\
  forall sig, map timed (drain_signal m sig) = stable_sort (arrivals_of sig ws).
Proof.
  induction ws as [|[[ts s] d] ws IH] using rev_ind; intros Hb m; subst m.
  { split; [apply mt_inv_new|]. done. }
  rewrite zlen_app in *. destruct IH as (Hi & Hs & Hd); [cbn in Hb |- *; unfold zlen in *; simpl in *; lia|].
  rewrite insert_all_app. cbn [insert_all fold_left]. change (zlen [(ts, s, d)]) with 1 in *.
  pose proof (zlen_nonneg ws) as Hpos.
  repeat split.
  - apply insert_inv; [done|rewrite Hs; lia|lia].
  - apply insert_inv; [done|rewrite Hs; lia|lia].
  - cbn [insert mt_sequence]. fold (insert_all (new n) ws). rewrite Hs. apply wrap_u64_small. int_lia.
  - intros sig. unfold drain_signal. cbn [insert mt_inner].
    rewrite drain_insert by apply Hi. fold (drain_signal (insert_all (new n) ws) sig).
    rewrite (Hd sig). unfold arrivals_of. rewrite filter_map_app; cbn [filter_map].
    destruct (s =? sig); [|by rewrite app_nil_r].
    unfold stable_sort, sort_by_key. rewrite fold_left_app. done.
Qed.

(** C13: what a flush reads.  After any fewer than [2^64] inserts into a fresh
    table, draining a signal yields exactly the arrivals of that signal,
    sorted by timestamp, rows of equal timestamps in order of arrival: no row
    is lost, duplicated or moved to another signal. *)
Theorem drain_signal_stable_sort n ws sig :
  zlen ws < two64 ->
  let rows := map timed (drain_signal (insert_all (new n) ws) sig) in
  rows = stable_sort (arrivals_of sig ws) /\
  StronglySorted Z.le (map fst rows) /\
  Permutation rows (arrivals_of sig ws) /\
  forall t, List.filter (fun y => fst y =? t) rows =
            List.filter (fun y => fst y =? t) (arrivals_of sig ws).
Proof.
  intros Hb rows. destruct (insert_all_spec n ws Hb) as (_ & _ & Hd).
  unfold rows. rewrite Hd. split; [done|].
  destruct (sort_by_key_spec fst (arrivals_of sig ws)). repeat split; try done.
  intros t. apply sort_by_key_stable.
Qed.

Lemma drain_signal_stable_sort_witness :
  map timed (drain_signal (insert_all (new 1024) [(3, 0, [7]); (1, 0, [8]); (2, 1, [9]); (3, 0, [10])]) 0)
  = [(1, [8]); (3, [7]); (3, [10])].
Proof.
  rewrite (proj1 (drain_signal_stable_sort 1024 [(3, 0, [7]); (1, 0, [8]); (2, 1, [9]); (3, 0, [10])] 0
    ltac:(reflexivity))). reflexivity.
Defined.

(** ** The byte count *)

Definition row_size (w : arrival) : Z := ROW_KEY_SIZE + zlen (snd w).

Lemma insert_all_size m ws :
  0 <= mt_size_bytes m -> mt_size_bytes m + zsum (map row_size ws) < two64 ->
  mt_size_bytes (insert_all m ws) = mt_size_bytes m + zsum (map row_size ws) /\
  mt_max_size (insert_all m ws) = mt_max_size m.
Proof.
  revert m; induction ws as [|[[ts s] d] ws IH]; intros m H0 Hb; [simpl; lia|].
  cbn [map zsum fold_right] in Hb. fold (zsum (map row_size ws)) in Hb.
  assert (0 <= zsum (map row_size ws)).
  { apply zsum_nonneg, List.Forall_map, List.Forall_forall. intros w _.
    unfold row_size, ROW_KEY_SIZE. pose proof (zlen_nonneg (snd w)). lia. }
  change (row_size (ts, s, d)) with (ROW_KEY_SIZE + zlen d) in Hb.
  pose proof (zlen_nonneg d). assert (0 <= ROW_KEY_SIZE) by (unfold ROW_KEY_SIZE; lia).
  assert (mt_size_bytes (insert m ts s d) = mt_size_bytes m + (ROW_KEY_SIZE + zlen d)) as E
    by (cbn [insert mt_size_bytes]; apply wrap_u64_small; int_lia).
  destruct (IH (insert m ts s d)) as [E1 E2]; [lia|rewrite E; lia|].
  change (insert_all m ((ts, s, d) :: ws)) with (insert_all (insert m ts s d) ws).
  rewrite E1, E2, E. cbn [map zsum fold_right]. change (row_size (ts, s, d)) with (ROW_KEY_SIZE + zlen d).
  fold (zsum (map row_size ws)). split; [lia|done].
Qed.

(** The size accounting behind the freeze decision.  The byte count is
    the sum of key and record sizes of everything inserted, so the table
    reports full exactly when that sum reaches the configured maximum. *)
Theorem is_full_iff_bytes n ws :
  zsum (map row_size ws) < two64 ->
  size_bytes (insert_all (new n) ws) = zsum (map row_size ws) /\
  (is_full (insert_all (new n) ws) = true <-> n <= zsum (map row_size ws)).
Proof.
  intros Hb. destruct (insert_all_size (new n) ws) as [E1 E2]; [simpl; lia|simpl; lia|].
  unfold is_full, size_bytes. rewrite E1, E2. simpl. rewrite Z.leb_le. done.
Qed.

Lemma is_full_iff_bytes_witness :
  is_full (insert_all (new 50) [(1, 0, [1]); (2, 0, [2])]) = true /\
  is_full (insert_all (new 51) [(1, 0, [1]); (2, 0, [2])]) = false.
Proof.
  split.
  - apply (proj2 (is_full_iff_bytes 50 [(1, 0, [1]); (2, 0, [2])] ltac:(reflexivity))). vm_compute. discriminate.
  - reflexivity.
Defined.
