(* ===== verification/Fs.v ===== *)
(** * The file system

    The part of [std::fs] and [std::path] the storage crate uses: whole-file
    reads and writes, directory listing, file names.  A file is addressed by
    its directory and its name.  Two things go wrong: the device runs out of
    room in the middle of a write, and any call can fail before it has an
    effect ([fs_faults] holds the fate of the calls to come). *)

From Stdlib Require Import ZArith Lia Ascii.
From stdpp Require Import base tactics list numbers option strings gmap.
From S2P Require Import Prelude Text Wal.

Abbreviation path := (string * string)%type.

Record Fs := {
  fs_files : gmap path (list Z);
  fs_dirs : gset string;
  fs_room : nat;
  fs_faults : list bool
}.

Abbreviation io := (st Fs StorageError).

(** [Path::join] of directories. *)
Definition join (d name : string) : string := (d ++ "/" ++ name)%string.

(** ** File names *)

(** Split at the last dot: what precedes it, if there is one, and the rest. *)
Fixpoint rsplit_dot (s : string) : option string * string :=
  match s with
  | EmptyString => (None, EmptyString)
  | String c s' =>
      match rsplit_dot s' with
      | (Some b, a) => (Some (String c b), a)
      | (None, a) => if (c =? ".")%char then (Some EmptyString, a) else (None, String c a)
      end
  end.

(** [rsplit_file_at_dot] of [std::path]. *)
Definition split_name (name : string) : option string * option string :=
  if (name =? "..")%string then (Some name, None)
  else match rsplit_dot name with
       | (None, a) => (None, Some a)
       | (Some b, a) => if (b =? "")%string then (Some name, None) else (Some b, Some a)
       end.

Definition extension (name : string) : option string :=
  match split_name name with (Some _, a) => a | (None, _) => None end.

Definition file_stem (name : string) : option string :=
  match split_name name with (Some b, _) => Some b | (None, a) => a end.

(** ** Calls *)

Definition set_files (f : gmap path (list Z) -> gmap path (list Z)) (w : Fs) : Fs :=
  {| fs_files := f (fs_files w); fs_dirs := fs_dirs w; fs_room := fs_room w; fs_faults := fs_faults w |}.

(** One system call: it fails, or [m] happens. *)
Definition syscall {A} (m : io A) : io A := fun w =>
  match fs_faults w with
  | [] => m w
  | fault :: rest =>
      let w' := {| fs_files := fs_files w; fs_dirs := fs_dirs w; fs_room := fs_room w; fs_faults := rest |} in
      if fault then (Fail (Io "system call"), w') else m w'
  end.

Definition create_dir_all (d : string) : io unit :=
  syscall (st_modify (fun w => {| fs_files := fs_files w; fs_dirs := {[ d ]} ∪ fs_dirs w;
                                  fs_room := fs_room w; fs_faults := fs_faults w |})).

Definition exists_file (p : path) (w : Fs) : bool := bool_decide (is_Some (fs_files w !! p)).

(** [File::create]: an empty file, in a directory that exists. *)
Definition create_file (p : path) : io unit :=
  syscall (fun w => if bool_decide (fst p ∈ fs_dirs w)
                    then (Ret tt, {| fs_files := <[p := []]> (fs_files w); fs_dirs := fs_dirs w;
                                     fs_room := fs_room w + length (default [] (fs_files w !! p));
                                     fs_faults := fs_faults w |})
                    else (Fail (Io "no such directory"), w)).

(** Write to the end of a file: what fits the device is written. *)
Definition write_file (p : path) (bs : list Z) : io unit := fun w =>
  let '(f, rest) := os_write_all {| os_bytes := default [] (fs_files w !! p); os_room := fs_room w; os_sync := true |} bs in
  (match rest with [] => Ret tt | _ => Fail (Io "no space left") end,
   {| fs_files := <[p := os_bytes f]> (fs_files w); fs_dirs := fs_dirs w;
      fs_room := os_room f; fs_faults := fs_faults w |}).

(** [fs::write]. *)
Definition fs_write (p : path) (bs : list Z) : io unit :=
  _ ← create_file p; write_file p bs.

(** [fs::read] and [File::open]. *)
Definition fs_read (p : path) : io (list Z) :=
  syscall (fun w => (match fs_files w !! p with Some bs => Ret bs | None => Fail (Io "not found") end, w)).

Definition remove_file (p : path) : io unit :=
  syscall (fun w => match fs_files w !! p with
                    | Some bs => (Ret tt, {| fs_files := delete p (fs_files w); fs_dirs := fs_dirs w;
                                             fs_room := fs_room w + length bs; fs_faults := fs_faults w |})
                    | None => (Fail (Io "not found"), w)
                    end).

(** The names of a directory, in no particular order. *)
Definition dir_entries (d : string) (w : Fs) : list string :=
  filter_map (fun '(p, _) => if (fst p =? d)%string then Some (snd p) else None)
    (map_to_list (fs_files w)).

Definition read_dir (d : string) : io (list string) :=
  syscall (fun w => if bool_decide (d ∈ fs_dirs w) then (Ret (dir_entries d w), w)
                    else (Fail (Io "not found"), w)).

(** A device with [n] bytes of room on which no call fails. *)
Definition healthy (w : Fs) : Prop := fs_faults w = [].

(** ** Facts *)

Lemma dir_entries_in d name w :
  In name (dir_entries d w) <-> is_Some (fs_files w !! (d, name)).
Proof.
  unfold dir_entries. rewrite in_filter_map. split.
  - intros ([[d' n'] bs] & Hin & E). simpl in E.
    destruct (String.eqb_spec d' d) as [->|]; simplify_eq.
    apply base.list_elem_of_In, elem_of_map_to_list in Hin. eauto.
  - intros [bs Hbs]. exists ((d, name), bs). split.
    + by apply base.list_elem_of_In, elem_of_map_to_list.
    + simpl. by rewrite String.eqb_refl.
Qed.

Lemma dir_entries_nodup d w : List.NoDup (dir_entries d w).
Proof.
  unfold dir_entries. apply NoDup_filter_map; [apply NoDup_ListNoDup, NoDup_map_to_list|].
  intros [[d1 n1] b1] [[d2 n2] b2] y H1 H2. apply base.list_elem_of_In, elem_of_map_to_list in H1, H2. cbn.
  destruct (String.eqb_spec d1 d) as [->|], (String.eqb_spec d2 d) as [->|]; try done. intros [= ->] [= ->]. by simplify_eq.
Qed.

Lemma syscall_healthy {A} (m : io A) w : healthy w -> syscall m w = m w.
Proof. unfold healthy, syscall. by intros ->. Qed.

Lemma fs_write_ok p bs w :
  healthy w -> fst p ∈ fs_dirs w -> (length bs <= fs_room w)%nat ->
  exists w', fs_write p bs w = (Ret tt, w') /\ healthy w' /\ fs_dirs w' = fs_dirs w /\
    fs_files w' = <[p := bs]> (fs_files w) /\
    (fs_room w' + length bs = fs_room w + length (default [] (fs_files w !! p)))%nat.
Proof.
  intros Hh Hd Hr. unfold fs_write, create_file.
  erewrite st_bind_Ret; [|rewrite syscall_healthy by done; rewrite bool_decide_true by done; reflexivity].
  unfold write_file, os_write_all; cbn [fs_files fs_room fs_dirs fs_faults os_bytes os_room].
  rewrite lookup_insert_eq. cbn [default from_option]. rewrite drop_ge, take_ge by lia.
  eexists; split; [reflexivity|]. cbn [fs_files fs_room fs_dirs fs_faults app].
  rewrite insert_insert_eq. split_and!; try done. unfold id in *. lia.
Qed.

(** A name made of a stem without dots and an extension splits back. *)
Fixpoint no_dot (s : string) : bool :=
  match s with
  | EmptyString => true
  | String c s => negb (c =? ".")%char && no_dot s
  end.

Lemma rsplit_no_dot s : no_dot s = true -> rsplit_dot s = (None, s).
Proof.
  induction s as [|c s IH]; simpl; [done|]. intros H. apply andb_prop in H as [Hc Hs].
  rewrite (IH Hs). apply negb_true_iff in Hc. by rewrite Hc.
Qed.

Lemma rsplit_ext stem ext :
  no_dot ext = true -> rsplit_dot (stem ++ String "." ext)%string = (Some stem, ext).
Proof.
  intros He. induction stem as [|c stem IH]; simpl.
  - by rewrite rsplit_no_dot.
  - by rewrite IH.
Qed.

Lemma name_parts stem ext :
  stem <> ""%string -> (stem ++ String "." ext)%string <> ".."%string -> no_dot ext = true ->
  file_stem (stem ++ String "." ext)%string = Some stem /\
  extension (stem ++ String "." ext)%string = Some ext.
Proof.
  intros Hs Hn He. unfold file_stem, extension, split_name.
  rewrite (proj2 (String.eqb_neq _ _) Hn), rsplit_ext by done.
  by rewrite (proj2 (String.eqb_neq _ _) Hs).
Qed.

#[export] Hint Resolve dir_entries_in : infra.
