(* ===== verification/Hash.v ===== *)
(** * [std::hash::DefaultHasher]

    The Bloom filter and the hash ring both hash byte strings with the
    Standard Library's default hasher.  Its documentation leaves the
    algorithm open, so the theorems are proved against the interface
    [DefaultHasher]; [siphash13] is the algorithm of current releases and
    the instance the witnesses run. *)

From Stdlib Require Import ZArith Lia.
From stdpp Require Import base tactics list numbers option.
From S2P Require Import Prelude.

(** [finish] after the bytes fed with [write]. *)
Class DefaultHasher := {
  hash_finish : list Z -> Z;
  hash_finish_u64 : forall bs, is_u64 (hash_finish bs)
}.

(** What [u64::hash] and [<[u8]>::hash] feed: the eight bytes of the integer;
    a length prefix and the bytes. *)
Definition hash_of_u64 (z : Z) : list Z := le_bytes 8 z.
Definition hash_of_slice (bs : list Z) : list Z := le_bytes 8 (zlen bs) ++ bs.

#[export] Hint Resolve hash_finish_u64 : infra.

(** ** SipHash-1-3 with zero keys *)

Definition rotl (z n : Z) : Z := Z.lor (wrap_u64 (Z.shiftl z n)) (Z.shiftr z (64 - n)).

Definition sip_state : Type := Z * Z * Z * Z.

Definition sip_round (s : sip_state) : sip_state :=
  let '(v0, v1, v2, v3) := s in
  let v0 := wrap_u64 (v0 + v1) in
  let v1 := Z.lxor (rotl v1 13) v0 in
  let v0 := rotl v0 32 in
  let v2 := wrap_u64 (v2 + v3) in
  let v3 := Z.lxor (rotl v3 16) v2 in
  let v0 := wrap_u64 (v0 + v3) in
  let v3 := Z.lxor (rotl v3 21) v0 in
  let v2 := wrap_u64 (v2 + v1) in
  let v1 := Z.lxor (rotl v1 17) v2 in
  let v2 := rotl v2 32 in
  (v0, v1, v2, v3).

Definition sip_absorb (s : sip_state) (m : Z) : sip_state :=
  let '(v0, v1, v2, v3) := s in
  let '(v0, v1, v2, v3) := sip_round (v0, v1, v2, Z.lxor v3 m) in
  (Z.lxor v0 m, v1, v2, v3).

(** Whole words, then the tail with the length in its top byte. *)
Fixpoint sip_words (fuel : nat) (total : Z) (s : sip_state) (bs : list Z) : sip_state :=
  match fuel with
  | O => s
  | S fuel =>
      if (length bs <? 8)%nat then sip_absorb s (Z.lor (Z.shiftl (total mod 256) 56) (le_value bs))
      else sip_words fuel total (sip_absorb s (le_value (take 8 bs))) (drop 8 bs)
  end.

Definition sip_finish (s : sip_state) : Z :=
  let '(v0, v1, v2, v3) := s in
  let '(v0, v1, v2, v3) := sip_round (sip_round (sip_round (v0, v1, Z.lxor v2 255, v3))) in
  Z.lxor (Z.lxor v0 v1) (Z.lxor v2 v3).

Definition siphash13 (bs : list Z) : Z :=
  wrap_u64 (sip_finish (sip_words (S (length bs)) (zlen bs)
    (0x736f6d6570736575, 0x646f72616e646f6d, 0x6c7967656e657261, 0x7465646279746573) bs)).

#[export] Instance siphash_hasher : DefaultHasher :=
  {| hash_finish := siphash13; hash_finish_u64 := fun bs => wrap_u64_range _ |}.

(** The hash of no bytes, as [DefaultHasher::new().finish()] returns it. *)
Example siphash13_empty : siphash13 [] = 15130871412783076140.
Proof. vm_compute. reflexivity. Qed.
