(* ===== verification/ZoneMap.v ===== *)
(** * Zone maps

    [crates/infralens-storage/src/zone_map.rs]: the time range of an SSTable,
    by which queries skip files. *)

From Stdlib Require Import ZArith Lia.
From stdpp Require Import base tactics list numbers option strings gmap.
From S2P Require Import Prelude Text Float64 Model Wal Fs.

Record ColumnStats := {
  cs_min_value : option string;
  cs_max_value : option string;
  cs_null_count : Z;
  cs_row_count : Z
}.

Record ZoneMap := {
  min_timestamp_ns : Z;
  max_timestamp_ns : Z;
  row_count : Z;
  columns : gmap string ColumnStats
}.

Definition zm_new : ZoneMap :=
  {| min_timestamp_ns := u64_max; max_timestamp_ns := 0; row_count := 0; columns := ∅ |}.

(** [ZoneMap::observe_timestamp]. *)
Definition observe_timestamp (zm : ZoneMap) (ts : Z) : ZoneMap :=
  {| min_timestamp_ns := if ts <? min_timestamp_ns zm then ts else min_timestamp_ns zm;
     max_timestamp_ns := if max_timestamp_ns zm <? ts then ts else max_timestamp_ns zm;
     row_count := wrap_u64 (row_count zm + 1);
     columns := columns zm |}.

(** [ZoneMap::overlaps_time_range]. *)
Definition overlaps_time_range (zm : ZoneMap) (start_ns end_ns : Z) : bool :=
  (min_timestamp_ns zm <=? end_ns) && (start_ns <=? max_timestamp_ns zm).

Definition observe_all (zm : ZoneMap) (ts : list Z) : ZoneMap := fold_left observe_timestamp ts zm.

Section Files.
Context `{!Bincode ZoneMap}.

(** [ZoneMap::write_to_file]; the encoding error becomes an I/O error. *)
Definition write_to_file (zm : ZoneMap) (p : path) : io unit :=
  bytes ← st_lift (ok_or (serialize zm) (Io "bincode"));
  fs_write p bytes.

(** [ZoneMap::read_from_file]. *)
Definition read_from_file (p : path) : io ZoneMap :=
  bytes ← fs_read p;
  st_lift (ok_or (deserialize bytes) (Io "bincode")).
End Files.

(** ** The range is the hull of what was observed *)

(** [zm] is the hull of the timestamps [ts]. *)
Definition hull (zm : ZoneMap) (ts : list Z) : Prop :=
  min_timestamp_ns zm = fold_right Z.min u64_max ts /\
  max_timestamp_ns zm = fold_right Z.max 0 ts.

Lemma observe_hull zm ts t : hull zm ts -> hull (observe_timestamp zm t) (t :: ts).
Proof.
  intros [E1 E2]. unfold hull, observe_timestamp; cbn [min_timestamp_ns max_timestamp_ns fold_right].
  rewrite E1, E2. zcases; lia.
Qed.

Lemma observe_all_hull ts zm seen : hull zm seen -> hull (observe_all zm ts) (rev ts ++ seen).
Proof.
  revert zm seen; induction ts as [|t ts IH]; intros zm seen H; [done|].
  simpl. rewrite <- app_assoc. apply (IH _ (t :: seen)). by apply observe_hull.
Qed.

Lemma observe_all_rows ts zm :
  0 <= row_count zm -> row_count zm + zlen ts < two64 ->
  row_count (observe_all zm ts) = row_count zm + zlen ts.
Proof.
  revert zm; induction ts as [|t ts IH]; intros zm H0 Hb; [simpl; unfold zlen; simpl; lia|].
  rewrite zlen_cons in *. pose proof (zlen_nonneg ts).
  assert (row_count (observe_timestamp zm t) = row_count zm + 1) as E
    by (cbn [observe_timestamp row_count]; apply wrap_u64_small; int_lia).
  change (observe_all zm (t :: ts)) with (observe_all (observe_timestamp zm t) ts).
  rewrite IH; rewrite E; lia.
Qed.

Lemma fold_min_le ts t : In t ts -> fold_right Z.min u64_max ts <= t.
Proof. induction ts as [|a ts IH]; simpl; [done|]. intros [->|H]; [lia|]. specialize (IH H). lia. Qed.

Lemma fold_max_ge ts t : In t ts -> t <= fold_right Z.max 0 ts.
Proof. induction ts as [|a ts IH]; simpl; [done|]. intros [->|H]; [lia|]. specialize (IH H). lia. Qed.

Lemma fold_min_in ts : ts <> [] -> Forall is_u64 ts -> In (fold_right Z.min u64_max ts) ts.
Proof.
  intros Hne H. induction H as [|t ts Ht Hts IH]; [done|]. simpl.
  destruct ts as [|t' ts]; [left; simpl; int_lia|].
  destruct (Z.min_spec t (fold_right Z.min u64_max (t' :: ts))) as [[_ ->]|[_ ->]]; [by left|].
  right. by apply IH.
Qed.

Lemma fold_max_in ts : ts <> [] -> Forall is_u64 ts -> In (fold_right Z.max 0 ts) ts.
Proof.
  intros Hne H. induction H as [|t ts Ht Hts IH]; [done|]. simpl.
  destruct ts as [|t' ts]; [left; simpl; int_lia|].
  destruct (Z.max_spec t (fold_right Z.max 0 (t' :: ts))) as [[_ ->]|[_ ->]]; [|by left].
  right. by apply IH.
Qed.

Lemma observe_new_hull ts : hull (observe_all zm_new ts) (rev ts).
Proof. rewrite <- (app_nil_r (rev ts)). by apply observe_all_hull. Qed.

(** A range without overlap contains no observed row. *)
Lemma no_overlap_no_row ts t s e :
  In t ts -> s <= t <= e -> overlaps_time_range (observe_all zm_new ts) s e = true.
Proof.
  intros Hin Ht. destruct (observe_new_hull ts) as [E1 E2].
  apply in_rev in Hin. pose proof (fold_min_le _ _ Hin). pose proof (fold_max_ge _ _ Hin).
  unfold overlaps_time_range. rewrite E1, E2. apply andb_true_intro. split; apply Z.leb_le; lia.
Qed.

(** Time-range pruning is exact on the hull of the rows.  A zone map
    built from timestamps has their least and greatest as its bounds and
    their number as its row count; it overlaps a query range if and only if
    the range meets the interval between the two, so a file that holds a row
    of the range is never skipped. *)
Theorem overlaps_time_range_exact ts s e :
  ts <> [] -> Forall is_u64 ts -> zlen ts < two64 -> s <= e ->
  let zm := observe_all zm_new ts in
  In (min_timestamp_ns zm) ts /\ In (max_timestamp_ns zm) ts /\
  (forall t, In t ts -> min_timestamp_ns zm <= t <= max_timestamp_ns zm) /\
  row_count zm = zlen ts /\
  (overlaps_time_range zm s e = true <->
   exists t, s <= t <= e /\ min_timestamp_ns zm <= t <= max_timestamp_ns zm) /\
  ((exists t, In t ts /\ s <= t <= e) -> overlaps_time_range zm s e = true).
Proof.
  intros Hne Hu Hl Hse zm. destruct (observe_new_hull ts) as [E1 E2]. fold zm in E1, E2.
  assert (rev ts <> []) as Hne' by (intros E; apply Hne; rewrite <- (rev_involutive ts), E; done).
  assert (Forall is_u64 (rev ts)) as Hu' by (by apply List.Forall_rev).
  assert (forall t, In t ts -> min_timestamp_ns zm <= t <= max_timestamp_ns zm) as Hb.
  { intros t Ht. apply in_rev in Ht. rewrite E1, E2.
    split; [by apply fold_min_le|by apply fold_max_ge]. }
  pose proof (fold_min_in _ Hne' Hu') as Hmin. pose proof (fold_max_in _ Hne' Hu') as Hmax.
  rewrite <- E1 in Hmin. rewrite <- E2 in Hmax. apply in_rev in Hmin, Hmax.
  split_and!; try done.
  - unfold zm. rewrite observe_all_rows; simpl; lia.
  - pose proof (Hb _ Hmin). unfold overlaps_time_range. rewrite andb_true_iff, !Z.leb_le. split; [|intros [t Ht]; lia].
    intros [H1 H2]. exists (Z.max s (min_timestamp_ns zm)). lia.
  - intros (t & Hin & Ht). by apply (no_overlap_no_row ts t).
Qed.

Lemma overlaps_time_range_exact_witness :
  overlaps_time_range (observe_all zm_new [1000000; 5000000]) 4000000 6000000 = true.
Proof.
  apply (overlaps_time_range_exact [1000000; 5000000] 4000000 6000000).
  - discriminate.
  - constructor; [split; reflexivity || discriminate|]. constructor; [split; reflexivity || discriminate|constructor].
  - reflexivity.
  - discriminate.
  - exists 5000000. split; [simpl; auto|lia].
Defined.
