(* ===== verification/Bloom.v ===== *)
(** * Bloom filters

    [crates/infralens-storage/src/bloom.rs]: sizing, insertion, membership
    and the byte format.  Indexing out of the bit array and the remainder by
    zero are panics. *)

From Stdlib Require Import ZArith Lia.
From stdpp Require Import base tactics list numbers option strings.
From S2P Require Import Prelude Float64 Hash.

Record BloomFilter := { bits : list Z; num_bits : Z; num_hashes : Z }.

(** [f64::ln], whose precision the Standard Library leaves to the platform. *)
Class Libm := { f64_ln : f64 -> f64 }.

Definition f64_two : f64 := f64_of_Z 2.

Section Bloom.
Context {hasher : DefaultHasher}.

(** [((num_bits + 7) / 8) as usize], in wrapping arithmetic. *)
Definition byte_len (nb : Z) : Z := wrap_u64 (nb + 7) / 8.

(** [BloomFilter::new]. *)
Definition bloom_new `{!Libm} (expected_items : Z) (fp_rate : f64) : BloomFilter :=
  let ln2 := f64_ln f64_two in
  let m := f64_to_u64 (f64_ceil
    (f64_div (f64_mul (f64_neg (f64_of_Z expected_items)) (f64_ln fp_rate)) (f64_mul ln2 ln2))) in
  let nb := Z.max m 64 in
  let nh := f64_to_u32 (f64_ceil
    (f64_mul (f64_div (f64_of_Z nb) (f64_of_Z expected_items)) ln2)) in
  let nh := Z.min (Z.max nh 1) 16 in
  {| bits := repeat 0 (Z.to_nat (byte_len nb)); num_bits := nb; num_hashes := nh |}.

(** [sip_hash]. *)
Definition sip_hash (d : list Z) (seed : Z) : Z := hash_finish (hash_of_u64 seed ++ hash_of_slice d).

(** [BloomFilter::hash_index]. *)
Definition hash_index (bf : BloomFilter) (key : list Z) (seed : Z) : outcome unit Z :=
  let h1 := sip_hash key 0xcafef00ddeadbeef in
  let h2 := sip_hash key (Z.lxor seed 0x0102030405060708) in
  if num_bits bf =? 0 then Panic
  else Ret (wrap_u64 (h1 + wrap_u64 (seed * h2)) mod num_bits bf).

(** The range [0..n]. *)
Definition range (n : Z) : list Z := map Z.of_nat (seq 0 (Z.to_nat n)).

Definition set_bit (bs : list Z) (bit : Z) : outcome unit (list Z) :=
  match bs !! Z.to_nat (bit / 8) with
  | Some b => Ret (<[Z.to_nat (bit / 8) := Z.lor b (Z.shiftl 1 (bit mod 8))]> bs)
  | None => Panic
  end.

Definition test_bit (bs : list Z) (bit : Z) : outcome unit bool :=
  match bs !! Z.to_nat (bit / 8) with
  | Some b => Ret (negb (Z.land b (Z.shiftl 1 (bit mod 8)) =? 0))
  | None => Panic
  end.

(** [BloomFilter::insert]. *)
Definition bloom_insert (bf : BloomFilter) (key : list Z) : outcome unit BloomFilter :=
  foldM (fun bf i =>
    bit ← hash_index bf key i;
    bs ← set_bit (bits bf) bit;
    Ret {| bits := bs; num_bits := num_bits bf; num_hashes := num_hashes bf |})
    bf (range (num_hashes bf)).

(** The loop of [BloomFilter::contains]: stop at the first clear bit. *)
Fixpoint contains_from (bf : BloomFilter) (key : list Z) (seeds : list Z) : outcome unit bool :=
  match seeds with
  | [] => Ret true
  | i :: seeds =>
      bit ← hash_index bf key i;
      b ← test_bit (bits bf) bit;
      if b : bool then contains_from bf key seeds else Ret false
  end.

Definition contains (bf : BloomFilter) (key : list Z) : outcome unit bool :=
  contains_from bf key (range (num_hashes bf)).

(** [BloomFilter::to_bytes]. *)
Definition to_bytes (bf : BloomFilter) : list Z :=
  le_bytes 8 (num_bits bf) ++ le_bytes 4 (num_hashes bf) ++ bits bf.

(** [BloomFilter::from_bytes]. *)
Definition from_bytes (d : list Z) : option BloomFilter :=
  if zlen d <? 12 then None
  else
    let nb := le_value (take 8 d) in
    let nh := le_value (take 4 (drop 8 d)) in
    let bl := byte_len nb in
    if zlen d <? wrap_u64 (12 + bl) then None
    else Some {| bits := take (Z.to_nat bl) (drop 12 d); num_bits := nb; num_hashes := nh |}.

(** ** Well-formed filters *)

(** Every index below [num_bits] falls in the bit array. *)
Record bf_wf (bf : BloomFilter) : Prop := {
  wf_bits : 0 < num_bits bf;
  wf_max : num_bits bf + 7 < two64;
  wf_hashes : is_u32 (num_hashes bf);
  wf_len : zlen (bits bf) = byte_len (num_bits bf)
}.

(** A bit of the array, as [contains] sees it. *)
Definition bit_set (bs : list Z) (bit : Z) : Prop :=
  exists b, bs !! Z.to_nat (bit / 8) = Some b /\ Z.testbit b (bit mod 8) = true.

Lemma byte_len_eq nb : 0 <= nb -> nb + 7 < two64 -> byte_len nb = (nb + 7) / 8.
Proof. intros. unfold byte_len. rewrite wrap_u64_small by int_lia. done. Qed.

Lemma hash_index_wf bf key i :
  bf_wf bf -> exists bit, hash_index bf key i = Ret bit /\ 0 <= bit < num_bits bf.
Proof.
  intros [H0 _ _ _]. unfold hash_index. destruct (Z.eqb_spec (num_bits bf) 0); [lia|].
  eexists; split; [reflexivity|]. apply Z.mod_pos_bound. lia.
Qed.

Lemma index_in_bounds bf bit :
  bf_wf bf -> 0 <= bit < num_bits bf -> is_Some (bits bf !! Z.to_nat (bit / 8)).
Proof.
  intros [H0 Hm _ Hl] Hb. apply lookup_lt_is_Some. unfold zlen in Hl.
  rewrite byte_len_eq in Hl by lia.
  assert (bit / 8 < (num_bits bf + 7) / 8).
  { apply Z.div_lt_upper_bound; [lia|]. pose proof (Z.mod_pos_bound (num_bits bf + 7) 8 ltac:(lia)).
    pose proof (Z.div_mod (num_bits bf + 7) 8 ltac:(lia)). lia. }
  assert (0 <= bit / 8) by (apply Z.div_pos; lia). lia.
Qed.

Lemma testbit_lor_pow b i : 0 <= i -> Z.testbit (Z.lor b (Z.shiftl 1 i)) i = true.
Proof.
  intros Hi. rewrite Z.lor_spec, Z.shiftl_1_l, Z.pow2_bits_eqb by lia.
  by rewrite Z.eqb_refl, orb_true_r.
Qed.

Lemma land_pow_testbit b i : 0 <= i -> negb (Z.land b (Z.shiftl 1 i) =? 0) = Z.testbit b i.
Proof.
  intros Hi. rewrite Z.shiftl_1_l. destruct (Z.testbit b i) eqn:E.
  - apply negb_true_iff, Z.eqb_neq. intros H0.
    assert (Z.testbit (Z.land b (2 ^ i)) i = true) as H by
      (rewrite Z.land_spec, Z.pow2_bits_eqb, Z.eqb_refl, E by lia; done).
    by rewrite H0, Z.bits_0 in H.
  - apply negb_false_iff, Z.eqb_eq. apply Z.bits_inj_0. intros n. rewrite Z.land_spec.
    destruct (Z.eqb_spec n i) as [->|]; [by rewrite E|].
    destruct (Z.le_gt_cases 0 n); [rewrite Z.pow2_bits_eqb by lia|rewrite (Z.testbit_neg_r b) by lia; done].
    destruct (Z.eqb_spec i n); [congruence|]. apply andb_false_r.
Qed.

Lemma test_bit_set bs bit : 0 <= bit -> bit_set bs bit -> test_bit bs bit = Ret true.
Proof.
  intros H0 (b & E & Hb). unfold test_bit. rewrite E.
  by rewrite land_pow_testbit, Hb by (apply Z.mod_pos_bound; lia).
Qed.

(** Setting a bit sets it and clears none. *)
Lemma set_bit_spec bs bit :
  0 <= bit -> is_Some (bs !! Z.to_nat (bit / 8)) ->
  exists bs', set_bit bs bit = Ret bs' /\ zlen bs' = zlen bs /\ bit_set bs' bit /\
    forall b', 0 <= b' -> bit_set bs b' -> bit_set bs' b'.
Proof.
  intros H0 [b E]. unfold set_bit. rewrite E. eexists; split; [reflexivity|].
  assert (Z.to_nat (bit / 8) < length bs)%nat by (by eapply lookup_lt_Some).
  split_and!.
  - unfold zlen. by rewrite length_insert.
  - eexists. rewrite list_lookup_insert_eq by done. split; [done|].
    apply testbit_lor_pow, Z.mod_pos_bound. lia.
  - intros b' Hb' (x & Ex & Hx). destruct (decide (Z.to_nat (b' / 8) = Z.to_nat (bit / 8))) as [Eq|Hne].
    + unfold bit_set. rewrite Eq, list_lookup_insert_eq by done. eexists; split; [done|].
      rewrite Eq, E in Ex. injection Ex as ->. by rewrite Z.lor_spec, Hx.
    + exists x. by rewrite list_lookup_insert_ne.
Qed.

(** What a loop over some seeds leaves: their bits set, the others kept. *)
Lemma insert_loop_spec key seeds bf :
  bf_wf bf ->
  exists bf', foldM (fun bf i =>
      bit ← hash_index bf key i; bs ← set_bit (bits bf) bit;
      Ret {| bits := bs; num_bits := num_bits bf; num_hashes := num_hashes bf |}) bf seeds = Ret bf' /\
    bf_wf bf' /\ num_bits bf' = num_bits bf /\ num_hashes bf' = num_hashes bf /\
    (forall b, 0 <= b -> bit_set (bits bf) b -> bit_set (bits bf') b) /\
    (forall i bit, In i seeds -> hash_index bf key i = Ret bit -> bit_set (bits bf') bit).
Proof.
  revert bf; induction seeds as [|i seeds IH]; intros bf Hwf.
  { exists bf. repeat split; try apply Hwf; try done. }
  destruct (hash_index_wf bf key i Hwf) as (bit & E & Hb).
  destruct (set_bit_spec (bits bf) bit) as (bs & Es & Hl & Hset & Hmono);
    [lia|by apply index_in_bounds|].
  cbn [foldM]. rewrite E. cbn [mbind outcome_bind]. rewrite Es. cbn [mbind outcome_bind].
  set (bf1 := {| bits := bs; num_bits := num_bits bf; num_hashes := num_hashes bf |}).
  destruct (IH bf1) as (bf' & E' & Hwf' & Hn & Hh & Hm & Hi).
  { destruct Hwf. split; simpl; try done. by rewrite Hl. }
  exists bf'. split_and!; [exact E'|done|done|done| |].
  - intros b Hb0 Hbs. apply Hm; [done|]. by apply Hmono.
  - intros j bj [<-|Hj] Ej; [|exact (Hi _ _ Hj Ej)].
    rewrite E in Ej. injection Ej as <-. apply Hm; [lia|done].
Qed.

Lemma contains_all_set bf key seeds :
  bf_wf bf -> (forall i bit, In i seeds -> hash_index bf key i = Ret bit -> bit_set (bits bf) bit) ->
  contains_from bf key seeds = Ret true.
Proof.
  intros Hwf. induction seeds as [|i seeds IH]; intros H; [done|]. cbn [contains_from].
  destruct (hash_index_wf bf key i Hwf) as (bit & E & Hb). rewrite E. cbn [mbind outcome_bind].
  rewrite test_bit_set; [|lia|by apply (H i); [left|]]. cbn [mbind outcome_bind].
  apply IH. intros j bj Hj. apply H. by right.
Qed.

(** Every bit of [key] is set. *)
Definition has_key (bf : BloomFilter) (key : list Z) : Prop :=
  forall i bit, In i (range (num_hashes bf)) -> hash_index bf key i = Ret bit -> bit_set (bits bf) bit.

Lemma bloom_insert_spec bf key :
  bf_wf bf ->
  exists bf', bloom_insert bf key = Ret bf' /\ bf_wf bf' /\ num_bits bf' = num_bits bf /\
    has_key bf' key /\ forall k, has_key bf k -> has_key bf' k.
Proof.
  intros Hwf. destruct (insert_loop_spec key (range (num_hashes bf)) bf Hwf)
    as (bf' & E & Hwf' & Hn & Hh & Hm & Hi).
  exists bf'. split; [exact E|]. split; [done|]. split; [done|].
  assert (forall k i, hash_index bf' k i = hash_index bf k i) as Eq
    by (intros; unfold hash_index; by rewrite Hn).
  unfold has_key. rewrite Hh. split.
  - intros i bit Hin Ei. rewrite Eq in Ei. eauto.
  - intros k Hk i bit Hin Ei. rewrite Eq in Ei.
    destruct (hash_index_wf bf k i Hwf) as (b & Eb & Hb). rewrite Ei in Eb. injection Eb as ->.
    apply Hm; [lia|eauto].
Qed.

(** Insertion of several keys never panics. *)
Lemma bloom_insert_all keys bf :
  bf_wf bf ->
  exists bf', foldM bloom_insert bf keys = Ret bf' /\ bf_wf bf' /\ num_bits bf' = num_bits bf /\
    (forall k, In k keys \/ has_key bf k -> has_key bf' k).
Proof.
  revert bf; induction keys as [|k keys IH]; intros bf Hwf.
  { exists bf. split_and!; [done|done|done|]. intros k' [[]|]; done. }
  destruct (bloom_insert_spec bf k Hwf) as (bf1 & E & Hwf1 & Hn1 & Hk & Hmono).
  destruct (IH bf1 Hwf1) as (bf' & E' & Hwf' & Hn' & Hall).
  exists bf'. cbn [foldM]. rewrite E. cbn [mbind outcome_bind]. split_and!; [done|done|congruence|].
  intros k' [[<-|Hin]|Hk']; apply Hall; auto.
Qed.

Lemma has_key_contains bf k : bf_wf bf -> has_key bf k -> contains bf k = Ret true.
Proof. intros Hwf Hk. by apply contains_all_set. Qed.

(** The filter [bloom_new] makes, unless the bit count leaves no room to
    round up to bytes. *)
Lemma bloom_new_wf `{!Libm} n p :
  num_bits (bloom_new n p) + 7 < two64 -> bf_wf (bloom_new n p).
Proof.
  unfold bloom_new; cbn [num_bits]. set (m := f64_to_u64 _). intros Hm.
  split; cbn [num_bits num_hashes bits]; [lia|done|int_lia|].
  unfold zlen. rewrite repeat_length. rewrite byte_len_eq by lia.
  assert (0 <= (Z.max m 64 + 7) / 8) by (apply Z.div_pos; lia). lia.
Qed.
End Bloom.

(** ** Theorems *)

(** C17: no false negatives.  A filter made by [BloomFilter::new] has between 1
    and 16 hashes and at least 64 bits.  Where its number of bits can be
    rounded up to bytes in 64 bits (below 2^64 - 7), inserting any keys into
    it never panics, and afterwards every inserted key is reported as
    contained; a rate of zero shows that the bound is needed
    ([zero_rate_panics]). *)
Theorem no_false_negatives `{!DefaultHasher, !Libm} n p keys :
  num_bits (bloom_new n p) + 7 < two64 ->
  1 <= num_hashes (bloom_new n p) <= 16 /\ 64 <= num_bits (bloom_new n p) /\
  exists bf, foldM bloom_insert (bloom_new n p) keys = Ret bf /\
    forall k, In k keys -> contains bf k = Ret true.
Proof.
  intros Hm. split; [unfold bloom_new; simpl; lia|]. split; [unfold bloom_new; simpl; lia|].
  destruct (bloom_insert_all keys _ (bloom_new_wf n p Hm)) as (bf & E & Hwf & _ & Hk).
  exists bf. split; [done|]. intros k Hin. apply has_key_contains; auto.
Qed.

(** A logarithm that is right at the two points the witnesses use. *)
Definition libm_test : Libm :=
  {| f64_ln := fun x => if f64_eq x f64_two then f64_of_decimal 6931471805599453 16
                        else f64_neg (f64_of_decimal 3912023005428146 15) |}.

Lemma no_false_negatives_witness :
  num_bits (@bloom_new libm_test 100 (f64_of_decimal 2 2)) = 815 /\
  num_hashes (@bloom_new libm_test 100 (f64_of_decimal 2 2)) = 6 /\
  exists bf, foldM bloom_insert (@bloom_new libm_test 100 (f64_of_decimal 2 2)) [[104; 105]] = Ret bf /\
    forall k, In k [[104; 105]] -> contains bf k = Ret true.
Proof.
  assert (num_bits (@bloom_new libm_test 100 (f64_of_decimal 2 2)) = 815) as E by (vm_compute; reflexivity).
  split; [exact E|]. split; [vm_compute; reflexivity|].
  apply (@no_false_negatives siphash_hasher libm_test 100 (f64_of_decimal 2 2) [[104; 105]]).
  rewrite E. reflexivity.
Defined.

(** A false-positive rate of zero asks for as many bits as 64 bits can
    count, the length in bytes wraps to zero, and the first insertion indexes
    an empty vector. *)
Lemma zero_rate_panics `{!DefaultHasher, !Libm} key :
  f64_ln f64_two = f64_of_decimal 6931471805599453 16 -> f64_ln f64_zero = f64_neg_inf ->
  num_bits (bloom_new 1 f64_zero) = u64_max /\ bits (bloom_new 1 f64_zero) = [] /\
  bloom_insert (bloom_new 1 f64_zero) key = Panic.
Proof.
  intros Htwo Hzero. assert (bloom_new 1 f64_zero = {| bits := []; num_bits := u64_max; num_hashes := 16 |}) as ->.
  { unfold bloom_new. rewrite Htwo, Hzero. vm_compute. reflexivity. }
  split; [reflexivity|]. split; [reflexivity|]. unfold bloom_insert. cbn [num_hashes].
  change (range 16) with (0 :: map Z.of_nat (seq 1 15)). cbn [foldM]. unfold hash_index. cbn [num_bits].
  change (u64_max =? 0) with false. cbn [mbind outcome_bind]. unfold set_bit. cbn [bits].
  by rewrite (lookup_nil (A := Z)).
Qed.

Lemma zlen_to_bytes bf : zlen (to_bytes bf) = 12 + zlen (bits bf).
Proof. unfold to_bytes. rewrite !zlen_app, !zlen_le_bytes. lia. Qed.

(** The two header fields as the reader finds them. *)
Lemma to_bytes_fields bf tl :
  take 8 (to_bytes bf ++ tl) = le_bytes 8 (num_bits bf) /\
  take 4 (drop 8 (to_bytes bf ++ tl)) = le_bytes 4 (num_hashes bf) /\
  drop 12 (to_bytes bf ++ tl) = bits bf ++ tl.
Proof.
  unfold to_bytes. rewrite <- !app_assoc. split_and!.
  - apply take_app_length'. by rewrite length_le_bytes.
  - rewrite drop_app_length' by (by rewrite length_le_bytes).
    apply take_app_length'. by rewrite length_le_bytes.
  - rewrite app_assoc. apply drop_app_length'. by rewrite length_app, !length_le_bytes.
Qed.

Lemma byte_len_bound bf : bf_wf bf -> byte_len (num_bits bf) < two64 - 12.
Proof. intros [H0 Hm _ _]. rewrite byte_len_eq by lia. apply Z.div_lt_upper_bound; lia. Qed.

Lemma from_to_bytes bf tail : bf_wf bf -> from_bytes (to_bytes bf ++ tail) = Some bf.
Proof.
  intros Hwf. pose proof (byte_len_bound bf Hwf) as Hbl. destruct Hwf as [H0 Hm Hh Hl].
  pose proof (zlen_nonneg (bits bf)) as Hb. pose proof (zlen_nonneg tail).
  destruct (to_bytes_fields bf tail) as (T8 & T4 & T12).
  unfold from_bytes. rewrite T8, T4, T12, zlen_app, zlen_to_bytes.
  rewrite le_value_bytes_u64, le_value_bytes_u32 by (done || int_lia).
  rewrite wrap_u64_small by int_lia. zcases; try lia. f_equal. destruct bf as [bs nb nh].
  cbn [bits num_bits num_hashes] in *. f_equal. apply take_app_length'. unfold zlen in Hl. lia.
Qed.

Lemma from_bytes_short bf n :
  bf_wf bf -> (n < length (to_bytes bf))%nat -> from_bytes (take n (to_bytes bf)) = None.
Proof.
  intros Hwf Hn. pose proof (byte_len_bound bf Hwf) as Hbl. destruct Hwf as [H0 Hm Hh Hl].
  pose proof (zlen_nonneg (bits bf)) as Hb. unfold from_bytes.
  assert (zlen (take n (to_bytes bf)) = Z.of_nat n) as Ez by (unfold zlen; rewrite length_take; lia).
  assert (Z.of_nat n < 12 + zlen (bits bf)) as Hz
    by (pose proof (zlen_to_bytes bf) as E; unfold zlen at 1 in E; lia).
  rewrite Ez. destruct (Z.ltb_spec (Z.of_nat n) 12); [done|].
  rewrite take_take. replace (8 `min` n)%nat with 8%nat by lia.
  destruct (to_bytes_fields bf []) as (T & _). rewrite app_nil_r in T.
  rewrite T, le_value_bytes_u64 by int_lia.
  rewrite wrap_u64_small by int_lia.
  destruct (Z.ltb_spec (Z.of_nat n) (12 + byte_len (num_bits bf))); [done|lia].
Qed.

(** The byte format.  Reading back a well-formed filter gives the same
    filter, whatever bytes follow it, and a file cut short anywhere is
    rejected. *)
Theorem bloom_bytes_roundtrip bf tail n :
  bf_wf bf ->
  from_bytes (to_bytes bf ++ tail) = Some bf /\
  ((n < length (to_bytes bf))%nat -> from_bytes (take n (to_bytes bf)) = None).
Proof. intros Hwf. split; [by apply from_to_bytes|by apply from_bytes_short]. Qed.

Lemma bloom_bytes_roundtrip_witness :
  from_bytes (to_bytes {| bits := repeat 5 8; num_bits := 64; num_hashes := 3 |} ++ [1; 2]) =
  Some {| bits := repeat 5 8; num_bits := 64; num_hashes := 3 |}.
Proof.
  apply (bloom_bytes_roundtrip {| bits := repeat 5 8; num_bits := 64; num_hashes := 3 |} [1; 2] 0).
  split; try reflexivity. split; [discriminate|reflexivity].
Defined.
