(* ===== verification/Arrow.v ===== *)
(** * Arrow arrays, record batches and Parquet files

    The values the code hands to the [arrow] and [parquet] crates, and the
    documented behaviour of the calls it makes: [RecordBatch::try_new]
    accepts exactly the columns that fit the schema, and a Parquet file gives
    back the rows written to it.  The crates themselves are interfaces. *)

From Stdlib Require Import ZArith Lia.
From stdpp Require Import base tactics list numbers option strings gmap.
From S2P Require Import Prelude Text Float64 Model Codec.

(** ** Arrays *)

Inductive ArrayRef : Type :=
| UInt64Array (l : list (option Z))
| Int64Array (l : list (option Z))
| Int32Array (l : list (option Z))
| Int8Array (l : list (option Z))
| Float64Array (l : list (option f64))
| StringArray (l : list (option string))
| BinaryArray (l : list (option (list Z)))
| BooleanArray (l : list (option bool)).

Definition data_type (a : ArrayRef) : DataType :=
  match a with
  | UInt64Array _ => UInt64
  | Int64Array _ => Int64
  | Int32Array _ => Int32
  | Int8Array _ => Int8
  | Float64Array _ => Float64
  | StringArray _ => Utf8
  | BinaryArray _ => Binary
  | BooleanArray _ => Boolean
  end.

Definition array_len (a : ArrayRef) : nat :=
  match a with
  | UInt64Array l | Int64Array l | Int32Array l | Int8Array l => length l
  | Float64Array l => length l
  | StringArray l => length l
  | BinaryArray l => length l
  | BooleanArray l => length l
  end.

Definition no_nulls {A} (l : list (option A)) : bool :=
  forallb (fun o => match o with Some _ => true | None => false end) l.

Definition array_no_nulls (a : ArrayRef) : bool :=
  match a with
  | UInt64Array l | Int64Array l | Int32Array l | Int8Array l => no_nulls l
  | Float64Array l => no_nulls l
  | StringArray l => no_nulls l
  | BinaryArray l => no_nulls l
  | BooleanArray l => no_nulls l
  end.

(** One value of an array, whatever its type. *)
Inductive Cell : Type :=
| CNull
| CInt (z : Z)
| CFloat (x : f64)
| CStr (s : string)
| CBin (bs : list Z)
| CBool (b : bool).

Definition cell {A} (f : A -> Cell) (o : option A) : Cell :=
  match o with Some a => f a | None => CNull end.

Definition array_cells (a : ArrayRef) : list Cell :=
  match a with
  | UInt64Array l | Int64Array l | Int32Array l | Int8Array l => map (cell CInt) l
  | Float64Array l => map (cell CFloat) l
  | StringArray l => map (cell CStr) l
  | BinaryArray l => map (cell CBin) l
  | BooleanArray l => map (cell CBool) l
  end.

Lemma length_array_cells a : length (array_cells a) = array_len a.
Proof. destruct a; simpl; by rewrite length_map. Qed.

(** ** Record batches *)

Record RecordBatch := { rb_schema : Schema; rb_columns : list ArrayRef }.

Definition num_rows (b : RecordBatch) : nat :=
  match rb_columns b with [] => O | c :: _ => array_len c end.

(** The rows of a batch, read across its columns. *)
Definition row_at (cols : list ArrayRef) (i : nat) : list Cell :=
  map (fun c => nth i (array_cells c) CNull) cols.

Definition batch_rows (b : RecordBatch) : list (list Cell) :=
  map (row_at (rb_columns b)) (seq 0 (num_rows b)).

Definition batches_rows (bs : list RecordBatch) : list (list Cell) := concat (map batch_rows bs).

Lemma length_batch_rows b : length (batch_rows b) = num_rows b.
Proof. unfold batch_rows. by rewrite length_map, length_seq. Qed.

(** [column_by_name]. *)
Fixpoint column_of (s : Schema) (cols : list ArrayRef) (name : string) : option ArrayRef :=
  match s, cols with
  | f :: s, c :: cols => if (field_name f =? name)%string then Some c else column_of s cols name
  | _, _ => None
  end.

Definition column_by_name (b : RecordBatch) (name : string) : option ArrayRef :=
  column_of (rb_schema b) (rb_columns b) name.

(** What [RecordBatch::try_new] checks: as many columns as fields and at
    least one, equal lengths, the declared types, and no nulls where the
    field is not nullable. *)
Definition column_fits (n : nat) (f : Field) (c : ArrayRef) : bool :=
  bool_decide (data_type c = field_type f) && (array_len c =? n)%nat &&
  (field_nullable f || array_no_nulls c).

Fixpoint columns_fit (n : nat) (s : Schema) (cols : list ArrayRef) : bool :=
  match s, cols with
  | [], [] => true
  | f :: s, c :: cols => column_fits n f c && columns_fit n s cols
  | _, _ => false
  end.

Definition batch_fits (s : Schema) (cols : list ArrayRef) : bool :=
  match cols with
  | [] => false
  | c :: _ => columns_fit (array_len c) s cols
  end.

Class ArrowLib := {
  try_new : Schema -> list ArrayRef -> option RecordBatch;
  try_new_fits : forall s cols, batch_fits s cols = true ->
    try_new s cols = Some {| rb_schema := s; rb_columns := cols |};
  try_new_unfit : forall s cols, batch_fits s cols = false -> try_new s cols = None
}.

(** ** Parquet *)

(** [ArrowWriter] with one [write] per batch and a [close]; the reader with
    a batch size, each of whose batches can be an error. *)
Class ParquetLib := {
  encode_parquet : Schema -> list RecordBatch -> option (list Z);
  decode_parquet : list Z -> nat -> option (list (option RecordBatch));
  parquet_roundtrip : forall s bs bytes n, (0 < n)%nat ->
    encode_parquet s bs = Some bytes ->
    Forall (fun b => rb_schema b = s /\ batch_fits s (rb_columns b) = true) bs ->
    exists out, decode_parquet bytes n = Some (map Some out) /\
      Forall (fun b => rb_schema b = s /\ batch_fits s (rb_columns b) = true) out /\
      batches_rows out = batches_rows bs
}.

(** ** Reference instances

    The checks of [try_new] executed, and a Parquet file that is the code of
    its batches. *)

Definition try_new_reference (s : Schema) (cols : list ArrayRef) : option RecordBatch :=
  if batch_fits s cols then Some {| rb_schema := s; rb_columns := cols |} else None.

Lemma try_new_reference_fits s cols :
  batch_fits s cols = true -> try_new_reference s cols = Some {| rb_schema := s; rb_columns := cols |}.
Proof. unfold try_new_reference. by intros ->. Qed.

Lemma try_new_reference_unfit s cols : batch_fits s cols = false -> try_new_reference s cols = None.
Proof. unfold try_new_reference. by intros ->. Qed.

Definition arrow_reference : ArrowLib :=
  {| try_new := try_new_reference; try_new_fits := try_new_reference_fits;
     try_new_unfit := try_new_reference_unfit |}.

#[export] Instance ArrayRef_eq_dec : EqDecision ArrayRef.
Proof. solve_decision. Defined.

#[export] Instance ArrayRef_countable : Countable ArrayRef.
Proof.
  set (enc := fun a => match a with
    | UInt64Array l => inl (inl (0, l)) | Int64Array l => inl (inl (1, l))
    | Int32Array l => inl (inl (2, l)) | Int8Array l => inl (inl (3, l))
    | Float64Array l => inl (inr l)
    | StringArray l => inr (inl (inl l)) | BinaryArray l => inr (inl (inr l))
    | BooleanArray l => inr (inr l) end).
  set (dec := fun x : (Z * list (option Z) + list (option f64)) +
      ((list (option string) + list (option (list Z))) + list (option bool)) =>
    match x with
    | inl (inl (k, l)) => if k =? 0 then UInt64Array l else if k =? 1 then Int64Array l
                          else if k =? 2 then Int32Array l else Int8Array l
    | inl (inr l) => Float64Array l
    | inr (inl (inl l)) => StringArray l | inr (inl (inr l)) => BinaryArray l
    | inr (inr l) => BooleanArray l end).
  apply (inj_countable' enc dec). by intros [].
Defined.

#[export] Instance DataType_countable : Countable DataType.
Proof.
  set (enc := fun t => match t with UInt64 => 0 | Int64 => 1 | Int32 => 2 | Int8 => 3
                       | Float64 => 4 | Utf8 => 5 | Binary => 6 | Boolean => 7 end).
  set (dec := fun z => if z =? 0 then UInt64 else if z =? 1 then Int64 else if z =? 2 then Int32
    else if z =? 3 then Int8 else if z =? 4 then Float64 else if z =? 5 then Utf8
    else if z =? 6 then Binary else Boolean).
  apply (inj_countable' enc dec). by intros [].
Defined.

#[export] Instance Field_countable : Countable Field.
Proof.
  apply (inj_countable' (fun f => (field_name f, field_type f, field_nullable f))
    (fun '(n, t, b) => F n t b)). by intros [].
Defined.

#[export] Instance RecordBatch_eq_dec : EqDecision RecordBatch.
Proof. solve_decision. Defined.

#[export] Instance RecordBatch_countable : Countable RecordBatch.
Proof.
  apply (inj_countable' (fun b => (rb_schema b, rb_columns b))
    (fun '(s, c) => {| rb_schema := s; rb_columns := c |})). by intros [].
Defined.

Definition decode_reference (bytes : list Z) (n : nat) : option (list (option RecordBatch)) :=
  fmap (map Some) (codec_decode bytes).

Lemma parquet_reference_roundtrip (s : Schema) (bs : list RecordBatch) (bytes : list Z) (n : nat) :
  (0 < n)%nat -> Some (codec_encode bs) = Some bytes ->
  Forall (fun b => rb_schema b = s /\ batch_fits s (rb_columns b) = true) bs ->
  exists out, decode_reference bytes n = Some (map Some out) /\
    Forall (fun b => rb_schema b = s /\ batch_fits s (rb_columns b) = true) out /\
    batches_rows out = batches_rows bs.
Proof.
  intros _ [= <-] Hs. exists bs. unfold decode_reference. by rewrite codec_roundtrip.
Qed.

Definition parquet_reference : ParquetLib :=
  {| encode_parquet := fun s bs => Some (codec_encode bs); decode_parquet := decode_reference;
     parquet_roundtrip := parquet_reference_roundtrip |}.
