(* ===== verification/SSTable.v ===== *)
(** * SSTables

    [crates/infralens-storage/src/sstable.rs]: the record batch builders of
    the three signals, and the writers that put a batch, its Bloom filter and
    its zone map on disk. *)

From Stdlib Require Import ZArith Lia.
From stdpp Require Import base tactics list numbers option strings gmap.
From S2P Require Import Prelude Text Float64 Codec Model Wal Fs Hash ZoneMap Bloom Arrow.

(** ** The crates below the storage engine *)

(** [serde_json::to_string] at the four types it is used at. *)
Class SerdeJson := {
  json_any : AnyValue -> option string;
  json_attrs : attrs -> option string;
  json_events : list SpanEvent -> option string;
  json_links : list SpanLink -> option string
}.

Class Libs := {
  libs_hasher :: DefaultHasher;
  libs_libm :: Libm;
  libs_arrow :: ArrowLib;
  libs_parquet :: ParquetLib;
  libs_json :: SerdeJson;
  libs_zonemap :: Bincode ZoneMap;
  libs_floats :: Bincode (list f64);
  libs_counts :: Bincode (list Z)
}.

(** ** File naming *)

Definition parquet_path (dir : string) (seq : Z) : path := (dir, pad6 seq ++ ".parquet")%string.
Definition bloom_path (dir : string) (seq : Z) : path := (dir, pad6 seq ++ ".bloom")%string.
Definition zonemap_path (dir : string) (seq : Z) : path := (dir, pad6 seq ++ ".zonemap")%string.

Record SSTableMeta := {
  sm_seq : Z;
  sm_signal_type : SignalType;
  sm_dir : string;
  sm_zone_map : ZoneMap
}.

Definition meta_parquet_path (m : SSTableMeta) : path := parquet_path (sm_dir m) (sm_seq m).
Definition meta_bloom_path (m : SSTableMeta) : path := bloom_path (sm_dir m) (sm_seq m).
Definition meta_zonemap_path (m : SSTableMeta) : path := zonemap_path (sm_dir m) (sm_seq m).

Section SSTable.
Context {libs : Libs}.

(** ** Record batch builders *)

Definition json_opt (v : option AnyValue) : option string :=
  match v with Some a => json_any a | None => None end.

Definition json_map (m : attrs) : option string :=
  if bool_decide (m = ∅) then None else json_attrs m.

(** [if s.is_empty() { None } else { Some(s) }]. *)
Definition non_empty (s : string) : option string :=
  if (s =? "")%string then None else Some s.

Definition arrow_error : StorageError := Arrow "record batch".

(** [RecordBatch::try_new(schema, cols)?]. *)
Definition record_batch (s : Schema) (cols : list ArrayRef) : outcome StorageError RecordBatch :=
  ok_or (try_new s cols) arrow_error.

Definition log_columns (records : list LogRecord) : list ArrayRef :=
  [ UInt64Array (map (fun r => Some (lr_timestamp_ns r)) records);
    UInt64Array (map (fun r => Some (lr_observed_timestamp_ns r)) records);
    BinaryArray (map lr_trace_id records);
    BinaryArray (map lr_span_id records);
    Int32Array (map (fun r => Some (lr_severity_number r)) records);
    StringArray (map (fun r => non_empty (lr_severity_text r)) records);
    StringArray (map (fun r => json_opt (lr_body r)) records);
    StringArray (map (fun r => json_map (lr_attributes r)) records);
    StringArray (map (fun r => json_map (lr_resource_attributes r)) records);
    StringArray (map (fun r => non_empty (scope_name (lr_scope r))) records);
    StringArray (map (fun r => non_empty (scope_version (lr_scope r))) records);
    StringArray (map (fun r => non_empty (lr_schema_url r)) records) ].

Definition build_log_batch (records : list LogRecord) (s : Schema) : outcome StorageError RecordBatch :=
  record_batch s (log_columns records).

Definition metric_type_id (mt : MetricType) : Z :=
  match mt with
  | Gauge => 0
  | Sum _ _ => 1
  | Histogram _ => 2
  | ExponentialHistogram _ => 3
  | Summary => 4
  end.

(** [bincode::serialize(..).unwrap_or_default()]. *)
Definition bincode_or_default {A} `{!Bincode A} (a : A) : list Z :=
  default [] (serialize a).

Definition metric_columns (records : list MetricPoint) : list ArrayRef :=
  [ UInt64Array (map (fun r => Some (mp_timestamp_ns r)) records);
    UInt64Array (map (fun r => Some (mp_start_timestamp_ns r)) records);
    StringArray (map (fun r => Some (mp_name r)) records);
    StringArray (map (fun r => non_empty (mp_description r)) records);
    StringArray (map (fun r => non_empty (mp_unit r)) records);
    Int8Array (map (fun r => Some (metric_type_id (mp_metric_type r))) records);
    Float64Array (map mp_value_double records);
    Int64Array (map mp_value_int records);
    UInt64Array (map (fun r => h ← mp_histogram r; Some (hd_count h)) records);
    Float64Array (map (fun r => h ← mp_histogram r; hd_sum h) records);
    BinaryArray (map (fun r => h ← mp_histogram r; Some (bincode_or_default (hd_explicit_bounds h))) records);
    BinaryArray (map (fun r => h ← mp_histogram r; Some (bincode_or_default (hd_bucket_counts h))) records);
    StringArray (map (fun r => json_map (mp_attributes r)) records);
    StringArray (map (fun r => json_map (mp_resource_attributes r)) records);
    StringArray (map (fun r => non_empty (scope_name (mp_scope r))) records);
    StringArray (map (fun r => non_empty (scope_version (mp_scope r))) records);
    StringArray (map (fun r => non_empty (mp_schema_url r)) records) ].

Definition build_metric_batch (records : list MetricPoint) (s : Schema) : outcome StorageError RecordBatch :=
  record_batch s (metric_columns records).

Definition span_columns (records : list SpanRecord) : list ArrayRef :=
  [ BinaryArray (map (fun r => Some (sr_trace_id r)) records);
    BinaryArray (map (fun r => Some (sr_span_id r)) records);
    BinaryArray (map sr_parent_span_id records);
    StringArray (map (fun r => Some (sr_name r)) records);
    Int32Array (map (fun r => Some (sr_kind r)) records);
    UInt64Array (map (fun r => Some (sr_start_time_ns r)) records);
    UInt64Array (map (fun r => Some (sr_end_time_ns r)) records);
    UInt64Array (map (fun r => Some (sr_duration_ns r)) records);
    Int32Array (map (fun r => Some (sr_status_code r)) records);
    StringArray (map (fun r => non_empty (sr_status_message r)) records);
    StringArray (map (fun r => json_map (sr_attributes r)) records);
    StringArray (map (fun r => json_map (sr_resource_attributes r)) records);
    StringArray (map (fun r => non_empty (scope_name (sr_scope r))) records);
    StringArray (map (fun r => non_empty (scope_version (sr_scope r))) records);
    StringArray (map (fun r => json_events (sr_events r)) records);
    StringArray (map (fun r => json_links (sr_links r)) records);
    StringArray (map (fun r => non_empty (sr_schema_url r)) records) ].

Definition build_span_batch (records : list SpanRecord) (s : Schema) : outcome StorageError RecordBatch :=
  record_batch s (span_columns records).

(** ** Writers *)

(** [write_parquet]: the file is created before the encoder runs. *)
Definition write_parquet (b : RecordBatch) (p : path) : io unit :=
  _ ← create_file p;
  bytes ← st_lift (ok_or (encode_parquet (rb_schema b) [b]) (Parquet "write"));
  write_file p bytes.

(** A call that cannot return an error but can panic. *)
Definition infallible {A} (m : outcome unit A) : outcome StorageError A :=
  match m with Ret a => Ret a | _ => Panic end.

Definition fp_rate : f64 := f64_of_decimal 2 2.

(** The loop over the records: one timestamp and one Bloom key each. *)
Definition observe_record (s : ZoneMap * BloomFilter) (r : Z * list Z) : outcome StorageError (ZoneMap * BloomFilter) :=
  bf ← infallible (bloom_insert (snd s) (snd r));
  Ret (observe_timestamp (fst s) (fst r), bf).

(** The three files of an SSTable, in the order they are written. *)
Definition write_files (b : RecordBatch) (zm : ZoneMap) (bf : BloomFilter) (dir : string) (seq : Z) : io unit :=
  _ ← write_parquet b (parquet_path dir seq);
  _ ← fs_write (bloom_path dir seq) (to_bytes bf);
  write_to_file zm (zonemap_path dir seq).

Definition write_logs (records : list LogRecord) (dir : string) (seq : Z) : io SSTableMeta :=
  b ← st_lift (build_log_batch records log_schema);
  '(zm, bf) ← st_lift (foldM observe_record (zm_new, bloom_new (Z.max (zlen records) 1) fp_rate)
    (map (fun r => (lr_timestamp_ns r, bytes_of_string (lr_severity_text r))) records));
  _ ← write_files b zm bf dir seq;
  mret {| sm_seq := seq; sm_signal_type := Log; sm_dir := dir; sm_zone_map := zm |}.

Definition write_metrics (records : list MetricPoint) (dir : string) (seq : Z) : io SSTableMeta :=
  b ← st_lift (build_metric_batch records metric_schema);
  '(zm, bf) ← st_lift (foldM observe_record (zm_new, bloom_new (Z.max (zlen records) 1) fp_rate)
    (map (fun r => (mp_timestamp_ns r, bytes_of_string (mp_name r))) records));
  _ ← write_files b zm bf dir seq;
  mret {| sm_seq := seq; sm_signal_type := Metric; sm_dir := dir; sm_zone_map := zm |}.

Definition write_spans (records : list SpanRecord) (dir : string) (seq : Z) : io SSTableMeta :=
  b ← st_lift (build_span_batch records span_schema);
  '(zm, bf) ← st_lift (foldM observe_record (zm_new, bloom_new (Z.max (zlen records) 1) fp_rate)
    (map (fun r => (sr_start_time_ns r, sr_trace_id r)) records));
  _ ← write_files b zm bf dir seq;
  mret {| sm_seq := seq; sm_signal_type := Span; sm_dir := dir; sm_zone_map := zm |}.

(** [read_parquet], collected. *)
Definition read_parquet (p : path) (batch_size : nat) : io (list (outcome StorageError RecordBatch)) :=
  bytes ← fs_read p;
  bs ← st_lift (ok_or (decode_parquet bytes batch_size) (Parquet "open"));
  mret (map (fun o => ok_or o (Parquet "batch")) bs).

(** ** The builders fit their schemas *)

Lemma no_nulls_some {A B} (f : A -> B) l : no_nulls (map (fun a => Some (f a)) l) = true.
Proof. induction l; simpl; auto. Qed.

Lemma column_fits_map n f c :
  data_type c = field_type f -> array_len c = n -> field_nullable f || array_no_nulls c = true ->
  column_fits n f c = true.
Proof.
  intros E <- Hn. unfold column_fits. rewrite bool_decide_true by done.
  by rewrite Nat.eqb_refl, Hn.
Qed.
End SSTable.

(** Close the check of a literal list of columns against a literal schema. *)
Ltac fit_columns :=
  cbn [columns_fit];
  repeat match goal with
  | |- true = true => reflexivity
  | |- _ && _ = true => apply andb_true_intro; split
  | |- column_fits _ _ _ = true =>
      apply column_fits_map;
      [reflexivity | simpl; by rewrite ?length_map | simpl; try apply no_nulls_some; reflexivity]
  end.

Section Builders.
Context {libs : Libs}.

Lemma log_columns_fit rs : batch_fits log_schema (log_columns rs) = true.
Proof. unfold batch_fits, log_columns, log_schema. cbn [array_len]. rewrite length_map. fit_columns. Qed.

Lemma metric_columns_fit rs : batch_fits metric_schema (metric_columns rs) = true.
Proof. unfold batch_fits, metric_columns, metric_schema. cbn [array_len]. rewrite length_map. fit_columns. Qed.

Lemma span_columns_fit rs : batch_fits span_schema (span_columns rs) = true.
Proof. unfold batch_fits, span_columns, span_schema. cbn [array_len]. rewrite length_map. fit_columns. Qed.
End Builders.

(** ** What is on disk after a write *)

Section OnDisk.
Context {libs : Libs}.

(** The file system takes the three files: the directory exists, the
    encoders accept the data and the device has room for all of it. *)
Definition accepts (w : Fs) (dir : string) (b : RecordBatch) (zm : ZoneMap) (nb : Z) : Prop :=
  healthy w /\ dir ∈ fs_dirs w /\ nb + 7 < two64 /\
  exists pb zb, encode_parquet (rb_schema b) [b] = Some pb /\ serialize zm = Some zb /\
    deserialize zb = Some zm /\
    Z.of_nat (length pb) + (12 + byte_len nb) + Z.of_nat (length zb) <= Z.of_nat (fs_room w).

(** An SSTable that can be read back: the rows of [b], a zone map over [ts]
    and a Bloom filter that holds [keys]. *)
Definition readable (w : Fs) (m : SSTableMeta) (b : RecordBatch) (ts : list Z) (keys : list (list Z)) : Prop :=
  sm_zone_map m = observe_all zm_new ts /\
  (forall n, (0 < n)%nat -> exists out, read_parquet (meta_parquet_path m) n w = (Ret (map Ret out), w) /\
     batches_rows out = batch_rows b /\
     Forall (fun o => rb_schema o = rb_schema b /\ batch_fits (rb_schema b) (rb_columns o) = true) out) /\
  read_from_file (meta_zonemap_path m) w = (Ret (sm_zone_map m), w) /\
  exists bytes bf, fs_read (meta_bloom_path m) w = (Ret bytes, w) /\ from_bytes bytes = Some bf /\
    forall k, In k keys -> contains bf k = Ret true.

Lemma observe_records zm bf rs :
  bf_wf bf ->
  exists bf', foldM observe_record (zm, bf) rs = Ret (observe_all zm (map fst rs), bf') /\
    bf_wf bf' /\ num_bits bf' = num_bits bf /\
    forall k, In k (map snd rs) -> contains bf' k = Ret true.
Proof.
  intros Hwf. destruct (bloom_insert_all (map snd rs) bf Hwf) as (bf' & E & Hwf' & Hn & Hk).
  exists bf'. split_and!; [|done|done|intros k Hin; apply has_key_contains; auto].
  clear Hk Hwf' Hn. revert zm bf Hwf E. induction rs as [|[t k] rs IH]; intros zm bf Hwf E; [by simplify_eq/=|].
  destruct (bloom_insert_spec bf k Hwf) as (bf1 & E1 & Hwf1 & _).
  cbn [map fst snd foldM] in *. unfold observe_record at 2. rewrite E1 in E. cbn [fst snd].
  rewrite E1. cbn [infallible mbind outcome_bind]. by apply IH.
Qed.

(** Names of different kinds of files differ. *)
Lemma names_differ dir seq :
  parquet_path dir seq <> bloom_path dir seq /\ parquet_path dir seq <> zonemap_path dir seq /\
  bloom_path dir seq <> zonemap_path dir seq.
Proof.
  unfold parquet_path, bloom_path, zonemap_path.
  split_and!; intros [= E]; apply String.app_inj in E; done.
Qed.

Lemma write_parquet_ok b p w pb :
  healthy w -> fst p ∈ fs_dirs w -> encode_parquet (rb_schema b) [b] = Some pb ->
  (length pb <= fs_room w)%nat ->
  exists w', write_parquet b p w = (Ret tt, w') /\ healthy w' /\ fs_dirs w' = fs_dirs w /\
    fs_files w' = <[p := pb]> (fs_files w) /\ (fs_room w <= fs_room w' + length pb)%nat.
Proof.
  intros Hh Hd He Hr. destruct (fs_write_ok p pb w Hh Hd Hr) as (w' & E & Hh' & Hd' & Hf & Hroom).
  exists w'. split_and!; try done; [|lia]. unfold write_parquet. rewrite He. exact E.
Qed.

Lemma write_files_ok b zm bf dir seq w pb zb :
  healthy w -> dir ∈ fs_dirs w -> encode_parquet (rb_schema b) [b] = Some pb -> serialize zm = Some zb ->
  (length pb + length (to_bytes bf) + length zb <= fs_room w)%nat ->
  exists w', write_files b zm bf dir seq w = (Ret tt, w') /\ healthy w' /\ fs_dirs w' = fs_dirs w /\
    fs_files w' = <[zonemap_path dir seq := zb]> (<[bloom_path dir seq := to_bytes bf]>
                   (<[parquet_path dir seq := pb]> (fs_files w))).
Proof.
  intros Hh Hd He Hz Hr. unfold write_files.
  destruct (write_parquet_ok b (parquet_path dir seq) w pb) as (w1 & E1 & Hh1 & Hd1 & Hf1 & Hr1); [done|done|done|lia|].
  rewrite (st_bind_Ret _ _ _ _ _ E1).
  destruct (fs_write_ok (bloom_path dir seq) (to_bytes bf) w1) as (w2 & E2 & Hh2 & Hd2 & Hf2 & Hr2);
    [done|simpl; by rewrite Hd1|lia|].
  rewrite (st_bind_Ret _ _ _ _ _ E2).
  destruct (fs_write_ok (zonemap_path dir seq) zb w2) as (w3 & E3 & Hh3 & Hd3 & Hf3 & Hr3);
    [done|simpl; by rewrite Hd2, Hd1|lia|].
  exists w3. split_and!; [|done|congruence|by rewrite Hf3, Hf2, Hf1].
  unfold write_to_file. rewrite Hz. exact E3.
Qed.

Lemma fs_read_lookup p bs w : healthy w -> fs_files w !! p = Some bs -> fs_read p w = (Ret bs, w).
Proof. intros Hh E. unfold fs_read. rewrite syscall_healthy by done. by rewrite E. Qed.

(** The three files, once written, are a readable SSTable. *)
Lemma write_files_readable b ts keys dir seq sig w bf :
  accepts w dir b (observe_all zm_new ts) (num_bits bf) -> bf_wf bf ->
  batch_fits (rb_schema b) (rb_columns b) = true ->
  (forall k, In k keys -> contains bf k = Ret true) ->
  let m := {| sm_seq := seq; sm_signal_type := sig; sm_dir := dir; sm_zone_map := observe_all zm_new ts |} in
  exists w', write_files b (observe_all zm_new ts) bf dir seq w = (Ret tt, w') /\
    readable w' m b ts keys /\ healthy w' /\ fs_dirs w' = fs_dirs w /\
    (forall p, p ≠ parquet_path dir seq -> p ≠ bloom_path dir seq -> p ≠ zonemap_path dir seq ->
       fs_files w' !! p = fs_files w !! p).
Proof.
  intros (Hh & Hd & Hn & pb & zb & Hpb & Hzb & Hdz & Hroom) Hwf Hfit Hk m.
  assert (zlen (to_bytes bf) = 12 + byte_len (num_bits bf)) as Hlb.
  { rewrite zlen_to_bytes. by rewrite (wf_len _ Hwf). }
  unfold zlen in Hlb.
  destruct (write_files_ok b (observe_all zm_new ts) bf dir seq w pb zb) as (w' & E & Hh' & Hd' & Hf);
    [done|done|done|done|lia|].
  exists w'. split; [done|]. destruct (names_differ dir seq) as (N1 & N2 & N3).
  split_and!; [|done|done|].
  - split; [done|]. split_and!.
    + intros n Hn0. destruct (parquet_roundtrip _ [b] pb n Hn0 Hpb) as (out & Ed & Hfo & Er).
      { by repeat constructor. }
      exists out. split; [|split; [rewrite Er; apply app_nil_r|done]]. unfold read_parquet, meta_parquet_path; cbn [sm_dir sm_seq].
      erewrite st_bind_Ret; [|apply (fs_read_lookup _ pb); [done|]].
      * rewrite Ed. unfold st_lift, ok_or, mret, st_ret, mbind, st_bind. by rewrite map_map.
      * cbn [sm_dir sm_seq m]. rewrite Hf. by rewrite !lookup_insert_ne, lookup_insert_eq by done.
    + unfold read_from_file. erewrite st_bind_Ret; [|apply (fs_read_lookup _ zb); [done|]].
      * by rewrite Hdz.
      * unfold meta_zonemap_path; cbn [sm_dir sm_seq m]. by rewrite Hf, lookup_insert_eq.
    + exists (to_bytes bf), bf. split_and!; [|rewrite <- (app_nil_r (to_bytes bf)); by apply from_to_bytes|done].
      apply fs_read_lookup; [done|]. unfold meta_bloom_path; cbn [sm_dir sm_seq m].
      by rewrite Hf, lookup_insert_ne, lookup_insert_eq by done.
  - intros p P1 P2 P3. rewrite Hf. by rewrite !lookup_insert_ne by done.
Qed.
End OnDisk.

Section Claims.
Context {libs : Libs}.

Definition batch_of (s : Schema) (cols : list ArrayRef) : RecordBatch := {| rb_schema := s; rb_columns := cols |}.

Lemma record_batch_fits s cols : batch_fits s cols = true -> record_batch s cols = Ret (batch_of s cols).
Proof. intros Hf. unfold record_batch. by rewrite try_new_fits. Qed.

(** The record batch builders are well typed.  For any records of any of
    the three signals the columns have the types, the nullability and the
    common length the schema declares, so the batch is built and has one row
    per record. *)
Theorem build_batches_fit :
  (forall rs, build_log_batch rs log_schema = Ret (batch_of log_schema (log_columns rs)) /\
     num_rows (batch_of log_schema (log_columns rs)) = length rs) /\
  (forall rs, build_metric_batch rs metric_schema = Ret (batch_of metric_schema (metric_columns rs)) /\
     num_rows (batch_of metric_schema (metric_columns rs)) = length rs) /\
  (forall rs, build_span_batch rs span_schema = Ret (batch_of span_schema (span_columns rs)) /\
     num_rows (batch_of span_schema (span_columns rs)) = length rs).
Proof.
  split_and!; intros rs; (split; [apply record_batch_fits|unfold num_rows; simpl; apply length_map]).
  - apply log_columns_fit.
  - apply metric_columns_fit.
  - apply span_columns_fit.
Qed.

(** The part the three writers share, from a batch that fits its schema. *)
Lemma write_sstable_readable s cols (keyed : list (Z * list Z)) n dir seq sig w :
  let b := batch_of s cols in
  let zm := observe_all zm_new (map fst keyed) in
  let bf := bloom_new n fp_rate in
  batch_fits s cols = true -> accepts w dir b zm (num_bits bf) ->
  exists w', (b ← st_lift (record_batch s cols);
     '(zm, bf) ← st_lift (foldM observe_record (zm_new, bf) keyed);
     _ ← write_files b zm bf dir seq;
     mret {| sm_seq := seq; sm_signal_type := sig; sm_dir := dir; sm_zone_map := zm |}) w =
     (Ret {| sm_seq := seq; sm_signal_type := sig; sm_dir := dir; sm_zone_map := zm |}, w') /\
   readable w' {| sm_seq := seq; sm_signal_type := sig; sm_dir := dir; sm_zone_map := zm |} b
     (map fst keyed) (map snd keyed) /\ healthy w' /\ fs_dirs w' = fs_dirs w /\
   (forall p, p ≠ parquet_path dir seq -> p ≠ bloom_path dir seq -> p ≠ zonemap_path dir seq ->
       fs_files w' !! p = fs_files w !! p).
Proof.
  intros b zm bf Hfit Ha. rewrite record_batch_fits by done.
  assert (bf_wf bf) as Hwf by (apply bloom_new_wf, Ha).
  destruct (observe_records zm_new bf keyed Hwf) as (bf' & E & Hwf' & Hn & Hk).
  rewrite E. rewrite <- Hn in Ha.
  destruct (write_files_readable b (map fst keyed) (map snd keyed) dir seq sig w bf' Ha Hwf' Hfit Hk)
    as (w' & Ew & Hr & Hh & Hd & Ho).
  exists w'. split_and!; [|done|done|done|done].
  rewrite (st_bind_Ret _ _ w b w) by reflexivity.
  rewrite (st_bind_Ret _ _ w (zm, bf') w) by reflexivity.
  by rewrite (st_bind_Ret _ _ _ _ _ Ew).
Qed.

(** C16: a flush puts a readable SSTable on disk.  Where the file system
    accepts the three files, each writer returns the metadata of the table;
    reading the Parquet file at any batch size gives the rows of the batch
    in order, the zone map file holds the range of the records' timestamps,
    the Bloom file holds a filter that contains the key of every record
    (the severity text of a log, the name of a metric, the trace id of a
    span), and no other file has changed. *)
Theorem write_sstables_readable w dir seq :
  (forall rs, accepts w dir (batch_of log_schema (log_columns rs))
       (observe_all zm_new (map lr_timestamp_ns rs)) (num_bits (bloom_new (Z.max (zlen rs) 1) fp_rate)) ->
     exists m w', write_logs rs dir seq w = (Ret m, w') /\ sm_signal_type m = Log /\ sm_seq m = seq /\
       readable w' m (batch_of log_schema (log_columns rs)) (map lr_timestamp_ns rs)
         (map (fun r => bytes_of_string (lr_severity_text r)) rs) /\
       forall p, p ≠ parquet_path dir seq -> p ≠ bloom_path dir seq -> p ≠ zonemap_path dir seq ->
         fs_files w' !! p = fs_files w !! p) /\
  (forall rs, accepts w dir (batch_of metric_schema (metric_columns rs))
       (observe_all zm_new (map mp_timestamp_ns rs)) (num_bits (bloom_new (Z.max (zlen rs) 1) fp_rate)) ->
     exists m w', write_metrics rs dir seq w = (Ret m, w') /\ sm_signal_type m = Metric /\ sm_seq m = seq /\
       readable w' m (batch_of metric_schema (metric_columns rs)) (map mp_timestamp_ns rs)
         (map (fun r => bytes_of_string (mp_name r)) rs) /\
       forall p, p ≠ parquet_path dir seq -> p ≠ bloom_path dir seq -> p ≠ zonemap_path dir seq ->
         fs_files w' !! p = fs_files w !! p) /\
  (forall rs, accepts w dir (batch_of span_schema (span_columns rs))
       (observe_all zm_new (map sr_start_time_ns rs)) (num_bits (bloom_new (Z.max (zlen rs) 1) fp_rate)) ->
     exists m w', write_spans rs dir seq w = (Ret m, w') /\ sm_signal_type m = Span /\ sm_seq m = seq /\
       readable w' m (batch_of span_schema (span_columns rs)) (map sr_start_time_ns rs)
         (map sr_trace_id rs) /\
       forall p, p ≠ parquet_path dir seq -> p ≠ bloom_path dir seq -> p ≠ zonemap_path dir seq ->
         fs_files w' !! p = fs_files w !! p).
Proof.
  split_and!; intros rs Ha.
  - destruct (write_sstable_readable log_schema (log_columns rs)
      (map (fun r => (lr_timestamp_ns r, bytes_of_string (lr_severity_text r))) rs)
      (Z.max (zlen rs) 1) dir seq Log w) as (w' & E & Hr & _ & _ & Ho);
      rewrite ?map_map in *; [apply log_columns_fit|done|eauto 10].
  - destruct (write_sstable_readable metric_schema (metric_columns rs)
      (map (fun r => (mp_timestamp_ns r, bytes_of_string (mp_name r))) rs)
      (Z.max (zlen rs) 1) dir seq Metric w) as (w' & E & Hr & _ & _ & Ho);
      rewrite ?map_map in *; [apply metric_columns_fit|done|eauto 10].
  - destruct (write_sstable_readable span_schema (span_columns rs)
      (map (fun r => (sr_start_time_ns r, sr_trace_id r)) rs)
      (Z.max (zlen rs) 1) dir seq Span w) as (w' & E & Hr & _ & _ & Ho);
      rewrite ?map_map in *; [apply span_columns_fit|done|eauto 10].
Qed.
End Claims.

(** ** A reference instance of the crates *)

#[export] Instance ColumnStats_eq_dec : EqDecision ColumnStats.
Proof. solve_decision. Defined.

#[export] Instance ColumnStats_countable : Countable ColumnStats.
Proof.
  apply (inj_countable' (fun c => (cs_min_value c, cs_max_value c, cs_null_count c, cs_row_count c))
    (fun '(a, b, c, d) => {| cs_min_value := a; cs_max_value := b; cs_null_count := c; cs_row_count := d |})).
  by intros [].
Defined.

#[export] Instance ZoneMap_eq_dec : EqDecision ZoneMap.
Proof. solve_decision. Defined.

#[export] Instance ZoneMap_countable : Countable ZoneMap.
Proof.
  apply (inj_countable' (fun z => (min_timestamp_ns z, max_timestamp_ns z, row_count z, columns z))
    (fun '(a, b, c, d) => {| min_timestamp_ns := a; max_timestamp_ns := b; row_count := c; columns := d |})).
  by intros [].
Defined.

Definition codec_bincode (A : Type) `{Countable A} : Bincode A :=
  {| serialize := fun a => Some (codec_encode a); deserialize := codec_decode |}.

Definition json_reference : SerdeJson :=
  {| json_any := fun _ => Some "null"%string; json_attrs := fun _ => Some "{}"%string;
     json_events := fun _ => Some "[]"%string; json_links := fun _ => Some "[]"%string |}.

Definition libs_reference : Libs :=
  {| libs_hasher := siphash_hasher; libs_libm := libm_test; libs_arrow := arrow_reference;
     libs_parquet := parquet_reference; libs_json := json_reference;
     libs_zonemap := codec_bincode ZoneMap; libs_floats := codec_bincode (list f64);
     libs_counts := codec_bincode (list Z) |}.

(** A disk with just enough room for one table in one directory. *)
Definition disk_for {libs : Libs} (dir : string) (b : RecordBatch) (zm : ZoneMap) (nb : Z) : Fs :=
  {| fs_files := ∅; fs_dirs := {[ dir ]};
     fs_room := length (default [] (encode_parquet (rb_schema b) [b])) + Z.to_nat (12 + byte_len nb) +
                length (default [] (serialize zm));
     fs_faults := [] |}.

Lemma disk_for_accepts dir b zm nb :
  0 <= nb -> nb + 7 < two64 ->
  @accepts libs_reference (@disk_for libs_reference dir b zm nb) dir b zm nb.
Proof.
  intros H0 Hn. split; [done|]. split; [simpl; set_solver|]. split; [done|].
  exists (codec_encode [b]), (codec_encode zm). split_and!; [done|done|apply codec_roundtrip|].
  assert (0 <= byte_len nb) by (rewrite byte_len_eq by lia; apply Z.div_pos; lia).
  cbn [disk_for fs_room serialize libs_zonemap libs_parquet libs_reference encode_parquet parquet_reference
       codec_bincode default from_option]. unfold id. lia.
Qed.

(** One record for the witnesses. *)
Definition log_at (ts : Z) : LogRecord :=
  {| lr_timestamp_ns := ts; lr_observed_timestamp_ns := ts; lr_trace_id := None; lr_span_id := None;
     lr_severity_number := 9; lr_severity_text := "INFO"; lr_body := None; lr_attributes := ∅;
     lr_resource_attributes := ∅; lr_scope := scope_default; lr_schema_url := "" |}.

Lemma write_sstables_readable_witness :
  let rs := [log_at 3; log_at 7] in
  let b := batch_of log_schema (@log_columns libs_reference rs) in
  let nb := num_bits (@bloom_new libm_test 2 fp_rate) in
  let w := @disk_for libs_reference "logs" b (observe_all zm_new [3; 7]) nb in
  exists m w', @write_logs libs_reference rs "logs" 1 w = (Ret m, w') /\
    @readable libs_reference w' m b [3; 7] [[73; 78; 70; 79]; [73; 78; 70; 79]].
Proof.
  intros rs b nb w.
  destruct (proj1 (@write_sstables_readable libs_reference w "logs" 1) rs) as (m & w' & E & _ & _ & Hr & _).
  - apply disk_for_accepts; [apply (bool_decide_unpack (0 <= nb)); vm_compute; done|vm_compute; reflexivity].
  - exists m, w'. split; [exact E|exact Hr].
Defined.
