(* ===== verification/Partition.v ===== *)
(** * Partitions

    [crates/infralens-storage/src/partition.rs]: time buckets, the SSTables
    of one signal in one bucket, and the scan that finds them on disk. *)

From Stdlib Require Import ZArith Lia Sorted Permutation Ascii.
From stdpp Require Import base tactics list numbers option strings gmap.
From S2P Require Import Prelude Text Float64 Codec Model Wal Fs ZoneMap SSTable.

(** ** Keys *)

(** [PartitionKey::for_timestamp]; the remainder by zero panics. *)
Definition for_timestamp (timestamp_ns bucket_ns : Z) : outcome StorageError Z :=
  if bucket_ns =? 0 then Panic else Ret (timestamp_ns - timestamp_ns mod bucket_ns).

(** [chrono]: the UTC date and hour of a time in seconds, as [%Y%m%d%H];
    distinct hours before the year 10000 print differently. *)
Class Chrono := {
  format_hour : Z -> string;
  format_hour_inj : forall a b, 0 <= a < 253402300800 -> 0 <= b < 253402300800 ->
    format_hour a = format_hour b -> a / 3600 = b / 3600
}.

(** [PartitionKey::dir_name]. *)
Definition dir_name `{!Chrono} (key : Z) : string := format_hour (key / 1000000000).

(** ** Signal partitions *)

Record SignalPartition := {
  sp_dir : string;
  sp_sstables : list SSTableMeta;
  sp_next_seq : Z
}.

(** [path.file_stem()...parse().ok().unwrap_or(0)]. *)
Definition stem_seq (name : string) : Z :=
  default 0 (s ← file_stem name; parse_u64 s).

Definition is_zonemap (name : string) : bool :=
  bool_decide (extension name = Some "zonemap"%string).

(** A name with another extension. *)
Lemma other_extension s ext : no_dot ext = true -> ext <> "zonemap"%string -> is_zonemap (s ++ String "."%char ext)%string = false.
Proof.
  intros Hd Hn. apply bool_decide_eq_false. unfold extension, split_name. rewrite (rsplit_ext s ext Hd).
  destruct (_ =? "..")%string; [done|]. destruct (s =? "")%string; congruence.
Qed.

Section Open.
Context `{!Bincode ZoneMap}.

(** One directory entry of the scan. *)
Definition scan_entry (dir : string) (acc : Z * list SSTableMeta) (name : string) : io (Z * list SSTableMeta) :=
  if is_zonemap name then
    let seq := stem_seq name in
    r ← st_try (read_from_file (dir, name));
    mret (Z.max (fst acc) seq,
          match r with
          | Ret zm => snd acc ++ [{| sm_seq := seq; sm_signal_type := Log; sm_dir := dir; sm_zone_map := zm |}]
          | _ => snd acc
          end)
  else mret acc.

Fixpoint scan (dir : string) (acc : Z * list SSTableMeta) (names : list string) : io (Z * list SSTableMeta) :=
  match names with
  | [] => mret acc
  | n :: names => acc' ← scan_entry dir acc n; scan dir acc' names
  end.

(** [SignalPartition::open]. *)
Definition sp_open (dir : string) : io SignalPartition :=
  _ ← create_dir_all dir;
  names ← read_dir dir;
  '(max_seq, sstables) ← scan dir (0, []) names;
  mret {| sp_dir := dir; sp_sstables := sort_by_key sm_seq sstables; sp_next_seq := wrap_u64 (max_seq + 1) |}.
End Open.

(** [SignalPartition::next_seq]. *)
Definition next_seq (sp : SignalPartition) : Z * SignalPartition :=
  (sp_next_seq sp,
   {| sp_dir := sp_dir sp; sp_sstables := sp_sstables sp; sp_next_seq := wrap_u64 (sp_next_seq sp + 1) |}).

Definition add_sstable (m : SSTableMeta) (sp : SignalPartition) : SignalPartition :=
  {| sp_dir := sp_dir sp; sp_sstables := sp_sstables sp ++ [m]; sp_next_seq := sp_next_seq sp |}.

Definition sstable_count (sp : SignalPartition) : Z := zlen (sp_sstables sp).

(** [SignalPartition::candidates]. *)
Definition candidates (sp : SignalPartition) (start_ns end_ns : Z) : list SSTableMeta :=
  List.filter (fun m => overlaps_time_range (sm_zone_map m) start_ns end_ns) (sp_sstables sp).

(** [SignalPartition::wal_path]. *)
Definition sp_wal_path (sp : SignalPartition) : path := (sp_dir sp, "wal.log"%string).

(** ** Partitions *)

Record Partition := {
  p_key : Z;
  p_dir : string;
  p_logs : SignalPartition;
  p_metrics : SignalPartition;
  p_spans : SignalPartition
}.

(** [Partition::open]. *)
Definition p_open `{!Bincode ZoneMap, !Chrono} (base_dir : string) (key : Z) : io Partition :=
  let dir := join (join base_dir "partitions") (dir_name key) in
  _ ← create_dir_all dir;
  logs ← sp_open (join dir "logs");
  metrics ← sp_open (join dir "metrics");
  spans ← sp_open (join dir "spans");
  mret {| p_key := key; p_dir := dir; p_logs := logs; p_metrics := metrics; p_spans := spans |}.

Definition signal_partition (p : Partition) (sig : SignalType) : SignalPartition :=
  match sig with Log => p_logs p | Metric => p_metrics p | Span => p_spans p end.

(** The partition with one signal's part replaced. *)
Definition set_signal (sig : SignalType) (sp : SignalPartition) (p : Partition) : Partition :=
  match sig with
  | Log => {| p_key := p_key p; p_dir := p_dir p; p_logs := sp; p_metrics := p_metrics p; p_spans := p_spans p |}
  | Metric => {| p_key := p_key p; p_dir := p_dir p; p_logs := p_logs p; p_metrics := sp; p_spans := p_spans p |}
  | Span => {| p_key := p_key p; p_dir := p_dir p; p_logs := p_logs p; p_metrics := p_metrics p; p_spans := sp |}
  end.

Lemma signal_set_signal sig sig' sp p :
  signal_partition (set_signal sig sp p) sig' = if decide (sig = sig') then sp else signal_partition p sig'.
Proof. by destruct sig, sig'. Qed.

(** ** Buckets *)

Lemma for_timestamp_spec ts b :
  0 < b -> for_timestamp ts b = Ret (b * (ts / b)).
Proof.
  intros Hb. unfold for_timestamp. destruct (Z.eqb_spec b 0); [lia|]. f_equal.
  pose proof (Z.div_mod ts b). lia.
Qed.

(** Buckets partition time.  With a positive bucket width every timestamp
    has one partition key; the key is a multiple of the width, no later than
    the timestamp and less than a width before it, and two timestamps share
    a key exactly when they fall in the same bucket.  A width of zero, which
    a configuration of zero partition hours gives, panics. *)
Theorem for_timestamp_buckets ts ts' b :
  0 <= b -> 0 <= ts ->
  (b = 0 -> for_timestamp ts b = Panic) /\
  (0 < b -> exists k, for_timestamp ts b = Ret k /\ 0 <= k <= ts /\ ts < k + b /\ k mod b = 0 /\
     (for_timestamp ts' b = Ret k <-> ts / b = ts' / b)).
Proof.
  intros Hb Hts. split; [by intros ->|]. intros Hp. exists (b * (ts / b)).
  pose proof (Z.div_mod ts b). pose proof (Z.mod_pos_bound ts b Hp).
  assert (0 <= ts / b) by (apply Z.div_pos; lia).
  rewrite !for_timestamp_spec by done. split_and!; [done|nia|lia|lia|by rewrite Z.mul_comm, Z.mod_mul by lia|].
  split; [intros [= E]; nia|intros ->; done].
Qed.

Lemma for_timestamp_buckets_witness :
  for_timestamp 7200000000001 3600000000000 = Ret 7200000000000 /\ for_timestamp 5 0 = Panic.
Proof.
  split.
  - destruct (proj2 (for_timestamp_buckets 7200000000001 7200000000000 3600000000000
      ltac:(discriminate) ltac:(discriminate)) ltac:(reflexivity)) as (k & E & _). rewrite E.
    vm_compute in E. symmetry. exact E.
  - apply (for_timestamp_buckets 5 5 0); [discriminate|discriminate|reflexivity].
Defined.

(** ** Directories of distinct partitions *)

(** Distinct partitions do not share a directory.  Two keys that the
    engine can produce with a bucket of whole hours and that print the same
    directory name are equal, so no partition overwrites another's files. *)
Theorem dir_name_injective `{!Chrono} hours ts ts' k k' :
  is_u64 ts -> is_u64 ts' -> 0 < hours ->
  for_timestamp ts (hours * 3600 * 1000000000) = Ret k ->
  for_timestamp ts' (hours * 3600 * 1000000000) = Ret k' ->
  dir_name k = dir_name k' -> k = k'.
Proof.
  intros Hts Hts' Hh E E' Hd. set (b := hours * 3600 * 1000000000) in *.
  rewrite for_timestamp_spec in E, E' by lia. injection E as <-. injection E' as <-.
  assert (forall t, is_u64 t -> 0 <= b * (t / b) <= t) as Hr.
  { intros t Ht. pose proof (Z.div_mod t b). pose proof (Z.mod_pos_bound t b).
    assert (0 <= t / b) by (apply Z.div_pos; int_lia). split; [nia|lia]. }
  assert (forall t, b * (t / b) / 1000000000 = hours * (t / b) * 3600) as Hs.
  { intros t. replace (b * (t / b)) with (hours * (t / b) * 3600 * 1000000000) by lia.
    by apply Z.div_mul. }
  unfold dir_name in Hd. apply format_hour_inj in Hd.
  - rewrite !Hs, !Z.div_mul in Hd by lia. nia.
  - pose proof (Hr ts Hts). split; [apply Z.div_pos; lia|apply Z.div_lt_upper_bound; int_lia].
  - pose proof (Hr ts' Hts'). split; [apply Z.div_pos; lia|apply Z.div_lt_upper_bound; int_lia].
Qed.

(** Hours printed as a number. *)
Definition format_hour_number (s : Z) : string := show_u64 (s / 3600).

Lemma format_hour_number_inj a b :
  0 <= a < 253402300800 -> 0 <= b < 253402300800 -> format_hour_number a = format_hour_number b ->
  a / 3600 = b / 3600.
Proof.
  intros Ha Hb E. apply (f_equal parse_u64) in E. unfold format_hour_number in E.
  assert (forall z, 0 <= z < 253402300800 -> is_u64 (z / 3600)) as H.
  { intros z Hz. split; [apply Z.div_pos; lia|]. apply Z.div_lt_upper_bound; lia. }
  rewrite !parse_show_u64 in E by auto. by injection E.
Qed.

Definition chrono_reference : Chrono :=
  {| format_hour := format_hour_number; format_hour_inj := format_hour_number_inj |}.

Lemma dir_name_injective_witness :
  for_timestamp 7200000000001 3600000000000 = Ret 7200000000000 /\
  @dir_name chrono_reference 7200000000000 = "2"%string /\ 7200000000000 = 7200000000000.
Proof.
  split; [reflexivity|]. split; [reflexivity|].
  apply (@dir_name_injective chrono_reference 1 7200000000001 7200000000000); try reflexivity; split; reflexivity || discriminate.
Defined.

(** ** Opening finds what was written *)

Section Scan.
Context `{!Bincode ZoneMap}.

(** The metadata the scan makes of one file. *)
Definition entry_meta (dir : string) (files : gmap path (list Z)) (name : string) : option SSTableMeta :=
  if is_zonemap name then
    bs ← files !! (dir, name); zm ← deserialize bs;
    Some {| sm_seq := stem_seq name; sm_signal_type := Log; sm_dir := dir; sm_zone_map := zm |}
  else None.

Definition max_stem (m : Z) (names : list string) : Z :=
  fold_left (fun m n => if is_zonemap n then Z.max m (stem_seq n) else m) names m.

Lemma scan_healthy dir names m tabs w :
  healthy w ->
  scan dir (m, tabs) names w =
  (Ret (max_stem m names, tabs ++ filter_map (entry_meta dir (fs_files w)) names), w).
Proof.
  intros Hh. revert m tabs; induction names as [|n names IH]; intros m tabs.
  { simpl. by rewrite app_nil_r. }
  cbn [scan]. assert (scan_entry dir (m, tabs) n w =
    (Ret (if is_zonemap n then Z.max m (stem_seq n) else m,
          tabs ++ match entry_meta dir (fs_files w) n with Some x => [x] | None => [] end), w)) as E.
  { unfold scan_entry, entry_meta. destruct (is_zonemap n); [|by rewrite app_nil_r].
    unfold read_from_file, fs_read. unfold st_try, mbind, st_bind. rewrite syscall_healthy by done.
    destruct (fs_files w !! (dir, n)) as [bs|]; [|by rewrite app_nil_r].
    unfold st_lift, ok_or. cbn. destruct (deserialize bs); [done|by rewrite app_nil_r]. }
  rewrite (st_bind_Ret _ _ _ _ _ E), IH. unfold max_stem. simpl.
  destruct (entry_meta dir (fs_files w) n); by rewrite <- app_assoc.
Qed.

Lemma max_stem_ge m names :
  m <= max_stem m names /\
  forall n, In n names -> is_zonemap n = true -> stem_seq n <= max_stem m names.
Proof.
  revert m; induction names as [|a names IH]; intros m; [split; [simpl; lia|done]|].
  unfold max_stem in *; cbn [fold_left]. split.
  - destruct (is_zonemap a); [|apply IH]. pose proof (proj1 (IH (Z.max m (stem_seq a)))). lia.
  - intros n [->|Hin] Hz; [|by apply IH]. rewrite Hz.
    pose proof (proj1 (IH (Z.max m (stem_seq n)))). lia.
Qed.

Lemma max_stem_lt m names b :
  m < b -> (forall n, In n names -> is_zonemap n = true -> stem_seq n < b) -> max_stem m names < b.
Proof.
  revert m; induction names as [|a names IH]; intros m Hm H; [done|]. unfold max_stem in *; cbn [fold_left].
  apply IH; [|intros; apply H; simpl; auto].
  destruct (is_zonemap a) eqn:E; [|done]. specialize (H a (or_introl eq_refl) E). lia.
Qed.

Lemma zonemap_name seq :
  is_u64 seq -> is_zonemap (pad6 seq ++ ".zonemap")%string = true /\
  stem_seq (pad6 seq ++ ".zonemap")%string = seq.
Proof.
  intros Hs. destruct (name_parts (pad6 seq) "zonemap") as [E1 E2].
  - intros E. pose proof (parse_pad6 seq Hs) as H. by rewrite E in H.
  - intros E. pose proof (parse_pad6 seq Hs) as H. destruct (pad6 seq) as [|c s]; [done|].
    injection E as -> E. destruct s as [|c' s]; [|destruct s]; done.
  - done.
  - unfold is_zonemap, stem_seq.
    rewrite E1, E2. rewrite bool_decide_true by done. split; [done|].
    simpl. by rewrite parse_pad6.
Qed.

Lemma sp_open_healthy dir w :
  healthy w ->
  let names := dir_entries dir w in
  let sp := {| sp_dir := dir;
               sp_sstables := sort_by_key sm_seq (filter_map (entry_meta dir (fs_files w)) names);
               sp_next_seq := wrap_u64 (max_stem 0 names + 1) |} in
  sp_open dir w = (Ret sp, {| fs_files := fs_files w; fs_dirs := {[ dir ]} ∪ fs_dirs w;
                              fs_room := fs_room w; fs_faults := fs_faults w |}).
Proof.
  intros Hh names sp. unfold sp_open. set (w1 := {| fs_files := fs_files w; fs_dirs := {[dir]} ∪ fs_dirs w;
    fs_room := fs_room w; fs_faults := fs_faults w |}).
  assert (healthy w1) as Hh1 by done.
  rewrite (st_bind_Ret _ _ w tt w1) by (unfold create_dir_all; by rewrite syscall_healthy).
  rewrite (st_bind_Ret _ _ w1 names w1).
  2:{ unfold read_dir. rewrite syscall_healthy by done. rewrite bool_decide_true by (simpl; set_solver). done. }
  rewrite (st_bind_Ret _ _ w1 _ w1 (scan_healthy dir names 0 [] w1 Hh1)). done.
Qed.
End Scan.

(** Reopening a directory finds its tables and never reuses a number.
    On a healthy file system the scan succeeds and changes no file; every
    zone map file written under a sequence number is found, its table is
    listed (as a log table, whatever its signal) in sequence order, and the
    next number is greater than all of them, so the next flush overwrites
    none of their files. *)
Theorem sp_open_finds_tables `{!Bincode ZoneMap} dir w :
  healthy w ->
  (forall name, In name (dir_entries dir w) -> is_zonemap name = true -> stem_seq name < u64_max) ->
  exists sp w', sp_open dir w = (Ret sp, w') /\ fs_files w' = fs_files w /\ dir ∈ fs_dirs w' /\
    sp_dir sp = dir /\ StronglySorted Z.le (map sm_seq (sp_sstables sp)) /\
    (forall seq bs, is_u64 seq -> fs_files w !! zonemap_path dir seq = Some bs ->
       seq < sp_next_seq sp /\
       forall zm, deserialize bs = Some zm ->
         In {| sm_seq := seq; sm_signal_type := Log; sm_dir := dir; sm_zone_map := zm |} (sp_sstables sp)) /\
    fs_files w !! zonemap_path dir (sp_next_seq sp) = None.
Proof.
  intros Hh Hmax. eexists _, _. split; [by apply sp_open_healthy|]. cbn [sp_dir sp_sstables sp_next_seq fs_files fs_dirs].
  set (names := dir_entries dir w). destruct (sort_by_key_spec sm_seq (filter_map (entry_meta dir (fs_files w)) names)) as [Hs Hp].
  assert (0 <= max_stem 0 names < u64_max) as Hb.
  { split; [apply max_stem_ge|]. apply max_stem_lt; [int_lia|done]. }
  assert (wrap_u64 (max_stem 0 names + 1) = max_stem 0 names + 1) as Ew by (apply wrap_u64_small; int_lia).
  assert (forall seq bs, is_u64 seq -> fs_files w !! zonemap_path dir seq = Some bs ->
            seq <= max_stem 0 names) as Hle.
  { intros seq bs Hseq E. destruct (zonemap_name seq Hseq) as [Hz <-].
    apply (proj2 (max_stem_ge 0 names)); [|done]. apply dir_entries_in. eauto. }
  split_and!; [done|set_solver|done|done| |].
  - intros seq bs Hseq E. split; [specialize (Hle _ _ Hseq E); lia|]. intros zm Hzm.
    destruct (zonemap_name seq Hseq) as [Hz Hst].
    eapply Permutation_in; [symmetry; exact Hp|]. apply in_filter_map.
    exists (pad6 seq ++ ".zonemap")%string. split; [apply dir_entries_in; eauto|].
    unfold entry_meta. rewrite Hz. unfold zonemap_path in E. rewrite E; simpl. rewrite Hzm; simpl. by rewrite Hst.
  - destruct (fs_files w !! zonemap_path dir (wrap_u64 (max_stem 0 names + 1))) eqn:E; [|done].
    apply Hle in E; [lia|]. auto with infra.
Qed.

Lemma sp_open_finds_tables_witness :
  let bin := codec_bincode ZoneMap in
  let w := {| fs_files := {[ zonemap_path "d" 7 := codec_encode zm_new ]}; fs_dirs := {["d"]};
              fs_room := 0; fs_faults := [] |} in
  exists sp w', @sp_open bin "d" w = (Ret sp, w') /\
    In {| sm_seq := 7; sm_signal_type := Log; sm_dir := "d"; sm_zone_map := zm_new |} (sp_sstables sp).
Proof.
  intros bin w. destruct (@sp_open_finds_tables bin "d" w) as (sp & w' & E & _ & _ & _ & _ & Hf & _).
  - reflexivity.
  - intros name Hin _. destruct (proj1 (dir_entries_in "d" name w) Hin) as [bs Hbs]. cbn [fs_files w] in Hbs.
    apply lookup_singleton_Some in Hbs. destruct Hbs as [Hn _]. injection Hn as <-. reflexivity.
  - exists sp, w'. split; [exact E|]. apply (Hf 7 (codec_encode zm_new)).
    + split; [discriminate|reflexivity].
    + cbn [fs_files w]. apply lookup_singleton_eq.
    + apply codec_roundtrip.
Defined.
