(* ===== verification/Compaction.v ===== *)
(** * Compaction

    [crates/infralens-storage/src/compaction.rs]: all SSTables of a signal
    are read, concatenated into one and deleted. *)

From Stdlib Require Import ZArith Lia Sorted Permutation Ascii.
From stdpp Require Import base tactics list numbers option strings gmap.
From S2P Require Import Prelude Text Float64 Codec Model Wal Fs Hash ZoneMap Bloom Arrow SSTable Partition.

(** The file system and the signal partition a compaction works on. *)
Abbreviation spio := (st (Fs * SignalPartition) StorageError).

Definition on_fs {S A} (m : io A) : st (Fs * S) StorageError A :=
  st_on fst (fun w s => (w, snd s)) m.

Section Compaction.
Context {libs : Libs}.

(** The successful items of an iterator of results. *)
Definition ok_batches (rs : list (outcome StorageError RecordBatch)) : list RecordBatch := filter_map ok rs.

Definition COMPACT_BATCH : nat := Z.to_nat 65536.

(** One input: a missing file, a file that cannot be opened and a batch that
    cannot be decoded are skipped. *)
Definition read_input (acc : list RecordBatch) (m : SSTableMeta) : io (list RecordBatch) :=
  w ← st_get;
  if exists_file (meta_parquet_path m) w then
    r ← st_try (read_parquet (meta_parquet_path m) COMPACT_BATCH);
    mret (match r with Ret rs => acc ++ ok_batches rs | _ => acc end)
  else mret acc.

Fixpoint read_inputs (acc : list RecordBatch) (ms : list SSTableMeta) : io (list RecordBatch) :=
  match ms with
  | [] => mret acc
  | m :: ms => acc' ← read_input acc m; read_inputs acc' ms
  end.

(** The values [zm.observe_timestamp] is called on for one batch.  The time
    columns of the three schemas are not nullable, so the value of a null
    slot does not matter. *)
Definition batch_times (b : RecordBatch) : list Z :=
  let col := match column_by_name b "timestamp_ns" with
             | Some c => Some c
             | None => column_by_name b "start_time_ns"
             end in
  match col with
  | Some (UInt64Array l) => map (default 0) l
  | _ => []
  end.

Definition total_rows (bs : list RecordBatch) : Z := zsum (map (fun b => Z.of_nat (num_rows b)) bs).

(** Create, encode and write the merged file, then [sync_data] on it. *)
Definition write_merged (p : path) (s : Schema) (bs : list RecordBatch) : io unit :=
  _ ← create_file p;
  bytes ← st_lift (ok_or (encode_parquet s bs) (Parquet "write"));
  _ ← write_file p bytes;
  _ ← syscall (fun w => if exists_file p w then (Ret tt, w) else (Fail (Io "not found"), w));
  syscall (mret tt).

Definition delete_file (p : path) : io unit := _ ← st_try (F := StorageError) (remove_file p); mret tt.

(** [delete_sstable_files]; failures are only logged. *)
Definition delete_sstable_files (ms : list SSTableMeta) : io unit :=
  st_iter (fun m => st_iter delete_file [meta_parquet_path m; meta_bloom_path m; meta_zonemap_path m]) ms.

(** Take the list of tables under the lock, then a sequence number. *)
Definition drain_tables : spio (list SSTableMeta * Z) := fun '(w, sp) =>
  let '(seq, sp') := next_seq sp in
  (Ret (sp_sstables sp, seq),
   (w, {| sp_dir := sp_dir sp'; sp_sstables := []; sp_next_seq := sp_next_seq sp' |})).

(** Write the merged table of schema [s] in [dir], register it, and delete
    the inputs. *)
Definition write_output (sig : SignalType) (inputs : list SSTableMeta) (output_seq : Z) (dir : string)
    (s : Schema) (all_batches : list RecordBatch) : spio bool :=
  let zm := observe_all zm_new (concat (map batch_times all_batches)) in
  let bf := bloom_new (Z.max (total_rows all_batches) 1) fp_rate in
  _ ← on_fs (write_merged (parquet_path dir output_seq) s all_batches);
  _ ← on_fs (fs_write (bloom_path dir output_seq) (to_bytes bf));
  _ ← on_fs (write_to_file zm (zonemap_path dir output_seq));
  _ ← st_modify (fun '(w, sp) =>
        (w, add_sstable {| sm_seq := output_seq; sm_signal_type := sig; sm_dir := dir; sm_zone_map := zm |} sp));
  _ ← on_fs (delete_sstable_files inputs);
  mret true.

(** The part of [compact_signal] after [drop(guard)]: it runs without the
    lock, so other threads see the partition without its tables meanwhile
    ([compact_signal_window]). *)
Definition merge_drained (sig : SignalType) (drained : list SSTableMeta * Z) : spio bool :=
  let '(inputs, output_seq) := drained in
  all_batches ← on_fs (read_inputs [] inputs);
  match inputs, all_batches with
  | first :: _, b0 :: _ => write_output sig inputs output_seq (sm_dir first) (rb_schema b0) all_batches
  | _, _ =>
      _ ← on_fs (delete_sstable_files inputs);
      mret false
  end.

(** [compact_signal], run without another thread in between. *)
Definition compact_signal (sig : SignalType) : spio bool :=
  '(_, sp) ← st_get;
  if sstable_count sp <? 2 then mret false
  else drain_tables ≫= merge_drained sig.

(** Run a call on one signal of a partition. *)
Definition on_signal {A} (sig : SignalType) (m : spio A) : st (Fs * Partition) StorageError A :=
  st_on (fun s => (fst s, signal_partition (snd s) sig))
        (fun t s => (fst t, set_signal sig (snd t) (snd s))) m.

(** [compact_partition]: the number of merges; errors are only logged. *)
Fixpoint compact_signals (sigs : list SignalType) (l0_trigger ops : Z) : st (Fs * Partition) StorageError Z :=
  match sigs with
  | [] => mret ops
  | sig :: sigs =>
      '(_, p) ← st_get;
      if l0_trigger <=? sstable_count (signal_partition p sig) then
        r ← st_try (on_signal sig (compact_signal sig));
        compact_signals sigs l0_trigger (match r with Ret true => ops + 1 | _ => ops end)
      else compact_signals sigs l0_trigger ops
  end.

Definition compact_partition (l0_trigger : Z) : st (Fs * Partition) StorageError Z :=
  compact_signals [Log; Metric; Span] l0_trigger 0.
End Compaction.

(** ** The time column *)

Fixpoint field_index (name : string) (s : Schema) : option nat :=
  match s with
  | [] => None
  | f :: s => if (field_name f =? name)%string then Some O else S <$> field_index name s
  end.

(** The column of times: [timestamp_ns], else [start_time_ns]. *)
Definition time_index (s : Schema) : option nat :=
  match field_index "timestamp_ns" s with
  | Some i => Some i
  | None => field_index "start_time_ns" s
  end.

(** The column of times exists, is an unsigned integer and never null. *)
Definition timed_schema (s : Schema) (i : nat) : Prop :=
  time_index s = Some i /\ exists f, s !! i = Some f /\ field_type f = UInt64 /\ field_nullable f = false.

Definition row_time (i : nat) (row : list Cell) : option Z :=
  match row !! i with Some (CInt z) => Some z | _ => None end.

Lemma column_of_index s cols name n :
  columns_fit n s cols = true ->
  column_of s cols name = (i ← field_index name s; cols !! i).
Proof.
  revert cols; induction s as [|f s IH]; intros [|c cols] Hf; try done.
  cbn [columns_fit] in Hf. apply andb_prop in Hf as [_ Hf]. cbn [column_of field_index].
  destruct (_ =? _)%string; [done|]. rewrite (IH _ Hf). by destruct (field_index name s).
Qed.

Lemma columns_fit_lookup n s cols i f :
  columns_fit n s cols = true -> s !! i = Some f ->
  exists c, cols !! i = Some c /\ column_fits n f c = true.
Proof.
  revert cols i; induction s as [|f' s IH]; intros [|c cols] i Hf Hi; try done.
  cbn [columns_fit] in Hf. apply andb_prop in Hf as [Hc Hf].
  destruct i as [|i]; [simplify_eq/=; eauto|]. by apply (IH cols i).
Qed.

Lemma field_index_lt name s i : field_index name s = Some i -> (i < length s)%nat.
Proof.
  revert i; induction s as [|f s IH]; intros i; simpl; [done|]. destruct (_ =? _)%string; [intros [= <-]; lia|].
  destruct (field_index name s); simpl; intros [= <-]. specialize (IH _ eq_refl). lia.
Qed.

Lemma batch_fits_columns b :
  batch_fits (rb_schema b) (rb_columns b) = true ->
  columns_fit (num_rows b) (rb_schema b) (rb_columns b) = true.
Proof. unfold batch_fits, num_rows. by destruct (rb_columns b). Qed.

Lemma times_column b i :
  batch_fits (rb_schema b) (rb_columns b) = true -> timed_schema (rb_schema b) i ->
  exists l, rb_columns b !! i = Some (UInt64Array l) /\ no_nulls l = true /\ length l = num_rows b.
Proof.
  intros Hf (_ & f & Hfi & Ht & Hn). apply batch_fits_columns in Hf.
  destruct (columns_fit_lookup _ _ _ _ _ Hf Hfi) as (c & Hc & Hfit). unfold column_fits in Hfit.
  apply andb_prop in Hfit as [Hfit Hnn]. apply andb_prop in Hfit as [Hty Hlen].
  apply bool_decide_eq_true in Hty. apply Nat.eqb_eq in Hlen. rewrite Hn in Hnn. rewrite Ht in Hty.
  destruct c; try done. eexists; split_and!; [exact Hc|exact Hnn|exact Hlen].
Qed.

Lemma batch_times_column b i l :
  batch_fits (rb_schema b) (rb_columns b) = true -> time_index (rb_schema b) = Some i ->
  rb_columns b !! i = Some (UInt64Array l) -> batch_times b = map (default 0) l.
Proof.
  intros Hf Hi Hl. apply batch_fits_columns in Hf. unfold batch_times, column_by_name.
  rewrite !(column_of_index _ _ _ _ Hf). unfold time_index in Hi.
  destruct (field_index "timestamp_ns" (rb_schema b)) as [j|] eqn:E; simpl.
  - simplify_eq. by rewrite Hl.
  - rewrite Hi; simpl. by rewrite Hl.
Qed.

(** The times a batch contributes are those of its rows. *)
Lemma batch_times_rows b i :
  batch_fits (rb_schema b) (rb_columns b) = true -> timed_schema (rb_schema b) i ->
  batch_times b = filter_map (row_time i) (batch_rows b).
Proof.
  intros Hf Ht. destruct (times_column b i Hf Ht) as (l & Hl & Hn & Hlen).
  rewrite (batch_times_column b i l Hf (proj1 Ht) Hl). unfold batch_rows. rewrite <- Hlen.
  assert (forall k, row_time i (row_at (rb_columns b) k) =
    match nth k (map (cell CInt) l) CNull with CInt z => Some z | _ => None end) as Er.
  { intros k. unfold row_time, row_at. rewrite list_lookup_fmap, Hl. done. }
  clear Hl Hf Ht Hlen. assert (forall pre, (forall k, row_time i (row_at (rb_columns b) k) =
    match nth k (map (cell CInt) (pre ++ l)) CNull with CInt z => Some z | _ => None end) ->
    map (default 0) l = filter_map (row_time i) (map (row_at (rb_columns b)) (seq (length pre) (length l)))) as H;
    [|exact (H [] Er)].
  clear Er. induction l as [|o l IH]; intros pre Hpre; [done|]. cbn [no_nulls forallb] in Hn.
  apply andb_prop in Hn as [Ho Hn]. destruct o as [z|]; [|done]. cbn [map length seq filter_map].
  rewrite (Hpre (length pre)). rewrite map_app, app_nth2 by (rewrite length_map; lia).
  rewrite length_map, Nat.sub_diag. cbn [map nth cell]. f_equal.
  replace (S (length pre)) with (length (pre ++ [Some z])) by (rewrite length_app; simpl; lia).
  apply IH; [done|]. intros k. by rewrite <- app_assoc.
Qed.

(** ** Reading the inputs *)

Section Steps.
Context {libs : Libs}.

Definition fits (s : Schema) (b : RecordBatch) : Prop :=
  rb_schema b = s /\ batch_fits s (rb_columns b) = true.

(** The Parquet file of [m] holds exactly [bs], all of schema [s]. *)
Definition table_holds (w : Fs) (s : Schema) (m : SSTableMeta) (bs : list RecordBatch) : Prop :=
  exists bytes, fs_files w !! meta_parquet_path m = Some bytes /\
    decode_parquet bytes COMPACT_BATCH = Some (map Some bs) /\ Forall (fits s) bs.

Lemma ok_batches_all bs : ok_batches (map (fun o => ok_or o (Parquet "batch")) (map Some bs)) = bs.
Proof. unfold ok_batches. induction bs; simpl; by f_equal. Qed.

Lemma read_input_holds w s m bs acc :
  healthy w -> table_holds w s m bs -> read_input acc m w = (Ret (acc ++ bs), w).
Proof.
  intros Hh (bytes & Hf & Hd & _). unfold read_input.
  rewrite (st_bind_Ret _ _ w w w) by done. unfold exists_file. rewrite bool_decide_true by eauto.
  erewrite st_bind_Ret; [|unfold st_try, read_parquet; rewrite (st_bind_Ret _ _ w bytes w) by (by apply fs_read_lookup);
    rewrite Hd; reflexivity].
  cbv beta iota.
  by rewrite ok_batches_all.
Qed.

Lemma read_inputs_holds w s ms bss acc :
  healthy w -> Forall2 (table_holds w s) ms bss ->
  read_inputs acc ms w = (Ret (acc ++ concat bss), w).
Proof.
  intros Hh H. revert acc; induction H as [|m bs ms bss Hm H IH]; intros acc; simpl; [by rewrite app_nil_r|].
  rewrite (st_bind_Ret _ _ _ _ _ (read_input_holds w s m bs acc Hh Hm)), IH. by rewrite <- app_assoc.
Qed.

(** ** Deleting *)

Definition table_paths (ms : list SSTableMeta) : list path :=
  concat (map (fun m => [meta_parquet_path m; meta_bloom_path m; meta_zonemap_path m]) ms).

Definition drop_files (w w' : Fs) (ps : list path) : Prop :=
  healthy w' /\ fs_dirs w' = fs_dirs w /\
  forall p, fs_files w' !! p = if decide (p ∈ ps) then None else fs_files w !! p.

Lemma delete_file_ok p w : healthy w -> exists w', delete_file p w = (Ret tt, w') /\ drop_files w w' [p].
Proof.
  intros Hh. unfold delete_file, remove_file, st_try, mbind, st_bind. rewrite syscall_healthy by done.
  destruct (fs_files w !! p) as [bs|] eqn:E.
  - eexists; split; [reflexivity|]. split_and!; [done|done|]. intros p'. cbn [fs_files].
    destruct (decide (p' ∈ [p])) as [Hin|Hn]; [apply list_elem_of_singleton in Hin as ->; apply lookup_delete_eq|].
    apply lookup_delete_ne. intros ->. apply Hn. by apply list_elem_of_singleton.
  - eexists; split; [reflexivity|]. split_and!; [done|done|]. intros p'.
    destruct (decide (p' ∈ [p])) as [Hin|]; [by apply list_elem_of_singleton in Hin as ->|done].
Qed.

Lemma delete_iter_ok ps w : healthy w -> exists w', st_iter delete_file ps w = (Ret tt, w') /\ drop_files w w' ps.
Proof.
  revert w; induction ps as [|p ps IH]; intros w Hh.
  { exists w. split; [done|]. split_and!; [done|done|]. intros p. by rewrite decide_False by set_solver. }
  destruct (delete_file_ok p w Hh) as (w1 & E1 & Hh1 & Hd1 & Hf1).
  destruct (IH w1 Hh1) as (w2 & E2 & Hh2 & Hd2 & Hf2). exists w2. cbn [st_iter].
  rewrite (st_bind_Ret _ _ _ _ _ E1). split; [done|]. split_and!; [done|congruence|].
  intros p'. rewrite Hf2, Hf1. repeat case_decide; set_solver.
Qed.

Lemma delete_tables_ok ms w :
  healthy w -> exists w', delete_sstable_files ms w = (Ret tt, w') /\ drop_files w w' (table_paths ms).
Proof.
  unfold delete_sstable_files. revert w; induction ms as [|m ms IH]; intros w Hh.
  { exists w. split; [done|]. split_and!; [done|done|]. intros p. by rewrite decide_False by set_solver. }
  destruct (delete_iter_ok [meta_parquet_path m; meta_bloom_path m; meta_zonemap_path m] w Hh)
    as (w1 & E1 & Hh1 & Hd1 & Hf1).
  destruct (IH w1 Hh1) as (w2 & E2 & Hh2 & Hd2 & Hf2). exists w2.
  cbn [st_iter] in *. rewrite (st_bind_Ret _ _ _ _ _ E1). split; [done|]. split_and!; [done|congruence|].
  intros p'. rewrite Hf2, Hf1. unfold table_paths. cbn [map concat].
  repeat case_decide; set_solver.
Qed.

(** ** Writing the merged table *)

Lemma write_merged_ok p s bs w pb :
  healthy w -> fst p ∈ fs_dirs w -> encode_parquet s bs = Some pb -> (length pb <= fs_room w)%nat ->
  exists w', write_merged p s bs w = (Ret tt, w') /\ healthy w' /\ fs_dirs w' = fs_dirs w /\
    fs_files w' = <[p := pb]> (fs_files w) /\ (fs_room w <= fs_room w' + length pb)%nat.
Proof.
  intros Hh Hd He Hr. destruct (fs_write_ok p pb w Hh Hd Hr) as (w' & E & Hh' & Hd' & Hf & Hroom).
  exists w'. split_and!; try done; [|lia]. unfold write_merged. rewrite He.
  unfold fs_write in E. apply st_bind_inv in E as (u & w1 & E1 & E2). destruct u.
  rewrite (st_bind_Ret _ _ _ _ _ E1), (st_bind_Ret _ _ w1 pb w1) by done.
  rewrite (st_bind_Ret _ _ _ _ _ E2). rewrite (st_bind_Ret _ _ w' tt w').
  - by rewrite syscall_healthy.
  - rewrite syscall_healthy by done. unfold exists_file. rewrite Hf, lookup_insert_eq.
    by rewrite bool_decide_true by eauto.
Qed.
End Steps.

(** ** Fresh names *)

Lemma pad6_parts seq ext :
  is_u64 seq -> no_dot ext = true ->
  file_stem (pad6 seq ++ String "." ext)%string = Some (pad6 seq) /\
  extension (pad6 seq ++ String "." ext)%string = Some ext.
Proof.
  intros Hs He. pose proof (parse_pad6 seq Hs) as H. apply name_parts; [|intros E|done].
  - intros E. by rewrite E in H.
  - destruct (pad6 seq) as [|c s]; [done|]. injection E as -> E. by destruct s as [|c' [|]].
Qed.

(** Files of different sequence numbers have different names. *)
Lemma table_names_distinct m dir seq p :
  is_u64 seq -> is_u64 (sm_seq m) -> sm_seq m <> seq ->
  p ∈ table_paths [m] -> p <> parquet_path dir seq /\ p <> bloom_path dir seq /\ p <> zonemap_path dir seq.
Proof.
  intros Hs Hm Hne Hin.
  assert (forall e1 e2, no_dot e1 = true -> no_dot e2 = true ->
    (pad6 (sm_seq m) ++ String "." e1)%string <> (pad6 seq ++ String "." e2)%string) as Hd.
  { intros e1 e2 H1 H2 E. destruct (pad6_parts (sm_seq m) e1 Hm H1) as [F1 _].
    destruct (pad6_parts seq e2 Hs H2) as [F2 _]. rewrite E, F2 in F1. injection F1 as F1.
    pose proof (parse_pad6 seq Hs) as P1. pose proof (parse_pad6 _ Hm) as P2. congruence. }
  unfold table_paths in Hin; cbn [map concat] in Hin. rewrite app_nil_r in Hin.
  unfold meta_parquet_path, meta_bloom_path, meta_zonemap_path, parquet_path, bloom_path, zonemap_path in *.
  repeat (apply elem_of_cons in Hin as [->|Hin]); [..|by apply elem_of_nil in Hin];
    (split_and!; intros [= _ E]; revert E; by apply Hd).
Qed.

(** ** The merge *)

Section Merge.
Context {libs : Libs}.

Definition merged_zone_map (bs : list RecordBatch) : ZoneMap := observe_all zm_new (concat (map batch_times bs)).
Definition merged_bloom (bs : list RecordBatch) : BloomFilter := bloom_new (Z.max (total_rows bs) 1) fp_rate.

(** The inputs are tables of this directory under earlier numbers, their
    files hold the batches [bss], and the file system takes the merge. *)
Record mergeable (w : Fs) (sp : SignalPartition) (s : Schema) (bss : list (list RecordBatch)) : Prop := {
  mg_healthy : healthy w;
  mg_dir : sp_dir sp ∈ fs_dirs w;
  mg_two : 2 <= zlen (sp_sstables sp);
  mg_tables : Forall (fun m => sm_dir m = sp_dir sp /\ 0 <= sm_seq m < sp_next_seq sp) (sp_sstables sp);
  mg_seq : sp_next_seq sp + 1 < two64;
  mg_holds : Forall2 (table_holds w s) (sp_sstables sp) bss;
  mg_some : concat bss <> [];
  mg_bits : num_bits (merged_bloom (concat bss)) + 7 < two64;
  mg_room : exists pb zb, encode_parquet s (concat bss) = Some pb /\
    serialize (merged_zone_map (concat bss)) = Some zb /\
    deserialize zb = Some (merged_zone_map (concat bss)) /\
    (length pb + length (to_bytes (merged_bloom (concat bss))) + length zb <= fs_room w)%nat
}.

Lemma mergeable_fits w sp s bss : mergeable w sp s bss -> Forall (fits s) (concat bss).
Proof.
  intros Hm. pose proof (mg_holds _ _ _ _ Hm) as H. clear Hm. revert H. generalize (sp_sstables sp).
  intros ms H. induction H as [|m bs ms bss' (? & _ & _ & Hf) H IH]; simpl; [constructor|].
  apply List.Forall_app. split; [exact Hf|exact IH].
Qed.

(** The output's names are none of the inputs'. *)
Lemma output_names_fresh w sp s bss p :
  mergeable w sp s bss -> p ∈ table_paths (sp_sstables sp) ->
  p <> parquet_path (sp_dir sp) (sp_next_seq sp) /\ p <> bloom_path (sp_dir sp) (sp_next_seq sp) /\
  p <> zonemap_path (sp_dir sp) (sp_next_seq sp).
Proof.
  intros Hm Hin. pose proof (mg_tables _ _ _ _ Hm) as Ht. pose proof (mg_seq _ _ _ _ Hm) as Hs.
  revert Hin. induction Ht as [|m ms [_ Hr] Ht IH]; [by intros ?%elem_of_nil|].
  change (table_paths (m :: ms)) with (table_paths [m] ++ table_paths ms).
  rewrite elem_of_app. intros [Hin|Hin]; [|by apply IH].
  apply (table_names_distinct m); [int_lia..|done].
Qed.

Lemma output_fresh w sp s bss :
  mergeable w sp s bss -> parquet_path (sp_dir sp) (sp_next_seq sp) ∉ table_paths (sp_sstables sp).
Proof. intros Hm Hin. by destruct (output_names_fresh _ _ _ _ _ Hm Hin). Qed.

Lemma output_fresh_bloom w sp s bss :
  mergeable w sp s bss -> bloom_path (sp_dir sp) (sp_next_seq sp) ∉ table_paths (sp_sstables sp).
Proof. intros Hm Hin. by destruct (output_names_fresh _ _ _ _ _ Hm Hin) as (_ & ? & _). Qed.

Lemma on_fs_Ret {S A} (m : io A) w w' (x : S) a : m w = (Ret a, w') -> on_fs m (w, x) = (Ret a, (w', x)).
Proof. intros E. unfold on_fs, st_on. simpl. by rewrite E. Qed.

(** Writing the output of a merge and deleting its inputs. *)
Lemma write_output_ok sig inputs w sp dir seq s bs pb zb :
  healthy w -> dir ∈ fs_dirs w -> encode_parquet s bs = Some pb ->
  serialize (merged_zone_map bs) = Some zb ->
  (length pb + length (to_bytes (merged_bloom bs)) + length zb <= fs_room w)%nat ->
  exists w', write_output sig inputs seq dir s bs (w, sp) =
    (Ret true, (w', add_sstable {| sm_seq := seq; sm_signal_type := sig; sm_dir := dir;
                                   sm_zone_map := merged_zone_map bs |} sp)) /\
    healthy w' /\
    forall p, fs_files w' !! p =
      if decide (p ∈ table_paths inputs) then None
      else (<[zonemap_path dir seq := zb]> (<[bloom_path dir seq := to_bytes (merged_bloom bs)]>
             (<[parquet_path dir seq := pb]> (fs_files w)))) !! p.
Proof.
  intros Hh Hd He Hz Hr.
  destruct (write_merged_ok (parquet_path dir seq) s bs w pb) as (w1 & E1 & Hh1 & Hd1 & Hf1 & Hr1); [done..|lia|].
  destruct (fs_write_ok (bloom_path dir seq) (to_bytes (merged_bloom bs)) w1) as (w2 & E2 & Hh2 & Hd2 & Hf2 & Hr2);
    [done|simpl; by rewrite Hd1|lia|].
  destruct (fs_write_ok (zonemap_path dir seq) zb w2) as (w3 & E3 & Hh3 & Hd3 & Hf3 & Hr3);
    [done|simpl; by rewrite Hd2, Hd1|lia|].
  destruct (delete_tables_ok inputs w3 Hh3) as (w4 & E4 & Hh4 & _ & Hf4).
  exists w4. split_and!; [|done|intros p; by rewrite Hf4, Hf3, Hf2, Hf1].
  unfold write_output. rewrite (st_bind_Ret _ _ _ _ _ (on_fs_Ret _ _ _ _ _ E1)).
  rewrite (st_bind_Ret _ _ _ _ _ (on_fs_Ret _ _ _ _ _ E2)).
  rewrite (st_bind_Ret _ _ (w2, sp) tt (w3, sp)).
  2:{ apply on_fs_Ret. unfold write_to_file. fold (merged_zone_map bs). rewrite Hz. exact E3. }
  set (sp' := add_sstable _ sp).
  rewrite (st_bind_Ret _ _ (w3, sp) tt (w3, sp')) by done.
  by rewrite (st_bind_Ret _ _ _ _ _ (on_fs_Ret _ _ _ _ _ E4)).
Qed.

(** A compaction of at least two tables comes down to writing its output. *)
Lemma compact_signal_output sig w sp s bss :
  mergeable w sp s bss ->
  compact_signal sig (w, sp) =
  write_output sig (sp_sstables sp) (sp_next_seq sp) (sp_dir sp) s (concat bss)
    (w, {| sp_dir := sp_dir sp; sp_sstables := []; sp_next_seq := sp_next_seq sp + 1 |}).
Proof.
  intros Hm. unfold compact_signal. rewrite (st_bind_Ret _ _ (w, sp) (w, sp) (w, sp)) by done. cbv beta iota.
  unfold sstable_count. rewrite (proj2 (Z.ltb_ge _ _) (mg_two _ _ _ _ Hm)).
  pose proof (mg_tables _ _ _ _ Hm) as Ht. pose proof (mg_two _ _ _ _ Hm) as Htwo.
  pose proof (mergeable_fits _ _ _ _ Hm) as Hfits. pose proof (mg_some _ _ _ _ Hm) as Hsome.
  pose proof (mg_seq _ _ _ _ Hm) as Hseq. pose proof (mg_holds _ _ _ _ Hm) as Hholds.
  destruct (sp_sstables sp) as [|t ts] eqn:Ets; [by unfold zlen in Htwo; simpl in Htwo; lia|].
  inversion Ht as [|? ? [Hdir Hrange] _]; subst.
  set (sp1 := {| sp_dir := sp_dir sp; sp_sstables := []; sp_next_seq := sp_next_seq sp + 1 |}).
  rewrite (st_bind_Ret _ _ (w, sp) (t :: ts, sp_next_seq sp) (w, sp1)).
  2:{ unfold drain_tables, next_seq. rewrite wrap_u64_small by int_lia. by rewrite Ets. }
  unfold merge_drained.
  rewrite (st_bind_Ret _ _ _ (concat bss) (w, sp1)).
  2:{ apply on_fs_Ret. exact (read_inputs_holds w s _ _ [] (mg_healthy _ _ _ _ Hm) Hholds). }
  destruct (concat bss) as [|b0 bs]; [done|]. inversion Hfits as [|? ? [Hs _] _]; subst. by rewrite Hdir.
Qed.

(** The table a compaction of [bs] leaves. *)
Definition merged_meta (sig : SignalType) (sp : SignalPartition) (bs : list RecordBatch) : SSTableMeta :=
  {| sm_seq := sp_next_seq sp; sm_signal_type := sig; sm_dir := sp_dir sp; sm_zone_map := merged_zone_map bs |}.

Lemma compact_signal_merges sig w sp s bss :
  mergeable w sp s bss ->
  let m := merged_meta sig sp (concat bss) in
  exists w' pb, compact_signal sig (w, sp) = (Ret true, (w', {| sp_dir := sp_dir sp; sp_sstables := [m]; sp_next_seq := sp_next_seq sp + 1 |})) /\
    healthy w' /\ encode_parquet s (concat bss) = Some pb /\ fs_files w' !! meta_parquet_path m = Some pb /\
    (exists zb, fs_files w' !! meta_zonemap_path m = Some zb /\ deserialize zb = Some (sm_zone_map m)) /\
    (forall p, p ∈ table_paths (sp_sstables sp) -> fs_files w' !! p = None) /\
    (forall p, p ∉ table_paths (sp_sstables sp) -> p ∉ table_paths [m] -> fs_files w' !! p = fs_files w !! p).
Proof.
  intros Hm m. rewrite (compact_signal_output sig w sp s bss Hm).
  destruct (mg_room _ _ _ _ Hm) as (pb & zb & He & Hz & Hdz & Hr).
  edestruct (write_output_ok sig (sp_sstables sp) w) as (w' & E & Hh' & Hf);
    [apply Hm|apply (mg_dir _ _ _ _ Hm)|exact He|exact Hz|exact Hr|].
  destruct (names_differ (sp_dir sp) (sp_next_seq sp)) as (N1 & N2 & N3).
  exists w', pb. split; [exact E|]. split_and!; try done.
  - rewrite Hf. unfold meta_parquet_path; cbn [sm_dir sm_seq m merged_meta].
    rewrite decide_False by (by apply (output_fresh w sp s bss)). by rewrite !lookup_insert_ne, lookup_insert_eq by done.
  - exists zb. split; [|done]. rewrite Hf. unfold meta_zonemap_path; cbn [sm_dir sm_seq m merged_meta].
    rewrite decide_False; [by rewrite lookup_insert_eq|]. intros Hin. by destruct (output_names_fresh _ _ _ _ _ Hm Hin) as (_ & _ & ?).
  - intros p Hp. rewrite Hf. by rewrite decide_True.
  - intros p Hp Hp'. rewrite Hf, decide_False by done. unfold table_paths in Hp'; cbn [map concat] in Hp'.
    rewrite app_nil_r in Hp'. unfold meta_parquet_path, meta_bloom_path, meta_zonemap_path in Hp'; cbn [sm_dir sm_seq m merged_meta] in Hp'.
    rewrite !not_elem_of_cons in Hp'. destruct Hp' as (P1 & P2 & P3 & _).
    by rewrite !lookup_insert_ne by done.
Qed.

Lemma batches_rows_concat bss : batches_rows (concat bss) = concat (map batches_rows bss).
Proof.
  unfold batches_rows. induction bss as [|bs bss IH]; [done|]. cbn [concat map]. by rewrite map_app, concat_app, IH.
Qed.

Lemma concat_times bs s i :
  Forall (fits s) bs -> timed_schema s i ->
  concat (map batch_times bs) = filter_map (row_time i) (batches_rows bs).
Proof.
  intros Hf Ht. unfold batches_rows. induction Hf as [|b bs [Hs Hb] Hf IH]; [done|].
  cbn [map concat]. rewrite filter_map_app, <- IH. f_equal.
  apply batch_times_rows; rewrite Hs; done.
Qed.
End Merge.

(** C10: compaction preserves rows.  Where the inputs are tables of the
    partition, together not empty, and the file system takes the output,
    compaction succeeds and leaves exactly one table, numbered after all
    inputs; its file holds the rows of the inputs one table after the other,
    not merged by time, its zone map is built from the time column of those rows, the
    input files are gone and no other file has changed. *)
Theorem compact_signal_preserves_rows `{libs : Libs} sig w sp s bss i :
  mergeable w sp s bss -> timed_schema s i ->
  exists w' sp' m out, compact_signal sig (w, sp) = (Ret true, (w', sp')) /\
    sp_sstables sp' = [m] /\ sm_seq m = sp_next_seq sp /\ sp_next_seq sp' = sp_next_seq sp + 1 /\
    sm_signal_type m = sig /\
    table_holds w' s m out /\ batches_rows out = concat (map batches_rows bss) /\
    sm_zone_map m = observe_all zm_new (filter_map (row_time i) (batches_rows out)) /\
    (forall p, p ∈ table_paths (sp_sstables sp) -> fs_files w' !! p = None) /\
    (forall p, p ∉ table_paths (sp_sstables sp) -> p ∉ table_paths [m] -> fs_files w' !! p = fs_files w !! p).
Proof.
  intros Hm Ht. destruct (compact_signal_merges sig w sp s bss Hm) as (w' & pb & E & _ & He & Hf & _ & Hgone & Hkept).
  pose proof (mergeable_fits _ _ _ _ Hm) as Hfits.
  destruct (parquet_roundtrip s (concat bss) pb COMPACT_BATCH) as (out & Ed & Hout & Er);
    [apply Nat.ltb_lt; vm_compute; reflexivity|done|done|].
  eexists w', _, (merged_meta sig sp (concat bss)), out. split; [exact E|]. split_and!; try done.
  - by exists pb.
  - by rewrite Er, batches_rows_concat.
  - rewrite Er. cbn [merged_meta sm_zone_map]. unfold merged_zone_map. by rewrite (concat_times _ s i).
Qed.

(** ** A concrete compaction *)

Definition ts_schema : Schema := [F "timestamp_ns" UInt64 false].
Definition ts_batch (t : Z) : RecordBatch := {| rb_schema := ts_schema; rb_columns := [UInt64Array [Some t]] |}.
Definition ts_meta (seq t : Z) : SSTableMeta :=
  {| sm_seq := seq; sm_signal_type := Log; sm_dir := "d"; sm_zone_map := observe_all zm_new [t] |}.
Definition ts_partition : SignalPartition :=
  {| sp_dir := "d"; sp_sstables := [ts_meta 1 5; ts_meta 2 3]; sp_next_seq := 3 |}.

(** Two files of one row each, on a disk that loses the calls in [faults]. *)
Definition ts_disk (faults : list bool) : Fs :=
  let bs := [ts_batch 5; ts_batch 3] in
  {| fs_files := {[ parquet_path "d" 1 := codec_encode [ts_batch 5]; parquet_path "d" 2 := codec_encode [ts_batch 3] ]};
     fs_dirs := {[ "d"%string ]};
     fs_room := length (codec_encode bs) + length (to_bytes (@merged_bloom libs_reference bs)) +
                length (codec_encode (merged_zone_map bs));
     fs_faults := faults |}.

Lemma ts_mergeable : @mergeable libs_reference (ts_disk []) ts_partition ts_schema [[ts_batch 5]; [ts_batch 3]].
Proof.
  split.
  - reflexivity.
  - cbn [sp_dir ts_partition fs_dirs ts_disk]. set_solver.
  - discriminate.
  - repeat constructor; discriminate.
  - reflexivity.
  - repeat constructor.
    + exists (codec_encode [ts_batch 5]). split_and!; [apply lookup_insert_eq| |by repeat constructor].
      cbn [decode_parquet parquet_reference libs_parquet libs_reference]. unfold decode_reference.
      by rewrite codec_roundtrip.
    + exists (codec_encode [ts_batch 3]). split_and!; [| |by repeat constructor].
      * cbn [fs_files ts_disk]. rewrite lookup_insert_ne by done. apply lookup_singleton_eq.
      * cbn [decode_parquet parquet_reference libs_parquet libs_reference]. unfold decode_reference.
        by rewrite codec_roundtrip.
  - discriminate.
  - vm_compute. reflexivity.
  - exists (codec_encode [ts_batch 5; ts_batch 3]), (codec_encode (merged_zone_map [ts_batch 5; ts_batch 3])).
    split_and!; [done|done|apply codec_roundtrip|]. cbn [fs_room ts_disk concat app]. lia.
Qed.

Lemma ts_timed : timed_schema ts_schema 0.
Proof. split; [reflexivity|]. eexists; split; [reflexivity|]. done. Qed.

Lemma compact_signal_preserves_rows_witness :
  exists w' sp' m, @compact_signal libs_reference Log (ts_disk [], ts_partition) = (Ret true, (w', sp')) /\
    sp_sstables sp' = [m] /\ sm_zone_map m = observe_all zm_new [5; 3].
Proof.
  destruct (@compact_signal_preserves_rows libs_reference Log (ts_disk []) ts_partition ts_schema
    [[ts_batch 5]; [ts_batch 3]] 0 ts_mergeable ts_timed)
    as (w' & sp' & m & out & E & Es & _ & _ & _ & _ & Hr & Hz & _).
  exists w', sp', m. split; [exact E|]. split; [exact Es|]. rewrite Hz, Hr. reflexivity.
Defined.

(** ** What a compaction does not keep *)

Lemma bloom_new_contains_nothing `{!DefaultHasher, !Libm} n p k :
  num_bits (bloom_new n p) + 7 < two64 -> contains (bloom_new n p) k = Ret false.
Proof.
  intros Hb. pose proof (bloom_new_wf n p Hb) as Hwf. unfold contains.
  assert (exists i l, range (num_hashes (bloom_new n p)) = i :: l) as (i & l & ->).
  { unfold range. assert (1 <= num_hashes (bloom_new n p)) by (unfold bloom_new; simpl; lia).
    destruct (Z.to_nat (num_hashes (bloom_new n p))) eqn:E; [lia|]. simpl; eauto. }
  cbn [contains_from]. destruct (hash_index_wf _ k i Hwf) as (bit & -> & Hbit). cbn [mbind outcome_bind].
  destruct (index_in_bounds _ bit Hwf Hbit) as [b E]. unfold test_bit. rewrite E. cbn [mbind outcome_bind].
  assert (b = 0) as ->; [|done].
  unfold bloom_new in E; cbn [bits] in E. apply list_elem_of_lookup_2, base.list_elem_of_In in E.
  by apply repeat_spec in E.
Qed.

(** Compaction empties the Bloom filter.  The table a successful
    compaction leaves has a Bloom file that reports every key absent, the
    keys of its own rows included: the filter is sized for the rows but
    nothing is inserted into it. *)
Theorem compact_signal_bloom_empty `{libs : Libs} sig w sp s bss :
  mergeable w sp s bss ->
  exists w' sp' m bytes bf, compact_signal sig (w, sp) = (Ret true, (w', sp')) /\ sp_sstables sp' = [m] /\
    fs_files w' !! meta_bloom_path m = Some bytes /\ from_bytes bytes = Some bf /\
    forall key, contains bf key = Ret false.
Proof.
  intros Hm. rewrite (compact_signal_output sig w sp s bss Hm).
  destruct (mg_room _ _ _ _ Hm) as (pb & zb & He & Hz & _ & Hr).
  edestruct (write_output_ok sig (sp_sstables sp) w) as (w' & E & _ & Hf);
    [apply Hm|apply (mg_dir _ _ _ _ Hm)|exact He|exact Hz|exact Hr|].
  destruct (names_differ (sp_dir sp) (sp_next_seq sp)) as (N1 & N2 & N3).
  eexists w', _, _, (to_bytes (merged_bloom (concat bss))), (merged_bloom (concat bss)).
  split; [exact E|]. split_and!; [reflexivity| | |].
  - rewrite Hf. unfold meta_bloom_path; cbn [sm_dir sm_seq]. rewrite decide_False by (by eapply output_fresh_bloom).
    by rewrite lookup_insert_ne, lookup_insert_eq by done.
  - rewrite <- (app_nil_r (to_bytes _)). apply from_to_bytes, bloom_new_wf, Hm.
  - intros key. apply bloom_new_contains_nothing, Hm.
Qed.

Lemma compact_signal_bloom_empty_witness :
  exists w' sp' m bytes bf, @compact_signal libs_reference Log (ts_disk [], ts_partition) = (Ret true, (w', sp')) /\
    sp_sstables sp' = [m] /\ fs_files w' !! meta_bloom_path m = Some bytes /\ from_bytes bytes = Some bf /\
    forall key, contains bf key = Ret false.
Proof. exact (@compact_signal_bloom_empty libs_reference Log _ _ _ _ ts_mergeable). Defined.

Lemma on_fs_keeps {S A} (m : io A) w (x : S) r w' x' : on_fs m (w, x) = (r, (w', x')) -> x' = x.
Proof. unfold on_fs, st_on. simpl. destruct (m w). by intros [= _ _ <-]. Qed.

Lemma delete_file_ret p w : exists w', delete_file p w = (Ret tt, w').
Proof.
  unfold delete_file, remove_file, syscall, st_try, mbind, st_bind, mret, st_ret.
  destruct (fs_faults w) as [|[] fs]; simpl; try destruct (fs_files w !! p); eauto.
Qed.

Lemma st_iter_ret {S E A} (f : A -> st S E unit) l :
  (forall a s, exists s', f a s = (Ret tt, s')) -> forall s, exists s', st_iter f l s = (Ret tt, s').
Proof.
  intros Hf. induction l as [|a l IH]; intros s; simpl; [eauto|].
  destruct (Hf a s) as [s1 E1]. rewrite (st_bind_Ret _ _ _ _ _ E1). apply IH.
Qed.

Lemma delete_tables_ret ms w : exists w', delete_sstable_files ms w = (Ret tt, w').
Proof. apply st_iter_ret. intros m. apply st_iter_ret. intros p. apply delete_file_ret. Qed.

Lemma delete_then_no_fail {S A} ms (a : A) w (x : S) e s' :
  (_ ← on_fs (delete_sstable_files ms); mret a) (w, x) = (Fail e, s') -> False.
Proof.
  destruct (delete_tables_ret ms w) as [w' E]. by rewrite (st_bind_Ret _ _ _ _ _ (on_fs_Ret _ _ _ _ _ E)).
Qed.

(** A step that fails, or succeeds, on the file system alone. *)
Lemma fail_step {S A B} (m : io A) (f : A -> st (Fs * S) StorageError B) w (x : S) e w' x' :
  (a ← on_fs m; f a) (w, x) = (Fail e, (w', x')) ->
  x' = x \/ exists a w1, f a (w1, x) = (Fail e, (w', x')).
Proof.
  intros H. apply st_bind_fail in H as [H|(a & [w1 x1] & H1 & H2)]; [left; by apply on_fs_keeps in H|].
  apply on_fs_keeps in H1 as ->. eauto.
Qed.

Lemma write_output_error {libs : Libs} sig inputs seq dir s bs w sp e w' sp' :
  write_output sig inputs seq dir s bs (w, sp) = (Fail e, (w', sp')) -> sp' = sp.
Proof.
  unfold write_output. intros H. apply fail_step in H as [H|(? & w1 & H)]; [done|].
  apply fail_step in H as [H|(? & w2 & H)]; [done|].
  apply fail_step in H as [H|(? & w3 & H)]; [done|].
  erewrite st_bind_Ret in H by reflexivity. by apply delete_then_no_fail in H.
Qed.

(** The window of a compaction.  Of at least two tables, it takes the list
    in one step that leaves the partition without any, the files still on
    disk, and goes on from there without the lock: until the merged table is
    registered, a thread that asks the partition for its tables gets none of
    them. *)
Lemma compact_signal_window {libs : Libs} sig w sp :
  2 <= sstable_count sp ->
  exists seq sp1, drain_tables (w, sp) = (Ret (sp_sstables sp, seq), (w, sp1)) /\ sp_sstables sp1 = [] /\
    compact_signal sig (w, sp) = merge_drained sig (sp_sstables sp, seq) (w, sp1).
Proof.
  intros H2. destruct (next_seq sp) as [seq sp'] eqn:En. do 2 eexists. split; [unfold drain_tables; by rewrite En|].
  split; [done|]. unfold compact_signal. rewrite (st_bind_Ret _ _ (w, sp) (w, sp) (w, sp)) by done. cbv beta iota.
  rewrite (proj2 (Z.ltb_ge _ _) H2). apply st_bind_Ret. unfold drain_tables. by rewrite En.
Qed.

(** A compaction that fails forgets its inputs.  Whenever it returns an
    error, the partition's list of tables is empty: the inputs were taken
    out of the list before the first fallible step and are not put back, so
    their rows are out of reach until the directory is scanned again. *)
Theorem compact_signal_error_forgets {libs : Libs} sig w sp e w' sp' :
  compact_signal sig (w, sp) = (Fail e, (w', sp')) -> sp_sstables sp' = [].
Proof.
  unfold compact_signal. rewrite (st_bind_Ret _ _ (w, sp) (w, sp) (w, sp)) by done. cbv beta iota.
  destruct (sstable_count sp <? 2); [done|].
  erewrite st_bind_Ret by reflexivity. unfold merge_drained. intros H.
  apply fail_step in H as [->|(bs & w1 & H)]; [done|].
  destruct (sp_sstables sp) as [|t ts], bs as [|b bs];
    try (by apply delete_then_no_fail in H). by apply write_output_error in H as ->.
Qed.

Lemma compact_signal_error_forgets_witness :
  exists e w' sp', @compact_signal libs_reference Log (ts_disk [false; false; true], ts_partition) = (Fail e, (w', sp')) /\
    sp_sstables sp' = [].
Proof.
  destruct (@compact_signal libs_reference Log (ts_disk [false; false; true], ts_partition)) as [[a|e|] [w' sp']] eqn:E;
    [exfalso; apply (f_equal (fun r => match fst r with Fail _ => true | _ => false end)) in E; vm_compute in E; discriminate E| |
     exfalso; apply (f_equal (fun r => match fst r with Fail _ => true | _ => false end)) in E; vm_compute in E; discriminate E].
  exists e, w', sp'. split; [reflexivity|].
  exact (@compact_signal_error_forgets libs_reference Log (ts_disk [false; false; true]) ts_partition e w' sp' E).
Defined.
