(* ===== verification/Engine.v ===== *)
(** * The storage engine

    [crates/infralens-storage/src/engine.rs]: the write path (log, MemTable,
    freeze, flush queue), the flush worker, the compaction worker, shutdown
    and the path listing for queries.

    [Arc<MemTable>]s are locations in a heap, so that a table shared between
    the active map, a writer and a flush request is one table; the
    [Arc<Partition>] of a flush request is the entry of [partitions] under
    its key, which is never removed.  The file under a write-ahead log is
    in the file system of the other files. *)

From Stdlib Require Import ZArith Lia Sorted Permutation.
From stdpp Require Import base tactics list numbers option strings gmap.
From S2P Require Import Prelude Text BTree Float64 Codec Model Wal MemTable Fs Hash ZoneMap Bloom Arrow SSTable Partition Compaction.

(** ** State *)

Record FlushRequest := { fr_imm : nat; fr_partition : Z }.

Record Engine := {
  en_config : StorageConfig;
  en_partitions : gmap Z Partition;
  en_memtables : gmap Z nat;
  en_heap : list MemTable;
  en_wals : gmap Z (path * Wal);
  en_queue : list FlushRequest;
  en_closed : bool;
  en_bucket_ns : Z
}.

(** The capacity of the flush channel. *)
Definition FLUSH_QUEUE : nat := 64.

Abbreviation eio := (st (Fs * Engine) StorageError).

Definition set_partitions f (e : Engine) : Engine :=
  {| en_config := en_config e; en_partitions := f (en_partitions e); en_memtables := en_memtables e; en_heap := en_heap e;
     en_wals := en_wals e; en_queue := en_queue e; en_closed := en_closed e; en_bucket_ns := en_bucket_ns e |}.
Definition set_memtables f (e : Engine) : Engine :=
  {| en_config := en_config e; en_partitions := en_partitions e; en_memtables := f (en_memtables e); en_heap := en_heap e;
     en_wals := en_wals e; en_queue := en_queue e; en_closed := en_closed e; en_bucket_ns := en_bucket_ns e |}.
Definition set_heap f (e : Engine) : Engine :=
  {| en_config := en_config e; en_partitions := en_partitions e; en_memtables := en_memtables e; en_heap := f (en_heap e);
     en_wals := en_wals e; en_queue := en_queue e; en_closed := en_closed e; en_bucket_ns := en_bucket_ns e |}.
Definition set_wals f (e : Engine) : Engine :=
  {| en_config := en_config e; en_partitions := en_partitions e; en_memtables := en_memtables e; en_heap := en_heap e;
     en_wals := f (en_wals e); en_queue := en_queue e; en_closed := en_closed e; en_bucket_ns := en_bucket_ns e |}.
Definition set_queue f (e : Engine) : Engine :=
  {| en_config := en_config e; en_partitions := en_partitions e; en_memtables := en_memtables e; en_heap := en_heap e;
     en_wals := en_wals e; en_queue := f (en_queue e); en_closed := en_closed e; en_bucket_ns := en_bucket_ns e |}.
Definition set_closed b (e : Engine) : Engine :=
  {| en_config := en_config e; en_partitions := en_partitions e; en_memtables := en_memtables e; en_heap := en_heap e;
     en_wals := en_wals e; en_queue := en_queue e; en_closed := b; en_bucket_ns := en_bucket_ns e |}.

Definition get_engine : eio Engine := fun s => (Ret (snd s), s).
Definition modify_engine (f : Engine -> Engine) : eio unit := st_modify (fun s => (fst s, f (snd s))).

(** A panic where the code unwraps a failure. *)
Definition or_panic {S A} (m : st S StorageError A) : st S StorageError A := fun s =>
  match m s with
  | (Ret a, s') => (Ret a, s')
  | (_, s') => (Panic, s')
  end.

(** The crates below the engine. *)
Class EngineLibs := {
  el_libs :: Libs;
  el_chrono :: Chrono;
  el_crc :: Crc32;
  el_log :: Bincode LogRecord;
  el_metric :: Bincode MetricPoint;
  el_span :: Bincode SpanRecord
}.

Section Engine.
Context {libs : EngineLibs}.

(** [StorageEngine::open]; the bucket width is computed in wrapping
    arithmetic.  The two workers are the steps [flush_step] and
    [compaction_pass] below. *)
Definition engine_open (config : StorageConfig) : io Engine :=
  _ ← create_dir_all (data_dir config);
  mret {| en_config := config; en_partitions := ∅; en_memtables := ∅; en_heap := []; en_wals := ∅;
          en_queue := []; en_closed := false;
          en_bucket_ns := wrap_u64 (wrap_u64 (partition_hours config * 3600) * 1000000000) |}.

(** ** MemTable lifecycle *)

(** [get_or_create_memtable]. *)
Definition get_or_create_memtable (key : Z) : eio nat :=
  e ← get_engine;
  match en_memtables e !! key with
  | Some l => mret l
  | None =>
      let l := length (en_heap e) in
      _ ← modify_engine (set_heap (fun h => h ++ [MemTable.new (memtable_size_bytes (en_config e))]));
      _ ← modify_engine (set_memtables (<[key := l]>));
      mret l
  end.

(** [get_or_create_partition]. *)
Definition get_or_create_partition (key : Z) : eio Partition :=
  e ← get_engine;
  match en_partitions e !! key with
  | Some p => mret p
  | None =>
      p ← or_panic (on_fs (p_open (data_dir (en_config e)) key));
      _ ← modify_engine (set_partitions (<[key := p]>));
      mret p
  end.

(** The view of a file a log handle has, and back.  The engine syncs its logs
    only in [checkpoint_handle], which discards the answer. *)
Definition file_view (p : path) (w : Fs) : osfile :=
  {| os_bytes := default [] (fs_files w !! p); os_room := fs_room w; os_sync := true |}.
Definition put_view (p : path) (f : osfile) (w : Fs) : Fs :=
  {| fs_files := <[p := os_bytes f]> (fs_files w); fs_dirs := fs_dirs w; fs_room := os_room f;
     fs_faults := fs_faults w |}.

(** Run an operation of a log handle. *)
Definition run_wal {A} (p : path) (wal : Wal) (op : osfile * Wal -> wal_io A) (w : Fs)
    : outcome StorageError A * Wal * Fs :=
  let '((f, wal'), r) := op (file_view p w, wal) in (r, wal', put_view p f w).

(** [Wal::open] on a path: creates the file. *)
Definition open_wal (p : path) : io Wal :=
  syscall (fun w => let w' := put_view p (file_view p w) w in
                    (Ret (wal_open (snd p) (file_view p w')), w')).

(** [get_or_create_wal]. *)
Definition get_or_create_wal (key : Z) : eio unit :=
  e ← get_engine;
  match en_wals e !! key with
  | Some _ => mret tt
  | None =>
      p ← get_or_create_partition key;
      let wp := sp_wal_path (p_logs p) in
      wal ← or_panic (on_fs (open_wal wp));
      modify_engine (set_wals (<[key := (wp, wal)]>))
  end.

(** [.lock().append(t, &data)]. *)
Definition wal_append (key t : Z) (d : list Z) : eio unit := fun s =>
  let '(w, e) := s in
  match en_wals e !! key with
  | Some (p, wal) =>
      let '(r, wal', w') := run_wal p wal (fun s => append s t d) w in
      (match r with Ret _ => Ret tt | Fail x => Fail x | Panic => Panic end,
       (w', set_wals (<[key := (p, wal')]>) e))
  | None => (Panic, s)
  end.

(** Update the table behind an [Arc]. *)
Definition update_table (l : nat) (f : MemTable -> outcome StorageError MemTable) : eio unit := fun s =>
  let '(w, e) := s in
  match en_heap e !! l with
  | Some m => match f m with
              | Ret m' => (Ret tt, (w, set_heap (<[l := m']>) e))
              | Fail x => (Fail x, s)
              | Panic => (Panic, s)
              end
  | None => (Panic, s)
  end.

(** [flush_tx.try_send]: a full queue refuses, and the caller only logs. *)
Definition try_send (req : FlushRequest) : eio unit :=
  modify_engine (set_queue (fun q => if (length q <? FLUSH_QUEUE)%nat then q ++ [req] else q)).

(** [maybe_freeze]. *)
Definition maybe_freeze (key : Z) (l : nat) : eio unit :=
  e ← get_engine;
  match en_heap e !! l with
  | None => st_lift Panic
  | Some m =>
      if negb (is_full m) then mret tt
      else
        let fresh := length (en_heap e) in
        _ ← modify_engine (set_heap (fun h => h ++ [MemTable.new (memtable_size_bytes (en_config e))]));
        _ ← modify_engine (set_memtables (<[key := fresh]>));
        _ ← get_or_create_partition key;
        try_send {| fr_imm := l; fr_partition := key |}
  end.

(** ** Write path *)

(** One turn of the loops of [write_logs], [write_metrics], [write_spans]:
    timestamp, entry type, encoding and MemTable write of one record. *)
Definition write_record (ts t : Z) (enc : option (list Z)) (put : MemTable -> outcome StorageError MemTable) : eio unit :=
  e ← get_engine;
  pkey ← st_lift (for_timestamp ts (en_bucket_ns e));
  l ← get_or_create_memtable pkey;
  d ← st_lift (ok_or enc bincode_error);
  _ ← get_or_create_wal pkey;
  _ ← wal_append pkey t d;
  _ ← update_table l put;
  maybe_freeze pkey l.

Definition engine_write_logs (records : list LogRecord) : eio unit :=
  st_iter (fun r => write_record (lr_timestamp_ns r) ENTRY_LOG (serialize r) (fun m => MemTable.write_log m r)) records.

Definition engine_write_metrics (records : list MetricPoint) : eio unit :=
  st_iter (fun r => write_record (mp_timestamp_ns r) ENTRY_METRIC (serialize r) (fun m => MemTable.write_metric m r)) records.

Definition engine_write_spans (records : list SpanRecord) : eio unit :=
  st_iter (fun r => write_record (sr_start_time_ns r) ENTRY_SPAN (serialize r) (fun m => MemTable.write_span m r)) records.

(** [StorageEngine::write_batch].  Workers can run between its records: see
    [write_batch_records] for the batch as one step per record. *)
Definition write_batch (b : IngestBatch) : eio unit :=
  e ← get_engine;
  if en_closed e then st_lift (Fail Closed)
  else match b with
       | Logs rs => engine_write_logs rs
       | Metrics rs => engine_write_metrics rs
       | Spans rs => engine_write_spans rs
       end.

(** ** Flushing *)

Definition on_partition {A} (key : Z) (m : st (Fs * Partition) StorageError A) : eio A := fun s =>
  let '(w, e) := s in
  match en_partitions e !! key with
  | Some p => let '(r, (w', p')) := m (w, p) in (r, (w', set_partitions (<[key := p']>) e))
  | None => (Panic, s)
  end.

(** [sp.next_seq()]. *)
Definition take_seq : spio Z := fun '(w, sp) =>
  let '(q, sp') := next_seq sp in (Ret q, (w, sp')).

(** The three [flush_signal_*]: the rows that decode become one SSTable. *)
Definition flush_signal {A} `{!Bincode A} (sig : SignalType)
    (write : list A -> string -> Z -> io SSTableMeta) (m : MemTable) : st (Fs * Partition) StorageError unit :=
  match drain_signal m (signal_u8 sig) with
  | [] => mret tt
  | rows =>
      let records := filter_map (fun kv => deserialize (snd kv)) rows in
      on_signal sig
        (seq ← take_seq;
         '(_, sp) ← st_get;
         meta ← on_fs (write records (sp_dir sp) seq);
         st_modify (fun s => (fst s, add_sstable meta (snd s))))
  end.

Definition flush_signal_logs (m : MemTable) : st (Fs * Partition) StorageError unit :=
  flush_signal Log SSTable.write_logs m.
Definition flush_signal_metrics (m : MemTable) : st (Fs * Partition) StorageError unit :=
  flush_signal Metric SSTable.write_metrics m.
Definition flush_signal_spans (m : MemTable) : st (Fs * Partition) StorageError unit :=
  flush_signal Span SSTable.write_spans m.

(** [let _ = w.checkpoint()]. *)
Definition checkpoint_handle (p : path) (wal : Wal) : io unit := fun w =>
  let '(_, _, w') := run_wal p wal checkpoint w in (Ret tt, w').

(** The checkpoint through a second handle; its failure is ignored. *)
Definition checkpoint_file (p : path) : io unit :=
  w ← st_get;
  if exists_file p w then
    r ← st_try (open_wal p);
    match r with
    | Ret wal => checkpoint_handle p wal
    | _ => mret tt
    end
  else mret tt.

(** [flush_immutable]. *)
Definition flush_immutable (m : MemTable) : st (Fs * Partition) StorageError unit :=
  _ ← flush_signal_logs m;
  _ ← flush_signal_metrics m;
  _ ← flush_signal_spans m;
  '(_, p) ← st_get;
  on_fs (checkpoint_file (sp_wal_path (p_logs p))).

(** One turn of [flush_worker]: an error is only logged. *)
Definition flush_step : eio unit :=
  e ← get_engine;
  match en_queue e with
  | [] => mret tt
  | req :: q =>
      _ ← modify_engine (set_queue (fun _ => q));
      match en_heap e !! fr_imm req with
      | None => st_lift Panic
      | Some m =>
          _ ← st_try (F := StorageError) (on_partition (fr_partition req) (flush_immutable m));
          mret tt
      end
  end.

(** [flush_tx.send(..).await]: while the queue is full the worker runs. *)
Definition send (req : FlushRequest) : eio unit :=
  e ← get_engine;
  _ ← (if (length (en_queue e) <? FLUSH_QUEUE)%nat then mret tt else flush_step);
  modify_engine (set_queue (fun q => q ++ [req])).

(** One key of [flush_all]. *)
Definition flush_key (key : Z) : eio unit :=
  e ← get_engine;
  match en_memtables e !! key with
  | None => mret tt
  | Some l =>
      _ ← modify_engine (set_memtables (delete key));
      match en_heap e !! l with
      | None => st_lift Panic
      | Some m =>
          if MemTable.is_empty m then mret tt
          else
            _ ← get_or_create_partition key;
            send {| fr_imm := l; fr_partition := key |}
      end
  end.

(** [flush_all]. *)
Definition flush_all : eio unit :=
  e ← get_engine;
  st_iter flush_key (map fst (map_to_list (en_memtables e))).

(** [close], up to the half second it leaves the workers. *)
Definition close : eio unit :=
  _ ← modify_engine (set_closed true);
  flush_all.

(** One tick of [compaction_worker]. *)
Definition compaction_pass : eio unit :=
  e ← get_engine;
  if en_closed e then mret tt
  else st_iter (fun key => _ ← on_partition key (compact_partition (l0_compaction_trigger (en_config e))); mret tt)
         (map fst (map_to_list (en_partitions e))).

(** [sstable_paths_for_signal]. *)
Definition sstable_paths_for_signal (e : Engine) (signal : Z) (partition_filter : list Z) : list path :=
  match signal_try_from signal with
  | Ret sig =>
      let keys := match partition_filter with
                  | [] => map fst (map_to_list (en_partitions e))
                  | _ => partition_filter
                  end in
      concat (map (fun key => match en_partitions e !! key with
                              | Some p => map meta_parquet_path (sp_sstables (signal_partition p sig))
                              | None => []
                              end) keys)
  | _ => []
  end.
End Engine.
