(* ===== verification/EngineSafety.v ===== *)
(** * Invariants of the storage engine

    A small program logic for the engine's calls, the invariant of the
    sequential engine (rows are routed to the partition of their time, a
    frozen table is not written, the flush queue is bounded), what a write
    keeps, and what a full flush queue loses. *)

From Stdlib Require Import ZArith Lia Sorted Permutation.
From stdpp Require Import base tactics list numbers option strings gmap.
From S2P Require Import Prelude Text BTree Float64 Codec Model Wal MemTable Fs Hash ZoneMap Bloom Arrow SSTable Partition Compaction Engine.

(** ** Triples

    [P] before, [Q] after a normal return, [X] after an error or a panic. *)

Definition hoare {A} (P : Engine -> Prop) (m : eio A) (Q : A -> Engine -> Prop) (X : Engine -> Prop) : Prop :=
  forall w e r w' e', P e -> m (w, e) = (r, (w', e')) -> match r with Ret a => Q a e' | _ => X e' end.

Lemma hoare_bind {A B} P (m : eio A) Q (f : A -> eio B) R X :
  hoare P m Q X -> (forall a, hoare (Q a) (f a) R X) -> hoare P (m ≫= f) R X.
Proof.
  intros Hm Hf w e r w' e' HP E. unfold mbind, st_bind in E.
  destruct (m (w, e)) as [[a|x|] [w1 e1]] eqn:E1; specialize (Hm _ _ _ _ _ HP E1); simpl in Hm.
  - by apply (Hf a w1 e1 r w' e').
  - by simplify_eq.
  - by simplify_eq.
Qed.

Lemma hoare_conseq {A} (P P' : Engine -> Prop) (m : eio A) (Q Q' : A -> Engine -> Prop) X :
  hoare P' m Q' X -> (forall e, P e -> P' e) -> (forall a e, Q' a e -> Q a e) -> hoare P m Q X.
Proof.
  intros H HP HQ w e r w' e' Hp E. specialize (H _ _ _ _ _ (HP _ Hp) E). destruct r; auto.
Qed.

Lemma hoare_weaken_exn {A} P (m : eio A) Q (X X' : Engine -> Prop) :
  hoare P m Q X -> (forall e, X e -> X' e) -> hoare P m Q X'.
Proof. intros H HX w e r w' e' Hp E. specialize (H _ _ _ _ _ Hp E). destruct r; auto. Qed.

Lemma hoare_ret {A} (a : A) (P : Engine -> Prop) (Q : A -> Engine -> Prop) X :
  (forall e, P e -> Q a e) -> hoare P (mret a) Q X.
Proof. intros H w e r w' e' HP [= <- <- <-]. auto. Qed.

Lemma hoare_get (P : Engine -> Prop) (Q : Engine -> Engine -> Prop) X :
  (forall e, P e -> Q e e) -> hoare P get_engine Q X.
Proof. intros H w e r w' e' HP [= <- <- <-]. auto. Qed.

Lemma hoare_modify f (P : Engine -> Prop) (Q : unit -> Engine -> Prop) X :
  (forall e, P e -> Q tt (f e)) -> hoare P (modify_engine f) Q X.
Proof. intros H w e r w' e' HP [= <- <- <-]. simpl. auto. Qed.

Lemma hoare_lift {A} (m : outcome StorageError A) (P : Engine -> Prop) (Q : A -> Engine -> Prop) (X : Engine -> Prop) :
  (forall e, P e -> X e) -> (forall a e, m = Ret a -> P e -> Q a e) -> hoare P (st_lift m) Q X.
Proof. intros HX HQ w e r w' e' HP [= <- <- <-]. destruct m; auto. Qed.

(** A call on the file system leaves the engine alone. *)
Lemma hoare_on_fs {A} (m : io A) (P : Engine -> Prop) (Q : A -> Engine -> Prop) (X : Engine -> Prop) :
  (forall e, P e -> X e) -> (forall a e, P e -> Q a e) -> hoare P (on_fs m) Q X.
Proof.
  intros HX HQ w e r w' e' HP E. apply on_fs_keeps in E as E'. subst. destruct r; auto.
Qed.

Lemma hoare_or_panic {A} (m : eio A) P Q X : hoare P m Q X -> hoare P (or_panic m) Q X.
Proof.
  intros H w e r w' e' HP E. unfold or_panic in E.
  destruct (m (w, e)) as [[a|x|] [w1 e1]] eqn:E1; specialize (H _ _ _ _ _ HP E1); by simplify_eq.
Qed.

Lemma hoare_try {A} (m : eio A) P (Q : A -> Engine -> Prop) X :
  hoare P m Q X ->
  hoare P (st_try (F := StorageError) m) (fun r e => match r with Ret a => Q a e | _ => X e end) X.
Proof.
  intros H w e r w' e' HP E. unfold st_try in E.
  destruct (m (w, e)) as [[a|x|] [w1 e1]] eqn:E1; specialize (H _ _ _ _ _ HP E1); by simplify_eq.
Qed.

Lemma hoare_pure {A} (P : Engine -> Prop) (phi : Prop) (m : eio A) Q X : (phi -> hoare P m Q X) -> hoare (fun e => P e /\ phi) m Q X.
Proof. intros H w e r w' e' [HP Hphi]. by apply H. Qed.

Lemma hoare_iter {A} (f : A -> eio unit) l (P X : Engine -> Prop) :
  (forall a, hoare P (f a) (fun _ => P) X) -> hoare P (st_iter f l) (fun _ => P) X.
Proof.
  intros Hf. induction l as [|a l IH]; simpl; [by apply hoare_ret|].
  eapply hoare_bind; [apply Hf|]. intros ?; exact IH.
Qed.

(** ** The invariant *)

(** The rows of a table all belong to the bucket [k]. *)
Definition table_ok (b k : Z) (m : MemTable) : Prop :=
  bt_wf (mt_inner m) /\ Forall (fun kv => for_timestamp (rk_timestamp_ns (fst kv)) b = Ret k) (mt_inner m).

Record en_inv (b : Z) (e : Engine) : Prop := {
  ei_bucket : en_bucket_ns e = b;
  ei_queue : (length (en_queue e) <= FLUSH_QUEUE)%nat;
  ei_active : forall k l, en_memtables e !! k = Some l -> exists m, en_heap e !! l = Some m /\ table_ok b k m;
  ei_queued : forall q, In q (en_queue e) ->
    exists m, en_heap e !! fr_imm q = Some m /\ table_ok b (fr_partition q) m;
  ei_inj : forall k k' l, en_memtables e !! k = Some l -> en_memtables e !! k' = Some l -> k = k';
  ei_sep : forall k l q, en_memtables e !! k = Some l -> In q (en_queue e) -> fr_imm q <> l;
  ei_nodup : List.NoDup (map fr_imm (en_queue e));
  ei_part : forall q, In q (en_queue e) -> is_Some (en_partitions e !! fr_partition q)
}.

Lemma table_ok_new b k n : table_ok b k (MemTable.new n).
Proof. split; [apply bt_wf_nil|constructor]. Qed.

Lemma table_ok_insert b k m ts sig d :
  table_ok b k m -> for_timestamp ts b = Ret k -> table_ok b k (MemTable.insert m ts sig d).
Proof.
  intros [Hwf Hf] Ht. split; cbn [MemTable.insert mt_inner]; [by apply bt_insert_wf|].
  by apply Forall_insert.
Qed.

(** Parts of the state the invariant does not read. *)
Lemma en_inv_wals b f e : en_inv b e -> en_inv b (set_wals f e).
Proof. by intros []. Qed.

Lemma en_inv_closed b c e : en_inv b e -> en_inv b (set_closed c e).
Proof. by intros []. Qed.

Lemma en_inv_partition b key p e : en_inv b e -> en_inv b (set_partitions (<[key := p]>) e).
Proof.
  intros []. split; try done. intros q Hq. cbn [set_partitions en_partitions].
  destruct (decide (key = fr_partition q)) as [->|]; [rewrite lookup_insert_eq; eauto|rewrite lookup_insert_ne; auto].
Qed.

(** A new table on the heap disturbs nothing. *)
Lemma en_inv_alloc b m e : en_inv b e -> en_inv b (set_heap (fun h => h ++ [m]) e).
Proof.
  intros H. split; try apply H; cbn [set_heap en_heap en_memtables en_queue].
  - intros k l Hk. destruct (ei_active _ _ H _ _ Hk) as (m' & E & Hm). exists m'.
    split; [by apply lookup_app_l_Some|done].
  - intros q Hq. destruct (ei_queued _ _ H _ Hq) as (m' & E & Hm). exists m'.
    split; [by apply lookup_app_l_Some|done].
Qed.

(** A location no key and no request uses becomes the active table of a key. *)
Lemma en_inv_activate b key l m e :
  en_inv b e -> en_heap e !! l = Some m -> table_ok b key m ->
  (forall k, en_memtables e !! k = Some l -> k = key) -> (forall q, In q (en_queue e) -> fr_imm q <> l) ->
  en_inv b (set_memtables (<[key := l]>) e).
Proof.
  intros H El Hm Hfresh Hq. split; try apply H; cbn [set_memtables en_heap en_memtables en_queue].
  - intros k l' Hk. apply lookup_insert_Some in Hk as [[<- <-]|[_ Hk]]; [eauto|by apply H].
  - intros k k' l' Hk Hk'. apply lookup_insert_Some in Hk. apply lookup_insert_Some in Hk'.
    destruct Hk as [[E1 E2]|[_ Hk]], Hk' as [[E3 E4]|[_ Hk']]; subst; try done.
    + symmetry. auto.
    + auto.
    + by apply (ei_inj _ _ H k k' l').
  - intros k l' q Hk Hin. apply lookup_insert_Some in Hk as [[<- <-]|[_ Hk]]; [auto|by apply (ei_sep _ _ H k)].
Qed.

Lemma en_inv_deactivate b key e : en_inv b e -> en_inv b (set_memtables (delete key) e).
Proof.
  intros H. split; try apply H; cbn [set_memtables en_heap en_memtables en_queue].
  - intros k l Hk. apply lookup_delete_Some in Hk as [_ Hk]. by apply H.
  - intros k k' l Hk Hk'. apply lookup_delete_Some in Hk as [_ Hk]. apply lookup_delete_Some in Hk' as [_ Hk']. by apply (ei_inj _ _ H k k' l).
  - intros k l q Hk. apply lookup_delete_Some in Hk as [_ Hk]. by apply (ei_sep _ _ H k).
Qed.

(** A table that is no longer active may be queued. *)
Lemma en_inv_enqueue b key l m e :
  en_inv b e -> (length (en_queue e) < FLUSH_QUEUE)%nat ->
  en_heap e !! l = Some m -> table_ok b key m ->
  (forall k, en_memtables e !! k <> Some l) -> (forall q, In q (en_queue e) -> fr_imm q <> l) ->
  is_Some (en_partitions e !! key) ->
  en_inv b (set_queue (fun q => q ++ [{| fr_imm := l; fr_partition := key |}]) e).
Proof.
  intros H Hlen El Hm Hna Hnq Hp. split; try apply H; cbn [set_queue en_heap en_memtables en_queue en_partitions].
  - rewrite length_app. simpl. lia.
  - intros q Hq. apply in_app_or in Hq as [Hq|[<-|[]]]; [by apply (ei_queued _ _ H)|]. eauto.
  - intros k l' q Hk Hq. apply in_app_or in Hq as [Hq|[<-|[]]]; [by apply (ei_sep _ _ H k)|].
    simpl. intros ->. by apply (Hna k).
  - rewrite map_app. apply NoDup_ListNoDup, NoDup_app. split_and!.
    + apply NoDup_ListNoDup, H.
    + intros x Hx Hx'. apply list_elem_of_singleton in Hx' as ->. apply base.list_elem_of_In, in_map_iff in Hx as (q & E & Hq).
      by apply (Hnq q).
    + simpl. apply NoDup_singleton.
  - intros q Hq. apply in_app_or in Hq as [Hq|[<-|[]]]; [by apply (ei_part _ _ H)|done].
Qed.

Lemma en_inv_dequeue b req q e : en_inv b e -> en_queue e = req :: q -> en_inv b (set_queue (fun _ => q) e).
Proof.
  intros H E. pose proof (ei_queue _ _ H) as Hl. pose proof (ei_nodup _ _ H) as Hn. rewrite E in Hl, Hn.
  assert (forall x, In x q -> In x (en_queue e)) as Hin by (rewrite E; simpl; auto).
  split; try apply H; cbn [set_queue en_heap en_memtables en_queue en_partitions].
  - simpl in Hl. lia.
  - intros x Hx. apply (ei_queued _ _ H), Hin, Hx.
  - intros k l x Hk Hx. apply (ei_sep _ _ H k); auto.
  - by inversion Hn.
  - intros x Hx. apply (ei_part _ _ H), Hin, Hx.
Qed.

(** The active table of a key gets a row of its bucket. *)
Lemma en_inv_update b key l m m' e :
  en_inv b e -> en_memtables e !! key = Some l -> en_heap e !! l = Some m ->
  (table_ok b key m -> table_ok b key m') -> en_inv b (set_heap (<[l := m']>) e).
Proof.
  intros H Hk El Hm. assert (l < length (en_heap e))%nat as Hlt by (by eapply lookup_lt_Some).
  split; try apply H; cbn [set_heap en_heap en_memtables en_queue].
  - intros k' l' Hk'. destruct (decide (l' = l)) as [->|Hne].
    + rewrite list_lookup_insert_eq by done. exists m'. split; [done|].
      assert (k' = key) as -> by (by apply (ei_inj _ _ H k' key l)). apply Hm.
      destruct (ei_active _ _ H _ _ Hk) as (m0 & E0 & H0). by simplify_eq.
    + rewrite list_lookup_insert_ne by done. by apply (ei_active _ _ H).
  - intros q Hq. assert (fr_imm q <> l) by (by apply (ei_sep _ _ H key)).
    rewrite list_lookup_insert_ne by done. by apply (ei_queued _ _ H).
Qed.

(** ** Every call keeps the invariant *)

Section Calls.
Context {libs : EngineLibs} (b : Z).

(** [l] is the active table of [key]. *)
Definition active (key : Z) (l : nat) (e : Engine) : Prop := en_inv b e /\ en_memtables e !! key = Some l.

(** [l] holds rows of [key] and is neither active nor queued. *)
Definition detached (key : Z) (l : nat) (e : Engine) : Prop :=
  en_inv b e /\ (exists m, en_heap e !! l = Some m /\ table_ok b key m) /\
  (forall k, en_memtables e !! k <> Some l) /\ (forall q, In q (en_queue e) -> fr_imm q <> l).

Lemma get_memtable_inv key : hoare (en_inv b) (get_or_create_memtable key) (active key) (en_inv b).
Proof.
  intros w e r w' e' H E. unfold get_or_create_memtable, mbind, st_bind, get_engine, modify_engine, st_modify, mret, st_ret in E.
  simpl in E. destruct (en_memtables e !! key) as [l|] eqn:Ek; simplify_eq/=.
  { by split. }
  split; [|apply lookup_insert_eq]. set (m := MemTable.new _).
  apply (en_inv_activate b key (length (en_heap e)) m).
  - by apply en_inv_alloc.
  - by apply list_lookup_middle.
  - apply table_ok_new.
  - intros k Hk. destruct (ei_active _ _ H _ _ Hk) as (m' & E' & _). apply lookup_lt_Some in E'. lia.
  - intros q Hq Eq. destruct (ei_queued _ _ H _ Hq) as (m' & E' & _). apply lookup_lt_Some in E'. lia.
Qed.

Lemma get_partition_inv key (P : Engine -> Prop) :
  (forall e p, P e -> P (set_partitions (<[key := p]>) e)) ->
  hoare P (get_or_create_partition key) (fun p e => P e /\ en_partitions e !! key = Some p) P.
Proof.
  intros HP. unfold get_or_create_partition. eapply hoare_bind; [apply (hoare_get P (fun e0 e => P e /\ e0 = e)); auto|].
  intros e0. simpl. destruct (en_partitions e0 !! key) as [p|] eqn:E.
  - apply hoare_ret. by intros e [He ->].
  - eapply hoare_bind; [apply hoare_or_panic, (hoare_on_fs _ _ (fun _ => P)); by intros; apply H || intros ? ? []|].
    intros p. eapply hoare_bind.
    + apply (hoare_modify _ _ (fun _ e => P e /\ en_partitions e !! key = Some p)).
      intros e He. split; [auto|apply lookup_insert_eq].
    + intros ?. apply hoare_ret. auto.
Qed.

Lemma get_wal_inv key (P : Engine -> Prop) :
  (forall e p, P e -> P (set_partitions (<[key := p]>) e)) -> (forall e f, P e -> P (set_wals f e)) ->
  hoare P (get_or_create_wal key) (fun _ => P) P.
Proof.
  intros HP HW. unfold get_or_create_wal. eapply hoare_bind; [apply (hoare_get P (fun _ => P)); auto|].
  intros e0. simpl. destruct (en_wals e0 !! key); [apply hoare_ret; auto|].
  eapply hoare_bind; [by apply get_partition_inv|]. intros p.
  eapply hoare_bind; [apply hoare_or_panic, (hoare_on_fs _ _ (fun _ => P)); by intros; destruct_and?|].
  intros wal. apply hoare_modify. auto.
Qed.

Lemma wal_append_inv key t d (P : Engine -> Prop) :
  (forall e f, P e -> P (set_wals f e)) -> hoare P (wal_append key t d) (fun _ => P) P.
Proof.
  intros HW w e r w' e' HP E. unfold wal_append in E. destruct (en_wals e !! key) as [[p wal]|]; [|by simplify_eq].
  destruct (run_wal p wal (fun s => append s t d) w) as [[r0 wal'] w1]. simplify_eq. destruct r0; by apply HW.
Qed.

Lemma update_table_inv key l put :
  (forall m m', put m = Ret m' -> table_ok b key m -> table_ok b key m') ->
  hoare (active key l) (update_table l put) (fun _ => active key l) (en_inv b).
Proof.
  intros Hput w e r w' e' [H Hk] E. unfold update_table in E.
  destruct (en_heap e !! l) as [m|] eqn:El; [|by simplify_eq].
  destruct (put m) as [m'|x|] eqn:Em; simplify_eq; [|done|done].
  split; [|done]. apply (en_inv_update b key l m); auto. by apply Hput.
Qed.

(** Freezing: the active table is replaced, then queued if there is room. *)
Lemma freeze_detaches key l m n e :
  active key l e -> en_heap e !! l = Some m ->
  detached key l (set_memtables (<[key := length (en_heap e)]>) (set_heap (fun h => h ++ [MemTable.new n]) e)).
Proof.
  intros [H Hk] El. assert (l < length (en_heap e))%nat as Hlt by (by eapply lookup_lt_Some).
  split_and!.
  - apply (en_inv_activate b key (length (en_heap e)) (MemTable.new n)).
    + by apply en_inv_alloc.
    + by apply list_lookup_middle.
    + apply table_ok_new.
    + intros k Hk'. destruct (ei_active _ _ H _ _ Hk') as (m' & E' & _). apply lookup_lt_Some in E'. lia.
    + intros q Hq Eq. destruct (ei_queued _ _ H _ Hq) as (m' & E' & _). apply lookup_lt_Some in E'. lia.
  - destruct (ei_active _ _ H _ _ Hk) as (m0 & E0 & H0). exists m0. split; [by apply lookup_app_l_Some|done].
  - intros k Hk'. cbn [set_memtables en_memtables set_heap] in Hk'.
    apply lookup_insert_Some in Hk' as [[_ E]|[Hne Hk']]; [lia|].
    by apply Hne, (ei_inj _ _ H key k l).
  - intros q Hq. by apply (ei_sep _ _ H key).
Qed.

Lemma detached_partition key l e p :
  detached key l e -> detached key l (set_partitions (<[key := p]>) e).
Proof. intros (H & Hrest). split; [by apply en_inv_partition|exact Hrest]. Qed.

Lemma try_send_inv key l :
  hoare (fun e => detached key l e /\ is_Some (en_partitions e !! key))
    (try_send {| fr_imm := l; fr_partition := key |}) (fun _ => en_inv b) (en_inv b).
Proof.
  unfold try_send. apply hoare_modify. intros e [(H & (m & El & Hm) & Hna & Hnq) Hp].
  destruct (Nat.ltb_spec (length (en_queue e)) FLUSH_QUEUE) as [Hlt|Hge].
  - pose proof (en_inv_enqueue b key l m e H Hlt El Hm Hna Hnq Hp) as Hi.
    unfold set_queue in *. apply Nat.ltb_lt in Hlt. by rewrite Hlt.
  - apply Nat.ltb_ge in Hge. unfold set_queue. rewrite Hge. by destruct e.
Qed.

Lemma maybe_freeze_inv key l : hoare (active key l) (maybe_freeze key l) (fun _ => en_inv b) (en_inv b).
Proof.
  unfold maybe_freeze. eapply hoare_bind; [apply (hoare_get _ (fun e0 e => active key l e /\ e0 = e)); auto|].
  intros e0. simpl. destruct (en_heap e0 !! l) as [m|] eqn:El.
  2:{ apply hoare_lift; [by intros e [[] _]|done]. }
  destruct (negb (is_full m)); [apply hoare_ret; by intros e [[] _]|].
  eapply hoare_bind; [apply (hoare_modify _ _ (fun _ e => exists e1, e = set_heap (fun h => h ++ [MemTable.new (memtable_size_bytes (en_config e0))]) e1
      /\ active key l e1 /\ e0 = e1)); by intros e []; eauto|].
  intros ?. eapply hoare_bind.
  { apply (hoare_modify _ _ (fun _ => detached key l)). intros e (e1 & -> & Ha & ->). by apply (freeze_detaches key l m). }
  intros ?. eapply hoare_bind.
  { apply (hoare_weaken_exn _ _ _ (detached key l)); [|by intros e []].
    apply get_partition_inv. intros. by apply detached_partition. }
  intros p. eapply hoare_conseq; [apply try_send_inv| |auto]. intros e [Hd Hp]. simpl in Hp. split; [done|]. rewrite Hp. eauto.
Qed.

Lemma active_partition key l e p : active key l e -> active key l (set_partitions (<[key := p]>) e).
Proof. intros [He Hl]. split; [by apply en_inv_partition|done]. Qed.

Lemma active_wals key l e f : active key l e -> active key l (set_wals f e).
Proof. intros [He Hl]. split; [by apply en_inv_wals|done]. Qed.

Lemma write_record_inv ts t enc put :
  (forall key m m', for_timestamp ts b = Ret key -> put m = Ret m' -> table_ok b key m -> table_ok b key m') ->
  hoare (en_inv b) (write_record ts t enc put) (fun _ => en_inv b) (en_inv b).
Proof.
  intros Hput. unfold write_record.
  eapply hoare_bind; [apply (hoare_get _ (fun e0 e => en_inv b e /\ e0 = e)); auto|]. intros e0.
  eapply hoare_bind; [apply (hoare_lift _ _ (fun key e => en_inv b e /\ for_timestamp ts b = Ret key))|].
  { by intros e []. }
  { intros key e Hk [H ->]. rewrite (ei_bucket _ _ H) in Hk. auto. }
  intros key. apply (hoare_conseq _ (fun e => en_inv b e /\ for_timestamp ts b = Ret key) _ _ (fun _ => en_inv b)); [|auto|auto].
  intros w e r w' e' [H Hk]. revert w e r w' e' H.
  change (hoare (en_inv b) (l ← get_or_create_memtable key; d ← st_lift (ok_or enc bincode_error);
    _ ← get_or_create_wal key; _ ← wal_append key t d; _ ← update_table l put; maybe_freeze key l)
    (fun _ => en_inv b) (en_inv b)).
  eapply hoare_bind; [apply get_memtable_inv|]. intros l.
  eapply hoare_bind; [apply (hoare_lift _ _ (fun _ => active key l)); [by intros e []|auto]|]. intros d.
  eapply hoare_bind.
  { apply (hoare_weaken_exn _ _ _ (active key l)); [|by intros e []]. apply get_wal_inv; auto using active_partition, active_wals. }
  intros ?. eapply hoare_bind.
  { apply (hoare_weaken_exn _ _ _ (active key l)); [|by intros e []]. apply wal_append_inv; auto using active_wals. }
  intros ?. eapply hoare_bind; [apply update_table_inv; intros m m'; by apply Hput|].
  intros ?. apply maybe_freeze_inv.
Qed.

(** Each record lands in the bucket of its own timestamp. *)
Lemma write_batch_inv batch : hoare (en_inv b) (write_batch batch) (fun _ => en_inv b) (en_inv b).
Proof.
  unfold write_batch. eapply hoare_bind; [apply (hoare_get _ (fun _ => en_inv b)); auto|]. intros e0. simpl.
  destruct (en_closed e0); [apply hoare_lift; [auto|done]|].
  destruct batch as [rs|rs|rs]; apply hoare_iter; intros r; apply write_record_inv; intros key m m' Hk Hp Hm;
    unfold write_log, write_metric, write_span in Hp; apply bind_Ret in Hp as (d & _ & [= <-]); by apply table_ok_insert.
Qed.

Lemma on_partition_inv {A} key (m : st (Fs * Partition) StorageError A) (P : Engine -> Prop) :
  (forall e p, P e -> P (set_partitions (<[key := p]>) e)) -> hoare P (on_partition key m) (fun _ => P) P.
Proof.
  intros HP w e r w' e' H E. unfold on_partition in E. destruct (en_partitions e !! key) as [p|]; [|by simplify_eq].
  destruct (m (w, p)) as [r0 [w1 p1]]. simplify_eq. destruct r; auto.
Qed.

(** The worker takes one request; the queue is then one shorter. *)
Lemma flush_step_inv n :
  hoare (fun e => en_inv b e /\ (length (en_queue e) <= n)%nat) flush_step
    (fun _ e => en_inv b e /\ (length (en_queue e) <= n - 1)%nat) (en_inv b).
Proof.
  unfold flush_step. eapply hoare_bind; [apply (hoare_get _ (fun e0 e => (en_inv b e /\ (length (en_queue e) <= n)%nat) /\ e0 = e)); auto|].
  intros e0. simpl. destruct (en_queue e0) as [|req q] eqn:Eq.
  { apply hoare_ret. intros e [[H Hl] ->]. rewrite Eq. simpl. split; [done|lia]. }
  set (P := fun e => en_inv b e /\ (length (en_queue e) <= n - 1)%nat).
  eapply hoare_bind; [apply (hoare_modify _ _ (fun _ => P))|].
  { intros e [[H Hl] ->]. split; [by apply (en_inv_dequeue b req)|]. cbn [set_queue en_queue]. rewrite Eq in Hl. simpl in Hl. lia. }
  intros ?. destruct (en_heap e0 !! fr_imm req) as [m|]; [|apply hoare_lift; [by intros e []|done]].
  eapply hoare_bind; [apply (hoare_weaken_exn _ _ _ P); [|by intros e []]; apply hoare_try, on_partition_inv|].
  { intros e p [H Hl]. split; [by apply en_inv_partition|exact Hl]. }
  intros r. apply hoare_ret. by destruct r.
Qed.

Lemma flush_step_detached key l :
  hoare (fun e => detached key l e /\ is_Some (en_partitions e !! key)) flush_step
    (fun _ e => detached key l e /\ is_Some (en_partitions e !! key)) (en_inv b).
Proof.
  set (P := fun e => detached key l e /\ is_Some (en_partitions e !! key)).
  unfold flush_step. eapply hoare_bind; [apply (hoare_get _ (fun e0 e => P e /\ e0 = e)); auto|].
  intros e0. simpl. destruct (en_queue e0) as [|req q] eqn:Eq; [apply hoare_ret; by intros e []|].
  eapply hoare_bind; [apply (hoare_modify _ _ (fun _ => P))|].
  { intros e [[(H & Hm & Hna & Hnq) Hp] ->]. split; [|exact Hp]. split_and!; [by apply (en_inv_dequeue b req)|done|done|].
    intros x Hx. apply Hnq. rewrite Eq. by right. }
  intros ?. destruct (en_heap e0 !! fr_imm req) as [m|]; [|apply hoare_lift; [by intros e [[] _]|done]].
  eapply hoare_bind; [apply (hoare_weaken_exn _ _ _ P); [|by intros e [[] _]]; apply hoare_try, on_partition_inv|].
  { intros e p [(H & Hm & Hna & Hnq) [p0 Hp]]. split; [split_and!; [by apply en_inv_partition|done|done|done]|].
    cbn [set_partitions en_partitions]. destruct (decide (fr_partition req = key)) as [->|Hne];
      [rewrite lookup_insert_eq; eauto|rewrite lookup_insert_ne by done; eauto]. }
  intros r. apply hoare_ret. by destruct r.
Qed.

Lemma send_inv key l :
  hoare (fun e => detached key l e /\ is_Some (en_partitions e !! key))
    (send {| fr_imm := l; fr_partition := key |}) (fun _ => en_inv b) (en_inv b).
Proof.
  set (P := fun e => detached key l e /\ is_Some (en_partitions e !! key)).
  unfold send. eapply hoare_bind; [apply (hoare_get _ (fun e0 e => P e /\ e0 = e)); auto|]. intros e0.
  apply (hoare_bind _ _ (fun _ e => P e /\ (length (en_queue e) < FLUSH_QUEUE)%nat)).
  - destruct (Nat.ltb_spec (length (en_queue e0)) FLUSH_QUEUE).
    + apply hoare_ret. by intros e [HP ->].
    + intros w e r w' e' [HP ->] E.
      pose proof (flush_step_detached key l w e r w' e' HP E) as H1.
      assert (en_inv b e /\ (length (en_queue e) <= FLUSH_QUEUE)%nat) as H0 by (destruct HP as [[Hi _] _]; split; [done|apply Hi]).
      pose proof (flush_step_inv FLUSH_QUEUE w e r w' e' H0 E) as H2.
      destruct r; [|done|done]. split; [done|]. destruct H2 as [_ H2]. unfold FLUSH_QUEUE in *. lia.
  - intros ?. apply hoare_modify. intros e [[(H & (m & El & Hm) & Hna & Hnq) Hp] Hlt].
    by apply (en_inv_enqueue b key l m).
Qed.

Lemma flush_key_inv key : hoare (en_inv b) (flush_key key) (fun _ => en_inv b) (en_inv b).
Proof.
  unfold flush_key. eapply hoare_bind; [apply (hoare_get _ (fun e0 e => en_inv b e /\ e0 = e)); auto|]. intros e0. simpl.
  destruct (en_memtables e0 !! key) as [l|] eqn:Ek; [|apply hoare_ret; by intros e []].
  eapply hoare_bind; [apply (hoare_modify _ _ (fun _ => detached key l))|].
  { intros e [H ->]. split_and!; [by apply en_inv_deactivate|by apply (ei_active _ _ H)| |].
    - intros k Hk. cbn [set_memtables en_memtables] in Hk. apply lookup_delete_Some in Hk as [Hne Hk].
      by apply Hne, (ei_inj _ _ H key k l).
    - intros q Hq. by apply (ei_sep _ _ H key). }
  intros ?. destruct (en_heap e0 !! l) as [m|]; [|apply hoare_lift; [by intros e []|done]].
  destruct (MemTable.is_empty m); [apply hoare_ret; by intros e []|].
  eapply hoare_bind.
  { apply (hoare_weaken_exn _ _ _ (detached key l)); [|by intros e []].
    apply get_partition_inv. intros. by apply detached_partition. }
  intros p. eapply hoare_conseq; [apply send_inv| |auto]. intros e [Hd Hp]. simpl in Hp. split; [done|]. rewrite Hp. eauto.
Qed.

Lemma flush_all_inv : hoare (en_inv b) flush_all (fun _ => en_inv b) (en_inv b).
Proof.
  unfold flush_all. eapply hoare_bind; [apply (hoare_get _ (fun _ => en_inv b)); auto|]. intros e0.
  apply hoare_iter. intros key. apply flush_key_inv.
Qed.

Lemma close_inv : hoare (en_inv b) close (fun _ => en_inv b) (en_inv b).
Proof.
  unfold close. eapply hoare_bind; [apply (hoare_modify _ _ (fun _ => en_inv b)); intros; by apply en_inv_closed|].
  intros ?. apply flush_all_inv.
Qed.

Lemma compaction_pass_inv : hoare (en_inv b) compaction_pass (fun _ => en_inv b) (en_inv b).
Proof.
  unfold compaction_pass. eapply hoare_bind; [apply (hoare_get _ (fun _ => en_inv b)); auto|]. intros e0. simpl.
  destruct (en_closed e0); [apply hoare_ret; auto|]. apply hoare_iter. intros key.
  eapply hoare_bind; [apply on_partition_inv; intros; by apply en_inv_partition|]. intros ?. by apply hoare_ret.
Qed.
End Calls.

(** ** Runs of the engine

    A call of the interface, a turn of a worker, or the environment changing
    the file system; a call that fails or panics leaves its effects. *)

Inductive engine_step `{EngineLibs} : Fs * Engine -> Fs * Engine -> Prop :=
| step_write batch s r s' : write_batch batch s = (r, s') -> engine_step s s'
| step_flush s r s' : flush_step s = (r, s') -> engine_step s s'
| step_flush_all s r s' : flush_all s = (r, s') -> engine_step s s'
| step_close s r s' : close s = (r, s') -> engine_step s s'
| step_compact s r s' : compaction_pass s = (r, s') -> engine_step s s'
| step_env w w' e : engine_step (w, e) (w', e).

(** The states an engine can get to from [open]. *)
Definition reachable `{EngineLibs} (config : StorageConfig) (s : Fs * Engine) : Prop :=
  exists w0 e0 w1, engine_open config w0 = (Ret e0, w1) /\ rtc engine_step (w1, e0) s.

Definition bucket_of (config : StorageConfig) : Z :=
  wrap_u64 (wrap_u64 (partition_hours config * 3600) * 1000000000).

Lemma hoare_state {A} b (m : eio A) s r s' :
  hoare (en_inv b) m (fun _ => en_inv b) (en_inv b) -> en_inv b (snd s) -> m s = (r, s') -> en_inv b (snd s').
Proof. intros Hm H E. destruct s as [w e], s' as [w' e']. specialize (Hm w e r w' e' H E). by destruct r. Qed.

Lemma engine_step_inv `{EngineLibs} b s s' : engine_step s s' -> en_inv b (snd s) -> en_inv b (snd s').
Proof.
  intros Hs Hi. destruct Hs as [batch s r s' E|s r s' E|s r s' E|s r s' E|s r s' E|w w' e]; [..|exact Hi];
    eapply hoare_state; try exact E; try exact Hi.
  - apply write_batch_inv.
  - eapply (hoare_conseq _ _ _ _ _ _ (flush_step_inv b FLUSH_QUEUE)); [intros e He; split; [done|apply He]|by intros ? ? []].
  - apply flush_all_inv.
  - apply close_inv.
  - apply compaction_pass_inv.
Qed.

Lemma engine_open_inv `{EngineLibs} config w e w' :
  engine_open config w = (Ret e, w') -> en_inv (bucket_of config) e.
Proof.
  unfold engine_open. intros E. apply st_bind_inv in E as (? & w1 & _ & [= <- _]).
  split; try done; cbn [en_queue en_memtables map length]; try by intros; rewrite lookup_empty in *.
  - unfold FLUSH_QUEUE. lia.
  - constructor.
Qed.

Lemma reachable_inv `{EngineLibs} config s : reachable config s -> en_inv (bucket_of config) (snd s).
Proof.
  intros (w0 & e0 & w1 & Eo & Hr). apply engine_open_inv in Eo.
  revert Eo. change e0 with (snd (w1, e0)). generalize (w1, e0), Hr. clear.
  intros s0 Hr. induction Hr as [|s0 s1 s Hs Hr IH]; [done|]. intros Hi. eapply IH, engine_step_inv; done.
Qed.

(** The engine routes rows to the partition of their time, and never
    writes a frozen table.  In every state that calls, worker turns,
    failures and changes of the file system can lead to, the flush queue
    holds at most 64 requests, an active table is not queued and no table is
    queued twice, and every row of an active or queued table has a timestamp
    whose bucket is the partition the table belongs to. *)
Theorem engine_rows_routed `{EngineLibs} config w e :
  reachable config (w, e) ->
  (length (en_queue e) <= FLUSH_QUEUE)%nat /\
  (forall k l, en_memtables e !! k = Some l -> ~ In l (map fr_imm (en_queue e))) /\
  List.NoDup (map fr_imm (en_queue e)) /\
  (forall k l, en_memtables e !! k = Some l \/ In {| fr_imm := l; fr_partition := k |} (en_queue e) ->
     exists m, en_heap e !! l = Some m /\
       forall key d, In (key, d) (mt_inner m) -> for_timestamp (rk_timestamp_ns key) (bucket_of config) = Ret k).
Proof.
  intros Hr. pose proof (reachable_inv _ _ Hr) as Hi. simpl in Hi. split_and!; [apply Hi| |apply Hi|].
  - intros k l Hk Hin. apply in_map_iff in Hin as (q & Eq & Hq). by apply (ei_sep _ _ Hi k l q).
  - intros k l Hkl. assert (exists m, en_heap e !! l = Some m /\ table_ok (bucket_of config) k m) as (m & El & Hm).
    { destruct Hkl as [Hk|Hq]; [by apply (ei_active _ _ Hi)|by apply (ei_queued _ _ Hi _ Hq)]. }
    exists m. split; [done|]. intros key d Hin. destruct Hm as [_ Hf]. rewrite List.Forall_forall in Hf.
    exact (Hf (key, d) Hin).
Qed.

(** ** What a write keeps *)

(** A row that has been accepted for partition [k] and not yet handed to the
    flush worker. *)
Definition pending (e : Engine) (k : Z) (row : RowKey * list Z) : Prop :=
  exists l m, (en_memtables e !! k = Some l \/ In {| fr_imm := l; fr_partition := k |} (en_queue e)) /\
    en_heap e !! l = Some m /\ In row (mt_inner m).

Lemma pending_routed b e k row : en_inv b e -> pending e k row -> for_timestamp (rk_timestamp_ns (fst row)) b = Ret k.
Proof.
  intros Hi (l & m & Hl & El & Hin). assert (exists m, en_heap e !! l = Some m /\ table_ok b k m) as (m' & El' & _ & Hf).
  { destruct Hl as [Hk|Hq]; [by apply (ei_active _ _ Hi)|by apply (ei_queued _ _ Hi _ Hq)]. }
  rewrite El in El'. injection El' as <-. rewrite List.Forall_forall in Hf. by apply (Hf row).
Qed.

(** Everything handed to the log of a partition: on disk and buffered. *)
Definition log_stream (key : Z) (w : Fs) (e : Engine) : list Z :=
  match en_wals e !! key with
  | Some (p, wal) => stream (file_view p w, wal)
  | None => []
  end.

Definition buffered (key : Z) (e : Engine) : nat :=
  match en_wals e !! key with Some (_, wal) => length (wal_writer wal) | None => O end.

(** The fields the write path reads besides logs and partitions. *)
Definition same_tables (e e' : Engine) : Prop :=
  en_memtables e' = en_memtables e /\ en_heap e' = en_heap e /\ en_queue e' = en_queue e /\
  en_config e' = en_config e /\ en_bucket_ns e' = en_bucket_ns e.

Lemma same_tables_trans e1 e2 e3 : same_tables e1 e2 -> same_tables e2 e3 -> same_tables e1 e3.
Proof. intros (? & ? & ? & ? & ?) (? & ? & ? & ? & ?). split_and!; congruence. Qed.

Lemma same_tables_pending e e' k row : same_tables e e' -> pending e k row <-> pending e' k row.
Proof. intros (E1 & E2 & E3 & _). unfold pending. by rewrite E1, E2, E3. Qed.

Section Progress.
Context {libs : EngineLibs}.

(** The file system below may gain directories only. *)
Definition more_dirs (w w' : Fs) : Prop :=
  healthy w' /\ fs_files w' = fs_files w /\ fs_room w' = fs_room w.

Lemma sp_open_ok dir w : healthy w -> exists sp w', sp_open dir w = (Ret sp, w') /\ more_dirs w w' /\ sp_dir sp = dir.
Proof. intros Hh. eexists _, _. split; [by apply sp_open_healthy|]. by repeat split. Qed.

Lemma more_dirs_trans w1 w2 w3 : more_dirs w1 w2 -> more_dirs w2 w3 -> more_dirs w1 w3.
Proof. intros (? & ? & ?) (? & ? & ?). split_and!; congruence. Qed.

Lemma p_open_ok base key w : healthy w -> exists p w', p_open base key w = (Ret p, w') /\ more_dirs w w'.
Proof.
  intros Hh. unfold p_open.
  set (dir := join (join base "partitions") (dir_name key)).
  assert (exists w1, create_dir_all dir w = (Ret tt, w1) /\ more_dirs w w1) as (w1 & E1 & M1).
  { eexists. split; [unfold create_dir_all; by rewrite syscall_healthy|]. by repeat split. }
  destruct (sp_open_ok (join dir "logs") w1) as (s1 & w2 & E2 & M2 & _); [apply M1|].
  destruct (sp_open_ok (join dir "metrics") w2) as (s2 & w3 & E3 & M3 & _); [apply M2|].
  destruct (sp_open_ok (join dir "spans") w3) as (s3 & w4 & E4 & M4 & _); [apply M3|].
  eexists _, w4. split; [|eauto using more_dirs_trans].
  rewrite (st_bind_Ret _ _ _ _ _ E1), (st_bind_Ret _ _ _ _ _ E2), (st_bind_Ret _ _ _ _ _ E3), (st_bind_Ret _ _ _ _ _ E4).
  reflexivity.
Qed.

Lemma get_partition_ok key w e :
  healthy w -> exists p w' e', get_or_create_partition key (w, e) = (Ret p, (w', e')) /\
    more_dirs w w' /\ same_tables e e' /\ en_wals e' = en_wals e /\ en_partitions e' !! key = Some p.
Proof.
  intros Hh. unfold get_or_create_partition. rewrite (st_bind_Ret _ _ (w, e) e (w, e)) by done.
  destruct (en_partitions e !! key) as [p|] eqn:E; [exists p, w, e; by repeat split|].
  destruct (p_open_ok (data_dir (en_config e)) key w Hh) as (p & w' & E' & M).
  exists p, w', (set_partitions (<[key := p]>) e).
  erewrite st_bind_Ret; [|unfold or_panic; rewrite (on_fs_Ret _ _ _ _ _ E'); reflexivity].
  split; [reflexivity|]. split; [done|]. split; [by repeat split|]. split; [done|apply lookup_insert_eq].
Qed.

Lemma open_wal_ok p w :
  healthy w -> exists wal w', open_wal p w = (Ret wal, w') /\ healthy w' /\ fs_room w' = fs_room w /\
    wal_writer wal = [] /\ stream (file_view p w', wal) = default [] (fs_files w !! p).
Proof.
  intros Hh. unfold open_wal. rewrite syscall_healthy by done. eexists _, _. split; [reflexivity|].
  split_and!; [done|done|done|]. unfold stream, file_view, put_view; cbn [fst snd os_bytes fs_files wal_open wal_writer].
  by rewrite app_nil_r, lookup_insert_eq.
Qed.

(** The log of a partition is opened on first use. *)
Lemma get_wal_ok key w e :
  healthy w -> exists w' e', get_or_create_wal key (w, e) = (Ret tt, (w', e')) /\
    healthy w' /\ fs_room w' = fs_room w /\ same_tables e e' /\ is_Some (en_wals e' !! key) /\
    (buffered key e' <= buffered key e)%nat /\
    (is_Some (en_wals e !! key) -> log_stream key w' e' = log_stream key w e).
Proof.
  intros Hh. unfold get_or_create_wal. rewrite (st_bind_Ret _ _ (w, e) e (w, e)) by done.
  destruct (en_wals e !! key) as [[p0 wal0]|] eqn:E.
  { exists w, e. split; [reflexivity|]. rewrite E. repeat split; eauto. }
  destruct (get_partition_ok key w e Hh) as (p & w1 & e1 & E1 & (Hh1 & Hf1 & Hr1) & Ht1 & Hw1 & _).
  rewrite (st_bind_Ret _ _ _ _ _ E1).
  destruct (open_wal_ok (sp_wal_path (p_logs p)) w1 Hh1) as (wal & w2 & E2 & Hh2 & Hr2 & Hn & _).
  exists w2, (set_wals (<[key := (sp_wal_path (p_logs p), wal)]>) e1).
  erewrite st_bind_Ret; [|unfold or_panic; rewrite (on_fs_Ret _ _ _ _ _ E2); reflexivity].
  split; [reflexivity|]. split_and!; [done|congruence|apply Ht1..| | |].
  - cbn [set_wals en_wals]. rewrite lookup_insert_eq. eauto.
  - unfold buffered. cbn [set_wals en_wals]. rewrite lookup_insert_eq, Hn. simpl. lia.
  - by intros [? ?].
Qed.

(** An append that fits extends the stream by the entry. *)
Lemma wal_append_ok key t d w e :
  healthy w -> is_Some (en_wals e !! key) ->
  let entry := {| entry_type := t; entry_data := d |} in
  (buffered key e + length (encode entry) <= fs_room w)%nat ->
  exists w' e', wal_append key t d (w, e) = (Ret tt, (w', e')) /\ healthy w' /\ same_tables e e' /\
    log_stream key w' e' = log_stream key w e ++ encode entry.
Proof.
  intros Hh [[p wal] E] entry Hroom. unfold buffered in Hroom. rewrite E in Hroom.
  destruct (append_spec (file_view p w, wal) entry) as ([f' wal'] & Ea & Es & _).
  { unfold stream, budget; cbn [fst snd file_view os_bytes os_room]. rewrite length_app. lia. }
  exists (put_view p f' w), (set_wals (<[key := (p, wal')]>) e). unfold wal_append. rewrite E.
  unfold run_wal. cbn [entry_type entry_data entry] in Ea. rewrite Ea. split; [reflexivity|].
  split; [done|]. split; [by repeat split|]. unfold log_stream. cbn [set_wals en_wals]. rewrite lookup_insert_eq, E, <- Es.
  unfold stream, file_view, put_view; cbn [fst snd os_bytes fs_files]. by rewrite lookup_insert_eq.
Qed.
End Progress.

Section Accept.
Context {libs : EngineLibs} (b : Z).

(** No table has used up its sequence numbers. *)
Definition tables_young (e : Engine) : Prop :=
  forall l m, en_heap e !! l = Some m -> mt_inv m /\ 0 <= mt_sequence m /\ mt_sequence m + 1 < two64.

(** Nothing pending is lost. *)
Definition keeps (e e' : Engine) : Prop := forall k row, pending e k row -> pending e' k row.

Lemma keeps_trans e1 e2 e3 : keeps e1 e2 -> keeps e2 e3 -> keeps e1 e3.
Proof. unfold keeps. auto. Qed.

Lemma same_tables_keeps e e' : same_tables e e' -> keeps e e'.
Proof. intros H k row. apply (same_tables_pending _ _ _ _ H). Qed.

(** The table the next row of [key] goes to. *)
Definition table_for (key : Z) (e : Engine) : MemTable :=
  match en_memtables e !! key with
  | Some l => default (MemTable.new 0) (en_heap e !! l)
  | None => MemTable.new (memtable_size_bytes (en_config e))
  end.

Lemma get_memtable_ok key w e :
  en_inv b e -> tables_young e ->
  exists l e', get_or_create_memtable key (w, e) = (Ret l, (w, e')) /\ active b key l e' /\ tables_young e' /\
    keeps e e' /\ en_wals e' = en_wals e /\ en_queue e' = en_queue e /\ en_heap e' !! l = Some (table_for key e).
Proof.
  intros H Hy. destruct (get_or_create_memtable key (w, e)) as [r [w' e']] eqn:E.
  pose proof (get_memtable_inv b key w e r w' e' H E) as Hpost.
  unfold get_or_create_memtable, mbind, st_bind, get_engine, modify_engine, st_modify, mret, st_ret in E. simpl in E.
  destruct (en_memtables e !! key) as [l|] eqn:Ek; simplify_eq/=.
  { exists l, e'. split_and!; try done; [by intros k row|]. unfold table_for. rewrite Ek.
    destruct (ei_active _ _ H _ _ Ek) as (m & -> & _). done. }
  eexists _, _. split; [reflexivity|]. split; [exact Hpost|]. split_and!; [| |done|done|].
  3:{ unfold table_for. rewrite Ek. by apply list_lookup_middle. }
  - intros l m Hl. cbn [set_memtables set_heap en_heap] in Hl. apply lookup_app_Some in Hl as [Hl|[_ Hl]]; [by apply (Hy l)|].
    apply list_lookup_singleton_Some in Hl as [_ <-]. split; [apply mt_inv_new|]. simpl. lia.
  - intros k row (l & m & Hl & El & Hin). exists l, m. cbn [set_memtables set_heap en_heap en_memtables en_queue].
    split_and!; [|by apply lookup_app_l_Some|done]. destruct Hl as [Hl|Hq]; [left|by right].
    rewrite lookup_insert_ne; [done|]. by intros ->; rewrite Hl in Ek.
Qed.

Lemma insert_rows m ts sig d :
  mt_inv m -> forall row, In row (mt_inner (MemTable.insert m ts sig d)) <->
    row = ({| rk_timestamp_ns := ts; rk_signal_type := sig; rk_sequence := mt_sequence m |}, d) \/ In row (mt_inner m).
Proof.
  intros [Hwf Hseq] row. cbn [MemTable.insert mt_inner]. set (k := {| rk_timestamp_ns := ts |}).
  assert (bt_get k (mt_inner m) = None) as Hnone.
  { destruct (bt_get k (mt_inner m)) eqn:E; [|done]. apply bt_get_in in E; [|done].
    rewrite List.Forall_forall in Hseq. specialize (Hseq _ E). simpl in Hseq. lia. }
  pose proof (bt_insert_fresh k d (mt_inner m) Hwf Hnone) as Hp. split.
  - intros Hin. apply (Permutation_in _ Hp) in Hin as [<-|Hin]; auto.
  - intros Hin. apply (Permutation_in _ (Permutation_sym Hp)). destruct Hin as [->|Hin]; simpl; auto.
Qed.

Lemma update_table_ok key l m ts sig d w e :
  active b key l e -> tables_young e -> for_timestamp ts b = Ret key -> en_heap e !! l = Some m ->
  exists e', let m' := MemTable.insert m ts sig d in update_table l (fun m => Ret (MemTable.insert m ts sig d)) (w, e) = (Ret tt, (w, e')) /\
    active b key l e' /\ keeps e e' /\ en_wals e' = en_wals e /\ en_queue e' = en_queue e /\
    en_heap e' !! l = Some m' /\
    In ({| rk_timestamp_ns := ts; rk_signal_type := sig; rk_sequence := mt_sequence m |}, d) (mt_inner m').
Proof.
  intros Ha Hy Hk El. pose proof Ha as [H Hl].
  assert (l < length (en_heap e))%nat as Hlt by (by eapply lookup_lt_Some).
  destruct (Hy _ _ El) as [Hmi _].
  exists (set_heap (<[l := MemTable.insert m ts sig d]>) e). cbv zeta.
  assert (update_table l (fun m => Ret (MemTable.insert m ts sig d)) (w, e) =
          (Ret tt, (w, set_heap (<[l := MemTable.insert m ts sig d]>) e))) as E by (unfold update_table; by rewrite El).
  split; [done|]. split.
  { refine (update_table_inv b key l _ _ w e _ _ _ Ha E). intros m0 m1 [= <-] H0. by apply table_ok_insert. }
  split_and!; [|done|done|by apply list_lookup_insert_eq|by apply insert_rows; auto].
  - intros k row (l' & m' & Hl' & El' & Hin). destruct (decide (l' = l)) as [->|Hne].
    + exists l, (MemTable.insert m ts sig d). simplify_eq. cbn [set_heap en_heap en_memtables en_queue]. split_and!; [done|by apply list_lookup_insert_eq|].
      apply insert_rows; auto.
    + exists l', m'. cbn [set_heap en_heap en_memtables en_queue]. split_and!; [done|by rewrite list_lookup_insert_ne|done].
Qed.

Lemma maybe_freeze_ok key l w e :
  active b key l e -> healthy w -> (length (en_queue e) < FLUSH_QUEUE)%nat ->
  exists w' e', maybe_freeze key l (w, e) = (Ret tt, (w', e')) /\ keeps e e' /\
    log_stream key w' e' = log_stream key w e.
Proof.
  intros Ha Hh Hq. pose proof Ha as [H Hl]. destruct (ei_active _ _ H _ _ Hl) as (m & El & _).
  unfold maybe_freeze. rewrite (st_bind_Ret _ _ (w, e) e (w, e)) by done. rewrite El.
  destruct (is_full m); simpl; [|exists w, e; split_and!; try done; by intros k row].
  set (e1 := set_memtables (<[key := length (en_heap e)]>)
    (set_heap (fun h => h ++ [MemTable.new (memtable_size_bytes (en_config e))]) e)). erewrite st_bind_Ret by reflexivity. erewrite st_bind_Ret by reflexivity.
  destruct (get_partition_ok key w e1 Hh) as (p & w2 & e2 & E2 & (Hh2 & Hf2 & _) & (T1 & T2 & T3 & _) & Hw2 & _).
  rewrite (st_bind_Ret _ _ (w, e1) p (w2, e2)) by exact E2.
  exists w2, (set_queue (fun q => if (length q <? FLUSH_QUEUE)%nat
    then q ++ [{| fr_imm := l; fr_partition := key |}] else q) e2). split; [reflexivity|]. split.
  - intros k row (l' & m' & Hl' & El' & Hin). exists l', m'. cbn [set_queue en_memtables en_queue en_heap].
    rewrite T1, T2, T3. cbn [e1 set_memtables set_heap en_memtables en_queue en_heap].
    apply Nat.ltb_lt in Hq as ->. split_and!; [|by apply lookup_app_l_Some|done].
    destruct Hl' as [Hl'|Hq']; [|right; apply in_or_app; auto].
    destruct (decide (k = key)) as [->|Hne]; [right; simplify_eq; apply in_or_app; right; by left|left].
    by rewrite lookup_insert_ne.
  - unfold log_stream. cbn [set_queue en_wals]. rewrite Hw2. unfold file_view. rewrite Hf2. done.
Qed.

(** One record, from its timestamp to the freeze decision. *)
Lemma write_record_until_freeze ts t sig d w e :
  en_inv b e -> 0 < b -> healthy w -> tables_young e ->
  let key := b * (ts / b) in
  let entry := {| entry_type := t; entry_data := d |} in
  let m := MemTable.insert (table_for key e) ts sig d in
  (buffered key e + length (encode entry) <= fs_room w)%nat ->
  exists l w' e' base,
    write_record ts t (Some d) (fun m => Ret (MemTable.insert m ts sig d)) (w, e) = maybe_freeze key l (w', e') /\
    active b key l e' /\ healthy w' /\ en_queue e' = en_queue e /\ keeps e e' /\ en_heap e' !! l = Some m /\
    In ({| rk_timestamp_ns := ts; rk_signal_type := sig; rk_sequence := mt_sequence (table_for key e) |}, d) (mt_inner m) /\
    log_stream key w' e' = base ++ encode entry /\
    (is_Some (en_wals e !! key) -> base = log_stream key w e).
Proof.
  intros H Hb Hh Hy key entry m Hroom. pose proof (for_timestamp_spec ts b Hb) as Hk. fold key in Hk.
  destruct (get_memtable_ok key w e H Hy) as (l & e1 & E1 & Ha1 & Hy1 & K1 & W1 & Q1 & El1).
  destruct (get_wal_ok key w e1 Hh) as (w2 & e2 & E2 & Hh2 & Hr2 & T2 & Hs2 & B2 & L2).
  assert (buffered key e1 = buffered key e) as Eb by (unfold buffered; by rewrite W1).
  destruct (wal_append_ok key t d w2 e2 Hh2 Hs2) as (w3 & e3 & E3 & Hh3 & T3 & L3); [fold entry; lia|].
  pose proof (same_tables_trans _ _ _ T2 T3) as T. pose proof T as (M3 & H3 & Qu3 & _ & B3).
  assert (active b key l e3) as Ha3.
  { pose proof (get_wal_inv key (active b key l) (fun e p => active_partition b key l e p)
      (fun e f => active_wals b key l e f) w e1 _ w2 e2 Ha1 E2) as Ha2. simpl in Ha2.
    exact (wal_append_inv key t d (active b key l) (fun e f => active_wals b key l e f) w2 e2 _ w3 e3 Ha2 E3). }
  assert (tables_young e3) as Hy3 by (unfold tables_young; by rewrite H3).
  destruct (update_table_ok key l (table_for key e) ts sig d w3 e3 Ha3 Hy3 Hk) as (e4 & E4 & Ha4 & K4 & W4 & Q4 & El4 & P4);
    [by rewrite H3|].
  exists l, w3, e4, (log_stream key w2 e2). split_and!; [|done|done|congruence| |done|done| |].
  - unfold write_record. rewrite (st_bind_Ret _ _ (w, e) e (w, e)) by done.
    rewrite (st_bind_Ret _ _ (w, e) key (w, e)) by (unfold st_lift; by rewrite (ei_bucket _ _ H), Hk).
    rewrite (st_bind_Ret _ _ _ _ _ E1), (st_bind_Ret _ _ (w, e1) d (w, e1)) by done.
    by rewrite (st_bind_Ret _ _ _ _ _ E2), (st_bind_Ret _ _ _ _ _ E3), (st_bind_Ret _ _ _ _ _ E4).
  - eapply keeps_trans; [exact K1|]. eapply keeps_trans; [by apply same_tables_keeps|exact K4].
  - unfold entry. rewrite <- L3. unfold log_stream. by rewrite W4.
  - intros Hs. rewrite L2 by (by rewrite W1). unfold log_stream. by rewrite W1.
Qed.

Lemma active_pending key l m e row :
  active b key l e -> en_heap e !! l = Some m -> In row (mt_inner m) -> pending e key row.
Proof. intros [_ Hl] El Hin. exists l, m. auto. Qed.

(** Freezing into a full queue leaves the table without a reference. *)
Lemma freeze_full_queue key l m w e :
  active b key l e -> en_heap e !! l = Some m -> is_full m = true ->
  (FLUSH_QUEUE <= length (en_queue e))%nat -> healthy w ->
  exists w' e', maybe_freeze key l (w, e) = (Ret tt, (w', e')) /\ en_heap e' !! l = Some m /\
    (forall k, en_memtables e' !! k <> Some l) /\ ~ In l (map fr_imm (en_queue e')).
Proof.
  intros Ha El Hf Hq Hh.
  destruct (freeze_detaches b key l m (memtable_size_bytes (en_config e)) e Ha El) as (_ & _ & Hna & Hnq).
  unfold maybe_freeze. rewrite (st_bind_Ret _ _ (w, e) e (w, e)) by done. rewrite El, Hf. cbn [negb].
  set (e1 := set_memtables _ _) in *. erewrite st_bind_Ret by reflexivity. erewrite st_bind_Ret by reflexivity.
  destruct (get_partition_ok key w e1 Hh) as (p & w2 & e2 & E2 & _ & (T1 & T2 & T3 & _) & _ & _).
  rewrite (st_bind_Ret _ _ (w, e1) p (w2, e2)) by exact E2.
  exists w2, (set_queue (fun q => if (length q <? FLUSH_QUEUE)%nat
    then q ++ [{| fr_imm := l; fr_partition := key |}] else q) e2). split; [reflexivity|].
  cbn [set_queue en_heap en_memtables en_queue]. rewrite T1, T2, T3. split_and!; [by apply lookup_app_l_Some|done|].
  assert ((length (en_queue e1) <? FLUSH_QUEUE)%nat = false) as -> by (apply Nat.ltb_ge; exact Hq).
  rewrite in_map_iff. intros (q & Eq & Hin). by apply (Hnq q).
Qed.
End Accept.

(** ** A batch of one record *)

(** Timestamp, log entry type, signal byte and encoding of the record of a
    one-record batch. *)
Definition one_record {libs : EngineLibs} (batch : IngestBatch) : option (Z * Z * Z * option (list Z)) :=
  match batch with
  | Logs [r] => Some (lr_timestamp_ns r, ENTRY_LOG, signal_u8 Log, serialize r)
  | Metrics [r] => Some (mp_timestamp_ns r, ENTRY_METRIC, signal_u8 Metric, serialize r)
  | Spans [r] => Some (sr_start_time_ns r, ENTRY_SPAN, signal_u8 Span, serialize r)
  | _ => None
  end.

Lemma write_batch_one {libs : EngineLibs} batch ts t sig d w e :
  one_record batch = Some (ts, t, sig, Some d) -> en_closed e = false ->
  write_batch batch (w, e) =
  (_ ← write_record ts t (Some d) (fun m => Ret (MemTable.insert m ts sig d)); mret tt) (w, e).
Proof.
  intros Ho Hc. unfold write_batch. rewrite (st_bind_Ret _ _ (w, e) e (w, e)) by done. rewrite Hc.
  destruct batch as [[|r [|]]|[|r [|]]|[|r [|]]]; try done; cbn [one_record] in Ho; injection Ho as <- <- <- Es;
    cbn [engine_write_logs engine_write_metrics engine_write_spans st_iter];
    unfold engine_write_logs, engine_write_metrics, engine_write_spans, st_iter, write_log, write_metric, write_span;
    rewrite Es; done.
Qed.

(** The record of a batch of one is logged and held. *)
Lemma write_one_accepted {libs : EngineLibs} config batch ts t sig d w e :
  reachable config (w, e) -> en_closed e = false -> 0 < bucket_of config -> healthy w -> tables_young e ->
  (length (en_queue e) < FLUSH_QUEUE)%nat -> one_record batch = Some (ts, t, sig, Some d) ->
  let key := bucket_of config * (ts / bucket_of config) in
  let entry := {| entry_type := t; entry_data := d |} in
  (buffered key e + length (encode entry) <= fs_room w)%nat ->
  exists w' e' s base, write_batch batch (w, e) = (Ret tt, (w', e')) /\
    log_stream key w' e' = base ++ encode entry /\
    (is_Some (en_wals e !! key) -> base = log_stream key w e) /\
    pending e' key ({| rk_timestamp_ns := ts; rk_signal_type := sig; rk_sequence := s |}, d) /\
    (forall k row, pending e k row -> pending e' k row).
Proof.
  intros Hr Hc Hb Hh Hy Hq Ho key entry Hroom. rewrite (write_batch_one batch ts t sig d w e Ho Hc).
  destruct (write_record_until_freeze (bucket_of config) ts t sig d w e (reachable_inv _ _ Hr) Hb Hh Hy Hroom)
    as (l & w1 & e1 & base & E & Ha & Hh1 & Q1 & K1 & El & P & L & B).
  destruct (maybe_freeze_ok (bucket_of config) key l w1 e1 Ha Hh1) as (w' & e' & E' & K' & L'); [by rewrite Q1|].
  eexists w', e', _, base. split_and!.
  - erewrite st_bind_Ret; [reflexivity|]. rewrite E. exact E'.
  - rewrite L'. exact L.
  - exact B.
  - apply K'. by apply (active_pending (bucket_of config) key l _ e1 _ Ha El P).
  - intros k row Hp. by apply K', K1.
Qed.

(** An accepted record is logged and held.  On an open engine in a
    reachable state, with a healthy file system that has room for the entry,
    a flush queue that is not full and a positive bucket width, writing a
    one-record batch of any signal succeeds; the record's encoding is the
    last entry of its partition's log, it is pending in the table of its
    partition under its timestamp and signal, and every row that was pending
    still is. *)
Theorem write_batch_accepts {libs : EngineLibs} config batch ts t sig d w e :
  reachable config (w, e) -> en_closed e = false -> 0 < bucket_of config -> healthy w -> tables_young e ->
  (length (en_queue e) < FLUSH_QUEUE)%nat -> one_record batch = Some (ts, t, sig, Some d) ->
  let key := bucket_of config * (ts / bucket_of config) in
  let entry := {| entry_type := t; entry_data := d |} in
  (buffered key e + length (encode entry) <= fs_room w)%nat ->
  exists w' e' s base, write_batch batch (w, e) = (Ret tt, (w', e')) /\
    log_stream key w' e' = base ++ encode entry /\
    (is_Some (en_wals e !! key) -> base = log_stream key w e) /\
    pending e' key ({| rk_timestamp_ns := ts; rk_signal_type := sig; rk_sequence := s |}, d) /\
    (forall k row, pending e k row -> pending e' k row).
Proof. apply write_one_accepted. Qed.

(** C33: a full flush queue loses an acknowledged record.  When the queue
    already holds 64 requests and the record fills the table of its
    partition, the write still reports success, and afterwards the table
    that holds the record is neither active nor queued: nothing refers to
    it, and it will not be flushed. *)
Theorem full_queue_loses_write {libs : EngineLibs} b batch ts t sig d w e :
  en_inv b e -> en_closed e = false -> 0 < b -> healthy w -> tables_young e ->
  length (en_queue e) = FLUSH_QUEUE -> one_record batch = Some (ts, t, sig, Some d) ->
  let key := b * (ts / b) in
  (buffered key e + length (encode {| entry_type := t; entry_data := d |}) <= fs_room w)%nat ->
  is_full (MemTable.insert (table_for key e) ts sig d) = true ->
  exists w' e' l m s, write_batch batch (w, e) = (Ret tt, (w', e')) /\
    en_heap e' !! l = Some m /\
    In ({| rk_timestamp_ns := ts; rk_signal_type := sig; rk_sequence := s |}, d) (mt_inner m) /\
    (forall k, en_memtables e' !! k <> Some l) /\ ~ In l (map fr_imm (en_queue e')).
Proof.
  intros Hi Hc Hb Hh Hy Hq Ho key Hroom Hf. rewrite (write_batch_one batch ts t sig d w e Ho Hc).
  destruct (write_record_until_freeze b ts t sig d w e Hi Hb Hh Hy Hroom)
    as (l & w1 & e1 & base & E & Ha & Hh1 & Q1 & K1 & El & P & _).
  destruct (freeze_full_queue b key l _ w1 e1 Ha El Hf) as (w' & e' & E' & El' & Hna & Hnq); [rewrite Q1; lia|done|].
  exists w', e', l. eexists _, _. split_and!; [|exact El'|exact P|done|done].
  erewrite st_bind_Ret; [reflexivity|]. rewrite E. exact E'.
Qed.

Definition is_closed (e : Engine) : Prop := en_closed e = true.

(** The flag is not touched by a flush. *)
Lemma flush_step_closed {libs : EngineLibs} :
  hoare (fun e => en_closed e = true) flush_step (fun _ e => en_closed e = true) (fun e => en_closed e = true).
Proof.
  unfold flush_step. eapply hoare_bind; [apply (hoare_get _ (fun _ e => en_closed e = true)); auto|]. intros e0. simpl.
  destruct (en_queue e0); [by apply hoare_ret|].
  eapply hoare_bind; [by apply (hoare_modify _ _ (fun _ e => en_closed e = true))|]. intros ?.
  destruct (en_heap e0 !! _); [|by apply hoare_lift].
  eapply hoare_bind; [by apply hoare_try, on_partition_inv|]. intros r. apply hoare_ret. by destruct r.
Qed.

Lemma flush_all_closed {libs : EngineLibs} :
  hoare (fun e => en_closed e = true) flush_all (fun _ e => en_closed e = true) (fun e => en_closed e = true).
Proof.
  unfold flush_all. eapply hoare_bind; [apply (hoare_get _ (fun _ e => en_closed e = true)); auto|]. intros e0.
  apply hoare_iter. intros key. unfold flush_key.
  eapply hoare_bind; [apply (hoare_get _ (fun _ e => en_closed e = true)); auto|]. intros e1. simpl.
  destruct (en_memtables e1 !! key); [|by apply hoare_ret].
  eapply hoare_bind; [by apply (hoare_modify _ _ (fun _ e => en_closed e = true))|]. intros ?.
  destruct (en_heap e1 !! _) as [m|]; [|by apply hoare_lift].
  destruct (MemTable.is_empty m); [by apply hoare_ret|].
  eapply hoare_bind; [by apply get_partition_inv|]. intros p. unfold send.
  eapply hoare_bind; [apply (hoare_get _ (fun _ e => en_closed e = true)); by intros e []|]. intros e2. simpl.
  apply (hoare_bind _ _ (fun _ e => en_closed e = true)).
  { destruct (_ <? _)%nat; [by apply hoare_ret|apply flush_step_closed]. }
  intros ?. by apply hoare_modify.
Qed.

(** ** A batch record by record

    The workers run on other threads between the records of a batch.  A batch is the sequence of the batches of its
    records, so the runs of one-record batches are the interleavings with
    steps of the workers between the records. *)

Definition record_batches (batch : IngestBatch) : list IngestBatch :=
  match batch with
  | Logs rs => map (fun r => Logs [r]) rs
  | Metrics rs => map (fun r => Metrics [r]) rs
  | Spans rs => map (fun r => Spans [r]) rs
  end.

Lemma write_record_flag {libs : EngineLibs} c ts t enc put :
  let P e := en_closed e = c in hoare P (write_record ts t enc put) (fun _ => P) P.
Proof.
  intros P. assert (forall key l, hoare P (maybe_freeze key l) (fun _ => P) P) as Hfreeze.
  { intros key l. unfold maybe_freeze. eapply hoare_bind; [apply (hoare_get _ (fun _ => P)); auto|]. intros e0. simpl.
    destruct (en_heap e0 !! l) as [m|]; [|by apply hoare_lift]. destruct (negb (is_full m)); [by apply hoare_ret|].
    do 2 (eapply hoare_bind; [by apply (hoare_modify _ _ (fun _ => P))|intros ?]).
    eapply hoare_bind; [by apply get_partition_inv|]. intros p. apply hoare_modify. by intros e []. }
  assert (forall key, hoare P (get_or_create_memtable key) (fun _ => P) P) as Hget.
  { intros key. unfold get_or_create_memtable. eapply hoare_bind; [apply (hoare_get _ (fun _ => P)); auto|]. intros e1. simpl.
    destruct (en_memtables e1 !! key); [by apply hoare_ret|].
    do 2 (eapply hoare_bind; [by apply (hoare_modify _ _ (fun _ => P))|intros ?]). by apply hoare_ret. }
  assert (forall l, hoare P (update_table l put) (fun _ => P) P) as Hput.
  { intros l w e r w' e' HP E. unfold update_table in E. destruct (en_heap e !! l) as [m|]; [|by simplify_eq].
    by destruct (put m); simplify_eq. }
  unfold write_record. eapply hoare_bind; [apply (hoare_get _ (fun _ => P)); auto|]. intros e0.
  eapply hoare_bind; [by apply (hoare_lift _ _ (fun _ => P))|]. intros key.
  eapply hoare_bind; [apply Hget|]. intros l. eapply hoare_bind; [by apply (hoare_lift _ _ (fun _ => P))|]. intros d.
  eapply hoare_bind; [by apply get_wal_inv|]. intros ?. eapply hoare_bind; [by apply wal_append_inv|]. intros ?.
  eapply hoare_bind; [apply Hput|]. intros ?. apply Hfreeze.
Qed.

Lemma write_batch_records {libs : EngineLibs} batch w e :
  en_closed e = false -> write_batch batch (w, e) = st_iter write_batch (record_batches batch) (w, e).
Proof.
  assert (forall A (f : A -> eio unit) (g : A -> IngestBatch) l w e,
    (forall a w e, en_closed e = false -> write_batch (g a) (w, e) = (_ ← f a; mret tt) (w, e)) ->
    (forall a, hoare (fun e => en_closed e = false) (f a) (fun _ e => en_closed e = false) (fun e => en_closed e = false)) ->
    en_closed e = false -> st_iter f l (w, e) = st_iter write_batch (map g l) (w, e)) as Hiter.
  { intros A f g l w0 e0 Hg Hf. revert w0 e0; induction l as [|a l IH]; intros w0 e0 Hc; [done|].
    cbn [map st_iter]. unfold mbind at 1 2, st_bind. rewrite Hg by done. unfold mbind at 1, st_bind.
    destruct (f a (w0, e0)) as [[[]|x|] [w1 e1]] eqn:E; [|done|done]. cbn. apply IH. exact (Hf a w0 e0 _ w1 e1 Hc E). }
  intros Hc. unfold write_batch at 1. rewrite (st_bind_Ret _ _ (w, e) e (w, e)) by done. rewrite Hc.
  destruct batch as [rs|rs|rs]; cbn [record_batches]; (apply Hiter; [| |done];
    [intros a w0 e0 Hc0; unfold write_batch; by rewrite (st_bind_Ret _ _ (w0, e0) e0 (w0, e0)), Hc0 by done
    |intros a; apply write_record_flag]).
Qed.

(** A closed engine refuses writes and is left unchanged, and closing
    sets the flag whatever the file system does. *)
Theorem closed_engine_refuses {libs : EngineLibs} batch w e :
  (is_closed e -> write_batch batch (w, e) = (Fail Closed, (w, e))) /\
  (forall r s', close (w, e) = (r, s') -> is_closed (snd s')).
Proof.
  split.
  - intros Hc. unfold write_batch. rewrite (st_bind_Ret _ _ (w, e) e (w, e)) by done. by rewrite Hc.
  - intros r [w' e'] E. unfold close in E. rewrite (st_bind_Ret _ _ _ tt (w, set_closed true e)) in E by done.
    pose proof (flush_all_closed w (set_closed true e) r w' e' eq_refl E) as H. by destruct r.
Qed.

(** ** Flushing one signal *)

Section Flush.
Context {libs : EngineLibs}.

(** A flush of a non-empty signal whose SSTable is written. *)
Lemma flush_signal_ok {A} `{!Bincode A} sig (write : list A -> string -> Z -> io SSTableMeta) m w p meta w' :
  drain_signal m (signal_u8 sig) <> [] ->
  let sp := signal_partition p sig in
  write (filter_map (fun kv => deserialize (snd kv)) (drain_signal m (signal_u8 sig))) (sp_dir sp) (sp_next_seq sp) w = (Ret meta, w') ->
  exists p', flush_signal sig write m (w, p) = (Ret tt, (w', p')) /\
    signal_partition p' sig = add_sstable meta (snd (next_seq sp)) /\
    (forall sig', sig' <> sig -> signal_partition p' sig' = signal_partition p sig').
Proof.
  intros Hne sp Hw. unfold flush_signal. destruct (drain_signal m (signal_u8 sig)) as [|row rows]; [done|].
  set (sp1 := {| sp_dir := sp_dir sp; sp_sstables := sp_sstables sp; sp_next_seq := wrap_u64 (sp_next_seq sp + 1) |}).
  exists (set_signal sig (add_sstable meta sp1) p).
  rewrite signal_set_signal, decide_True by done. split_and!; [|done|].
  2:{ intros sig' Hs. by rewrite signal_set_signal, decide_False by congruence. }
  unfold on_signal, st_on. cbn [fst snd]. fold sp.
  rewrite (st_bind_Ret _ _ (w, sp) (sp_next_seq sp) (w, sp1)) by done.
  rewrite (st_bind_Ret _ _ (w, sp1) (w, sp1) (w, sp1)) by done. cbv beta iota.
  by rewrite (st_bind_Ret _ _ _ _ _ (on_fs_Ret _ _ _ sp1 _ Hw)).
Qed.

(** The records a flush of logs decodes. *)
Definition decoded_logs (m : MemTable) : list LogRecord :=
  filter_map (fun kv => deserialize (snd kv)) (drain_signal m (signal_u8 Log)).

(** The file system takes the log table of [rs] in the partition [p]. *)
Definition accepts_logs (w : Fs) (p : Partition) (rs : list LogRecord) : Prop :=
  accepts w (sp_dir (p_logs p)) (batch_of log_schema (log_columns rs))
    (observe_all zm_new (map lr_timestamp_ns rs)) (num_bits (bloom_new (Z.max (zlen rs) 1) fp_rate)).

(** Whatever is stored, a flush writes the rows that decode, and no file of
    another name. *)
Lemma flush_logs_written m w p :
  drain_signal m (signal_u8 Log) <> [] -> accepts_logs w p (decoded_logs m) ->
  exists w' p' meta, flush_signal_logs m (w, p) = (Ret tt, (w', p')) /\
    p_logs p' = add_sstable meta (snd (next_seq (p_logs p))) /\
    sm_dir meta = sp_dir (p_logs p) /\ sm_seq meta = sp_next_seq (p_logs p) /\
    readable w' meta (batch_of log_schema (log_columns (decoded_logs m))) (map lr_timestamp_ns (decoded_logs m))
      (map (fun r => bytes_of_string (lr_severity_text r)) (decoded_logs m)) /\ healthy w' /\
    (forall q, q <> parquet_path (sp_dir (p_logs p)) (sp_next_seq (p_logs p)) ->
       q <> bloom_path (sp_dir (p_logs p)) (sp_next_seq (p_logs p)) -> q <> zonemap_path (sp_dir (p_logs p)) (sp_next_seq (p_logs p)) ->
       fs_files w' !! q = fs_files w !! q).
Proof.
  intros Hne Ha. set (rs := decoded_logs m) in *.
  destruct (write_sstable_readable log_schema (log_columns rs)
    (map (fun r => (lr_timestamp_ns r, bytes_of_string (lr_severity_text r))) rs)
    (Z.max (zlen rs) 1) (sp_dir (p_logs p)) (sp_next_seq (p_logs p)) Log w) as (w' & E & Hr & Hh & _ & Ho);
    rewrite ?map_map in *; [apply log_columns_fit|exact Ha|].
  destruct (flush_signal_ok Log SSTable.write_logs m w p _ w' Hne E) as (p' & Ef & Hs & _).
  exists w', p'. eexists. split; [exact Ef|]. split; [exact Hs|]. split_and!; [done|done|exact Hr|done|exact Ho].
Qed.

Lemma flush_logs_decoded m w p :
  drain_signal m (signal_u8 Log) <> [] -> accepts_logs w p (decoded_logs m) ->
  exists w' p' meta, flush_signal_logs m (w, p) = (Ret tt, (w', p')) /\
    sp_sstables (p_logs p') = sp_sstables (p_logs p) ++ [meta] /\ sm_seq meta = sp_next_seq (p_logs p) /\
    readable w' meta (batch_of log_schema (log_columns (decoded_logs m))) (map lr_timestamp_ns (decoded_logs m))
      (map (fun r => bytes_of_string (lr_severity_text r)) (decoded_logs m)).
Proof.
  intros Hne Ha. destruct (flush_logs_written m w p Hne Ha) as (w' & p' & meta & Ef & Hs & _ & Hq & Hr & _).
  exists w', p', meta. split_and!; [done|by rewrite Hs|done|done].
Qed.

Lemma decoded_of_arrivals n ws (enc : LogRecord -> list Z) rs :
  zlen ws < two64 -> arrivals_of (signal_u8 Log) ws = map (fun r => (lr_timestamp_ns r, enc r)) rs ->
  (forall r, In r rs -> deserialize (enc r) = Some r) ->
  decoded_logs (insert_all (MemTable.new n) ws) = sort_by_key lr_timestamp_ns rs /\
  (rs <> [] -> drain_signal (insert_all (MemTable.new n) ws) (signal_u8 Log) <> []).
Proof.
  intros Hb Ha Hd. destruct (insert_all_spec n ws Hb) as (_ & _ & Hs). specialize (Hs (signal_u8 Log)).
  rewrite Ha in Hs. unfold stable_sort in Hs. rewrite sort_by_key_map in Hs. cbn [fst] in Hs.
  destruct (sort_by_key_spec lr_timestamp_ns rs) as [_ Hp]. split.
  - unfold decoded_logs.
    transitivity (filter_map (fun x : Z * list Z => deserialize (A := LogRecord) (snd x))
      (map timed (drain_signal (insert_all (MemTable.new n) ws) (signal_u8 Log)))); [by rewrite filter_map_map|].
    rewrite Hs, filter_map_map. simpl.
    rewrite (filter_map_all _ id), map_id; [done|]. intros r Hr. apply Hd. by rewrite <- Hp.
  - intros Hne E. rewrite E in Hs. simpl in Hs. destruct rs as [|r rs]; [done|].
    apply Permutation_length in Hp. destruct (sort_by_key lr_timestamp_ns (r :: rs)); done.
Qed.
End Flush.

(** A flush of logs is complete and sorted.  Where a MemTable was filled
    with the encodings of log records that decode to themselves (and rows of
    other signals, in any interleaving) and the file system takes the table,
    the flush succeeds and registers one new SSTable under the next number;
    its rows are all the records, sorted by timestamp with equal timestamps
    in order of arrival. *)
Theorem flush_logs_complete {libs : EngineLibs} n ws (enc : LogRecord -> list Z) rs w p :
  zlen ws < two64 -> arrivals_of (signal_u8 Log) ws = map (fun r => (lr_timestamp_ns r, enc r)) rs ->
  (forall r, In r rs -> deserialize (enc r) = Some r) -> rs <> [] ->
  accepts_logs w p (sort_by_key lr_timestamp_ns rs) ->
  exists w' p' meta, flush_signal_logs (insert_all (MemTable.new n) ws) (w, p) = (Ret tt, (w', p')) /\
    sp_sstables (p_logs p') = sp_sstables (p_logs p) ++ [meta] /\ sm_seq meta = sp_next_seq (p_logs p) /\
    readable w' meta (batch_of log_schema (log_columns (sort_by_key lr_timestamp_ns rs)))
      (map lr_timestamp_ns (sort_by_key lr_timestamp_ns rs))
      (map (fun r => bytes_of_string (lr_severity_text r)) (sort_by_key lr_timestamp_ns rs)).
Proof.
  intros Hb Ha Hd Hne Hacc. destruct (decoded_of_arrivals n ws enc rs Hb Ha Hd) as [E Hnn].
  rewrite <- E in *. by apply flush_logs_decoded; [apply Hnn|].
Qed.

(** A flush drops rows that do not decode.  Where none of the stored log
    rows decodes, the flush still succeeds and registers a table, whose file
    has no rows: the records are gone, since the flush goes on to checkpoint
    the log. *)
Theorem flush_drops_undecodable {libs : EngineLibs} m w p :
  drain_signal m (signal_u8 Log) <> [] ->
  (forall key d, In (key, d) (drain_signal m (signal_u8 Log)) -> deserialize (A := LogRecord) d = None) ->
  accepts_logs w p [] ->
  exists w' p' meta, flush_signal_logs m (w, p) = (Ret tt, (w', p')) /\
    sp_sstables (p_logs p') = sp_sstables (p_logs p) ++ [meta] /\
    forall k, (0 < k)%nat -> exists out, read_parquet (meta_parquet_path meta) k w' = (Ret (map Ret out), w') /\
      batches_rows out = [].
Proof.
  intros Hne Hu Hacc. assert (decoded_logs m = []) as E.
  { unfold decoded_logs. revert Hu. generalize (drain_signal m (signal_u8 Log)). intros rows Hu.
    induction rows as [|[key d] rows IH]; [done|]. cbn [filter_map snd].
    rewrite (Hu key d) by (by left). apply IH. intros key' d' Hin. apply (Hu key'). by right. }
  destruct (flush_logs_decoded m w p Hne) as (w' & p' & meta & Ef & Hs & _ & _ & Hr & _); [by rewrite E|].
  exists w', p', meta. split; [done|]. split; [done|]. intros k Hk. destruct (Hr k Hk) as (out & Eo & Er & _).
  exists out. split; [done|]. by rewrite Er, E.
Qed.

(** ** A reference instance and the theorems at work *)

(** Records without attribute values survive; the others encode but do not
    decode, as [bincode] does with untagged enums. *)
Definition log_plain (r : LogRecord) : bool :=
  bool_decide (lr_attributes r = ∅) && bool_decide (lr_resource_attributes r = ∅) &&
  bool_decide (scope_attributes (lr_scope r) = ∅) && match lr_body r with None => true | _ => false end.

Definition log_code : Type :=
  bool * (Z * Z * option (list Z) * option (list Z)) * (Z * string * string * string * string).

Definition log_encode (r : LogRecord) : log_code :=
  (log_plain r, (lr_timestamp_ns r, lr_observed_timestamp_ns r, lr_trace_id r, lr_span_id r),
   (lr_severity_number r, lr_severity_text r, scope_name (lr_scope r), scope_version (lr_scope r), lr_schema_url r)).

Definition log_decode (c : log_code) : option LogRecord :=
  let '(plain, (ts, obs, tid, sid), (sn, st, n, v, u)) := c in
  if plain : bool then
    Some {| lr_timestamp_ns := ts; lr_observed_timestamp_ns := obs; lr_trace_id := tid; lr_span_id := sid;
            lr_severity_number := sn; lr_severity_text := st; lr_body := None; lr_attributes := ∅;
            lr_resource_attributes := ∅;
            lr_scope := {| scope_name := n; scope_version := v; scope_attributes := ∅ |}; lr_schema_url := u |}
  else None.

Definition log_bincode : Bincode LogRecord :=
  {| serialize := fun r => Some (codec_encode (log_encode r));
     deserialize := fun bs => c ← codec_decode bs; log_decode c |}.

Definition no_bincode (A : Type) : Bincode A := {| serialize := fun _ => None; deserialize := fun _ => None |}.

Definition engine_reference : EngineLibs :=
  {| el_libs := libs_reference; el_chrono := chrono_reference; el_crc := Crc32_ieee; el_log := log_bincode;
     el_metric := no_bincode MetricPoint; el_span := no_bincode SpanRecord |}.

Lemma log_at_roundtrips ts : @deserialize _ log_bincode (codec_encode (log_encode (log_at ts))) = Some (log_at ts).
Proof. cbn [deserialize log_bincode]. by rewrite codec_roundtrip. Qed.

Definition test_config (size : Z) : StorageConfig :=
  {| data_dir := "d"; memtable_size_bytes := size; l0_compaction_trigger := 4; compaction_interval_secs := 30;
     partition_hours := 1; parquet_row_group_size := 1000000; wal_sync_interval_ms := 100 |}.

(** An engine just opened on an empty disk with [n] bytes of room. *)
Definition empty_disk (n : nat) : Fs := {| fs_files := ∅; fs_dirs := ∅; fs_room := n; fs_faults := [] |}.

Definition opened (size : Z) : Engine :=
  {| en_config := test_config size; en_partitions := ∅; en_memtables := ∅; en_heap := []; en_wals := ∅;
     en_queue := []; en_closed := false; en_bucket_ns := bucket_of (test_config size) |}.

Definition opened_disk (n : nat) : Fs :=
  {| fs_files := ∅; fs_dirs := {[ "d"%string ]} ∪ ∅; fs_room := n; fs_faults := [] |}.

Lemma opened_reachable size n : @reachable engine_reference (test_config size) (opened_disk n, opened size).
Proof. exists (empty_disk n), (opened size), (opened_disk n). split; [reflexivity|apply rtc_refl]. Qed.

(** The bytes of the test record's log entry. *)
Definition test_entry : WalEntry := {| entry_type := ENTRY_LOG; entry_data := codec_encode (log_encode (log_at 5)) |}.
Definition test_room : nat := length (@encode Crc32_ieee test_entry).

Lemma engine_rows_routed_witness :
  let s := snd (@write_batch engine_reference (Logs [log_at 5]) (opened_disk test_room, opened 1)) in
  (length (en_queue (snd s)) <= FLUSH_QUEUE)%nat /\
  forall k l, en_memtables (snd s) !! k = Some l -> ~ In l (map fr_imm (en_queue (snd s))).
Proof.
  intros s. assert (@reachable engine_reference (test_config 1) (fst s, snd s)) as Hr.
  { exists (empty_disk test_room), (opened 1), (opened_disk test_room). split; [reflexivity|].
    eapply rtc_l; [|apply rtc_refl]. apply (step_write (Logs [log_at 5]) _ (fst (@write_batch engine_reference (Logs [log_at 5]) (opened_disk test_room, opened 1)))).
    unfold s. by destruct (write_batch _ _) as [? []]. }
  destruct (@engine_rows_routed engine_reference (test_config 1) (fst s) (snd s) Hr) as (H1 & H2 & _).
  split; [exact H1|exact H2].
Defined.

Lemma write_batch_accepts_witness :
  exists w' e' s base,
    @write_batch engine_reference (Logs [log_at 5]) (opened_disk test_room, opened 64) = (Ret tt, (w', e')) /\
    log_stream 0 w' e' = base ++ @encode Crc32_ieee test_entry /\
    pending e' 0 ({| rk_timestamp_ns := 5; rk_signal_type := 0; rk_sequence := s |}, codec_encode (log_encode (log_at 5))).
Proof.
  destruct (@write_batch_accepts engine_reference (test_config 64) (Logs [log_at 5]) 5 ENTRY_LOG 0
    (codec_encode (log_encode (log_at 5))) (opened_disk test_room) (opened 64))
    as (w' & e' & s & base & E & L & _ & P & _).
  - apply opened_reachable.
  - reflexivity.
  - reflexivity.
  - reflexivity.
  - intros l m Hl. discriminate Hl.
  - apply Nat.ltb_lt. reflexivity.
  - reflexivity.
  - change (buffered _ (opened 64)) with O. cbn [fs_room opened_disk]. unfold test_room. apply le_n.
  - exists w', e', s, base. split; [exact E|]. split; [exact L|exact P].
Defined.

(** An engine whose flush queue is full of empty tables. *)
Definition busy : Engine :=
  {| en_config := test_config 1; en_partitions := {[ 0 := {| p_key := 0; p_dir := "d"; p_logs := {| sp_dir := "l"; sp_sstables := []; sp_next_seq := 1 |};
       p_metrics := {| sp_dir := "m"; sp_sstables := []; sp_next_seq := 1 |}; p_spans := {| sp_dir := "s"; sp_sstables := []; sp_next_seq := 1 |} |} ]};
     en_memtables := ∅; en_heap := replicate FLUSH_QUEUE (MemTable.new 1); en_wals := ∅;
     en_queue := map (fun i => {| fr_imm := i; fr_partition := 0 |}) (seq 0 FLUSH_QUEUE);
     en_closed := false; en_bucket_ns := 3600000000000 |}.

Lemma busy_inv : en_inv 3600000000000 busy.
Proof.
  split; cbn [busy en_queue en_memtables en_heap en_partitions].
  - done.
  - by rewrite length_map, length_seq.
  - intros k l Hk. by rewrite lookup_empty in Hk.
  - intros q Hq. apply in_map_iff in Hq as (i & <- & Hi). apply in_seq in Hi. cbn [fr_imm fr_partition].
    exists (MemTable.new 1). split; [|apply table_ok_new]. apply lookup_replicate_2. lia.
  - intros k k' l Hk. by rewrite lookup_empty in Hk.
  - intros k l q Hk. by rewrite lookup_empty in Hk.
  - rewrite map_map. change (List.NoDup (map (fun i => i) (seq 0 FLUSH_QUEUE))). rewrite map_id. apply seq_NoDup.
  - intros q Hq. apply in_map_iff in Hq as (i & <- & Hi). cbn [fr_partition]. rewrite lookup_singleton_eq. eauto.
Qed.

Lemma full_queue_loses_write_witness :
  exists w' e' l m s,
    @write_batch engine_reference (Logs [log_at 5]) (opened_disk test_room, busy) = (Ret tt, (w', e')) /\
    en_heap e' !! l = Some m /\
    In ({| rk_timestamp_ns := 5; rk_signal_type := 0; rk_sequence := s |}, codec_encode (log_encode (log_at 5))) (mt_inner m) /\
    (forall k, en_memtables e' !! k <> Some l) /\ ~ In l (map fr_imm (en_queue e')).
Proof.
  apply (@full_queue_loses_write engine_reference 3600000000000 (Logs [log_at 5]) 5 ENTRY_LOG 0
    (codec_encode (log_encode (log_at 5))) (opened_disk test_room) busy).
  - apply busy_inv.
  - reflexivity.
  - reflexivity.
  - reflexivity.
  - intros l m Hl. apply lookup_replicate in Hl. destruct Hl as [-> _]. split; [apply mt_inv_new|]. split; [discriminate|reflexivity].
  - cbn [busy en_queue]. rewrite length_map. apply length_seq.
  - reflexivity.
  - change (buffered _ busy) with O. cbn [fs_room opened_disk]. unfold test_room. apply le_n.
  - vm_compute. reflexivity.
Defined.

Definition test_partition : Partition :=
  {| p_key := 0; p_dir := "p"; p_logs := {| sp_dir := "l"; sp_sstables := []; sp_next_seq := 1 |};
     p_metrics := {| sp_dir := "m"; sp_sstables := []; sp_next_seq := 1 |};
     p_spans := {| sp_dir := "s"; sp_sstables := []; sp_next_seq := 1 |} |}.

(** A disk that takes the log table of [rs]. *)
Definition log_disk (rs : list LogRecord) : Fs :=
  @disk_for libs_reference "l" (batch_of log_schema (@log_columns libs_reference rs))
    (observe_all zm_new (map lr_timestamp_ns rs)) (num_bits (@bloom_new libm_test (Z.max (zlen rs) 1) fp_rate)).

Lemma log_disk_accepts rs :
  num_bits (@bloom_new libm_test (Z.max (zlen rs) 1) fp_rate) + 7 < two64 ->
  @accepts_logs engine_reference (log_disk rs) test_partition rs.
Proof.
  intros Hb. unfold accepts_logs, log_disk. cbn [el_libs engine_reference p_logs sp_dir test_partition].
  cbn [libs_libm libs_reference]. set (nb := num_bits _) in *.
  apply disk_for_accepts; [|exact Hb]. subst nb. unfold bloom_new; cbn [num_bits]. lia.
Qed.

Lemma flush_logs_complete_witness :
  let enc := fun r => codec_encode (log_encode r) in
  let ws := [(7, 0, enc (log_at 7)); (3, 0, enc (log_at 3))] in
  exists w' p' meta,
    @flush_signal_logs engine_reference (insert_all (MemTable.new 64) ws) (log_disk [log_at 3; log_at 7], test_partition) =
      (Ret tt, (w', p')) /\
    sp_sstables (p_logs p') = [meta] /\
    @readable libs_reference w' meta (batch_of log_schema (@log_columns libs_reference [log_at 3; log_at 7])) [3; 7]
      [[73; 78; 70; 79]; [73; 78; 70; 79]].
Proof.
  intros enc ws.
  destruct (@flush_logs_complete engine_reference 64 ws enc [log_at 7; log_at 3] (log_disk [log_at 3; log_at 7]) test_partition)
    as (w' & p' & meta & E & Es & _ & Hr).
  - reflexivity.
  - reflexivity.
  - intros r [<-|[<-|[]]]; apply log_at_roundtrips.
  - discriminate.
  - apply log_disk_accepts. vm_compute. reflexivity.
  - exists w', p', meta. split; [exact E|]. split; [exact Es|exact Hr].
Defined.

(** A record with a body: [bincode] writes it and cannot read it back. *)
Definition log_with_body : LogRecord :=
  {| lr_timestamp_ns := 5; lr_observed_timestamp_ns := 5; lr_trace_id := None; lr_span_id := None;
     lr_severity_number := 9; lr_severity_text := "INFO"; lr_body := Some (AVString "hello"); lr_attributes := ∅;
     lr_resource_attributes := ∅; lr_scope := scope_default; lr_schema_url := "" |}.

Lemma flush_drops_undecodable_witness :
  let m := insert_all (MemTable.new 64) [(5, 0, codec_encode (log_encode log_with_body))] in
  exists w' p' meta,
    @flush_signal_logs engine_reference m (log_disk [], test_partition) = (Ret tt, (w', p')) /\
    sp_sstables (p_logs p') = [meta] /\
    forall k, (0 < k)%nat -> exists out, @read_parquet libs_reference (meta_parquet_path meta) k w' = (Ret (map Ret out), w') /\
      batches_rows out = [].
Proof.
  intros m. destruct (@flush_drops_undecodable engine_reference m (log_disk []) test_partition) as (w' & p' & meta & E & Es & Hr).
  - discriminate.
  - intros key d [[= _ <-]|[]]. cbn [deserialize el_log engine_reference log_bincode]. by rewrite codec_roundtrip.
  - apply log_disk_accepts. vm_compute. reflexivity.
  - exists w', p', meta. split; [exact E|]. split; [exact Es|exact Hr].
Defined.
