(* ===== verification/Durability.v ===== *)
(** * What an acknowledged write leaves on the disk

    The storage engine ([Engine]) over its logs ([Wal]): which entries the
    log of a partition holds after acknowledged batches, and what a crash
    leaves of them. *)

From Stdlib Require Import ZArith Lia.
From stdpp Require Import base tactics list numbers option strings gmap.
From S2P Require Import Prelude Text BTree Float64 Codec Model Wal MemTable Fs Hash ZoneMap Bloom Arrow SSTable Partition Compaction Engine EngineSafety.

(** ** The records of a batch *)

(** Timestamp and log entry of every record, in the order of the batch. *)
Definition batch_entries {libs : EngineLibs} (b : IngestBatch) : list (Z * WalEntry) :=
  let entry ts t (enc : option (list Z)) := (fun d => (ts, {| entry_type := t; entry_data := d |})) <$> enc in
  match b with
  | Logs rs => filter_map (fun r => entry (lr_timestamp_ns r) ENTRY_LOG (serialize r)) rs
  | Metrics rs => filter_map (fun r => entry (mp_timestamp_ns r) ENTRY_METRIC (serialize r)) rs
  | Spans rs => filter_map (fun r => entry (sr_start_time_ns r) ENTRY_SPAN (serialize r)) rs
  end.

Definition batch_times (b : IngestBatch) : list Z :=
  match b with
  | Logs rs => map lr_timestamp_ns rs
  | Metrics rs => map mp_timestamp_ns rs
  | Spans rs => map sr_start_time_ns rs
  end.

(** Those of one partition, with buckets of width [b]. *)
Definition partition_entries (b key : Z) (es : list (Z * WalEntry)) : list WalEntry :=
  map snd (List.filter (fun te => b * (fst te / b) =? key) es).

Lemma partition_entries_app b key es es' :
  partition_entries b key (es ++ es') = partition_entries b key es ++ partition_entries b key es'.
Proof. unfold partition_entries. by rewrite List.filter_app, map_app. Qed.

(** Batches one after another, each acknowledged with [Ok]. *)
Inductive acknowledged {libs : EngineLibs} : Fs * Engine -> list IngestBatch -> Fs * Engine -> Prop :=
| ack_nil s : acknowledged s [] s
| ack_snoc s bs s1 b s2 : acknowledged s bs s1 -> write_batch b s1 = (Ret tt, s2) -> acknowledged s (bs ++ [b]) s2.

(** ** The writer of a log *)

Lemma os_write_all_done f bs f' : os_write_all f bs = (f', []) -> os_bytes f' = os_bytes f ++ bs.
Proof. unfold os_write_all. intros [= <- Hd]. cbn. f_equal. rewrite <- (take_drop (os_room f) bs) at 2. by rewrite Hd, app_nil_r. Qed.

Lemma write_all_stream s bs s' : write_all s bs = (s', Ret tt) -> stream s' = stream s ++ bs.
Proof.
  destruct s as [f w]. unfold write_all. destruct (_ <? _); [intros [= <-]; unfold stream; cbn; by rewrite app_assoc|].
  assert (forall s1, (if WRITER_CAPACITY - zlen (wal_writer w) <? zlen bs then flush_buf (f, w) else (f, w, Ret tt)) = (s1, Ret tt) ->
    stream s1 = stream (f, w) /\ (WRITER_CAPACITY <= zlen bs -> wal_writer (snd s1) = [])) as Hfl.
  { intros s1. destruct (Z.ltb_spec (WRITER_CAPACITY - zlen (wal_writer w)) (zlen bs)) as [Hlt|Hge].
    - unfold flush_buf. destruct (os_write_all f (wal_writer w)) as [f1 [|x rest]] eqn:E; [|done]. intros [= <-].
      apply os_write_all_done in E. unfold stream. cbn. by rewrite E, app_nil_r.
    - intros [= <-]. split; [done|]. intros Hc. cbn. destruct (wal_writer w); [done|]. unfold zlen in *. cbn in *. lia. }
  destruct (if WRITER_CAPACITY - zlen (wal_writer w) <? zlen bs then flush_buf (f, w) else (f, w, Ret tt)) as [[f1 w1] [u| |]] eqn:E; [|done|done].
  destruct u. destruct (Hfl _ eq_refl) as [Hs Hw]. rewrite <- Hs. cbn [snd] in Hw.
  destruct (Z.leb_spec WRITER_CAPACITY (zlen bs)); [|intros [= <-]; unfold stream; cbn; by rewrite app_assoc].
  destruct (os_write_all f1 bs) as [f2 [|x rest]] eqn:E2; [|done]. intros [= <-]. apply os_write_all_done in E2. unfold stream. cbn.
  rewrite E2, Hw by done. by rewrite !app_nil_r.
Qed.

Lemma append_stream `{Crc32} s t d s' off : append s t d = (s', Ret off) ->
  stream s' = stream s ++ encode {| entry_type := t; entry_data := d |}.
Proof.
  unfold append. destruct (write_all s (wal_header t d)) as [s1 [[]| |]] eqn:E1; [|done|done].
  destruct (write_all s1 d) as [[f2 w2] [[]| |]] eqn:E2; [|done|done]. intros [= <- _].
  apply write_all_stream in E1, E2. unfold encode. cbn [entry_type entry_data]. rewrite app_assoc, <- E1, <- E2. done.
Qed.

(** The buffer never exceeds its capacity. *)
Lemma write_all_capacity s bs s' : write_all s bs = (s', Ret tt) -> zlen (wal_writer (snd s)) <= WRITER_CAPACITY -> zlen (wal_writer (snd s')) <= WRITER_CAPACITY.
Proof.
  destruct s as [f w]. unfold write_all. destruct (Z.ltb_spec (zlen bs) (WRITER_CAPACITY - zlen (wal_writer w))).
  { intros [= <-] _. cbn. rewrite zlen_app. lia. }
  destruct (Z.ltb_spec (WRITER_CAPACITY - zlen (wal_writer w)) (zlen bs)).
  - unfold flush_buf. destruct (os_write_all f (wal_writer w)) as [f1 [|x rest]]; [|done].
    destruct (Z.leb_spec WRITER_CAPACITY (zlen bs)); [|intros [= <-] _; cbn; lia].
    destruct (os_write_all f1 bs) as [f2 [|y rest]]; [|done]. by intros [= <-] _.
  - destruct (Z.leb_spec WRITER_CAPACITY (zlen bs)); [|intros [= <-] _; cbn; rewrite zlen_app; lia].
    destruct (os_write_all f bs) as [f2 [|y rest]]; [|done]. by intros [= <-].
Qed.

Lemma append_capacity `{Crc32} s t d s' off : append s t d = (s', Ret off) ->
  zlen (wal_writer (snd s)) <= WRITER_CAPACITY -> zlen (wal_writer (snd s')) <= WRITER_CAPACITY.
Proof.
  unfold append. destruct (write_all s (wal_header t d)) as [s1 [[]| |]] eqn:E1; [|done|done].
  destruct (write_all s1 d) as [[f2 w2] [[]| |]] eqn:E2; [|done|done]. intros [= <- _] Hc. cbn [snd wal_writer].
  apply (write_all_capacity _ _ _ E2). by apply (write_all_capacity _ _ _ E1).
Qed.

(** An entry that fits the buffer stays in it. *)
Lemma write_all_buffered f w bs : zlen (wal_writer w) + zlen bs < WRITER_CAPACITY ->
  write_all (f, w) bs = ((f, with_writer w (wal_writer w ++ bs)), Ret tt).
Proof. intros Hc. unfold write_all. destruct (Z.ltb_spec (zlen bs) (WRITER_CAPACITY - zlen (wal_writer w))); [done|lia]. Qed.

Lemma append_buffered `{Crc32} f w t d :
  zlen (wal_writer w) + zlen (encode {| entry_type := t; entry_data := d |}) < WRITER_CAPACITY ->
  exists w', append (f, w) t d = ((f, w'), Ret (wal_offset w)) /\ wal_writer w' = wal_writer w ++ encode {| entry_type := t; entry_data := d |}.
Proof.
  unfold encode. cbn [entry_type entry_data]. rewrite zlen_app. intros Hc. pose proof (zlen_nonneg d). unfold append.
  rewrite write_all_buffered by lia. rewrite write_all_buffered by (cbn [wal_writer with_writer]; rewrite zlen_app; lia).
  eexists. split; [done|]. cbn. by rewrite <- app_assoc.
Qed.

(** ** Paths of logs *)

(** The log of a partition below the data directory. *)
Definition log_path {libs : EngineLibs} (base : string) (key : Z) : path :=
  (join (join (join base "partitions") (dir_name key)) "logs", "wal.log"%string).

Lemma log_path_dir {libs : EngineLibs} base k k' : log_path base k = log_path base k' -> dir_name k = dir_name k'.
Proof.
  unfold log_path, join. intros [= E]. apply string_app_inj_r in E. apply String.app_inj in E. by injection E.
Qed.

(** Calls that leave the files as they are. *)
Definition files_kept {A} (m : io A) : Prop := forall w r w', m w = (r, w') -> fs_files w' = fs_files w.

Lemma files_kept_ret {A} (a : A) : files_kept (mret a).
Proof. by intros w r w' [= _ <-]. Qed.

Lemma files_kept_bind {A B} (m : io A) (f : A -> io B) : files_kept m -> (forall a, files_kept (f a)) -> files_kept (m ≫= f).
Proof.
  intros Hm Hf w r w' H. unfold mbind, st_bind in H. destruct (m w) as [[a|e|] w1] eqn:E; apply Hm in E.
  - apply Hf in H. congruence.
  - injection H as _ <-. done.
  - injection H as _ <-. done.
Qed.

Lemma files_kept_try {A} (m : io A) : files_kept m -> files_kept (st_try m).
Proof. intros Hm w r w' H. unfold st_try in H. destruct (m w) as [[a|e|] w1] eqn:E; apply Hm in E; by injection H as _ <-. Qed.

Lemma files_kept_syscall {A} (m : io A) : files_kept m -> files_kept (syscall m).
Proof.
  intros Hm w r w' H. unfold syscall in H. destruct (fs_faults w) as [|[] rest]; [by apply Hm in H|by injection H as _ <-|].
  apply Hm in H. exact H.
Qed.

Lemma files_kept_lift {A} (o : outcome StorageError A) : files_kept (st_lift o).
Proof. by intros w r w' [= _ <-]. Qed.

Section Opening.
Context {libs : EngineLibs}.

Lemma create_dir_kept d : files_kept (create_dir_all d).
Proof. apply files_kept_syscall. by intros w r w' [= _ <-]. Qed.

Lemma fs_read_kept p : files_kept (fs_read p).
Proof. apply files_kept_syscall. by intros w r w' [= _ <-]. Qed.

Lemma sp_open_kept d : files_kept (sp_open d).
Proof.
  unfold sp_open. apply files_kept_bind; [apply create_dir_kept|]. intros _. apply files_kept_bind.
  - apply files_kept_syscall. intros w r w'. destruct (bool_decide _); by intros [= _ <-].
  - intros names. apply files_kept_bind; [|intros [q l]; apply files_kept_ret]. generalize (0, @nil SSTableMeta).
    induction names as [|n names IH]; intros acc; [apply files_kept_ret|]. cbn [scan]. apply files_kept_bind; [|intros; apply IH].
    unfold scan_entry. destruct (is_zonemap n); [|apply files_kept_ret]. apply files_kept_bind; [|intros; apply files_kept_ret].
    apply files_kept_try. unfold read_from_file. apply files_kept_bind; [apply fs_read_kept|]. intros bs. apply files_kept_lift.
Qed.

Lemma sp_open_dir d w sp w' : sp_open d w = (Ret sp, w') -> sp_dir sp = d.
Proof.
  unfold sp_open. intros H. apply st_bind_inv in H as (? & ? & _ & H). apply st_bind_inv in H as (? & ? & _ & H).
  apply st_bind_inv in H as ([q l] & ? & _ & H). by injection H as <- _.
Qed.

Lemma p_open_log base key w p w' : p_open base key w = (Ret p, w') ->
  fs_files w' = fs_files w /\ sp_wal_path (p_logs p) = log_path base key.
Proof.
  unfold p_open. intros H. apply st_bind_inv in H as (? & w1 & E1 & H). apply st_bind_inv in H as (logs & w2 & E2 & H).
  apply st_bind_inv in H as (ms & w3 & E3 & H). apply st_bind_inv in H as (ss & w4 & E4 & H). injection H as <- <-.
  pose proof (sp_open_dir _ _ _ _ E2) as Hd. apply create_dir_kept in E1. apply sp_open_kept in E2, E3, E4. split; [congruence|].
  cbn [p_logs]. unfold sp_wal_path, log_path. by rewrite Hd.
Qed.
End Opening.

(** ** What the logs hold *)

Section Logs.
Context {libs : EngineLibs} (base : string) (hours : Z).
Hypothesis Hhours : 0 < hours.

Let b : Z := hours * 3600 * 1000000000.

(** The keys the engine makes of timestamps. *)
Definition bucket_key (key : Z) : Prop := exists ts, is_u64 ts /\ key = b * (ts / b).

Lemma bucket_path_inj k k' : bucket_key k -> bucket_key k' -> log_path base k = log_path base k' -> k = k'.
Proof.
  intros (ts & Ht & ->) (ts' & Ht' & ->) E. apply log_path_dir in E. assert (0 < b) by (unfold b; lia).
  apply (dir_name_injective hours ts ts'); [done|done|done| | |done]; by apply for_timestamp_spec.
Qed.

(** Everything handed to the log of a partition, opened or not. *)
Definition log_bytes (key : Z) (s : Fs * Engine) : list Z :=
  match en_wals (snd s) !! key with
  | Some (_, wal) => stream (file_view (log_path base key) (fst s), wal)
  | None => default [] (fs_files (fst s) !! log_path base key)
  end.

(** The logs hold the encodings of [hist] and lie where they belong. *)
Record logs_hold (hist : Z -> list WalEntry) (s : Fs * Engine) : Prop := {
  lh_bucket : en_bucket_ns (snd s) = b;
  lh_base : data_dir (en_config (snd s)) = base;
  lh_partitions : forall k p, en_partitions (snd s) !! k = Some p -> sp_wal_path (p_logs p) = log_path base k;
  lh_wals : forall k p wal, en_wals (snd s) !! k = Some (p, wal) ->
    p = log_path base k /\ bucket_key k /\ zlen (wal_writer wal) <= WRITER_CAPACITY;
  lh_bytes : forall k, bucket_key k -> log_bytes k s = encode_all (hist k)
}.

(** A step that changes neither logs nor files. *)
Lemma logs_hold_same hist w e w' e' :
  logs_hold hist (w, e) -> fs_files w' = fs_files w -> en_wals e' = en_wals e -> en_bucket_ns e' = en_bucket_ns e ->
  en_config e' = en_config e -> (forall k p, en_partitions e' !! k = Some p -> en_partitions e !! k = Some p \/ sp_wal_path (p_logs p) = log_path base k) ->
  logs_hold hist (w', e').
Proof.
  intros [H1 H2 H3 H4 H5] Ef Ew Eb Ec Hp. split; cbn [fst snd] in *; [congruence|congruence| | |].
  - intros k p Hk. destruct (Hp k p Hk) as [Hk'|Hk']; [by apply (H3 k p)|done].
  - intros k p wal. rewrite Ew. apply H4.
  - intros k Hk. rewrite <- (H5 k Hk). unfold log_bytes, file_view. cbn [fst snd]. by rewrite Ew, Ef.
Qed.

Lemma get_memtable_logs hist key w e l s' : logs_hold hist (w, e) -> get_or_create_memtable key (w, e) = (Ret l, s') -> logs_hold hist s'.
Proof.
  intros H E. unfold get_or_create_memtable in E. apply st_bind_inv in E as (e0 & s0 & E0 & E). injection E0 as <- <-. cbn [snd] in E.
  destruct (en_memtables e !! key); [by injection E as _ <-|]. apply st_bind_inv in E as (? & s1 & E1 & E). injection E1 as _ <-.
  apply st_bind_inv in E as (? & s2 & E2 & E). injection E2 as _ <-. injection E as _ <-.
  apply (logs_hold_same hist w e); try done. by left.
Qed.

Lemma get_partition_logs hist key w e p s' : logs_hold hist (w, e) -> get_or_create_partition key (w, e) = (Ret p, s') ->
  logs_hold hist s' /\ sp_wal_path (p_logs p) = log_path base key /\ en_wals (snd s') = en_wals e.
Proof.
  intros H E. unfold get_or_create_partition in E. apply st_bind_inv in E as (e0 & s0 & E0 & E). injection E0 as <- <-. cbn [snd] in E.
  destruct (en_partitions e !! key) as [p0|] eqn:Ep; [injection E as <- <-; split_and!; [done|by apply (lh_partitions _ _ H key)|done]|].
  apply st_bind_inv in E as (p1 & s1 & E1 & E). unfold or_panic, on_fs, st_on in E1. cbn [fst snd] in E1.
  destruct (p_open _ key w) as [[p2|?|] w1] eqn:Eo; [|done|done]. injection E1 as <- <-.
  apply st_bind_inv in E as (? & s2 & E2 & E). injection E2 as _ <-. injection E as <- <-. cbn [fst snd].
  destruct (p_open_log _ _ _ _ _ Eo) as [Ef Hpath]. pose proof (lh_base _ _ H) as Hbase. cbn [snd] in Hbase. rewrite Hbase in Hpath. split_and!; [|done|done].
  apply (logs_hold_same hist w e); try done. intros k q Hk. cbn [set_partitions en_partitions] in Hk.
  destruct (decide (k = key)) as [->|Hne]; [rewrite lookup_insert_eq in Hk; simplify_eq; by right|rewrite lookup_insert_ne in Hk by done; by left].
Qed.

Lemma get_wal_logs hist key w e s' : bucket_key key -> logs_hold hist (w, e) -> get_or_create_wal key (w, e) = (Ret tt, s') -> logs_hold hist s'.
Proof.
  intros Hk H E. unfold get_or_create_wal in E. apply st_bind_inv in E as (e0 & s0 & E0 & E). injection E0 as <- <-. cbn [snd] in E.
  destruct (en_wals e !! key) as [pw|] eqn:Ew; [by injection E as <-|]. apply st_bind_inv in E as (p & [w1 e1] & E1 & E).
  destruct (get_partition_logs hist key w e p _ H E1) as ([H1 H2 H3 H4 H5] & Hp & Hw). cbn [fst snd] in *.
  apply st_bind_inv in E as (wal & s2 & E2 & E). unfold or_panic, on_fs, st_on in E2. cbn [fst snd] in E2.
  destruct (open_wal _ w1) as [[wal0|?|] w2] eqn:Eo; [|done|done]. injection E2 as <- <-. injection E as <-. rewrite Hp in *.
  assert (wal_writer wal0 = [] /\ fs_files w2 = <[log_path base key := default [] (fs_files w1 !! log_path base key)]> (fs_files w1)) as [Hwr Hf].
  { unfold open_wal, syscall in Eo. destruct (fs_faults w1) as [|[] rest]; [|done|]; by injection Eo as <- <-. }
  split; cbn [fst snd set_wals en_bucket_ns en_config en_partitions en_wals]; [done|done|done| |].
  - intros k p' wal' Hk'. destruct (decide (k = key)) as [->|Hne].
    + rewrite lookup_insert_eq in Hk'. simplify_eq. rewrite Hwr. done.
    + rewrite lookup_insert_ne in Hk' by done. by apply (H4 k p' wal').
  - intros k Hbk. rewrite <- (H5 k Hbk). unfold log_bytes. cbn [fst snd set_wals en_wals]. destruct (decide (k = key)) as [->|Hne].
    + rewrite lookup_insert_eq, Hw, Ew. unfold stream, file_view. cbn. rewrite Hwr, Hf, lookup_insert_eq. by rewrite app_nil_r.
    + rewrite lookup_insert_ne by done. unfold file_view. rewrite Hf, lookup_insert_ne; [done|].
      intros E. apply Hne. symmetry. by apply bucket_path_inj.
Qed.

(** One more entry in the log of its partition. *)
Definition add_entry (hist : Z -> list WalEntry) (key : Z) (x : WalEntry) : Z -> list WalEntry :=
  fun k => if k =? key then hist k ++ [x] else hist k.

Lemma wal_append_logs hist key t d w e s' : bucket_key key -> logs_hold hist (w, e) -> wal_append key t d (w, e) = (Ret tt, s') ->
  logs_hold (add_entry hist key {| entry_type := t; entry_data := d |}) s'.
Proof.
  intros Hk [H1 H2 H3 H4 H5] E. unfold wal_append in E. cbn [fst snd] in *. destruct (en_wals e !! key) as [[p wal]|] eqn:Ew; [|done].
  destruct (H4 _ _ _ Ew) as (-> & _ & Hcap). unfold run_wal in E. destruct (append _ t d) as [[f' wal'] [off| |]] eqn:Ea; [|done|done].
  injection E as <-. pose proof (append_capacity _ _ _ _ _ Ea Hcap) as Hcap'. apply append_stream in Ea. split; cbn [fst snd set_wals en_bucket_ns en_config en_partitions en_wals]; [done|done|done| |].
  - intros k p' wal0 Hk'. destruct (decide (k = key)) as [->|Hne]; [rewrite lookup_insert_eq in Hk'; by simplify_eq|].
    rewrite lookup_insert_ne in Hk' by done. by apply (H4 k p' wal0).
  - intros k Hbk. specialize (H5 k Hbk). unfold log_bytes in *. unfold add_entry. cbn [fst snd set_wals en_wals] in *.
    destruct (Z.eqb_spec k key) as [->|Hne].
    + rewrite lookup_insert_eq. rewrite Ew in H5. rewrite encode_all_snoc, <- H5, <- Ea. unfold stream, file_view, put_view. cbn. by rewrite lookup_insert_eq.
    + rewrite lookup_insert_ne by done. unfold file_view, put_view in *. cbn [fs_files fs_room os_bytes] in *. rewrite lookup_insert_ne; [exact H5|].
      intros E. apply Hne. symmetry. by apply bucket_path_inj.
Qed.

Lemma maybe_freeze_logs hist key l w e s' : logs_hold hist (w, e) -> maybe_freeze key l (w, e) = (Ret tt, s') -> logs_hold hist s'.
Proof.
  intros H E. unfold maybe_freeze in E. apply st_bind_inv in E as (e0 & s0 & E0 & E). injection E0 as <- <-. cbn [snd] in E.
  destruct (en_heap e !! l) as [m|]; [|done]. destruct (is_full m); cbn [negb] in E; [|by injection E as <-].
  apply st_bind_inv in E as (? & s1 & E1 & E). injection E1 as _ <-. apply st_bind_inv in E as (? & s2 & E2 & E). injection E2 as _ <-.
  apply st_bind_inv in E as (p & [w3 e3] & E3 & E). injection E as <-. cbn [fst snd] in *.
  eapply get_partition_logs in E3 as (H3 & _ & _); [|by apply (logs_hold_same hist w e); [exact H| | | | |by left]].
  by apply (logs_hold_same hist w3 e3); [exact H3| | | | |by left].
Qed.

Lemma logs_hold_ext hist hist' s : (forall k, hist k = hist' k) -> logs_hold hist s -> logs_hold hist' s.
Proof. intros E [H1 H2 H3 H4 H5]. split; try done. intros k Hk. rewrite <- E. by apply H5. Qed.

Lemma write_record_logs hist ts t enc put w e s' : is_u64 ts -> logs_hold hist (w, e) -> write_record ts t enc put (w, e) = (Ret tt, s') ->
  exists d, enc = Some d /\ logs_hold (add_entry hist (b * (ts / b)) {| entry_type := t; entry_data := d |}) s'.
Proof.
  intros Ht H E. assert (bucket_key (b * (ts / b))) as Hk by by exists ts. assert (0 < b) as Hb by (unfold b; lia).
  unfold write_record in E. apply st_bind_inv in E as (e0 & s0 & E0 & E). injection E0 as <- <-. cbn [snd] in E.
  apply st_bind_inv in E as (key & s1 & E1 & E). pose proof (lh_bucket _ _ H) as Hbk. cbn [snd] in Hbk.
  rewrite Hbk, for_timestamp_spec in E1 by done. injection E1 as <- <-.
  apply st_bind_inv in E as (l & [w2 e2] & E2 & E). eapply get_memtable_logs in E2; [|exact H].
  apply st_bind_inv in E as (d & s3 & E3 & E). destruct enc as [d'|]; [|done]. injection E3 as -> <-. exists d. split; [done|].
  apply st_bind_inv in E as ([] & [w4 e4] & E4 & E). eapply get_wal_logs in E4; [|done|exact E2].
  apply st_bind_inv in E as ([] & [w5 e5] & E5 & E). eapply wal_append_logs in E5; [|done|exact E4].
  apply st_bind_inv in E as ([] & [w6 e6] & E6 & E). eapply maybe_freeze_logs in E; [exact E|].
  unfold update_table in E6. destruct (en_heap e5 !! l) as [m|]; [|done]. destruct (put m) as [m'| |]; [|done|done].
  injection E6 as <- <-. by apply (logs_hold_same _ w5 e5); [exact E5| | | | |by left].
Qed.

(** A loop of [write_logs], [write_metrics] or [write_spans]. *)
Lemma write_all_logs {R} (ts : R -> Z) t (enc : R -> option (list Z)) put rs hist w e s' :
  Forall (fun r => is_u64 (ts r)) rs -> logs_hold hist (w, e) ->
  st_iter (fun r => write_record (ts r) t (enc r) (put r)) rs (w, e) = (Ret tt, s') ->
  logs_hold (fun k => hist k ++ partition_entries b k
    (filter_map (fun r => (fun d => (ts r, {| entry_type := t; entry_data := d |})) <$> enc r) rs)) s'.
Proof.
  intros Ht. revert hist w e. induction Ht as [|r rs Hr _ IH]; intros hist w e H E.
  - injection E as <-. apply (logs_hold_ext hist); [|done]. intros k. cbn. by rewrite app_nil_r.
  - cbn [st_iter] in E. apply st_bind_inv in E as ([] & [w1 e1] & E1 & E). destruct (write_record_logs _ _ _ _ _ _ _ _ Hr H E1) as (d & Ed & H1).
    eapply IH in E; [|exact H1]. eapply logs_hold_ext; [|exact E]. intros k. cbn [filter_map]. rewrite Ed. cbn [fmap option_fmap option_map].
    unfold add_entry, partition_entries. cbn [List.filter fst]. rewrite (Z.eqb_sym k). destruct (_ =? k); [|done]. cbn [map snd].
    by rewrite <- app_assoc.
Qed.

Lemma write_batch_logs hist batch w e s' : Forall is_u64 (batch_times batch) ->
  logs_hold hist (w, e) -> write_batch batch (w, e) = (Ret tt, s') ->
  logs_hold (fun k => hist k ++ partition_entries b k (batch_entries batch)) s'.
Proof.
  intros Ht H E. unfold write_batch in E. apply st_bind_inv in E as (e0 & s0 & E0 & E). injection E0 as <- <-. cbn [snd] in E.
  destruct (en_closed e); [done|]. destruct batch as [rs|rs|rs]; cbn [batch_times] in Ht; rewrite List.Forall_map in Ht.
  - by apply (write_all_logs lr_timestamp_ns ENTRY_LOG serialize (fun r m => MemTable.write_log m r) rs hist w e s' Ht H E).
  - by apply (write_all_logs mp_timestamp_ns ENTRY_METRIC serialize (fun r m => MemTable.write_metric m r) rs hist w e s' Ht H E).
  - by apply (write_all_logs sr_start_time_ns ENTRY_SPAN serialize (fun r m => MemTable.write_span m r) rs hist w e s' Ht H E).
Qed.
End Logs.

(** A prefix of a log: whole entries and a part of the next. *)
Lemma log_prefix `{Crc32} es x : Forall entry_ok es -> x `prefix_of` encode_all es ->
  exists n, recover (Some x) = Ret (replay (take n es)) /\ (length (encode_all (take n es)) <= length x)%nat /\
    (length (encode_all es) <= length x + length (encode_all (drop n es)))%nat /\
    (length (encode_all (drop (S n) es)) <= length (encode_all es) - length x)%nat.
Proof.
  intros Hes Hx. assert (exists n e j, entry_ok e /\ (j < length (encode e))%nat /\ x = encode_all (take n es) ++ take j (encode e) /\
    (length x <= length (encode_all (take (S n) es)))%nat) as (n & e & j & He & Hj & -> & Hlen).
  { revert x Hx. induction Hes as [|e es He Hes IH]; intros x Hx.
    - apply prefix_nil_inv in Hx as ->. exists O, checkpoint_entry, O. rewrite length_encode. split_and!; [apply checkpoint_entry_ok|lia|done|cbn; lia].
    - change (encode_all (e :: es)) with (encode e ++ encode_all es) in Hx. destruct (decide (length x < length (encode e))%nat) as [Hlt|Hge].
      + exists O, e, (length x). split_and!; [done|done| |].
        * destruct Hx as [y Hy]. cbn. apply (f_equal (take (length x))) in Hy. rewrite take_app_length, take_app_le in Hy by lia. exact (eq_sym Hy).
        * change (encode_all (take 1 (e :: es))) with (encode e ++ []). rewrite app_nil_r. lia.
      + assert (exists x', x = encode e ++ x' /\ x' `prefix_of` encode_all es) as (x' & -> & Hx').
        { destruct Hx as [y Hy]. exists (drop (length (encode e)) x). pose proof (f_equal (take (length (encode e))) Hy) as Ht.
          rewrite take_app_length, take_app_le in Ht by lia. split; [rewrite <- (take_drop (length (encode e)) x) at 1; by rewrite <- Ht|].
          exists y. apply (f_equal (drop (length (encode e)))) in Hy. by rewrite drop_app_length, drop_app_le in Hy by lia. }
        destruct (IH x' Hx') as (n & e' & j & He' & Hj & -> & Hl). exists (S n), e', j. split_and!; [done|done| |].
        * change (encode_all (take (S n) (e :: es))) with (encode e ++ encode_all (take n es)). by rewrite app_assoc.
        * change (encode_all (take (S (S n)) (e :: es))) with (encode e ++ encode_all (take (S n) es)). rewrite !length_app in *. lia. }
  exists n. split; [apply recover_prefix; [by apply Forall_take|done|done]|].
  pose proof (f_equal (@length Z) (encode_all_app (take n es) (drop n es))) as E1. rewrite take_drop, length_app in E1.
  pose proof (f_equal (@length Z) (encode_all_app (take (S n) es) (drop (S n) es))) as E2. rewrite take_drop, length_app in E2.
  rewrite !length_app in *. lia.
Qed.

Lemma acknowledged_logs {libs : EngineLibs} base hours hist s bs s' : 0 < hours ->
  logs_hold base hours hist s -> acknowledged s bs s' -> Forall (fun b => Forall is_u64 (batch_times b)) bs ->
  logs_hold base hours (fun k => hist k ++ partition_entries (hours * 3600 * 1000000000) k (concat (map batch_entries bs))) s'.
Proof.
  intros Hh H Ha. induction Ha as [s|s bs s1 b s2 _ IH Hw]; intros Ht.
  - eapply logs_hold_ext; [|exact H]. intros k. cbn. by rewrite app_nil_r.
  - apply Forall_app in Ht as [Ht Hb]. apply Forall_cons_1 in Hb as [Hb _]. destruct s1 as [w1 e1].
    eapply write_batch_logs in Hw; [|done|done|by apply IH]. eapply logs_hold_ext; [|exact Hw]. intros k.
    cbn beta. rewrite map_app, concat_app, partition_entries_app. cbn [map concat]. by rewrite app_nil_r, <- app_assoc.
Qed.

Lemma engine_open_logs {libs : EngineLibs} config w0 e w1 hist :
  engine_open config w0 = (Ret e, w1) -> 0 < partition_hours config -> partition_hours config * 3600 * 1000000000 < two64 ->
  (forall k, default [] (fs_files w0 !! log_path (data_dir config) k) = encode_all (hist k)) ->
  logs_hold (data_dir config) (partition_hours config) hist (w1, e).
Proof.
  intros Ho Hh Hb Hf. unfold engine_open in Ho. apply st_bind_inv in Ho as (? & w2 & Hc & Ho). injection Ho as <- <-.
  apply create_dir_kept in Hc. split; cbn [fst snd en_bucket_ns en_config en_partitions en_wals]; [|done|done|done|].
  - rewrite (wrap_u64_small (partition_hours config * 3600)) by int_lia. by rewrite wrap_u64_small by int_lia.
  - intros k _. unfold log_bytes. cbn [fst snd en_wals]. by rewrite lookup_empty, Hc.
Qed.

(** C4: acknowledged batches and a crash.  Open the engine on a disk whose
    logs hold the entries [hist], and write batches of any signals and sizes
    into any partitions, each acknowledged, with no turn of the flush worker
    in between (a flush writes a checkpoint through a second handle, see
    [second_handle_checkpoint_corrupts]).  The log of a
    partition then has received the entries of its records after the earlier
    ones, each whole and in order, and no others; whatever of it is on the
    disk at a crash, [recover] returns a prefix of them (since the last
    checkpoint), and what it misses, but for one entry cut in the middle,
    fits the 256 KiB buffer of the writer. *)
Theorem engine_crash_consistent {libs : EngineLibs} config w0 e w1 hist bs s key :
  engine_open config w0 = (Ret e, w1) -> 0 < partition_hours config -> partition_hours config * 3600 * 1000000000 < two64 ->
  (forall k, default [] (fs_files w0 !! log_path (data_dir config) k) = encode_all (hist k)) ->
  acknowledged (w1, e) bs s -> Forall (fun b => Forall is_u64 (batch_times b)) bs -> bucket_key (partition_hours config) key ->
  let es := hist key ++ partition_entries (partition_hours config * 3600 * 1000000000) key (concat (map batch_entries bs)) in
  Forall entry_ok es ->
  log_bytes (data_dir config) key s = encode_all es /\
  exists n, recover (fs_files (fst s) !! log_path (data_dir config) key) = Ret (replay (take n es)) /\
    zlen (encode_all (drop (S n) es)) <= WRITER_CAPACITY.
Proof.
  intros Ho Hh Hb Hf Ha Ht Hk es Hok. pose proof (engine_open_logs config w0 e w1 hist Ho Hh Hb Hf) as H0.
  pose proof (acknowledged_logs _ _ _ _ _ _ Hh H0 Ha Ht) as [_ _ _ Hw Hl]. specialize (Hl key Hk). fold es in Hl. split; [done|].
  set (disk := default [] (fs_files (fst s) !! log_path (data_dir config) key)).
  assert (exists buf, encode_all es = disk ++ buf /\ zlen buf <= WRITER_CAPACITY) as (buf & Hbuf & Hcap).
  { unfold log_bytes in Hl. destruct (en_wals (snd s) !! key) as [[p wal]|] eqn:Ew.
    - exists (wal_writer wal). split; [by rewrite <- Hl|]. by apply (Hw _ _ _ Ew).
    - exists []. by rewrite app_nil_r. }
  destruct (log_prefix es disk Hok) as (n & Hr & _ & _ & Hd); [by exists buf|].
  pose proof (f_equal (@length Z) Hbuf) as Hlen. rewrite length_app in Hlen.
  exists n. split; [|unfold zlen in *; lia]. unfold disk in *. destruct (fs_files (fst s) !! _); [done|]. exact Hr.
Qed.

(** ** The buffer *)

(** Every file has the bytes it had (or is new and empty). *)
Definition same_bytes (w w' : Fs) : Prop := forall q, default [] (fs_files w' !! q) = default [] (fs_files w !! q).

Lemma same_bytes_eq w w' : fs_files w' = fs_files w -> same_bytes w w'.
Proof. intros E q. by rewrite E. Qed.

Lemma same_bytes_trans w1 w2 w3 : same_bytes w1 w2 -> same_bytes w2 w3 -> same_bytes w1 w3.
Proof. intros H1 H2 q. by rewrite H2, H1. Qed.

Lemma same_bytes_view p w : same_bytes w (put_view p (file_view p w) w).
Proof.
  intros q. unfold put_view, file_view. cbn [fs_files os_bytes]. destruct (decide (q = p)) as [->|Hne].
  - by rewrite lookup_insert_eq.
  - by rewrite lookup_insert_ne.
Qed.

Section Buffer.
Context {libs : EngineLibs}.

Lemma get_partition_files key w e p w' e' : get_or_create_partition key (w, e) = (Ret p, (w', e')) ->
  fs_files w' = fs_files w /\ en_wals e' = en_wals e.
Proof.
  unfold get_or_create_partition. intros E. apply st_bind_inv in E as (e0 & s0 & E0 & E). injection E0 as <- <-. cbn [snd] in E.
  destruct (en_partitions e !! key); [by injection E as _ <- <-|]. apply st_bind_inv in E as (p1 & s1 & E1 & E).
  unfold or_panic, on_fs, st_on in E1. cbn [fst snd] in E1. destruct (p_open _ key w) as [[p2|?|] w1] eqn:Eo; [|done|done]. injection E1 as <- <-.
  apply st_bind_inv in E as (? & s2 & E2 & E). injection E2 as _ <-. injection E as _ <- <-. by apply p_open_log in Eo as [-> _].
Qed.

Lemma get_wal_files key w e w' e' : get_or_create_wal key (w, e) = (Ret tt, (w', e')) ->
  same_bytes w w' /\ (buffered key e' <= buffered key e)%nat.
Proof.
  unfold get_or_create_wal. intros E. apply st_bind_inv in E as (e0 & s0 & E0 & E). injection E0 as <- <-. cbn [snd] in E.
  destruct (en_wals e !! key) eqn:Ew; [by injection E as <- <-|]. apply st_bind_inv in E as (p & [w1 e1] & E1 & E).
  apply get_partition_files in E1 as [Ef1 Ew1]. apply st_bind_inv in E as (wal & s2 & E2 & E). unfold or_panic, on_fs, st_on in E2. cbn [fst snd] in E2.
  destruct (open_wal _ w1) as [[wal0|?|] w2] eqn:Eo; [|done|done]. injection E2 as <- <-. injection E as <- <-.
  unfold open_wal, syscall in Eo. split.
  - apply (same_bytes_trans _ w1); [by apply same_bytes_eq|]. destruct (fs_faults w1) as [|[] rest]; [|done|]; injection Eo as _ <-.
    + apply same_bytes_view.
    + intros q. apply (same_bytes_view (sp_wal_path (p_logs p)) w1 q).
  - unfold buffered. cbn [set_wals en_wals]. rewrite lookup_insert_eq. assert (wal_writer wal0 = []) as ->; [|cbn; lia].
    destruct (fs_faults w1) as [|[] rest]; [|done|]; by injection Eo as <- _.
Qed.

Lemma wal_append_files key t d w e w' e' : wal_append key t d (w, e) = (Ret tt, (w', e')) ->
  Z.of_nat (buffered key e) + zlen (encode {| entry_type := t; entry_data := d |}) < WRITER_CAPACITY -> same_bytes w w'.
Proof.
  unfold wal_append, buffered. intros E Hc. destruct (en_wals e !! key) as [[p wal]|]; [|done]. unfold run_wal in E.
  destruct (append_buffered (file_view p w) wal t d Hc) as (wal' & Ea & _). rewrite Ea in E. injection E as <- <-. apply same_bytes_view.
Qed.

Lemma maybe_freeze_files key l w e w' e' : maybe_freeze key l (w, e) = (Ret tt, (w', e')) -> same_bytes w w'.
Proof.
  unfold maybe_freeze. intros E. apply st_bind_inv in E as (e0 & s0 & E0 & E). injection E0 as <- <-. cbn [snd] in E.
  destruct (en_heap e !! l) as [m|]; [|done]. destruct (is_full m); cbn [negb] in E; [|by injection E as <- _].
  apply st_bind_inv in E as (? & s1 & E1 & E). injection E1 as _ <-. apply st_bind_inv in E as (? & s2 & E2 & E). injection E2 as _ <-.
  apply st_bind_inv in E as (p & [w3 e3] & E3 & E). injection E as <- _. apply get_partition_files in E3 as [E3 _]. by apply same_bytes_eq.
Qed.

Lemma write_record_files ts t d put w e w' e' : 0 < en_bucket_ns e -> write_record ts t (Some d) put (w, e) = (Ret tt, (w', e')) ->
  Z.of_nat (buffered (en_bucket_ns e * (ts / en_bucket_ns e)) e) + zlen (encode {| entry_type := t; entry_data := d |}) < WRITER_CAPACITY ->
  same_bytes w w'.
Proof.
  intros Hb E Hc. unfold write_record in E. apply st_bind_inv in E as (e0 & s0 & E0 & E). injection E0 as <- <-. cbn [snd] in E.
  apply st_bind_inv in E as (key & s1 & E1 & E). rewrite for_timestamp_spec in E1 by done. injection E1 as <- <-.
  set (key := en_bucket_ns e * (ts / en_bucket_ns e)) in *.
  apply st_bind_inv in E as (l & [w2 e2] & E2 & E). assert (w2 = w /\ buffered key e2 = buffered key e) as [-> B2].
  { unfold get_or_create_memtable in E2. apply st_bind_inv in E2 as (e3 & s3 & E3 & E2). injection E3 as <- <-. cbn [snd] in E2.
    destruct (en_memtables e !! key); [by injection E2 as _ <- <-|]. apply st_bind_inv in E2 as (? & s1 & E1 & E2). injection E1 as _ <-.
    apply st_bind_inv in E2 as (? & s2 & E4 & E2). injection E4 as _ <-. by injection E2 as _ <- <-. }
  apply st_bind_inv in E as (d' & s3 & E3 & E). injection E3 as <- <-.
  apply st_bind_inv in E as ([] & [w4 e4] & E4 & E). apply get_wal_files in E4 as [S4 B4].
  apply st_bind_inv in E as ([] & [w5 e5] & E5 & E). apply wal_append_files in E5; [|lia].
  apply st_bind_inv in E as ([] & [w6 e6] & E6 & E). apply maybe_freeze_files in E.
  assert (w6 = w5) as ->. { unfold update_table in E6. destruct (en_heap e5 !! l) as [m|]; [|done]. destruct (put m); [|done|done]. by injection E6 as <- _. }
  eauto using same_bytes_trans.
Qed.
End Buffer.

(** C34: an acknowledged record is not on the disk.  Where a write of one
    record is acknowledged as in [write_batch_accepts] and its entry fits
    what is left of the 256 KiB buffer, no file has changed a byte: nothing
    on the write path flushes the buffer, and no timer does, so a crash
    after the acknowledgement loses the record. *)
Theorem acknowledged_not_durable {libs : EngineLibs} config batch ts t sig d w e :
  reachable config (w, e) -> en_closed e = false -> 0 < bucket_of config -> healthy w -> tables_young e ->
  (length (en_queue e) < FLUSH_QUEUE)%nat -> one_record batch = Some (ts, t, sig, Some d) ->
  let key := bucket_of config * (ts / bucket_of config) in
  let entry := {| entry_type := t; entry_data := d |} in
  (buffered key e + length (encode entry) <= fs_room w)%nat ->
  Z.of_nat (buffered key e) + zlen (encode entry) < WRITER_CAPACITY ->
  exists s', write_batch batch (w, e) = (Ret tt, s') /\ same_bytes w (fst s') /\
    forall p, recover (fs_files (fst s') !! p) = recover (fs_files w !! p).
Proof.
  intros Hr Hc Hb Hh Hy Hq Ho key entry Hroom Hcap.
  destruct (write_one_accepted config batch ts t sig d w e Hr Hc Hb Hh Hy Hq Ho Hroom) as (w' & e' & s & base & E & _).
  exists (w', e'). split; [done|]. cbn [fst]. rewrite (write_batch_one batch ts t sig d w e Ho Hc) in E.
  apply st_bind_inv in E as ([] & [w1 e1] & E1 & E). injection E as <- <-.
  pose proof (ei_bucket _ _ (reachable_inv _ _ Hr)) as Hbk. cbn [snd] in Hbk.
  assert (same_bytes w w1) as Hs.
  { eapply write_record_files; [|exact E1|]; rewrite Hbk; [done|exact Hcap]. }
  split; [done|]. intros p. specialize (Hs p). destruct (fs_files w1 !! p) as [x|], (fs_files w !! p) as [y|]; cbn in Hs; by subst.
Qed.

(** ** Two records at work *)

Definition two_logs : IngestBatch := Logs [log_at 5; log_at 7].

Definition logs_written : Fs * Engine := snd (@write_batch engine_reference two_logs (opened_disk 4000, opened 64)).

Definition log_entry (ts : Z) : WalEntry := {| entry_type := ENTRY_LOG; entry_data := codec_encode (log_encode (log_at ts)) |}.

Lemma engine_crash_consistent_witness :
  @log_bytes engine_reference "d" 0 logs_written = @encode_all Crc32_ieee [log_entry 5; log_entry 7] /\
  exists n, @recover Crc32_ieee (fs_files (fst logs_written) !! @log_path engine_reference "d" 0) = Ret (replay (take n [log_entry 5; log_entry 7])) /\
    zlen (@encode_all Crc32_ieee (drop (S n) [log_entry 5; log_entry 7])) <= WRITER_CAPACITY.
Proof.
  apply (@engine_crash_consistent engine_reference (test_config 64) (empty_disk 4000) (opened 64) (opened_disk 4000) (fun _ => []) [two_logs] logs_written 0).
  - reflexivity.
  - reflexivity.
  - reflexivity.
  - intros k. reflexivity.
  - apply (@ack_snoc engine_reference _ [] (opened_disk 4000, opened 64)); [apply ack_nil|]. vm_compute. reflexivity.
  - apply List.Forall_cons; [|apply List.Forall_nil]. change (batch_times two_logs) with [5; 7]. repeat (apply List.Forall_cons; [split; [discriminate|reflexivity]|]). apply List.Forall_nil.
  - exists 5. split; [split; [discriminate|reflexivity]|reflexivity].
  - repeat (apply List.Forall_cons; [split; vm_compute; split; first [reflexivity|discriminate]|]). apply List.Forall_nil.
Defined.

Lemma acknowledged_not_durable_witness :
  exists s', @write_batch engine_reference (Logs [log_at 5]) (opened_disk test_room, opened 64) = (Ret tt, s') /\
    same_bytes (opened_disk test_room) (fst s') /\
    @recover Crc32_ieee (fs_files (fst s') !! @log_path engine_reference "d" 0) = Ret [].
Proof.
  destruct (@acknowledged_not_durable engine_reference (test_config 64) (Logs [log_at 5]) 5 ENTRY_LOG 0
    (codec_encode (log_encode (log_at 5))) (opened_disk test_room) (opened 64)) as (s' & E & H1 & H2).
  - apply opened_reachable.
  - reflexivity.
  - reflexivity.
  - reflexivity.
  - intros l m Hl. discriminate Hl.
  - apply Nat.ltb_lt. reflexivity.
  - reflexivity.
  - change (buffered _ (opened 64)) with O. cbn [fs_room opened_disk]. unfold test_room. apply le_n.
  - vm_compute. reflexivity.
  - exists s'. split; [exact E|]. split; [exact H1|]. etransitivity; [exact (H2 (@log_path engine_reference "d" 0))|]. reflexivity.
Defined.
