(* ===== verification/Ring.v ===== *)
(** * The consistent hash ring

    [crates/infralens-cluster/src/ring.rs]: virtual nodes on a 64-bit ring,
    the owner of a shard and its replicas. *)

From Stdlib Require Import ZArith Lia Sorted Permutation.
From stdpp Require Import base tactics list numbers option strings gmap.
From S2P Require Import Prelude Text BTree Wal Hash.

(** ** Errors of the cluster crate ([error.rs])

    A replication failure keeps the storage error itself, where the code
    keeps its text. *)

Inductive ClusterError : Type :=
| Etcd (msg : string)
| NodeNotFound (node : string)
| EmptyRing
| ReplicationFailed (node : string) (reason : StorageError)
| NoPrimary (shard : string)
| ClusterIo (msg : string)
| ClusterSerialisation (msg : string).

Record ConsistentHashRing := {
  ring : list (Z * string);
  virtual_nodes : Z;
  version : Z
}.

Definition ring_new (vn : Z) : ConsistentHashRing :=
  {| ring := []; virtual_nodes := vn; version := 0 |}.

Section Ring.
Context {hasher : DefaultHasher}.

(** [hash64]. *)
Definition hash64 (d : list Z) : Z := hash_finish (hash_of_slice d).

(** [ShardId::for_key]. *)
Definition shard_for_key (key : string) : Z := hash64 (bytes_of_string key).

(** The position of virtual node [i] of a node. *)
Definition vnode (node_id : string) (i : Z) : Z :=
  hash64 (bytes_of_string (node_id ++ "#" ++ show_u64 i)%string).

(** The range [0..n]. *)
Definition vnodes (n : Z) : list Z := map Z.of_nat (seq 0 (Z.to_nat n)).

(** [ConsistentHashRing::add_node]. *)
Definition add_node (r : ConsistentHashRing) (node_id : string) : ConsistentHashRing :=
  {| ring := fold_left (fun m i => bt_insert (vnode node_id i) node_id m) (vnodes (virtual_nodes r)) (ring r);
     virtual_nodes := virtual_nodes r;
     version := wrap_u64 (version r + 1) |}.

(** [ConsistentHashRing::remove_node]. *)
Definition remove_node (r : ConsistentHashRing) (node_id : string) : ConsistentHashRing :=
  {| ring := fold_left (fun m i => bt_remove (vnode node_id i) m) (vnodes (virtual_nodes r)) (ring r);
     virtual_nodes := virtual_nodes r;
     version := wrap_u64 (version r + 1) |}.
End Ring.

(** [ConsistentHashRing::primary_for]. *)
Definition primary_for (r : ConsistentHashRing) (shard : Z) : outcome ClusterError string :=
  match ring r with
  | [] => Fail EmptyRing
  | _ =>
      match bt_range_from shard (ring r) with
      | (_, n) :: _ => Ret n
      | [] => match ring r with
              | (_, n) :: _ => Ret n
              | [] => Fail EmptyRing
              end
      end
  end.

(** The loop of [replica_nodes]: collect new nodes, stop at [count]. *)
Fixpoint collect_replicas (count : Z) (result : list string) (entries : list (Z * string)) : list string :=
  match entries with
  | [] => result
  | (_, node) :: entries =>
      let result := if bool_decide (node ∈ result) then result else result ++ [node] in
      if count <=? zlen result then result else collect_replicas count result entries
  end.

(** [ConsistentHashRing::replica_nodes]. *)
Definition replica_nodes (r : ConsistentHashRing) (shard : Z) (count : Z) : outcome ClusterError (list string) :=
  match ring r with
  | [] => Fail EmptyRing
  | _ => Ret (collect_replicas count [] (bt_range_from shard (ring r) ++ ring r))
  end.

Definition ring_is_empty (r : ConsistentHashRing) : bool := match ring r with [] => true | _ => false end.

Definition node_count (r : ConsistentHashRing) : Z := zlen (remove_dups (map snd (ring r))).

(** ** Where the positions come from *)

Section Facts.
Context {hasher : DefaultHasher}.

(** Positions in order, each one a virtual node of its owner. *)
Record ring_ok (r : ConsistentHashRing) : Prop := {
  ring_wf : bt_wf (ring r);
  ring_owned : forall pos n, In (pos, n) (ring r) -> exists i, In i (vnodes (virtual_nodes r)) /\ pos = vnode n i
}.

Lemma insert_all_get node ixs (m : list (Z * string)) pos :
  bt_wf m ->
  bt_wf (fold_left (fun m i => bt_insert (vnode node i) node m) ixs m) /\
  bt_get pos (fold_left (fun m i => bt_insert (vnode node i) node m) ixs m) =
    if existsb (fun i => vnode node i =? pos) ixs then Some node else bt_get pos m.
Proof.
  revert m; induction ixs as [|i ixs IH]; intros m Hwf; [done|]. cbn [fold_left existsb].
  destruct (IH (bt_insert (vnode node i) node m)) as [Hwf' E]; [by apply bt_insert_wf|].
  split; [done|]. rewrite E, bt_get_insert by done. cbn [kcmp Z_TotalOrd].
  destruct (existsb _ ixs); [by rewrite orb_true_r|]. rewrite orb_false_r.
  destruct (Z.compare_spec pos (vnode node i)), (Z.eqb_spec (vnode node i) pos); done || lia.
Qed.

Lemma remove_all_get node ixs (m : list (Z * string)) pos :
  bt_wf m ->
  bt_wf (fold_left (fun m i => bt_remove (vnode node i) m) ixs m) /\
  bt_get pos (fold_left (fun m i => bt_remove (vnode node i) m) ixs m) =
    if existsb (fun i => vnode node i =? pos) ixs then None else bt_get pos m.
Proof.
  revert m; induction ixs as [|i ixs IH]; intros m Hwf; [done|]. cbn [fold_left existsb].
  destruct (IH (bt_remove (vnode node i) m)) as [Hwf' E]; [by apply bt_remove_wf|].
  split; [done|]. rewrite E, bt_get_remove by done. cbn [kcmp Z_TotalOrd].
  destruct (existsb _ ixs); [by rewrite orb_true_r|]. rewrite orb_false_r.
  destruct (Z.compare_spec pos (vnode node i)), (Z.eqb_spec (vnode node i) pos); done || lia.
Qed.

(** [pos] is a virtual node of [node]. *)
Definition is_vnode (r : ConsistentHashRing) (node : string) (pos : Z) : bool :=
  existsb (fun i => vnode node i =? pos) (vnodes (virtual_nodes r)).

Lemma is_vnode_spec r node pos :
  is_vnode r node pos = true <-> exists i, In i (vnodes (virtual_nodes r)) /\ pos = vnode node i.
Proof.
  unfold is_vnode. rewrite existsb_exists. split; intros (i & Hi & E); exists i; split; auto.
  - by apply Z.eqb_eq in E.
  - by apply Z.eqb_eq.
Qed.

Lemma add_node_get r node pos :
  bt_wf (ring r) -> bt_wf (ring (add_node r node)) /\
  bt_get pos (ring (add_node r node)) = if is_vnode r node pos then Some node else bt_get pos (ring r).
Proof. apply insert_all_get. Qed.

Lemma remove_node_get r node pos :
  bt_wf (ring r) -> bt_wf (ring (remove_node r node)) /\
  bt_get pos (ring (remove_node r node)) = if is_vnode r node pos then None else bt_get pos (ring r).
Proof. apply remove_all_get. Qed.

Lemma ring_ok_new vn : ring_ok (ring_new vn).
Proof. split; [apply bt_wf_nil|done]. Qed.

Lemma add_node_ok r node : ring_ok r -> ring_ok (add_node r node).
Proof.
  intros [Hwf Hown]. destruct (add_node_get r node 0 Hwf) as [Hwf' _]. split; [done|].
  intros pos n Hin. apply bt_get_in in Hin; [|done]. rewrite (proj2 (add_node_get r node pos Hwf)) in Hin.
  destruct (is_vnode r node pos) eqn:E; [injection Hin as <-; by apply is_vnode_spec in E|].
  apply Hown. by apply bt_get_in in Hin.
Qed.

Lemma remove_node_ok r node : ring_ok r -> ring_ok (remove_node r node).
Proof.
  intros [Hwf Hown]. destruct (remove_node_get r node 0 Hwf) as [Hwf' _]. split; [done|].
  intros pos n Hin. apply bt_get_in in Hin; [|done]. rewrite (proj2 (remove_node_get r node pos Hwf)) in Hin.
  destruct (is_vnode r node pos); [done|]. apply Hown. by apply bt_get_in in Hin.
Qed.

(** A removed node is gone. *)
Lemma remove_node_absent r node pos : ring_ok r -> ~ In (pos, node) (ring (remove_node r node)).
Proof.
  intros [Hwf Hown] Hin. pose proof (proj1 (remove_node_get r node pos Hwf)) as Hwf'.
  apply bt_get_in in Hin; [|done]. rewrite (proj2 (remove_node_get r node pos Hwf)) in Hin.
  destruct (is_vnode r node pos) eqn:E; [done|]. apply bt_get_in in Hin; [|done].
  apply Hown in Hin. apply is_vnode_spec in Hin. congruence.
Qed.
End Facts.

#[export] Hint Resolve ring_ok_new add_node_ok remove_node_ok : infra.

(** ** Clockwise lookup *)

(** [n] owns shard [s] through position [pos]: the first at or after [s],
    or the first of all when none is. *)
Definition owner (m : list (Z * string)) (s pos : Z) (n : string) : Prop :=
  In (pos, n) m /\
  ((s <= pos /\ forall pos' n', In (pos', n') m -> s <= pos' -> pos <= pos') \/
   ((forall pos' n', In (pos', n') m -> pos' < s) /\ forall pos' n', In (pos', n') m -> pos <= pos')).

Lemma head_least pos n (m : list (Z * string)) pos' n' :
  bt_wf ((pos, n) :: m) -> In (pos', n') ((pos, n) :: m) -> pos <= pos'.
Proof.
  intros Hwf [[= <- <-]|Hin]; [lia|]. apply bt_wf_inv in Hwf as [_ Hf]. rewrite List.Forall_forall in Hf.
  specialize (Hf _ Hin). change ((pos ?= pos') = Lt) in Hf. apply (proj1 (Z.compare_lt_iff _ _)) in Hf. lia.
Qed.

Lemma bt_range_wf s (m : list (Z * string)) : bt_wf m -> bt_wf (bt_range_from s m).
Proof.
  induction m as [|[k v] m IH]; intros Hwf; [done|]. apply bt_wf_inv in Hwf as Hinv. destruct Hinv as [Hm Hf].
  unfold bt_range_from in *. simpl. specialize (IH Hm).
  assert (Forall (fun kv => klt k (fst kv)) (List.filter (fun kv => match kcmp (fst kv) s with Lt => false | _ => true end) m)).
  { rewrite List.Forall_forall in *. intros kv Hin. apply filter_In in Hin as [Hin _]. auto. }
  destruct (k ?= s); [by apply bt_wf_cons|done|by apply bt_wf_cons].
Qed.

Lemma range_in s pos n (m : list (Z * string)) : In (pos, n) (bt_range_from s m) <-> In (pos, n) m /\ s <= pos.
Proof.
  rewrite bt_range_from_in. change (klt (fst (pos, n)) s) with ((pos ?= s) = Lt). rewrite Z.compare_lt_iff.
  split; intros [H1 H2]; (split; [exact H1|lia]).
Qed.

Lemma primary_owner r s :
  bt_wf (ring r) -> ring r <> [] -> exists pos n, primary_for r s = Ret n /\ owner (ring r) s pos n.
Proof.
  intros Hwf Hne. unfold primary_for. pose proof (bt_range_wf s _ Hwf) as Hwr.
  destruct (ring r) as [|[p0 n0] m] eqn:E; [done|]. rewrite <- E in *.
  destruct (bt_range_from s (ring r)) as [|[p1 n1] m1] eqn:Er.
  - exists p0, n0. rewrite E. split; [done|]. rewrite <- E. split; [rewrite E; by left|]. right. split.
    + intros pos' n' Hin. destruct (Z.lt_ge_cases pos' s) as [|Hge]; [done|].
      assert (In (pos', n') (bt_range_from s (ring r))) as Hr by (apply range_in; auto). by rewrite Er in Hr.
    + intros pos' n' Hin. rewrite E in Hin, Hwf. by eapply head_least.
  - exists p1, n1. split; [done|].
    assert (In (p1, n1) (bt_range_from s (ring r))) as Hin by (rewrite Er; by left).
    apply range_in in Hin as [Hin Hge]. split; [done|]. left. split; [done|]. intros pos' n' Hin' Hge'.
    assert (In (pos', n') (bt_range_from s (ring r))) as Hr by (apply range_in; auto).
    rewrite Er in Hr. by eapply head_least.
Qed.

Lemma owner_unique m s p1 n1 p2 n2 :
  bt_wf m -> owner m s p1 n1 -> owner m s p2 n2 -> p1 = p2 /\ n1 = n2.
Proof.
  intros Hwf [I1 H1] [I2 H2]. assert (p1 = p2) as ->.
  { destruct H1 as [[G1 L1]|[G1 L1]], H2 as [[G2 L2]|[G2 L2]].
    - specialize (L1 _ _ I2 G2). specialize (L2 _ _ I1 G1). lia.
    - specialize (G2 _ _ I1). lia.
    - specialize (G1 _ _ I2). lia.
    - specialize (L1 _ _ I2). specialize (L2 _ _ I1). lia. }
  apply bt_get_in in I1, I2; [|done..]. rewrite I1 in I2. by injection I2.
Qed.

Lemma owner_primary r s pos n : bt_wf (ring r) -> owner (ring r) s pos n -> primary_for r s = Ret n.
Proof.
  intros Hwf Ho. destruct (primary_owner r s Hwf) as (p & n' & E & Ho').
  { destruct Ho as [Hin _]. by destruct (ring r). }
  by destruct (owner_unique _ _ _ _ _ _ Hwf Ho Ho') as [_ ->].
Qed.

(** Fewer positions that still include the owner's keep the owner. *)
Lemma owner_mono (m m' : list (Z * string)) s pos n :
  (forall p n', In (p, n') m' -> exists n'', In (p, n'') m) -> In (pos, n) m' ->
  owner m s pos n -> owner m' s pos n.
Proof.
  intros Hsub Hin [_ [[G L]|[G L]]]; (split; [done|]).
  - left. split; [done|]. intros p n' Hp Hge. destruct (Hsub _ _ Hp) as [n'' Hp']. by apply (L p n'').
  - right. split; intros p n' Hp; destruct (Hsub _ _ Hp) as [n'' Hp']; [by apply (G p n'')|by apply (L p n'')].
Qed.

(** ** Replicas *)

(** The nodes of a list, each at its first occurrence. *)
Definition distinct_from (acc l : list string) : list string :=
  fold_left (fun acc n => if bool_decide (n ∈ acc) then acc else acc ++ [n]) l acc.

Lemma distinct_from_spec l acc :
  NoDup acc -> NoDup (distinct_from acc l) /\ acc `prefix_of` distinct_from acc l /\
  forall n, n ∈ distinct_from acc l <-> n ∈ acc \/ n ∈ l.
Proof.
  revert acc; induction l as [|x l IH]; intros acc Hn; cbn [distinct_from fold_left].
  { split_and!; [done|done|set_solver]. }
  destruct (bool_decide_reflect (x ∈ acc)) as [Hx|Hx].
  - destruct (IH acc Hn) as (H1 & H2 & H3). split_and!; [done|done|]. intros n. rewrite H3. set_solver.
  - destruct (IH (acc ++ [x])) as (H1 & H2 & H3).
    { apply NoDup_app. split_and!; [done|set_solver|apply NoDup_singleton]. }
    split_and!; [done| |intros n; rewrite H3; set_solver]. etrans; [|exact H2]. by exists [x].
Qed.

(** The early exit of the loop changes nothing: it returns the first [count]
    distinct nodes. *)
Lemma collect_replicas_spec count l acc :
  zlen acc < count -> NoDup acc ->
  collect_replicas count acc l = take (Z.to_nat count) (distinct_from acc (map snd l)).
Proof.
  revert acc; induction l as [|[p x] l IH]; intros acc Hlt Hn; cbn [collect_replicas map snd distinct_from fold_left].
  { rewrite take_ge; [done|]. unfold zlen in Hlt. lia. }
  destruct (bool_decide_reflect (x ∈ acc)) as [Hx|Hx].
  - rewrite (proj2 (Z.leb_gt _ _)) by lia. by apply IH.
  - assert (NoDup (acc ++ [x])) as Hn' by (apply NoDup_app; split_and!; [done|set_solver|apply NoDup_singleton]).
    destruct (Z.leb_spec count (zlen (acc ++ [x]))) as [Hle|Hgt]; [|by apply IH].
    destruct (distinct_from_spec (map snd l) (acc ++ [x]) Hn') as (_ & [k Hk] & _).
    unfold distinct_from in Hk. rewrite Hk. rewrite zlen_app in Hle. change (zlen [x]) with 1 in Hle.
    rewrite take_app_length'; [done|]. unfold zlen in *. rewrite length_app. simpl. lia.
Qed.

Lemma distinct_count l : zlen (distinct_from [] l) = zlen (remove_dups l).
Proof.
  unfold zlen. f_equal. apply Permutation_length, NoDup_Permutation.
  - apply distinct_from_spec. constructor.
  - apply NoDup_remove_dups.
  - intros n. destruct (distinct_from_spec l [] (NoDup_nil_2)) as (_ & _ & H). rewrite H, elem_of_remove_dups. set_solver.
Qed.

(** Walking from [s] and then from the start meets every node of the ring. *)
Lemma walk_nodes s (m : list (Z * string)) n : n ∈ map snd (bt_range_from s m ++ m) <-> n ∈ map snd m.
Proof.
  rewrite map_app, elem_of_app. split; [|auto]. intros [Hin|]; [|done].
  apply base.list_elem_of_In, in_map_iff in Hin as ([p x] & <- & Hin).
  apply bt_range_from_in in Hin as [Hin _]. apply base.list_elem_of_In, in_map_iff. eauto.
Qed.

Lemma distinct_walk_count s (m : list (Z * string)) : zlen (distinct_from [] (map snd (bt_range_from s m ++ m))) = zlen (remove_dups (map snd m)).
Proof.
  rewrite distinct_count. unfold zlen. f_equal. apply Permutation_length, NoDup_Permutation; [apply NoDup_remove_dups..|].
  intros n. rewrite !elem_of_remove_dups. apply walk_nodes.
Qed.

Lemma distinct_head x l : exists k, distinct_from [] (x :: l) = x :: k.
Proof.
  destruct (distinct_from_spec l [x] (NoDup_singleton x)) as (_ & [k Hk] & _). exists k. exact Hk.
Qed.

(** The walk starts at the primary. *)
Lemma walk_primary r s : ring r <> [] ->
  exists n l, map snd (bt_range_from s (ring r) ++ ring r) = n :: l /\ primary_for r s = Ret n.
Proof.
  intros Hne. unfold primary_for. destruct (ring r) as [|[p0 n0] m]; [done|].
  destruct (bt_range_from s ((p0, n0) :: m)) as [|[p n] l]; simpl; eauto.
Qed.

Lemma replica_nodes_spec r s count :
  ring r <> [] ->
  exists n l, primary_for r s = Ret n /\ replica_nodes r s (Z.max count 1) = Ret (n :: l) /\ NoDup (n :: l) /\
    (forall x, x ∈ n :: l -> x ∈ map snd (ring r)) /\
    zlen (n :: l) = Z.min (Z.max count 1) (node_count r) /\
    replica_nodes r s 0 = Ret [n].
Proof.
  intros Hne. set (c := Z.max count 1). set (walk := bt_range_from s (ring r) ++ ring r).
  destruct (walk_primary r s Hne) as (n & rest & Ew & Ep). fold walk in Ew.
  assert (forall k, replica_nodes r s k = Ret (collect_replicas k [] walk)) as Er.
  { intros k. unfold replica_nodes. fold walk. by destruct (ring r). }
  assert (collect_replicas c [] walk = take (Z.to_nat c) (distinct_from [] (map snd walk))) as Ec.
  { apply collect_replicas_spec; [unfold zlen; simpl; lia|constructor]. }
  destruct (distinct_head n rest) as [k Hk]. rewrite Ew, Hk in Ec.
  destruct (distinct_from_spec (map snd walk) [] NoDup_nil_2) as (Hnd & _ & Hel). rewrite Ew, Hk in Hnd, Hel.
  assert (take (Z.to_nat c) (n :: k) = n :: take (Z.to_nat c - 1) k) as Et.
  { replace (Z.to_nat c) with (S (Z.to_nat c - 1)) by lia. simpl. by rewrite Nat.sub_0_r. }
  exists n, (take (Z.to_nat c - 1) k). rewrite Er, Ec, <- Et. split_and!; [done|done| | | |].
  - eapply sublist_NoDup; [exact Hnd|apply sublist_take].
  - intros x Hx. apply (walk_nodes s). fold walk. rewrite Ew.
    apply elem_of_take in Hx as (i & Hi & _). apply list_elem_of_lookup_2, Hel in Hi. set_solver.
  - pose proof (distinct_walk_count s (ring r)) as Hc. fold walk in Hc. rewrite Ew, Hk in Hc.
    unfold node_count. rewrite <- Hc. unfold zlen. rewrite length_take. lia.
  - rewrite Er. f_equal. destruct walk as [|[p x] w]; [done|]. injection Ew as -> _. reflexivity.
Qed.

(** ** Theorems *)

(** Rings built by joins and leaves. *)
Inductive ring_event := Join (node : string) | Leave (node : string).

Definition apply_event {hasher : DefaultHasher} (r : ConsistentHashRing) (ev : ring_event) : ConsistentHashRing :=
  match ev with Join n => add_node r n | Leave n => remove_node r n end.

Definition ring_after {hasher : DefaultHasher} (vn : Z) (evs : list ring_event) : ConsistentHashRing :=
  fold_left apply_event evs (ring_new vn).

Lemma apply_events_ok {hasher : DefaultHasher} evs r : ring_ok r -> ring_ok (fold_left apply_event evs r).
Proof.
  revert r; induction evs as [|[n|n] evs IH]; intros r Hr; simpl; auto with infra.
Qed.

Lemma ring_after_ok {hasher : DefaultHasher} vn evs : ring_ok (ring_after vn evs).
Proof. apply apply_events_ok, ring_ok_new. Qed.

(** Lookups go clockwise.  On a ring built by any joins and leaves the
    primary of a shard is the owner of the first position at or after it,
    wrapping around to the first position of all; an empty ring is an error. *)
Theorem primary_for_clockwise {hasher : DefaultHasher} vn evs s :
  let r := ring_after vn evs in
  (ring r = [] -> primary_for r s = Fail EmptyRing) /\
  (ring r <> [] -> exists pos n, primary_for r s = Ret n /\ owner (ring r) s pos n /\
     forall pos' n', owner (ring r) s pos' n' -> n' = n).
Proof.
  intros r. pose proof (ring_after_ok vn evs) as [Hwf _]. fold r in Hwf. split.
  - intros E. unfold primary_for. by rewrite E.
  - intros Hne. destruct (primary_owner r s Hwf Hne) as (pos & n & E & Ho). exists pos, n. split_and!; [done|done|].
    intros pos' n' Ho'. by destruct (owner_unique _ _ _ _ _ _ Hwf Ho' Ho).
Qed.

(** C18: replicas are distinct and the primary comes first.  On a non-empty
    ring built by joins and leaves, asking for [count >= 1] replicas returns
    pairwise different nodes of the ring, as many as asked for or as there
    are, starting with the shard's primary; asking for none returns the
    primary all the same. *)
Theorem replica_nodes_distinct {hasher : DefaultHasher} vn evs s count :
  let r := ring_after vn evs in
  ring r <> [] ->
  exists n l, primary_for r s = Ret n /\ replica_nodes r s (Z.max count 1) = Ret (n :: l) /\ NoDup (n :: l) /\
    (forall x, x ∈ n :: l -> x ∈ map snd (ring r)) /\
    zlen (n :: l) = Z.min (Z.max count 1) (node_count r) /\
    replica_nodes r s 0 = Ret [n].
Proof.
  intros r. apply replica_nodes_spec.
Qed.

Lemma replica_nodes_distinct_witness :
  exists n l, primary_for (@ring_after siphash_hasher 2 [Join "a"; Join "b"]) 7 = Ret n /\
    replica_nodes (@ring_after siphash_hasher 2 [Join "a"; Join "b"]) 7 2 = Ret (n :: l) /\ NoDup (n :: l) /\
    zlen (n :: l) = 2.
Proof.
  destruct (@replica_nodes_distinct siphash_hasher 2 [Join "a"; Join "b"] 7 2) as (n & l & E1 & E2 & Hn & _ & Hz & _).
  - vm_compute. discriminate.
  - exists n, l. split; [exact E1|]. split; [exact E2|]. split; [exact Hn|]. rewrite Hz. vm_compute. reflexivity.
Defined.

(** No position of [node] belongs to another node of the ring. *)
Definition no_collision {hasher : DefaultHasher} (r : ConsistentHashRing) (node : string) : Prop :=
  forall pos n, is_vnode r node pos = true -> In (pos, n) (ring r) -> n = node.

(** C26: topology changes move only the keys they must.  When a node joins, a
    shard keeps its primary or moves to the new node.  When a node leaves,
    no shard is left on it, and, where its positions collide with no other
    node's, every shard it did not own keeps its primary.  Each change raises
    the version by one. *)
Theorem topology_change_minimal {hasher : DefaultHasher} vn evs node s :
  let r := ring_after vn evs in
  (forall n, primary_for (add_node r node) s = Ret n -> n = node \/ primary_for r s = Ret n) /\
  (forall n, primary_for (remove_node r node) s = Ret n -> n <> node) /\
  (no_collision r node -> forall n, primary_for r s = Ret n -> n <> node ->
     primary_for (remove_node r node) s = Ret n) /\
  version (add_node r node) = wrap_u64 (version r + 1) /\ version (remove_node r node) = wrap_u64 (version r + 1).
Proof.
  intros r. pose proof (ring_after_ok vn evs) as Hok. fold r in Hok. pose proof (ring_wf _ Hok) as Hwf.
  assert (forall r' n, bt_wf (ring r') -> primary_for r' s = Ret n -> exists pos, owner (ring r') s pos n) as Hown.
  { intros r' n Hw E. destruct (primary_owner r' s Hw) as (pos & n' & E' & Ho).
    - intros En. unfold primary_for in E. by rewrite En in E.
    - rewrite E in E'. injection E' as <-. eauto. }
  split_and!; [| | |done|done].
  - intros n E. pose proof (proj1 (add_node_get r node 0 Hwf)) as Hwf'.
    destruct (Hown _ _ Hwf' E) as [pos Ho]. pose proof Ho as [Hin _].
    apply bt_get_in in Hin; [|done]. rewrite (proj2 (add_node_get r node pos Hwf)) in Hin.
    destruct (is_vnode r node pos); [left; by injection Hin|]. right. apply (owner_primary r s pos n Hwf).
    apply (owner_mono (ring (add_node r node))); [|by apply bt_get_in|done].
    intros p n' Hp. apply bt_get_in in Hp; [|done]. pose proof (proj2 (add_node_get r node p Hwf)) as Eg. rewrite Hp in Eg.
    destruct (is_vnode r node p); [exists node|exists n']; by apply bt_get_in.
  - intros n E ->. pose proof (proj1 (remove_node_get r node 0 Hwf)) as Hwf'.
    destruct (Hown _ _ Hwf' E) as [pos [Hin _]]. by apply (remove_node_absent r node pos) in Hin.
  - intros Hnc n E Hne. destruct (Hown _ _ Hwf E) as [pos Ho]. pose proof Ho as [Hin _].
    pose proof (proj1 (remove_node_get r node 0 Hwf)) as Hwf'.
    assert (In (pos, n) (ring (remove_node r node))) as Hin'.
    { apply bt_get_in; [done|]. rewrite (proj2 (remove_node_get r node pos Hwf)).
      destruct (is_vnode r node pos) eqn:Ev; [by apply Hnc in Hin|by apply bt_get_in]. }
    apply (owner_primary _ s pos n Hwf'), (owner_mono (ring r)); [|done|done].
    intros p n' Hp. apply bt_get_in in Hp; [|done]. rewrite (proj2 (remove_node_get r node p Hwf)) in Hp.
    destruct (is_vnode r node p); [done|]. exists n'. by apply bt_get_in.
Qed.
