(* ===== verification/Cluster.v ===== *)
(** * Membership, routing and replication

    [crates/infralens-cluster/src/membership.rs] (the view kept from etcd
    events), [router.rs] (primary and replicas of a series) and
    [replication.rs] (bounded queues per replica, applying an entry). *)

From Stdlib Require Import ZArith Lia Sorted Permutation.
From stdpp Require Import base tactics list numbers option strings gmap.
From S2P Require Import Prelude Text BTree Float64 Model Wal MemTable Fs Hash SSTable Partition Compaction Engine Ring.

(** ** Configuration ([config.rs]) *)

Record ClusterConfig := {
  cc_enabled : bool;
  cc_node_id : string;
  cc_internal_grpc_addr : string;
  cc_etcd_endpoints : list string;
  cc_replication_factor : Z;
  cc_min_ack_replicas : Z;
  cc_virtual_nodes : Z;
  cc_replica_buffer_bytes : Z
}.

Definition default_cluster : ClusterConfig :=
  {| cc_enabled := false; cc_node_id := ""; cc_internal_grpc_addr := "0.0.0.0:4319";
     cc_etcd_endpoints := ["http://localhost:2379"%string]; cc_replication_factor := 3; cc_min_ack_replicas := 1;
     cc_virtual_nodes := 150; cc_replica_buffer_bytes := 64 * 1024 * 1024 |}.

(** ** Membership *)

Definition NODES_PREFIX : string := "/infralens/nodes/".

Record NodeMeta := {
  nm_node_id : string;
  nm_internal_grpc_addr : string;
  nm_version : string;
  nm_started_at_ns : Z
}.

Record ClusterView := { cv_nodes : list NodeMeta; cv_ring : ConsistentHashRing }.

(** [str::from_utf8] and [serde_json::from_str] on a value of the store. *)
Class NodeJson := { parse_meta : list Z -> option NodeMeta }.

(** An event of the watch: a written value, or the key of a deleted one. *)
Inductive WatchEvent := Put (value : list Z) | Delete (key : string).

(** [trim_start_matches]: the pattern is removed as often as it is there. *)
Fixpoint trim_start_matches (fuel : nat) (pat s : string) : string :=
  match fuel with
  | O => s
  | S fuel => match strip_prefix pat s with
              | Some s' => trim_start_matches fuel pat s'
              | None => s
              end
  end.

Definition node_of_key (key : string) : string :=
  trim_start_matches (S (String.length key)) NODES_PREFIX key.

Definition node_key (node_id : string) : string := (NODES_PREFIX ++ node_id)%string.

Section Membership.
Context {hasher : DefaultHasher} {json : NodeJson}.

(** [load_view] on the values under the prefix. *)
Definition load_view (values : list (list Z)) (vn : Z) : ClusterView :=
  fold_left (fun v value =>
    match parse_meta value with
    | Some meta => {| cv_nodes := cv_nodes v ++ [meta]; cv_ring := add_node (cv_ring v) (nm_node_id meta) |}
    | None => v
    end) values {| cv_nodes := []; cv_ring := ring_new vn |}.

(** One event of [watch_membership]. *)
Definition watch_event (v : ClusterView) (ev : WatchEvent) : ClusterView :=
  match ev with
  | Put value =>
      match parse_meta value with
      | Some meta =>
          {| cv_nodes := List.filter (fun n => negb (nm_node_id n =? nm_node_id meta)%string) (cv_nodes v) ++ [meta];
             cv_ring := add_node (cv_ring v) (nm_node_id meta) |}
      | None => v
      end
  | Delete key =>
      let node_id := node_of_key key in
      {| cv_nodes := List.filter (fun n => negb (nm_node_id n =? node_id)%string) (cv_nodes v);
         cv_ring := remove_node (cv_ring v) node_id |}
  end.
End Membership.

(** [is_alive] and [grpc_addr]. *)
Definition is_alive (v : ClusterView) (node_id : string) : bool :=
  existsb (fun n => (nm_node_id n =? node_id)%string) (cv_nodes v).

Definition grpc_addr (v : ClusterView) (node_id : string) : option string :=
  nm_internal_grpc_addr <$> find (fun n => (nm_node_id n =? node_id)%string) (cv_nodes v).

(** ** Routing *)

Record RoutingDecision := { rd_primary : string; rd_replicas : list string; rd_is_local : bool }.

Record ShardRouter := { sr_view : ClusterView; sr_local_id : string; sr_rep_factor : Z }.

(** [ShardRouter::route]; [rep_factor - 1] wraps at zero. *)
Definition route {hasher : DefaultHasher} (r : ShardRouter) (series_key : string) : RoutingDecision :=
  let shard := shard_for_key series_key in
  let cring := cv_ring (sr_view r) in
  let primary := match primary_for cring shard with Ret n => n | _ => sr_local_id r end in
  let replicas := match replica_nodes cring shard (sr_rep_factor r) with Ret l => l | _ => [] end in
  {| rd_primary := primary;
     rd_replicas := take (Z.to_nat (wrap_u32 (sr_rep_factor r - 1)))
                      (List.filter (fun n => negb (n =? primary)%string) replicas);
     rd_is_local := (primary =? sr_local_id r)%string |}.

Definition log_series_key (partition : string) (severity : Z) : string :=
  ("logs|" ++ partition ++ "|sev=" ++ show_i64 severity)%string.
Definition metric_series_key (partition name : string) : string :=
  ("metrics|" ++ partition ++ "|" ++ name)%string.
Definition span_series_key (partition service : string) : string :=
  ("traces|" ++ partition ++ "|" ++ service)%string.

(** ** Replication *)

Definition BUFFER_PER_REPLICA : nat := Z.to_nat 4096.

Record ReplicationEntry := {
  re_sequence : Z;
  re_partition_key : string;
  re_signal : string;
  re_wal_bytes : list Z
}.

(** The channel to one replica: what waits in it, and whether its receiver
    is gone. *)
Record ReplicaSender := { rs_queue : list ReplicationEntry; rs_closed : bool }.

Record ReplicationEngine := {
  rp_view : ClusterView;
  rp_senders : gmap string ReplicaSender;
  rp_sequence : Z
}.

(** [ReplicationEngine::new]. *)
Definition replication_new (view : ClusterView) : ReplicationEngine := {| rp_view := view; rp_senders := ∅; rp_sequence := 0 |}.

(** [get_or_create_sender]: a new channel is empty and open. *)
Definition get_or_create_sender (e : ReplicationEngine) (node_id : string) : ReplicaSender :=
  default {| rs_queue := []; rs_closed := false |} (rp_senders e !! node_id).

Definition set_sender (e : ReplicationEngine) (node_id : string) (s : ReplicaSender) : ReplicationEngine :=
  {| rp_view := rp_view e; rp_senders := <[node_id := s]> (rp_senders e); rp_sequence := rp_sequence e |}.

(** One replica of the loop: [None] when its address is unknown. *)
Definition replicate_to (entry : ReplicationEntry) (acc : ReplicationEngine * Z) (node_id : string)
    : ReplicationEngine * Z :=
  let '(e, ack_count) := acc in
  match grpc_addr (rp_view e) node_id with
  | None => acc
  | Some _ =>
      let s := get_or_create_sender e node_id in
      let e := set_sender e node_id s in
      if rs_closed s then
        ({| rp_view := rp_view e; rp_senders := delete node_id (rp_senders e); rp_sequence := rp_sequence e |}, ack_count)
      else if (length (rs_queue s) <? BUFFER_PER_REPLICA)%nat then
        (set_sender e node_id {| rs_queue := rs_queue s ++ [entry]; rs_closed := false |}, ack_count + 1)
      else (e, ack_count)
  end.

(** [ReplicationEngine::replicate]; the count of acknowledgements is only
    logged. *)
Definition replicate (e : ReplicationEngine) (replica_node_ids : list string) (partition_key signal : string)
    (wal_bytes : list Z) : ReplicationEngine * Z :=
  let entry := {| re_sequence := rp_sequence e; re_partition_key := partition_key; re_signal := signal;
                  re_wal_bytes := wal_bytes |} in
  let e := {| rp_view := rp_view e; rp_senders := rp_senders e; rp_sequence := wrap_u64 (rp_sequence e + 1) |} in
  fold_left (replicate_to entry) replica_node_ids (e, 0).

(** One turn of [replica_send_loop]: the entry leaves the queue. *)
Definition replica_send (e : ReplicationEngine) (node_id : string) : ReplicationEngine :=
  match rp_senders e !! node_id with
  | Some s => set_sender e node_id {| rs_queue := tail (rs_queue s); rs_closed := rs_closed s |}
  | None => e
  end.

(** *** Applying an entry on a replica *)

Definition WAL_ENTRY_LOG : Z := 1.
Definition WAL_ENTRY_METRIC : Z := 2.
Definition WAL_ENTRY_SPAN : Z := 3.

(** The storage error of a write, as the cluster error reports it. *)
Definition replication_failed (m : eio unit) : st (Fs * Engine) ClusterError unit := fun s =>
  let '(r, s') := m s in (map_err (ReplicationFailed "local") r, s').

(** [apply_replica_entry]; a record that does not decode is skipped. *)
Definition apply_replica_entry {libs : EngineLibs} (entry : ReplicationEntry) : st (Fs * Engine) ClusterError unit :=
  match re_wal_bytes entry with
  | [] => mret tt
  | entry_type :: d =>
      if entry_type =? WAL_ENTRY_LOG then
        match deserialize d with Some r => replication_failed (write_batch (Logs [r])) | None => mret tt end
      else if entry_type =? WAL_ENTRY_METRIC then
        match deserialize d with Some r => replication_failed (write_batch (Metrics [r])) | None => mret tt end
      else if entry_type =? WAL_ENTRY_SPAN then
        match deserialize d with Some r => replication_failed (write_batch (Spans [r])) | None => mret tt end
      else mret tt
  end.

(** ** The view *)

Section ViewFacts.
Context {hasher : DefaultHasher} {json : NodeJson}.

(** Every owner of a ring position is a known node. *)
Record view_ok (v : ClusterView) : Prop := {
  view_ring : ring_ok (cv_ring v);
  view_alive : forall pos n, In (pos, n) (ring (cv_ring v)) -> is_alive v n = true
}.

Lemma is_alive_spec v n : is_alive v n = true <-> exists m, In m (cv_nodes v) /\ nm_node_id m = n.
Proof.
  unfold is_alive. rewrite existsb_exists. split; intros (m & Hm & E); exists m; split; auto.
  - by apply String.eqb_eq in E.
  - by apply String.eqb_eq.
Qed.

Lemma add_node_owners r node pos n :
  ring_ok r -> In (pos, n) (ring (add_node r node)) -> n = node \/ In (pos, n) (ring r).
Proof.
  intros [Hwf _] Hin. pose proof (proj1 (add_node_get r node pos Hwf)) as Hwf'.
  apply bt_get_in in Hin; [|done]. rewrite (proj2 (add_node_get r node pos Hwf)) in Hin.
  destruct (is_vnode r node pos); [left; by injection Hin|right; by apply bt_get_in].
Qed.

Lemma remove_node_owners r node pos n :
  ring_ok r -> In (pos, n) (ring (remove_node r node)) -> n <> node /\ In (pos, n) (ring r).
Proof.
  intros Hr Hin. split; [intros ->; by apply (remove_node_absent r node pos) in Hin|]. destruct Hr as [Hwf _].
  pose proof (proj1 (remove_node_get r node pos Hwf)) as Hwf'.
  apply bt_get_in in Hin; [|done]. rewrite (proj2 (remove_node_get r node pos Hwf)) in Hin.
  destruct (is_vnode r node pos); [done|by apply bt_get_in].
Qed.

Lemma in_other nodes id m :
  In m (List.filter (fun n => negb (nm_node_id n =? id)%string) nodes) <-> In m nodes /\ nm_node_id m <> id.
Proof. rewrite filter_In, negb_true_iff, String.eqb_neq. done. Qed.

Lemma load_view_ok values vn : view_ok (load_view values vn).
Proof.
  unfold load_view. assert (view_ok {| cv_nodes := []; cv_ring := ring_new vn |}) as H0
    by (split; [apply ring_ok_new|done]).
  revert H0. generalize {| cv_nodes := []; cv_ring := ring_new vn |}.
  induction values as [|value values IH]; intros v Hv; [done|]. simpl. apply IH.
  destruct (parse_meta value) as [meta|]; [|done]. destruct Hv as [Hr Ha]. split; [by apply add_node_ok|].
  intros pos n Hin. apply is_alive_spec. cbn [cv_nodes cv_ring] in *.
  destruct (add_node_owners _ _ _ _ Hr Hin) as [->|Hin'].
  - exists meta. split; [apply in_or_app; right; by left|done].
  - apply Ha, is_alive_spec in Hin' as (m & Hm & E). exists m. split; [apply in_or_app; by left|done].
Qed.

Lemma watch_event_ok v ev : view_ok v -> view_ok (watch_event v ev).
Proof.
  intros [Hr Ha]. destruct ev as [value|key]; simpl.
  - destruct (parse_meta value) as [meta|]; [|by split]. split; [by apply add_node_ok|].
    intros pos n Hin. apply is_alive_spec. cbn [cv_nodes cv_ring] in *.
    destruct (decide (n = nm_node_id meta)) as [->|Hne].
    { exists meta. split; [apply in_or_app; right; by left|done]. }
    destruct (add_node_owners _ _ _ _ Hr Hin) as [->|Hin']; [done|]. apply Ha, is_alive_spec in Hin' as (m & Hm & E).
    exists m. split; [|done]. apply in_or_app; left. apply in_other. by subst.
  - split; [by apply remove_node_ok|]. intros pos n Hin. apply is_alive_spec. cbn [cv_nodes cv_ring] in *.
    destruct (remove_node_owners _ _ _ _ Hr Hin) as [Hne Hin']. apply Ha, is_alive_spec in Hin' as (m & Hm & E).
    exists m. split; [|done]. apply in_other. by subst.
Qed.

Lemma watch_events_ok evs v : view_ok v -> view_ok (fold_left watch_event evs v).
Proof. revert v; induction evs as [|ev evs IH]; intros v Hv; [done|]. simpl. by apply IH, watch_event_ok. Qed.

Lemma node_of_node_key id : starts_with NODES_PREFIX id = false -> node_of_key (node_key id) = id.
Proof.
  intros Hs. unfold node_of_key, node_key.
  assert (exists k, S (String.length (NODES_PREFIX ++ id)%string) = S (S k)) as [k ->] by (simpl; eauto).
  cbn [trim_start_matches]. rewrite strip_prefix_app. unfold starts_with in Hs.
  by destruct (strip_prefix NODES_PREFIX id).
Qed.
End ViewFacts.

(** C27: the view stays consistent with the ring.  After loading the view and
    any sequence of watch events, every node that owns a ring position is in
    the list of nodes; once the key of a node is deleted the node is neither
    in the list nor on the ring. *)
Theorem view_consistent {hasher : DefaultHasher} {json : NodeJson} values vn evs id :
  let v := fold_left watch_event evs (load_view values vn) in
  (forall pos n, In (pos, n) (ring (cv_ring v)) -> is_alive v n = true) /\
  (starts_with NODES_PREFIX id = false ->
   let v' := watch_event v (Delete (node_key id)) in
   is_alive v' id = false /\ forall pos, ~ In (pos, id) (ring (cv_ring v'))).
Proof.
  intros v. assert (view_ok v) as Hv by apply watch_events_ok, load_view_ok. split; [apply Hv|].
  intros Hs v'. unfold v'. cbn [watch_event]. rewrite node_of_node_key by done. split.
  - destruct (is_alive _ id) eqn:E; [|done]. apply is_alive_spec in E as (m & Hm & E).
    cbn [cv_nodes] in Hm. apply in_other in Hm as [_ Hne]. done.
  - intros pos. apply remove_node_absent, Hv.
Qed.

(** C25: routing decisions are sound.  For a view kept from etcd events with a
    non-empty ring and a replication factor of at least one, a series is
    routed to a live primary and to live replicas that are pairwise
    different, differ from the primary, and number one less than the
    replication factor or than the nodes there are; the decision is local
    exactly when the primary is this node. *)
Theorem route_sound {hasher : DefaultHasher} {json : NodeJson} values vn evs local rep key :
  let v := fold_left watch_event evs (load_view values vn) in
  ring (cv_ring v) <> [] -> 1 <= rep < two32 ->
  let d := route {| sr_view := v; sr_local_id := local; sr_rep_factor := rep |} key in
  is_alive v (rd_primary d) = true /\ Forall (fun n => is_alive v n = true) (rd_replicas d) /\
  NoDup (rd_primary d :: rd_replicas d) /\
  zlen (rd_replicas d) = Z.min (rep - 1) (node_count (cv_ring v) - 1) /\
  (rd_is_local d = true <-> rd_primary d = local).
Proof.
  intros v Hne Hrep d. assert (view_ok v) as Hv by apply watch_events_ok, load_view_ok.
  destruct (replica_nodes_spec (cv_ring v) (shard_for_key key) rep Hne) as (n & l & Ep & Er & Hnd & Hin & Hlen & _).
  rewrite Z.max_l in Er, Hlen by lia. apply NoDup_cons in Hnd as Hnd'. destruct Hnd' as [Hnl Hndl].
  assert (List.filter (fun x => negb (x =? n)%string) (n :: l) = l) as Ef.
  { cbn [List.filter]. rewrite String.eqb_refl. cbn [negb]. clear -Hnl. induction l as [|x l IH]; [done|].
    cbn [List.filter]. destruct (String.eqb_spec x n) as [->|]; [exfalso; apply Hnl; by left|]. simpl. f_equal.
    apply IH. intros Hn. apply Hnl. by right. }
  assert (zlen l <= rep - 1) as Hle by (rewrite zlen_cons in Hlen; lia).
  assert (take (Z.to_nat (wrap_u32 (rep - 1))) l = l) as Et.
  { rewrite wrap_u32_small by int_lia. apply take_ge. unfold zlen in Hle. lia. }
  unfold d, route. cbn [sr_view sr_local_id sr_rep_factor rd_primary rd_replicas rd_is_local].
  rewrite Ep, Er, Ef, Et.
  assert (forall x, x ∈ n :: l -> is_alive v x = true) as Hal.
  { intros x Hx. apply Hin, base.list_elem_of_In, in_map_iff in Hx as ([pos x'] & <- & Hx). by apply (view_alive _ Hv pos). }
  split_and!; [apply Hal; by left| |done|rewrite zlen_cons in Hlen; lia|apply String.eqb_eq].
  apply Forall_forall. intros x Hx. apply Hal. by right.
Qed.

(** ** Replica queues *)

(** A call of the engine or a turn of a sender's loop. *)
Inductive rep_op :=
| OpReplicate (ids : list string) (partition_key signal : string) (wal_bytes : list Z)
| OpSend (node_id : string).

Definition rep_step (e : ReplicationEngine) (op : rep_op) : ReplicationEngine :=
  match op with
  | OpReplicate ids pk sig bs => fst (replicate e ids pk sig bs)
  | OpSend node => replica_send e node
  end.

(** Queues are bounded and hold entries in the order of their numbers, all
    below [b]. *)
Definition senders_ok (b : Z) (m : gmap string ReplicaSender) : Prop :=
  map_Forall (fun _ s => (length (rs_queue s) <= BUFFER_PER_REPLICA)%nat /\
    StronglySorted Z.le (map re_sequence (rs_queue s)) /\ Forall (fun en => re_sequence en < b) (rs_queue s)) m.

Lemma sorted_snoc l x : StronglySorted Z.le l -> Forall (fun y => y <= x) l -> StronglySorted Z.le (l ++ [x]).
Proof.
  induction 1 as [|y l Hs IH Hf]; intros Hx; simpl; [repeat constructor|].
  inversion Hx; subst. constructor; [auto|]. apply List.Forall_app. split; [done|]. by constructor.
Qed.

(** The loop of one call: the entry has the number [b - 1]. *)
Lemma replicate_to_ok entry b ids e n :
  re_sequence entry = b - 1 -> senders_ok b (rp_senders e) ->
  senders_ok b (rp_senders (fst (fold_left (replicate_to entry) ids (e, n)))) /\
  rp_sequence (fst (fold_left (replicate_to entry) ids (e, n))) = rp_sequence e /\
  rp_view (fst (fold_left (replicate_to entry) ids (e, n))) = rp_view e.
Proof.
  intros Hseq. revert e n; induction ids as [|id ids IH]; intros e n Hok; [done|]. cbn [fold_left].
  enough (exists e1 n1, replicate_to entry (e, n) id = (e1, n1) /\ senders_ok b (rp_senders e1) /\
    rp_sequence e1 = rp_sequence e /\ rp_view e1 = rp_view e) as (e1 & n1 & -> & H1 & H2 & H3).
  { rewrite <- H2, <- H3. by apply IH. }
  unfold replicate_to. destruct (grpc_addr (rp_view e) id) as [a|]; [|by exists e, n].
  set (s := get_or_create_sender e id).
  assert ((length (rs_queue s) <= BUFFER_PER_REPLICA)%nat /\ StronglySorted Z.le (map re_sequence (rs_queue s)) /\
          Forall (fun en => re_sequence en < b) (rs_queue s)) as (S1 & S2 & S3).
  { unfold s, get_or_create_sender. destruct (rp_senders e !! id) as [s0|] eqn:E; [exact (Hok _ _ E)|].
    simpl. split_and!; [lia|constructor..]. }
  destruct (rs_closed s); [eexists _, _; split_and!; [reflexivity| |done|done]|].
  { apply map_Forall_delete. apply map_Forall_insert_2; [done|exact Hok]. }
  destruct (Nat.ltb_spec (length (rs_queue s)) BUFFER_PER_REPLICA); (eexists _, _; split_and!; [reflexivity| |done|done]).
  - cbn [set_sender rp_senders]. apply map_Forall_insert_2; [|by apply map_Forall_insert_2].
    cbn [rs_queue]. split_and!; [rewrite length_app; simpl; lia| |].
    + rewrite map_app. apply sorted_snoc; [done|]. apply List.Forall_map. eapply List.Forall_impl; [|exact S3].
      intros en; simpl. lia.
    + apply List.Forall_app. split; [done|]. constructor; [lia|constructor].
  - cbn [set_sender rp_senders]. by apply map_Forall_insert_2.
Qed.

Lemma rep_step_ok e op :
  0 <= rp_sequence e -> rp_sequence e + 1 < two64 -> senders_ok (rp_sequence e) (rp_senders e) ->
  senders_ok (rp_sequence (rep_step e op)) (rp_senders (rep_step e op)) /\
  rp_sequence e <= rp_sequence (rep_step e op) <= rp_sequence e + 1.
Proof.
  intros H0 Hb Hok. destruct op as [ids pk sig bs|node]; cbn [rep_step].
  - unfold replicate. rewrite wrap_u64_small by int_lia.
    set (e1 := {| rp_view := rp_view e; rp_senders := rp_senders e; rp_sequence := rp_sequence e + 1 |}).
    set (entry := {| re_sequence := rp_sequence e |}).
    destruct (replicate_to_ok entry (rp_sequence e + 1) ids e1 0) as (H1 & H2 & _); [simpl; lia| |].
    { intros k s Hs. destruct (Hok k s Hs) as (A & B & C). split_and!; [done|done|].
      eapply List.Forall_impl; [|exact C]. simpl; lia. }
    rewrite H2. split; [exact H1|]. cbn [e1 rp_sequence]. lia.
  - unfold replica_send. destruct (rp_senders e !! node) as [s|] eqn:E; [|split; [done|lia]].
    cbn [set_sender rp_senders rp_sequence]. split; [|lia]. apply map_Forall_insert_2; [|done].
    destruct (Hok _ _ E) as (A & B & C). cbn [rs_queue]. destruct (rs_queue s) as [|en q]; [done|]. simpl in *.
    inversion B; inversion C; subst. split_and!; [lia|done|done].
Qed.

(** Replica queues stay bounded and ordered.  After any calls of
    [replicate] and turns of the send loops, fewer than [2^64] in all, every
    replica's queue holds at most 4096 entries, in the order of the sequence
    numbers the engine gave them, all of them already given. *)
Theorem replica_queues_ordered view ops :
  zlen ops < two64 - 1 ->
  let e := fold_left rep_step ops {| rp_view := view; rp_senders := ∅; rp_sequence := 0 |} in
  forall node s, rp_senders e !! node = Some s ->
    (length (rs_queue s) <= BUFFER_PER_REPLICA)%nat /\
    StronglySorted Z.le (map re_sequence (rs_queue s)) /\
    Forall (fun en => re_sequence en < rp_sequence e) (rs_queue s).
Proof.
  intros Hb e. enough (senders_ok (rp_sequence e) (rp_senders e) /\ 0 <= rp_sequence e <= zlen ops) as [H _] by exact H.
  unfold e. clear e. induction ops as [|op ops IH] using rev_ind.
  { split; [apply map_Forall_empty|]. unfold zlen. simpl. lia. }
  rewrite zlen_app in *. change (zlen [op]) with 1 in *. destruct IH as [Hok Hr]; [lia|]. rewrite fold_left_app. cbn [fold_left].
  destruct (rep_step_ok _ op (proj1 Hr) ltac:(lia) Hok) as [H1 H2]. split; [exact H1|lia].
Qed.

Lemma replica_queues_ordered_witness :
  let v := {| cv_nodes := [{| nm_node_id := "b"; nm_internal_grpc_addr := "h"; nm_version := "1"; nm_started_at_ns := 0 |}];
              cv_ring := ring_new 1 |} in
  let e := fold_left rep_step [OpReplicate ["b"] "p" "logs" [1]; OpReplicate ["b"] "p" "logs" [2]; OpSend "b"; OpReplicate ["b"] "p" "logs" [3]]
             {| rp_view := v; rp_senders := ∅; rp_sequence := 0 |} in
  exists s, rp_senders e !! "b"%string = Some s /\ map re_sequence (rs_queue s) = [1; 2] /\
    StronglySorted Z.le (map re_sequence (rs_queue s)).
Proof.
  intros v e. destruct (rp_senders e !! "b"%string) as [s|] eqn:E.
  - exists s. split; [reflexivity|]. split.
    + vm_compute in E. injection E as <-. reflexivity.
    + apply (replica_queues_ordered v [OpReplicate ["b"] "p" "logs" [1]; OpReplicate ["b"] "p" "logs" [2]; OpSend "b"; OpReplicate ["b"] "p" "logs" [3]]
        ltac:(reflexivity) "b" s E).
  - vm_compute in E. discriminate E.
Defined.

(** Two nodes, written as one byte each. *)
Definition json_two_nodes : NodeJson :=
  {| parse_meta := fun bs =>
       match bs with
       | [b] => Some {| nm_node_id := if b =? 1 then "node-a" else "node-b"; nm_internal_grpc_addr := "host:4319";
                        nm_version := "1"; nm_started_at_ns := 0 |}
       | _ => None
       end |}.

Lemma route_sound_witness :
  let v := fold_left (@watch_event siphash_hasher json_two_nodes) [Put [2]] (@load_view siphash_hasher json_two_nodes [[1]] 2) in
  let d := @route siphash_hasher {| sr_view := v; sr_local_id := "node-a"; sr_rep_factor := 3 |} "logs|p|sev=9" in
  is_alive v (rd_primary d) = true /\ NoDup (rd_primary d :: rd_replicas d) /\ zlen (rd_replicas d) = 1.
Proof.
  intros v d.
  destruct (@route_sound siphash_hasher json_two_nodes [[1]] 2 [Put [2]] "node-a" 3 "logs|p|sev=9") as (H1 & _ & H3 & H4 & _).
  - vm_compute. discriminate.
  - lia.
  - split; [exact H1|]. split; [exact H3|]. unfold d, v. rewrite H4. vm_compute. reflexivity.
Defined.
