(* ===== verification/Membership.v ===== *)
(** * Joining a cluster

    The I/O half of [crates/infralens-cluster/src/membership.rs]: registering
    a node in etcd under a lease ([join]), the task that refreshes the lease,
    and the start of the watch.  The etcd service is an interface whose laws
    are its documented treatment of leases; [Cluster] has what the values
    and events mean for the view. *)

From Stdlib Require Import ZArith Lia.
From stdpp Require Import base tactics list numbers option strings gmap.
From S2P Require Import Prelude Text BTree Float64 Model Wal Fs Hash Engine Ring Cluster.

Local Open Scope string_scope.
Local Open Scope list_scope.
Local Open Scope Z_scope.

Definition LEASE_TTL_SECS : Z := 15.

(** ** etcd *)

(** The calls of the client; a failed one has the text of its error.
    [elapse] lets seconds pass at the service. *)
Class EtcdApi (W : Type) := {
  etcd_connect : list string -> st W string unit;
  lease_grant : Z -> st W string Z;
  kv_put : string -> list Z -> Z -> st W string unit;
  kv_get_prefix : string -> st W string (list (list Z));
  lease_keep_alive : Z -> st W string unit;
  elapse : Z -> W -> W
}.

(** What etcd documents about leases.  A lease is granted for at least the
    time to live that was asked for, and is not revoked before the time since
    it was last kept alive exceeds it; when it is revoked is left open.  A
    keep-alive that is answered has found the lease and started its time
    anew; one that fails may have reached the service or not.  A lease that
    was revoked does not come back.  A key attached to a lease is there as
    long as the lease, if no one else writes it. *)
Class EtcdLaws (W : Type) {api : EtcdApi W} := {
  lease_exists : Z -> W -> Prop;
  (** How long the lease is safe, and its time to live. *)
  lease_safe : Z -> W -> Z;
  lease_ttl : Z -> W -> Z;
  attached : string -> Z -> W -> Prop;
  present : string -> W -> Prop;
  connect_same : forall es s, snd (etcd_connect es s) = s;
  get_same : forall p s, snd (kv_get_prefix p s) = s;
  grant_lease : forall ttl s id s', lease_grant ttl s = (Ret id, s') ->
    lease_exists id s' /\ ttl <= lease_safe id s' /\ ttl <= lease_ttl id s';
  put_attaches : forall k v id s s', kv_put k v id s = (Ret tt, s') -> lease_exists id s ->
    lease_exists id s' /\ lease_safe id s' = lease_safe id s /\ lease_ttl id s' = lease_ttl id s /\ attached k id s';
  elapse_safe : forall t id s, 0 <= t -> lease_exists id s -> lease_safe id (elapse t s) = lease_safe id s - t /\ lease_ttl id (elapse t s) = lease_ttl id s;
  elapse_keeps : forall t id s, 0 <= t -> t < lease_safe id s -> lease_exists id s -> lease_exists id (elapse t s);
  elapse_revoked : forall t id s, ~ lease_exists id s -> ~ lease_exists id (elapse t s);
  keep_alive_ok : forall id s s', lease_keep_alive id s = (Ret tt, s') ->
    lease_exists id s /\ lease_exists id s' /\ lease_safe id s' = lease_ttl id s;
  keep_alive_any : forall id s r s', lease_keep_alive id s = (r, s') ->
    lease_ttl id s' = lease_ttl id s /\ (lease_safe id s' = lease_safe id s \/ lease_safe id s' = lease_ttl id s) /\
    (lease_exists id s' <-> lease_exists id s);
  elapse_attached : forall k id t s, attached k id s -> attached k id (elapse t s);
  keep_alive_attached : forall k id id' s, attached k id s -> attached k id (snd (lease_keep_alive id' s));
  present_attached : forall k id s, attached k id s -> (present k s <-> lease_exists id s)
}.

(** [serde_json::to_string] on the registration: the text of an error, or
    the bytes. *)
Class NodeJsonOut := { print_meta : NodeMeta -> string + list Z }.

(** ** Joining *)

Section Join.
Context {W : Type} {api : EtcdApi W} {hasher : DefaultHasher} {json : NodeJson} {out : NodeJsonOut}.

(** The error of the client, as the cluster error. *)
Definition etcd {A} (m : st W string A) : st W ClusterError A := fun s =>
  let '(r, s') := m s in (map_err Etcd r, s').

(** The task that refreshes the lease: one tick, whose failure is only
    logged, and the time to the next. *)
Definition REFRESH_SECS : Z := LEASE_TTL_SECS / 3.

Definition refresh_tick (lease_id : Z) (s : W) : bool * W :=
  let '(r, s1) := lease_keep_alive lease_id s in
  (match r with Ret _ => true | _ => false end, elapse REFRESH_SECS s1).

Fixpoint refresh_loop (n : nat) (lease_id : Z) (s : W) : list bool * W :=
  match n with
  | O => ([], s)
  | S n => let '(ok, s1) := refresh_tick lease_id s in let '(oks, s2) := refresh_loop n lease_id s1 in (ok :: oks, s2)
  end.

(** [ClusterMembership::join] at the time [now_ns]: the lease and the view;
    the two tasks run on it afterwards. *)
Definition join (config : ClusterConfig) (now_ns : Z) : st W ClusterError (Z * ClusterView) :=
  _ ← etcd (etcd_connect (cc_etcd_endpoints config));
  lease_id ← etcd (lease_grant LEASE_TTL_SECS);
  let meta := {| nm_node_id := cc_node_id config; nm_internal_grpc_addr := cc_internal_grpc_addr config;
                 nm_version := "0.1.0"; nm_started_at_ns := now_ns |} in
  meta_json ← st_lift (match print_meta meta with inr j => Ret j | inl e => Fail (ClusterSerialisation e) end);
  _ ← etcd (kv_put (node_key (cc_node_id config)) meta_json lease_id);
  values ← etcd (kv_get_prefix NODES_PREFIX);
  let initial_view := load_view values (cc_virtual_nodes config) in
  _ ← etcd (etcd_connect (cc_etcd_endpoints config));
  _ ← etcd (etcd_connect (cc_etcd_endpoints config));
  mret (lease_id, initial_view).

(** [watch_membership]: an error on opening the watch, or the responses of
    its stream until it ends or breaks, each with its events; afterwards the
    task is over. *)
Definition watch_membership (stream : option (list (list WatchEvent))) (view : ClusterView) : ClusterView :=
  match stream with
  | None => view
  | Some responses => fold_left (fun v events => fold_left watch_event events v) responses view
  end.
End Join.

(** ** The lease *)

(** Two failures in a row. *)
Fixpoint adjacent_failures (oks : list bool) : bool :=
  match oks with
  | [] => false
  | ok :: l => (negb ok && match l with ok' :: _ => negb ok' | [] => false end) || adjacent_failures l
  end.

Section Lease.
Context {W : Type} {api : EtcdApi W} {laws : EtcdLaws W}.

(** Before a tick: two ticks are left after a success, one after a failure. *)
Record kept (last : bool) (id : Z) (s : W) : Prop := {
  kp_exists : lease_exists id s;
  kp_ttl : 3 * REFRESH_SECS <= lease_ttl id s;
  kp_safe : (if last then 2 * REFRESH_SECS else REFRESH_SECS) <= lease_safe id s
}.

Lemma refresh_tick_revoked id s : ~ lease_exists id s ->
  let '(ok, s') := refresh_tick id s in ok = false /\ ~ lease_exists id s'.
Proof.
  intros Hn. unfold refresh_tick. destruct (lease_keep_alive id s) as [r s1] eqn:E.
  split; [|apply elapse_revoked; by rewrite (proj2 (proj2 (keep_alive_any id s r s1 E)))].
  destruct r as [[]| |]; [|done|done]. by destruct (keep_alive_ok id s s1 E).
Qed.

Lemma refresh_loop_revoked n id s : ~ lease_exists id s ->
  let '(oks, s') := refresh_loop n id s in oks = repeat false n /\ ~ lease_exists id s'.
Proof.
  revert s; induction n as [|n IH]; intros s Hn; [done|]. cbn [refresh_loop].
  pose proof (refresh_tick_revoked id s Hn) as H1. destruct (refresh_tick id s) as [ok s1]. destruct H1 as [-> H1].
  specialize (IH s1 H1). destruct (refresh_loop n id s1) as [oks s2]. destruct IH as [-> H2]. done.
Qed.

Lemma refresh_tick_kept last id s : kept last id s ->
  let '(ok, s') := refresh_tick id s in last || ok = true -> kept ok id s'.
Proof.
  intros [He Ht Hs]. assert (REFRESH_SECS = 5) as E5 by reflexivity. unfold refresh_tick.
  destruct (lease_keep_alive id s) as [r s1] eqn:E. intros Hl. destruct (keep_alive_any id s r s1 E) as (Ht1 & Hs1 & He1).
  destruct (elapse_safe REFRESH_SECS id s1) as [Hse Hte]; [lia|by apply He1|].
  assert (match r with Ret _ => lease_safe id s1 = lease_ttl id s | _ => last = true end) as Hok.
  { destruct r as [[]| |]; [by destruct (keep_alive_ok id s s1 E) as (_ & _ & ->)|by destruct last|by destruct last]. }
  split; [|lia|]; destruct r; try (subst last); try (apply elapse_keeps; [lia| |by apply He1]); lia.
Qed.

Lemma refresh_loop_kept n last id s : kept last id s ->
  let '(oks, s') := refresh_loop n id s in adjacent_failures (last :: oks) = false -> lease_exists id s'.
Proof.
  revert last s; induction n as [|n IH]; intros last s Hk; [intros _; by destruct Hk|]. cbn [refresh_loop].
  pose proof (refresh_tick_kept last id s Hk) as H1. destruct (refresh_tick id s) as [ok s1].
  specialize (IH ok s1). destruct (refresh_loop n id s1) as [oks s2]. intros Ha. cbn [adjacent_failures] in Ha.
  apply orb_false_iff in Ha as [Ha1 Ha2]. apply IH; [|exact Ha2]. apply H1. by destruct last, ok.
Qed.

Lemma refresh_loop_attached n k id s : attached k id s -> attached k id (snd (refresh_loop n id s)).
Proof.
  revert s; induction n as [|n IH]; intros s Ha; [done|]. cbn [refresh_loop]. unfold refresh_tick.
  pose proof (keep_alive_attached k id id s Ha) as H1. destruct (lease_keep_alive id s) as [r s1]. simpl in H1.
  specialize (IH _ (elapse_attached k id REFRESH_SECS s1 H1)). by destruct (refresh_loop n id _).
Qed.

Lemma join_registers {hasher : DefaultHasher} {json : NodeJson} {out : NodeJsonOut} config now s id view s' :
  join config now s = (Ret (id, view), s') ->
  kept true id s' /\ attached (node_key (cc_node_id config)) id s'.
Proof.
  unfold join, etcd. intros H.
  repeat match goal with H : (_ ≫= _) _ = (Ret _, _) |- _ => apply st_bind_inv in H as (? & ? & ? & ?) end.
  unfold st_lift, mret, st_ret in *. simplify_eq.
  repeat match goal with
  | H : (let '(r, s') := etcd_connect ?es ?s in _) = _ |- _ =>
      pose proof (connect_same es s); destruct (etcd_connect es s) as [[?| |] ?]; simplify_eq/=
  | H : (let '(r, s') := kv_get_prefix ?p ?s in _) = _ |- _ =>
      pose proof (get_same p s); destruct (kv_get_prefix p s) as [[?| |] ?]; simplify_eq/=
  | H : (let '(r, s') := lease_grant ?t ?s in _) = _ |- _ =>
      let E := fresh "Eg" in destruct (lease_grant t s) as [[?| |] ?] eqn:E; simplify_eq/=
  | H : (let '(r, s') := kv_put ?k ?v ?i ?s in _) = _ |- _ =>
      let E := fresh "Ep" in destruct (kv_put k v i s) as [[[]| |] ?] eqn:E; simplify_eq/=
  end.
  apply grant_lease in Eg as (G1 & G2 & G3). apply put_attaches in Ep as (P1 & P2 & P3 & P4); [|done].
  assert (REFRESH_SECS = 5) as E5 by reflexivity. assert (LEASE_TTL_SECS = 15) as E15 by reflexivity.
  split; [|done]. split; [done|lia|lia].
Qed.
End Lease.

(** C29: what the refresh task keeps and loses.  The service follows the
    laws above, one tick passes between two calls and no one else writes the
    key.  After a successful join and any number of refresh ticks, the key of
    the node is present if no two ticks in a row failed, whether or not the
    failed calls reached the service; and once the key is gone, two ticks in
    a row have failed before, every further tick fails and the key never
    comes back, since nothing registers the node again. *)
Theorem lease_refresh {W} {api : EtcdApi W} {laws : EtcdLaws W} {hasher : DefaultHasher} {json : NodeJson} {out : NodeJsonOut}
    config now s id view s1 n :
  join config now s = (Ret (id, view), s1) ->
  let key := node_key (cc_node_id config) in
  let '(oks, s2) := refresh_loop n id s1 in
  (adjacent_failures oks = false -> present key s2) /\
  (~ present key s2 -> adjacent_failures oks = true /\
     forall m, let '(oks', s3) := refresh_loop m id s2 in oks' = repeat false m /\ ~ present key s3).
Proof.
  intros Hj key. destruct (join_registers _ _ _ _ _ _ Hj) as (Hk & Ha).
  pose proof (refresh_loop_kept n true id s1 Hk) as H. pose proof (refresh_loop_attached n key id s1 Ha) as Ha2.
  destruct (refresh_loop n id s1) as [oks s2]. cbn [snd] in Ha2.
  assert (adjacent_failures oks = false -> present key s2) as Hp by (intros Hf; by apply (present_attached key id s2 Ha2), H).
  split; [done|]. intros Hn. split; [destruct (adjacent_failures oks); [done|by destruct Hn; apply Hp]|]. intros m.
  assert (~ lease_exists id s2) as Hr by by rewrite <- (present_attached key id s2 Ha2).
  pose proof (refresh_loop_revoked m id s2 Hr) as H3. pose proof (refresh_loop_attached m key id s2 Ha2) as Ha3.
  destruct (refresh_loop m id s2) as [oks' s3]. destruct H3 as [-> H3]. split; [done|]. by rewrite (present_attached key id s3 Ha3).
Qed.

(** ** A reference service

    Leases with what is left of them and their time to live, keys with their
    lease, and what becomes of the coming renewals: answered, renewed without
    an answer, or lost on the way. *)

Inductive Fate := Answered | Unanswered | Lost.

Record EtcdStore := {
  es_leases : gmap Z (Z * Z * bool);
  es_keys : gmap string (list Z * Z);
  es_next : Z;
  es_plan : list Fate
}.

(** What is left of the lease, its time to live, and whether it exists. *)
Definition es_left (id : Z) (s : EtcdStore) : Z := match es_leases s !! id with Some (n, _, _) => n | None => 0 end.
Definition es_ttl (id : Z) (s : EtcdStore) : Z := match es_leases s !! id with Some (_, t, _) => t | None => 0 end.
Definition es_exists (id : Z) (s : EtcdStore) : bool := match es_leases s !! id with Some (_, _, x) => x | None => false end.

Definition run_down (t : Z) (l : Z * Z * bool) : Z * Z * bool :=
  let '(n, ttl, x) := l in (n - t, ttl, x && (t <? n)).

Definition etcd_reference : EtcdApi EtcdStore :=
  {| etcd_connect := fun _ s => (Ret tt, s);
     lease_grant := fun ttl s =>
       (Ret (es_next s), {| es_leases := <[es_next s := (ttl, ttl, true)]> (es_leases s); es_keys := es_keys s;
                            es_next := es_next s + 1; es_plan := es_plan s |});
     kv_put := fun k v id s =>
       (Ret tt, {| es_leases := es_leases s; es_keys := <[k := (v, id)]> (es_keys s); es_next := es_next s; es_plan := es_plan s |});
     kv_get_prefix := fun p s =>
       (Ret (filter_map (fun kv => if starts_with p (fst kv) && es_exists (snd (snd kv)) s then Some (fst (snd kv)) else None)
               (map_to_list (es_keys s))), s);
     lease_keep_alive := fun id s =>
       let s' leases := {| es_leases := leases; es_keys := es_keys s; es_next := es_next s; es_plan := tail (es_plan s) |} in
       let renewed := s' (<[id := (es_ttl id s, es_ttl id s, true)]> (es_leases s)) in
       match hd Answered (es_plan s), es_exists id s with
       | Answered, true => (Ret tt, renewed)
       | Unanswered, true => (Fail "no answer", renewed)
       | _, _ => (Fail "lease keep-alive failed", s' (es_leases s))
       end;
     elapse := fun t s =>
       {| es_leases := run_down t <$> es_leases s; es_keys := es_keys s; es_next := es_next s; es_plan := es_plan s |} |}.

Definition etcd_reference_laws : @EtcdLaws EtcdStore etcd_reference.
Proof.
  refine {| lease_exists := fun id s => es_exists id s = true; lease_safe := es_left; lease_ttl := es_ttl;
            attached := fun k id s => exists v, es_keys s !! k = Some (v, id);
            present := fun k s => exists v id, es_keys s !! k = Some (v, id) /\ es_exists id s = true |}; cbn.
  - done.
  - done.
  - intros ttl s id s' H. simplify_eq. unfold es_left, es_ttl, es_exists. cbn. rewrite !lookup_insert_eq. split_and!; [done|lia|lia].
  - intros k v id s s' H. simplify_eq. intros He. unfold es_left, es_ttl in *. cbn. split_and!; [done|done|done|]. exists v. by rewrite lookup_insert_eq.
  - intros t id s _ He. unfold es_left, es_ttl, es_exists in *. cbn. rewrite lookup_fmap. by destruct (es_leases s !! id) as [[[n u] x]|].
  - intros t id s _ Ht He. unfold es_left, es_exists in *. cbn. rewrite lookup_fmap. destruct (es_leases s !! id) as [[[n u] x]|]; [|done].
    cbn. rewrite He. by apply Z.ltb_lt.
  - intros t id s Hn He. apply Hn. unfold es_exists in *. cbn in He. rewrite lookup_fmap in He.
    destruct (es_leases s !! id) as [[[n u] x]|]; [|done]. cbn in He. by apply andb_true_iff in He as [-> _].
  - intros id s s' H. destruct (hd Answered (es_plan s)), (es_exists id s) eqn:Ee; try done. injection H as <-.
    unfold es_left, es_exists. cbn. by rewrite !lookup_insert_eq.
  - intros id s r s' H. unfold es_left, es_ttl. destruct (hd Answered (es_plan s)), (es_exists id s) eqn:Ee; injection H as _ <-;
      try (rewrite <- Ee; cbn; by auto); unfold es_exists; cbn; rewrite !lookup_insert_eq; by auto.
  - intros k id t s (v & H). by exists v.
  - intros k id id' s (v & H). exists v. by destruct (hd Answered (es_plan s)), (es_exists id' s).
  - intros k id s (v & H). split; [|intros Hl; by exists v, id]. intros (v' & id' & H' & Hl). by simplify_eq.
Defined.

(** A node with one renewal that is answered; the next is lost, and the one
    after it too. *)
Definition test_node : ClusterConfig :=
  {| cc_enabled := true; cc_node_id := "a"; cc_internal_grpc_addr := "h:1"; cc_etcd_endpoints := ["e"]; cc_replication_factor := 3;
     cc_min_ack_replicas := 1; cc_virtual_nodes := 1; cc_replica_buffer_bytes := 0 |}.

Definition etcd_empty : EtcdStore := {| es_leases := ∅; es_keys := ∅; es_next := 7; es_plan := [Answered; Lost; Lost] |}.

Definition json_bytes : NodeJsonOut := {| print_meta := fun _ => inr [1] |}.

Lemma lease_refresh_witness :
  let s1 := snd (@join _ etcd_reference siphash_hasher json_two_nodes json_bytes test_node 0 etcd_empty) in
  (let '(oks, s2) := @refresh_loop _ etcd_reference 2 7 s1 in
   oks = [true; false] /\ @present _ _ etcd_reference_laws (node_key "a") s2) /\
  (let '(oks, s2) := @refresh_loop _ etcd_reference 3 7 s1 in
   oks = [true; false; false] /\ ~ @present _ _ etcd_reference_laws (node_key "a") s2 /\
   fst (@refresh_loop _ etcd_reference 2 7 s2) = [false; false]).
Proof.
  intros s1.
  pose proof (fun n => @lease_refresh _ etcd_reference etcd_reference_laws siphash_hasher json_two_nodes json_bytes test_node 0 etcd_empty 7
    _ s1 n eq_refl) as H. cbv zeta in H. split.
  - specialize (H 2%nat). assert (fst (@refresh_loop _ etcd_reference 2 7 s1) = [true; false]) as E by (vm_compute; reflexivity).
    destruct (refresh_loop 2 7 s1) as [oks s2]. simpl in E. split; [exact E|]. apply H. rewrite E. reflexivity.
  - specialize (H 3%nat). assert (fst (@refresh_loop _ etcd_reference 3 7 s1) = [true; false; false]) as E by (vm_compute; reflexivity).
    assert (~ @present _ _ etcd_reference_laws (node_key (cc_node_id test_node)) (snd (@refresh_loop _ etcd_reference 3 7 s1))) as Hn.
    { intros (v & i & Hk & Hx). vm_compute in Hk. injection Hk as _ <-. vm_compute in Hx. discriminate Hx. }
    destruct (refresh_loop 3 7 s1) as [oks s2]. simpl in E. destruct H as [_ H]. destruct (H Hn) as [_ H4].
    split; [exact E|]. split; [exact Hn|]. specialize (H4 2%nat). destruct (refresh_loop 2 7 s2) as [oks' s3].
    destruct H4 as [-> _]. reflexivity.
Defined.
