(* ===== verification/Ast.v ===== *)
(** * Tokens, syntax trees and errors of the query language

    The types of [crates/infralens-query/src]: the tokens of [lexer.rs], the
    tree of [ast.rs] and the errors of [error.rs]. *)

From Stdlib Require Import ZArith Lia.
From stdpp Require Import base tactics list numbers option strings.
From S2P Require Import Prelude Text Float64 Codec Wal Model.

(** ** Tokens ([lexer.rs]) *)

Inductive Token : Type :=
| TSelect | TFrom | TWhere | TAnd | TOr | TNot | TIs | TNull | TIn | TBetween | TLike
| TJoin | TInner | TLeft | TRight | TOn | TAs | TGroup | TBy | THaving | TOrder | TAsc | TDesc
| TLimit | TOffset | TTrue | TFalse | TDistinct | TInterval
| TIdent (s : string)
| TIntLit (n : Z)
| TFloatLit (x : f64)
| TStrLit (s : string)
| TPlus | TMinus | TStar | TSlash | TPercent
| TEq | TNotEq | TLt | TLtEq | TGt | TGtEq
| TLParen | TRParen | TComma | TDot | TSemicolon
| TEof.

#[export] Instance Token_eq_dec : EqDecision Token.
Proof. solve_decision. Defined.

(** [self.peek() == &tok]. *)
Definition tok_eqb (t u : Token) : bool := bool_decide (t = u).

(** ** Errors ([error.rs])

    The text of an error is kept as the format string of the source and the
    values it prints. *)

Inductive Arg : Type := ATok (t : Token) | ANum (z : Z) | AStr (s : string) | AType (d : DataType).

Inductive Message : Type := Msg (fmt : string) (args : list Arg).

Inductive QueryError : Type :=
| Lex (m : Message)
| Parse (m : Message)
| Bind (m : Message)
| Optimizer (m : Message)
| Execution (m : Message)
| QStorage (e : StorageError)
| QArrow (msg : string)
| QIo (msg : string).

(** ** The tree ([ast.rs]) *)

Inductive BinOp : Type :=
| OpAdd | OpSub | OpMul | OpDiv | OpMod
| OpEq | OpNotEq | OpLt | OpLtEq | OpGt | OpGtEq
| OpAnd | OpOr.

Inductive UnaryOp : Type := Neg | Not.

Inductive Literal : Type :=
| LInt (n : Z)
| LFloat (x : f64)
| LStr (s : string)
| LBool (b : bool)
| LNull
| LIntervalNs (n : Z).

#[export] Instance BinOp_eq_dec : EqDecision BinOp.
Proof. solve_decision. Defined.

#[export] Instance Literal_eq_dec : EqDecision Literal.
Proof. solve_decision. Defined.

Inductive Expr : Type :=
| EColumn (table : option string) (name : string)
| ELiteral (l : Literal)
| EStar
| EBinOp (op : BinOp) (left right : Expr)
| EUnaryOp (op : UnaryOp) (operand : Expr)
| EIsNull (e : Expr)
| EIsNotNull (e : Expr)
| EBetween (e low high : Expr)
| EIn (e : Expr) (l : list Expr)
| ELike (e : Expr) (pattern : string) (negated : bool)
| EFunction (name : string) (args : list Expr)
| ETimeBucket (width_ns : Z) (ts_expr : Expr)
| ERate (value_expr : Expr) (window_ns : Z)
| EDelta (value_expr : Expr) (window_ns : Z)
| EHistogramQuantile (q : f64) (value_expr : Expr) (buckets : Z)
| ENow
| EInterval (ns : Z).

Inductive JoinKind : Type := JInner | JLeft | JRight.

Record TableRef := { tr_name : string; tr_alias : option string }.

Record JoinClause := { jc_kind : JoinKind; jc_table : TableRef; jc_condition : Expr }.

Inductive Projection : Type := PStar | PExpr (e : Expr) (alias : option string).

Record OrderByItem := { ob_expr : Expr; ob_asc : bool }.

Record SelectStatement := {
  sel_projections : list Projection;
  sel_from : TableRef;
  sel_joins : list JoinClause;
  sel_filter : option Expr;
  sel_group_by : list Expr;
  sel_having : option Expr;
  sel_order_by : list OrderByItem;
  sel_limit : option Z;
  sel_offset : option Z
}.

Inductive Statement : Type := Select (s : SelectStatement).

(** The texts [Display] gives for operators and table references. *)
Definition show_binop (op : BinOp) : string :=
  match op with
  | OpAdd => "+" | OpSub => "-" | OpMul => "*" | OpDiv => "/"
  | OpMod => "%" | OpEq => "=" | OpNotEq => "!="
  | OpLt => "<" | OpLtEq => "<=" | OpGt => ">" | OpGtEq => ">="
  | OpAnd => "AND" | OpOr => "OR"
  end.

Definition show_table_ref (t : TableRef) : string :=
  match tr_alias t with
  | Some a => (tr_name t ++ " AS " ++ a)%string
  | None => tr_name t
  end.

(** What the clock shows, in nanoseconds, at the calls of [now] in an
    expression, by their place in the tree: every call reads the clock anew,
    so nothing relates one reading to another. *)
Definition Clock := list nat -> Z.

(** The readings within the [i]-th part of the expression. *)
Definition below (clock : Clock) (i : nat) : Clock := fun place => clock (i :: place).

(** Induction over the tree, with the hypothesis for every argument of a call
    and every item of a list. *)
Section ExprInd.
Variable P : Expr -> Prop.
Hypothesis Pcol : forall t n, P (EColumn t n).
Hypothesis Plit : forall l, P (ELiteral l).
Hypothesis Pstar : P EStar.
Hypothesis Pbin : forall op l r, P l -> P r -> P (EBinOp op l r).
Hypothesis Pun : forall op e, P e -> P (EUnaryOp op e).
Hypothesis Pnull : forall e, P e -> P (EIsNull e).
Hypothesis Pnnull : forall e, P e -> P (EIsNotNull e).
Hypothesis Pbetween : forall e lo hi, P e -> P lo -> P hi -> P (EBetween e lo hi).
Hypothesis Pin : forall e l, P e -> Forall P l -> P (EIn e l).
Hypothesis Plike : forall e p n, P e -> P (ELike e p n).
Hypothesis Pfun : forall n args, Forall P args -> P (EFunction n args).
Hypothesis Ptb : forall w e, P e -> P (ETimeBucket w e).
Hypothesis Prate : forall e w, P e -> P (ERate e w).
Hypothesis Pdelta : forall e w, P e -> P (EDelta e w).
Hypothesis Phq : forall q e b, P e -> P (EHistogramQuantile q e b).
Hypothesis Pnow : P ENow.
Hypothesis Pint : forall n, P (EInterval n).

Fixpoint Expr_ind' (e : Expr) : P e :=
  let fix all (l : list Expr) : Forall P l :=
    match l with
    | [] => Forall_nil_2 P
    | x :: l => Forall_cons_2 P x l (Expr_ind' x) (all l)
    end in
  match e with
  | EColumn t n => Pcol t n
  | ELiteral l => Plit l
  | EStar => Pstar
  | EBinOp op l r => Pbin op l r (Expr_ind' l) (Expr_ind' r)
  | EUnaryOp op e => Pun op e (Expr_ind' e)
  | EIsNull e => Pnull e (Expr_ind' e)
  | EIsNotNull e => Pnnull e (Expr_ind' e)
  | EBetween e lo hi => Pbetween e lo hi (Expr_ind' e) (Expr_ind' lo) (Expr_ind' hi)
  | EIn e l => Pin e l (Expr_ind' e) (all l)
  | ELike e p n => Plike e p n (Expr_ind' e)
  | EFunction n args => Pfun n args (all args)
  | ETimeBucket w e => Ptb w e (Expr_ind' e)
  | ERate e w => Prate e w (Expr_ind' e)
  | EDelta e w => Pdelta e w (Expr_ind' e)
  | EHistogramQuantile q e b => Phq q e b (Expr_ind' e)
  | ENow => Pnow
  | EInterval n => Pint n
  end.
End ExprInd.
