(* ===== verification/Lexer.v ===== *)
(** * The lexer

    [crates/infralens-query/src/lexer.rs]: the bytes of a query become a
    list of tokens.  The state is the byte position and the bytes from
    there on, so reading past the end gives the byte 0 as [peek] does. *)

From Stdlib Require Import ZArith Lia Ascii SpecFloat.
From stdpp Require Import base tactics list numbers option strings.
From S2P Require Import Prelude Text Float64 Codec Model Ast.

Record Lexer := { lx_pos : Z; lx_rest : string }.

Abbreviation lexm := (st Lexer QueryError).

Definition lexer_new (src : string) : Lexer := {| lx_pos := 0; lx_rest := src |}.

Definition NUL : ascii := "000"%char.

(** [peek], [peek2], [advance]. *)
Definition lpeek (l : Lexer) : ascii := match lx_rest l with String c _ => c | "" => NUL end.
Definition lpeek2 (l : Lexer) : ascii := match lx_rest l with String _ (String c _) => c | _ => NUL end.

Definition stail (s : string) : string := match s with String _ s => s | "" => "" end.

Definition ladvance (l : Lexer) : Lexer := {| lx_pos := lx_pos l + 1; lx_rest := stail (lx_rest l) |}.

(** The rest of a line comment, up to its newline or the end. *)
Fixpoint skip_line (pos : Z) (s : string) : Lexer :=
  match s with
  | "" => {| lx_pos := pos; lx_rest := "" |}
  | String c s' => if (c =? "010")%char then {| lx_pos := pos; lx_rest := s |} else skip_line (pos + 1) s'
  end.

(** [skip_whitespace_and_comments]; a turn of the loop consumes a byte. *)
Fixpoint skip_loop (fuel : nat) (l : Lexer) : Lexer :=
  match fuel with
  | O => l
  | S fuel =>
      let c := lpeek l in
      if (c =? " ")%char || (c =? "009")%char || (c =? "010")%char || (c =? "013")%char then skip_loop fuel (ladvance l)
      else if (c =? "-")%char && (lpeek2 l =? "-")%char then skip_loop fuel (skip_line (lx_pos l) (lx_rest l))
      else l
  end.

Definition skip_whitespace_and_comments (l : Lexer) : Lexer := skip_loop (S (String.length (lx_rest l))) l.

(** [s.push(c as char)]: a byte becomes the code point of its value, in
    UTF-8. *)
Definition push_char (c : ascii) : string :=
  let b := byte_of_ascii c in
  if b <? 128 then String c ""
  else String (ascii_of_byte (192 + b / 64)) (String (ascii_of_byte (128 + b mod 64)) "").

(** The body of a string literal after its opening quote; [None] when a zero
    byte or the end comes first. *)
Fixpoint string_body (pos : Z) (s : string) : option (string * Lexer) :=
  match s with
  | "" => None
  | String c s' =>
      if (c =? NUL)%char then None
      else if (c =? "'")%char then
        match s' with
        | String "'" s'' => '(v, l) ← string_body (pos + 2) s''; Some (String "'" v, l)
        | _ => Some (""%string, {| lx_pos := pos + 1; lx_rest := s' |})
        end
      else '(v, l) ← string_body (pos + 1) s'; Some ((push_char c ++ v)%string, l)
  end.

Definition lex_string (l : Lexer) : outcome QueryError (Token * Lexer) :=
  let l := ladvance l in
  match string_body (lx_pos l) (lx_rest l) with
  | Some (s, l) => Ret (TStrLit s, l)
  | None => Fail (Lex (Msg "unterminated string literal" []))
  end.

(** The longest run of bytes of a class, and what follows it. *)
Fixpoint span (p : ascii -> bool) (pos : Z) (s : string) : string * Lexer :=
  match s with
  | "" => (""%string, {| lx_pos := pos; lx_rest := "" |})
  | String c s' =>
      if p c then let '(w, l) := span p (pos + 1) s' in (String c w, l)
      else (""%string, {| lx_pos := pos; lx_rest := s |})
  end.

Definition digits_of (s : string) : Z := default 0 (digits_val 0 s).

(** [lex_number]: digits, or digits, a point and digits.  The decimal text
    of a float always parses; an integer must fit 64 bits. *)
Definition lex_number (l : Lexer) : outcome QueryError (Token * Lexer) :=
  let '(ip, l) := span is_digit (lx_pos l) (lx_rest l) in
  if (lpeek l =? ".")%char && is_digit (lpeek2 l) then
    let l := ladvance l in
    let '(fp, l) := span is_digit (lx_pos l) (lx_rest l) in
    Ret (TFloatLit (f64_of_decimal (digits_of (ip ++ fp)) (String.length fp)), l)
  else
    match parse_i64 ip with
    | Some n => Ret (TIntLit n, l)
    | None => Fail (Lex (Msg "{e}" [AStr "number too large to fit in target type"]))
    end.

Definition ident_start (c : ascii) : bool := is_lower c || is_upper c || (c =? "_")%char.
Definition ident_char (c : ascii) : bool := is_lower c || is_upper c || is_digit c || (c =? "_")%char.

(** The keywords, by their upper-case spelling. *)
Definition keyword (upper : string) : option Token :=
  match upper with
  | "SELECT" => Some TSelect | "FROM" => Some TFrom
  | "WHERE" => Some TWhere | "AND" => Some TAnd
  | "OR" => Some TOr | "NOT" => Some TNot
  | "IS" => Some TIs | "NULL" => Some TNull
  | "IN" => Some TIn | "BETWEEN" => Some TBetween
  | "LIKE" => Some TLike | "JOIN" => Some TJoin
  | "INNER" => Some TInner | "LEFT" => Some TLeft
  | "RIGHT" => Some TRight | "ON" => Some TOn
  | "AS" => Some TAs | "GROUP" => Some TGroup
  | "BY" => Some TBy | "HAVING" => Some THaving
  | "ORDER" => Some TOrder | "ASC" => Some TAsc
  | "DESC" => Some TDesc | "LIMIT" => Some TLimit
  | "OFFSET" => Some TOffset | "TRUE" => Some TTrue
  | "FALSE" => Some TFalse | "DISTINCT" => Some TDistinct
  | "INTERVAL" => Some TInterval
  | _ => None
  end%string.

Definition lex_ident_or_keyword (l : Lexer) : outcome QueryError (Token * Lexer) :=
  let '(word, l) := span ident_char (lx_pos l) (lx_rest l) in
  Ret (default (TIdent word) (keyword (to_ascii_uppercase word)), l).

(** The body of a quoted identifier after its opening quote. *)
Fixpoint quoted_body (pos : Z) (s : string) : option (string * Lexer) :=
  match s with
  | "" => None
  | String c s' =>
      if (c =? NUL)%char then None
      else if (c =? "034")%char then Some (""%string, {| lx_pos := pos + 1; lx_rest := s' |})
      else '(v, l) ← quoted_body (pos + 1) s'; Some ((push_char c ++ v)%string, l)
  end.

Definition lex_quoted_ident (l : Lexer) : outcome QueryError (Token * Lexer) :=
  let l := ladvance l in
  match quoted_body (lx_pos l) (lx_rest l) with
  | Some (s, l) => Ret (TIdent s, l)
  | None => Fail (Lex (Msg "unterminated quoted identifier" []))
  end.

(** The one-byte operators. *)
Definition punct (c : ascii) : option Token :=
  match c with
  | "+" => Some TPlus | "-" => Some TMinus | "*" => Some TStar | "/" => Some TSlash
  | "%" => Some TPercent | "(" => Some TLParen | ")" => Some TRParen | "," => Some TComma
  | "." => Some TDot | ";" => Some TSemicolon | "=" => Some TEq
  | _ => None
  end%char.

Definition next_token (l : Lexer) : outcome QueryError (Token * Lexer) :=
  let c := lpeek l in
  match punct c with
  | Some t => Ret (t, ladvance l)
  | None =>
      if (c =? "<")%char then
        let l := ladvance l in
        if (lpeek l =? "=")%char then Ret (TLtEq, ladvance l)
        else if (lpeek l =? ">")%char then Ret (TNotEq, ladvance l)
        else Ret (TLt, l)
      else if (c =? ">")%char then
        let l := ladvance l in
        if (lpeek l =? "=")%char then Ret (TGtEq, ladvance l) else Ret (TGt, l)
      else if (c =? "!")%char then
        let l := ladvance l in
        if (lpeek l =? "=")%char then Ret (TNotEq, ladvance l)
        else Fail (Lex (Msg "unexpected '!' at {}" [ANum (lx_pos l)]))
      else if (c =? "'")%char then lex_string l
      else if is_digit c then lex_number l
      else if ident_start c then lex_ident_or_keyword l
      else if (c =? "034")%char then lex_quoted_ident l
      else Fail (Lex (Msg "unexpected byte {other:#x} ('{}')" [ANum (byte_of_ascii c); AStr (push_char c)]))
  end.

(** [tokenise]: the loop until the end; the fuel is the number of bytes, and
    a token consumes at least one (see [tokenise_total]). *)
Fixpoint tokenise_loop (fuel : nat) (l : Lexer) : outcome QueryError (list Token) :=
  match fuel with
  | O => Panic
  | S fuel =>
      let l := skip_whitespace_and_comments l in
      match lx_rest l with
      | "" => Ret [TEof]
      | _ => '(tok, l) ← next_token l; toks ← tokenise_loop fuel l; Ret (tok :: toks)
      end
  end.

Definition tokenise (l : Lexer) : outcome QueryError (list Token) :=
  tokenise_loop (S (String.length (lx_rest l))) l.

Example lex_ex1 : tokenise (lexer_new "SELECT a.b, 'it''s' FROM logs -- c
 WHERE x >= 10 AND y<>2.5;")
  = Ret [TSelect; TIdent "a"; TDot; TIdent "b"; TComma; TStrLit "it's"; TFrom; TIdent "logs";
         TWhere; TIdent "x"; TGtEq; TIntLit 10; TAnd; TIdent "y"; TNotEq; TFloatLit (f64_of_decimal 25 1);
         TSemicolon; TEof].
Proof. vm_compute. reflexivity. Qed.

Example lex_ex2 : tokenise (lexer_new "a ! b") = Fail (Lex (Msg "unexpected '!' at {}" [ANum 3])).
Proof. reflexivity. Qed.

Example lex_ex3 : tokenise (lexer_new "99999999999999999999")
  = Fail (Lex (Msg "{e}" [AStr "number too large to fit in target type"])).
Proof. reflexivity. Qed.

(** The two bytes of an accented letter become two letters. *)
Example lex_non_ascii :
  tokenise (lexer_new ("'" ++ String "195" (String "169" "'"))) =
  Ret [TStrLit (String "195" (String "131" (String "194" (String "169" "")))); TEof].
Proof. vm_compute. reflexivity. Qed.

(** ** Progress *)

Abbreviation llen l := (String.length (lx_rest l)).

Lemma length_stail s : (String.length (stail s) = String.length s - 1)%nat.
Proof. destruct s; simpl; lia. Qed.

Lemma ladvance_len l : (llen (ladvance l) = llen l - 1)%nat.
Proof. apply length_stail. Qed.

Lemma skip_line_len pos s : (llen (skip_line pos s) <= String.length s)%nat.
Proof.
  revert pos; induction s as [|c s IH]; intros pos; simpl; [lia|].
  destruct (Ascii.eqb c _); simpl; [lia|]. specialize (IH (pos + 1)). lia.
Qed.

Lemma skip_loop_len fuel l : (llen (skip_loop fuel l) <= llen l)%nat.
Proof.
  revert l; induction fuel as [|fuel IH]; intros l; cbn [skip_loop]; [lia|].
  destruct (_ || _).
  { specialize (IH (ladvance l)). rewrite ladvance_len in IH. lia. }
  destruct (_ && _); [|lia].
  pose proof (IH (skip_line (lx_pos l) (lx_rest l))). pose proof (skip_line_len (lx_pos l) (lx_rest l)). lia.
Qed.

Lemma skip_len l : (llen (skip_whitespace_and_comments l) <= llen l)%nat.
Proof. apply skip_loop_len. Qed.

Lemma string_body_len pos s v l : string_body pos s = Some (v, l) -> (llen l < String.length s)%nat.
Proof.
  remember (String.length s) as n eqn:En. revert pos s En v l.
  induction n as [n IH] using lt_wf_ind; intros pos s -> v l. destruct s as [|c s]; [done|]. cbn [string_body].
  destruct (Ascii.eqb c NUL); [done|]. destruct (Ascii.eqb_spec c "'").
  - destruct s as [|c' s']; [intros H; simplify_eq; simpl; lia|].
    assert (Some ("", {| lx_pos := pos + 1; lx_rest := String c' s' |}) = Some (v, l) ->
            (llen l < String.length (String c (String c' s')))%nat) as Hd by (intros H; simplify_eq; simpl; lia).
    destruct c' as [[] [] [] [] [] [] [] []]; try exact Hd.
    destruct (string_body (pos + 2) s') as [[v' l']|] eqn:E; [|done]. cbn. intros H; simplify_eq.
    apply IH with (m := String.length s') in E; [simpl; lia|simpl; lia|done].
  - destruct (string_body (pos + 1) s) as [[v' l']|] eqn:E; [|done]. cbn. intros H; simplify_eq.
    apply IH with (m := String.length s) in E; [simpl; lia|simpl; lia|done].
Qed.

Lemma quoted_body_len pos s v l : quoted_body pos s = Some (v, l) -> (llen l < String.length s)%nat.
Proof.
  revert pos v l; induction s as [|c s IH]; intros pos v l; cbn [quoted_body]; [done|].
  destruct (Ascii.eqb c NUL); [done|]. destruct (Ascii.eqb c _); [intros H; simplify_eq; simpl; lia|].
  destruct (quoted_body (pos + 1) s) as [[v' l']|] eqn:E; [|done]. cbn. intros H; simplify_eq.
  apply IH in E. simpl; lia.
Qed.

Lemma span_len p pos s w l : span p pos s = (w, l) -> (llen l + String.length w = String.length s)%nat.
Proof.
  revert pos w l; induction s as [|c s IH]; intros pos w l; cbn [span]; [intros H; by simplify_eq|].
  destruct (p c); [|intros H; by simplify_eq].
  destruct (span p (pos + 1) s) as [w' l'] eqn:E. intros H; simplify_eq. apply IH in E. simpl; lia.
Qed.

Lemma span_first p pos c s w l : p c = true -> span p pos (String c s) = (w, l) -> (llen l <= String.length s)%nat.
Proof.
  intros Hp. cbn [span]. rewrite Hp. destruct (span p (pos + 1) s) as [w' l'] eqn:E. intros H; simplify_eq.
  apply span_len in E. lia.
Qed.

(** A call of [next_token] consumes a byte, gives no end-of-input token, and
    fails only with a lexical error. *)
Definition lexes (n : nat) (r : outcome QueryError (Token * Lexer)) : Prop :=
  match r with
  | Ret (t, l) => (llen l <= n)%nat /\ t <> TEof
  | Fail e => exists m, e = Lex m
  | Panic => False
  end.

Lemma keyword_not_eof w u : keyword w = Some u -> u <> TEof.
Proof. unfold keyword. repeat case_match; intros; by simplify_eq. Qed.

Lemma lex_number_lexes c s pos : is_digit c = true -> lexes (String.length s) (lex_number {| lx_pos := pos; lx_rest := String c s |}).
Proof.
  intros Hc. unfold lex_number. cbn [lx_pos lx_rest]. destruct (span is_digit pos (String c s)) as [ip l] eqn:E.
  apply span_first in E; [|done]. destruct (_ && _).
  - destruct (span is_digit (lx_pos (ladvance l)) (lx_rest (ladvance l))) as [fp l'] eqn:E'. apply span_len in E'.
    rewrite ladvance_len in E'. split; [lia|done].
  - destruct (parse_i64 ip); simpl; eauto.
Qed.

Lemma ident_start_char c : ident_start c = true -> ident_char c = true.
Proof.
  unfold ident_start, ident_char. intros H. apply orb_true_iff in H as [H|H]; rewrite H; [done|].
  by rewrite !orb_true_r.
Qed.

Lemma next_token_lexes l : lx_rest l <> ""%string -> lexes (llen l - 1) (next_token l).
Proof.
  destruct l as [pos [|c s]]; [done|intros _]. cbn [String.length lx_rest]. replace (S (String.length s) - 1)%nat with (String.length s) by lia.
  unfold next_token. cbn [lpeek lx_rest]. destruct (punct c) as [t|] eqn:Ep.
  { split; [done|]. unfold punct in Ep. repeat case_match; by simplify_eq. }
  destruct (Ascii.eqb c "<").
  { repeat case_match; (split; [rewrite ?ladvance_len; simpl; lia|done]). }
  destruct (Ascii.eqb c ">").
  { repeat case_match; (split; [rewrite ?ladvance_len; simpl; lia|done]). }
  destruct (Ascii.eqb c "!").
  { case_match; [|simpl; eauto]. split; [rewrite ?ladvance_len; simpl; lia|done]. }
  destruct (Ascii.eqb c "'").
  { unfold lex_string. destruct (string_body _ _) as [[v l]|] eqn:E; [|simpl; eauto].
    apply string_body_len in E. simpl in E |- *. split; [lia|done]. }
  destruct (is_digit c) eqn:Ed; [by apply lex_number_lexes|].
  destruct (ident_start c) eqn:Ei.
  { unfold lex_ident_or_keyword. cbn [lx_pos lx_rest]. destruct (span _ pos _) as [w l] eqn:E.
    apply span_first in E; [|by apply ident_start_char]. split; [done|].
    destruct (keyword _) eqn:Ek; [|done]. by apply keyword_not_eof in Ek. }
  destruct (Ascii.eqb c _); [|simpl; eauto]. unfold lex_quoted_ident.
  destruct (quoted_body _ _) as [[v l]|] eqn:E; [|simpl; eauto].
  apply quoted_body_len in E. simpl in E |- *. split; [lia|done].
Qed.

(** The lexer terminates on every input without a panic.  It gives a list
    of tokens that ends in the end-of-input token and has it nowhere else,
    with at most one token per byte besides, or it fails with a lexical
    error. *)
Theorem tokenise_total src :
  match tokenise (lexer_new src) with
  | Ret toks => exists ts, toks = ts ++ [TEof] /\ TEof ∉ ts /\ zlen ts <= slen src
  | Fail e => exists m, e = Lex m
  | Panic => False
  end.
Proof.
  unfold tokenise, slen, zlen. change (String.length src) with (llen (lexer_new src)).
  generalize (lexer_new src). intros l.
  assert (forall fuel, (llen l < fuel)%nat -> match tokenise_loop fuel l with
    | Ret toks => exists ts, toks = ts ++ [TEof] /\ TEof ∉ ts /\ Z.of_nat (length ts) <= Z.of_nat (llen l)
    | Fail e => exists m, e = Lex m | Panic => False end) as H; [|apply H; lia].
  intros fuel; revert l; induction fuel as [|fuel IH]; intros l Hf; [lia|]. cbn [tokenise_loop].
  pose proof (skip_len l) as Hs. revert Hs. generalize (skip_whitespace_and_comments l). intros l' Hs.
  destruct (lx_rest l') as [|c s] eqn:E.
  { exists []. split; [done|]. split; [apply not_elem_of_nil|simpl; lia]. }
  pose proof (next_token_lexes l') as Hn. rewrite E in Hn. specialize (Hn ltac:(done)).
  destruct (next_token l') as [[t l2]|e|]; [|exact Hn|exact Hn]. destruct Hn as [Hl Ht]. cbn [mbind outcome_bind].
  simpl in Hl, Hs. specialize (IH l2 ltac:(lia)). destruct (tokenise_loop fuel l2) as [toks|e|]; [|exact IH|exact IH].
  destruct IH as (ts & -> & Hts & Hlen). exists (t :: ts). split; [done|]. split; [|simpl; lia].
  intros Hin. apply elem_of_cons in Hin as [Heq|Hin]; [congruence|done].
Qed.

(** ** Printing tokens *)

(** A string literal with its quotes doubled. *)
Fixpoint escape (s : string) : string :=
  match s with
  | "" => ""
  | String c s => if (c =? "'")%char then String "'" (String "'" (escape s)) else String c (escape s)
  end%string.

Fixpoint sforall (p : ascii -> bool) (s : string) : bool :=
  match s with
  | "" => true
  | String c s => p c && sforall p s
  end%string.

Definition plain_char (c : ascii) : bool := negb (c =? NUL)%char && (byte_of_ascii c <? 128).

(** A word that lexes as the identifier it is. *)
Definition plain_ident (w : string) : bool :=
  match w with
  | "" => false
  | String c _ => ident_start c && sforall ident_char w && bool_decide (keyword (to_ascii_uppercase w) = None)
  end%string.

Definition DQ : string := String "034" "".

(** The number as an integer over a power of ten, exactly: a binary
    fraction ends after as many decimal places as binary ones.  Infinity is
    what a decimal with too many digits reads as. *)
Definition float_decimal (x : f64) : option (Z * nat) :=
  match x with
  | S754_zero false => Some (0, 1%nat)
  | S754_infinity false => Some (10 ^ 310, 1%nat)
  | S754_finite false m e =>
      if 0 <=? e then Some (Zpos m * 2 ^ e * 10, 1%nat) else Some (Zpos m * 5 ^ (- e), Z.to_nat (- e))
  | _ => None
  end.

(** The last [k] decimal digits of [z], in front of [acc]. *)
Fixpoint show_places (k : nat) (z : Z) (acc : string) : string :=
  match k with
  | O => acc
  | S k => show_places k (z / 10) (String (digit_char (z mod 10)) acc)
  end.

Definition show_decimal (d : Z) (k : nat) : string :=
  (show_u64 (d / 10 ^ Z.of_nat k) ++ String "." (show_places k d ""))%string.

Definition render_tok (t : Token) : string :=
  match t with
  | TSelect => "SELECT" | TFrom => "FROM" | TWhere => "WHERE" | TAnd => "AND" | TOr => "OR" | TNot => "NOT"
  | TIs => "IS" | TNull => "NULL" | TIn => "IN" | TBetween => "BETWEEN" | TLike => "LIKE" | TJoin => "JOIN"
  | TInner => "INNER" | TLeft => "LEFT" | TRight => "RIGHT" | TOn => "ON" | TAs => "AS" | TGroup => "GROUP"
  | TBy => "BY" | THaving => "HAVING" | TOrder => "ORDER" | TAsc => "ASC" | TDesc => "DESC" | TLimit => "LIMIT"
  | TOffset => "OFFSET" | TTrue => "TRUE" | TFalse => "FALSE" | TDistinct => "DISTINCT" | TInterval => "INTERVAL"
  | TIdent w => if plain_ident w then w else DQ ++ w ++ DQ
  | TIntLit n => show_u64 n
  | TFloatLit x => match float_decimal x with Some (d, k) => show_decimal d k | None => "" end
  | TStrLit s => "'" ++ escape s ++ "'"
  | TPlus => "+" | TMinus => "-" | TStar => "*" | TSlash => "/" | TPercent => "%"
  | TEq => "=" | TNotEq => "!=" | TLt => "<" | TLtEq => "<=" | TGt => ">" | TGtEq => ">="
  | TLParen => "(" | TRParen => ")" | TComma => "," | TDot => "." | TSemicolon => ";"
  | TEof => ""
  end%string.

(** Tokens with a spelling: ASCII text without the zero byte, identifiers
    without a double quote, integers of 63 bits, floats without a sign whose
    decimal reads back as the float. *)
Definition spellable (t : Token) : bool :=
  match t with
  | TIdent w => plain_ident w || sforall (fun c => plain_char c && negb (c =? "034")%char) w
  | TStrLit s => sforall plain_char s
  | TIntLit n => (0 <=? n) && (n <=? i64_max)
  | TFloatLit x =>
      match float_decimal x with Some (d, k) => bool_decide (f64_of_decimal d k = x) | None => false end
  | TEof => false
  | _ => true
  end.

(** The tokens in order, a space after each. *)
Fixpoint render (ts : list Token) : string :=
  match ts with
  | [] => ""
  | t :: ts => render_tok t ++ String " " (render ts)
  end%string.

Lemma span_app p pos w c rest :
  sforall p w = true -> p c = false ->
  exists pos', span p pos (w +:+ String c rest) = (w, {| lx_pos := pos'; lx_rest := String c rest |}).
Proof.
  intros Hw Hc. revert pos; induction w as [|a w IH]; intros pos; cbn [String.append span].
  - rewrite Hc. eauto.
  - cbn [sforall] in Hw. apply andb_true_iff in Hw as [Ha Hw]. rewrite Ha.
    destruct (IH Hw (pos + 1)) as [pos' ->]. eauto.
Qed.

Lemma push_plain c : plain_char c = true -> push_char c = String c "".
Proof. unfold plain_char, push_char. intros [_ H]%andb_true_iff. by rewrite H. Qed.

Lemma string_body_escape pos s rest :
  sforall plain_char s = true ->
  exists pos', string_body pos (escape s +:+ String "'" (String " " rest)) = Some (s, {| lx_pos := pos'; lx_rest := String " " rest |}).
Proof.
  revert pos; induction s as [|c s IH]; intros pos Hs; [eexists; reflexivity|].
  cbn [sforall] in Hs. apply andb_true_iff in Hs as [Hc Hs]. cbn [escape].
  destruct (Ascii.eqb_spec c "'") as [->|Hne].
  - cbn [String.append string_body]. destruct (IH (pos + 2) Hs) as [pos' E]. rewrite E. eexists. reflexivity.
  - cbn [String.append string_body]. destruct (IH (pos + 1) Hs) as [pos' E]. rewrite E.
    apply Ascii.eqb_neq in Hne. rewrite Hne. rewrite push_plain by done.
    unfold plain_char in Hc. apply andb_true_iff in Hc as [Hc _]. apply negb_true_iff in Hc. rewrite Hc.
    eexists. reflexivity.
Qed.

Lemma quoted_body_plain pos s rest :
  sforall (fun c => plain_char c && negb (c =? "034")%char) s = true ->
  exists pos', quoted_body pos (s +:+ String "034" rest) = Some (s, {| lx_pos := pos'; lx_rest := rest |}).
Proof.
  revert pos; induction s as [|c s IH]; intros pos Hs; [eexists; reflexivity|].
  cbn [sforall] in Hs. apply andb_true_iff in Hs as [[Hc Hq]%andb_true_iff Hs].
  cbn [String.append quoted_body]. destruct (IH (pos + 1) Hs) as [pos' E]. rewrite E.
  apply negb_true_iff in Hq. rewrite Hq, push_plain by done. unfold plain_char in Hc.
  apply andb_true_iff in Hc as [Hc _]. apply negb_true_iff in Hc. rewrite Hc. eexists. reflexivity.
Qed.

(** Where [next_token] goes for letters and for digits. *)
Definition no_operator (c : ascii) : bool :=
  match punct c with Some _ => false | None => true end &&
  negb (c =? "<")%char && negb (c =? ">")%char && negb (c =? "!")%char && negb (c =? "'")%char.

Lemma ident_no_operator c : ident_start c = true -> no_operator c = true /\ is_digit c = false.
Proof. destruct c as [[] [] [] [] [] [] [] []]; try (intros [=]; fail); intros _; split; reflexivity. Qed.

Lemma digit_no_operator c : is_digit c = true -> no_operator c = true.
Proof. destruct c as [[] [] [] [] [] [] [] []]; try (intros [=]; fail); intros _; reflexivity. Qed.

Lemma next_token_word c s pos :
  no_operator c = true ->
  next_token {| lx_pos := pos; lx_rest := String c s |} =
  let l := {| lx_pos := pos; lx_rest := String c s |} in
  if is_digit c then lex_number l
  else if ident_start c then lex_ident_or_keyword l
  else if (c =? "034")%char then lex_quoted_ident l
  else Fail (Lex (Msg "unexpected byte {other:#x} ('{}')" [ANum (byte_of_ascii c); AStr (push_char c)])).
Proof.
  unfold no_operator, next_token. cbn [lpeek lx_rest]. destruct (punct c); [done|].
  intros [[[[_ H1]%andb_true_iff H2]%andb_true_iff H3]%andb_true_iff H4]%andb_true_iff.
  apply negb_true_iff in H1, H2, H3, H4. by rewrite H1, H2, H3, H4.
Qed.

Lemma show_aux_digits fuel z acc : 0 <= z -> sforall is_digit acc = true -> sforall is_digit (show_aux fuel z acc) = true.
Proof.
  revert z acc; induction fuel as [|fuel IH]; intros z acc Hz Ha; cbn [show_aux]; [done|].
  assert (sforall is_digit (String (digit_char (z mod 10)) acc) = true) as Hs.
  { cbn [sforall]. rewrite Ha, (proj1 (digit_char_spec (z mod 10) ltac:(apply Z.mod_pos_bound; lia))). done. }
  destruct (z <? 10); [done|]. apply IH; [by apply Z.div_pos|done].
Qed.

Lemma next_token_int n pos rest :
  0 <= n <= i64_max ->
  exists pos', next_token {| lx_pos := pos; lx_rest := show_u64 n +:+ String " " rest |}
    = Ret (TIntLit n, {| lx_pos := pos'; lx_rest := String " " rest |}).
Proof.
  intros Hn. destruct (show_u64_digit_head n ltac:(lia)) as (c & w & Ew & Hc).
  assert (sforall is_digit (show_u64 n) = true) as Hd by (apply show_aux_digits; [lia|done]).
  pose proof (parse_show_i64 n Hn) as Hp. rewrite Ew in *. cbn [String.append].
  rewrite next_token_word by (by apply digit_no_operator). cbv zeta. rewrite Hc. unfold lex_number. cbn [lx_pos lx_rest].
  destruct (span_app is_digit pos (String c w) " "%char rest Hd eq_refl) as [pos' E]. cbn [String.append] in E.
  rewrite E. cbn [lpeek lx_rest]. rewrite Hp. exists pos'. reflexivity.
Qed.

Lemma show_places_digits k z acc : sforall is_digit acc = true -> sforall is_digit (show_places k z acc) = true.
Proof.
  revert z acc; induction k as [|k IH]; intros z acc Ha; cbn [show_places]; [done|]. apply IH. cbn [sforall].
  by rewrite Ha, (proj1 (digit_char_spec (z mod 10) ltac:(apply Z.mod_pos_bound; lia))).
Qed.

Lemma show_places_length k z acc : String.length (show_places k z acc) = (k + String.length acc)%nat.
Proof. revert z acc; induction k as [|k IH]; intros z acc; cbn [show_places]; [done|]. rewrite IH. simpl. lia. Qed.

Lemma show_places_val k z a acc :
  digits_val a (show_places k z acc) = digits_val (a * 10 ^ Z.of_nat k + z mod 10 ^ Z.of_nat k) acc.
Proof.
  revert z acc; induction k as [|k IH]; intros z acc; cbn [show_places].
  { f_equal. rewrite Z.mod_1_r. lia. }
  destruct (digit_char_spec (z mod 10) ltac:(apply Z.mod_pos_bound; lia)) as [Hd Hv].
  rewrite IH. cbn [digits_val]. rewrite Hd, Hv. f_equal.
  rewrite Nat2Z.inj_succ, Z.pow_succ_r, Z.rem_mul_r by lia. lia.
Qed.

Lemma show_decimal_val d k :
  0 <= d -> digits_of (show_u64 (d / 10 ^ Z.of_nat k) ++ show_places k d "") = d.
Proof.
  intros Hd. unfold digits_of. rewrite digits_val_app, show_u64_val by (apply Z.div_pos; lia).
  cbn [mbind option_bind]. rewrite show_places_val. cbn. pose proof (Z.div_mod d (10 ^ Z.of_nat k)). lia.
Qed.

Lemma float_decimal_pos x d k : float_decimal x = Some (d, k) -> 0 <= d /\ (0 < k)%nat.
Proof.
  unfold float_decimal. destruct x as [[]|[]| |[] m e]; intros E; simplify_eq; [lia|lia|].
  destruct (Z.leb_spec 0 e); simplify_eq; lia.
Qed.

Lemma next_token_decimal d k pos rest :
  0 <= d -> (0 < k)%nat ->
  exists pos', next_token {| lx_pos := pos; lx_rest := show_decimal d k +:+ String " " rest |}
    = Ret (TFloatLit (f64_of_decimal d k), {| lx_pos := pos'; lx_rest := String " " rest |}).
Proof.
  intros Hd Hk. unfold show_decimal. rewrite string_app_assoc. cbn [String.append].
  pose proof (show_decimal_val d k Hd) as Hv. pose proof (show_places_length k d "") as Hl.
  pose proof (show_places_digits k d "" eq_refl) as Hp. set (q := d / 10 ^ Z.of_nat k) in *.
  assert (0 <= q) as Hq by (apply Z.div_pos; lia).
  assert (sforall is_digit (show_u64 q) = true) as Hi by (apply show_aux_digits; [lia|done]).
  destruct (show_u64_digit_head q Hq) as (c & w & Ew & Hc). rewrite Ew in *. cbn [String.append].
  rewrite next_token_word by (by apply digit_no_operator). cbv zeta. rewrite Hc. unfold lex_number. cbn [lx_pos lx_rest].
  set (fp := show_places k d "") in *.
  destruct (span_app is_digit pos (String c w) "."%char (fp +:+ String " " rest) Hi eq_refl) as [pos1 E1].
  cbn [String.append] in E1. rewrite E1. destruct fp as [|a fp']; [simpl in Hl; lia|].
  cbn [sforall] in Hp. pose proof (proj1 (proj1 (andb_true_iff _ _) Hp)) as Ha.
  cbn [lpeek lpeek2 lx_rest String.append]. rewrite Ha. cbn [Ascii.eqb Bool.eqb andb].
  unfold ladvance. cbn [lx_pos lx_rest stail].
  destruct (span_app is_digit (pos1 + 1) (String a fp') " "%char rest Hp eq_refl) as [pos2 E2].
  cbn [String.append] in E2. rewrite E2. exists pos2. cbn [String.append] in Hv. by rewrite Hv, Hl, Nat.add_0_r.
Qed.

Lemma next_token_ident w pos rest :
  plain_ident w = true ->
  exists pos', next_token {| lx_pos := pos; lx_rest := w +:+ String " " rest |}
    = Ret (TIdent w, {| lx_pos := pos'; lx_rest := String " " rest |}).
Proof.
  destruct w as [|c w]; [done|]. unfold plain_ident. intros [[Hc Hw]%andb_true_iff Hk]%andb_true_iff.
  apply bool_decide_eq_true in Hk. destruct (ident_no_operator c Hc) as [Hn Hd]. cbn [String.append].
  rewrite next_token_word by done. cbv zeta. rewrite Hd, Hc. unfold lex_ident_or_keyword. cbn [lx_pos lx_rest].
  destruct (span_app ident_char pos (String c w) " "%char rest Hw eq_refl) as [pos' E]. cbn [String.append] in E.
  rewrite E, Hk. exists pos'. reflexivity.
Qed.

Lemma next_token_render t pos rest :
  spellable t = true ->
  exists pos', next_token {| lx_pos := pos; lx_rest := render_tok t +:+ String " " rest |}
    = Ret (t, {| lx_pos := pos'; lx_rest := String " " rest |}).
Proof.
  destruct t; intros Ht; try done; try (eexists; reflexivity).
  - cbn [render_tok spellable] in *. destruct (plain_ident s) eqn:Ep; [by apply next_token_ident|].
    destruct (quoted_body_plain (pos + 1) s (String " " rest) Ht) as [pos' E].
    exists pos'. rewrite !string_app_assoc. unfold next_token, lex_quoted_ident. cbn. by rewrite E.
  - apply next_token_int. apply andb_true_iff in Ht. zcases; lia.
  - cbn [render_tok spellable] in *. destruct (float_decimal x) as [[d k]|] eqn:E; [|done].
    apply bool_decide_eq_true in Ht. rewrite <- Ht. by apply float_decimal_pos in E as [??]; apply next_token_decimal.
  - destruct (string_body_escape (pos + 1) s rest Ht) as [pos' E]. exists pos'. cbn [render_tok].
    rewrite !string_app_assoc. unfold next_token, lex_string. cbn. cbn in E. by rewrite E.
Qed.

(** No white space and no comment in front. *)
Definition no_blank (c : ascii) : bool :=
  negb ((c =? " ")%char || (c =? "009")%char || (c =? "010")%char || (c =? "013")%char) && negb (c =? "-")%char.

Lemma no_blank_word c : ident_start c = true \/ is_digit c = true -> no_blank c = true.
Proof. destruct c as [[] [] [] [] [] [] [] []]; try (intros [[=]|[=]]; fail); intros _; reflexivity. Qed.

Lemma skip_loop_word fuel c s pos :
  no_blank c = true -> skip_loop fuel {| lx_pos := pos; lx_rest := String c s |} = {| lx_pos := pos; lx_rest := String c s |}.
Proof.
  intros [H1 H2]%andb_true_iff. apply negb_true_iff in H1, H2. destruct fuel; [done|]. cbn [skip_loop lpeek lx_rest].
  by rewrite H1, H2.
Qed.

Lemma skip_loop_render fuel t pos rest :
  spellable t = true ->
  skip_loop fuel {| lx_pos := pos; lx_rest := render_tok t +:+ String " " rest |}
  = {| lx_pos := pos; lx_rest := render_tok t +:+ String " " rest |}.
Proof.
  intros Ht. destruct t; try done; try (apply skip_loop_word; reflexivity); try (destruct fuel; reflexivity).
  - cbn [render_tok]. destruct (plain_ident s) eqn:Ep; [|apply skip_loop_word; reflexivity].
    destruct s as [|c w]; [done|]. unfold plain_ident in Ep. apply andb_true_iff in Ep as [[Hc _]%andb_true_iff _].
    apply skip_loop_word, no_blank_word. by left.
  - cbn [spellable render_tok] in *. apply andb_true_iff in Ht.
    destruct (show_u64_digit_head n ltac:(zcases; lia)) as (c & w & -> & Hc).
    apply skip_loop_word, no_blank_word. by right.
  - cbn [spellable render_tok] in *. destruct (float_decimal x) as [[d k]|] eqn:E; [|done].
    apply float_decimal_pos in E as [Hd _]. unfold show_decimal.
    destruct (show_u64_digit_head (d / 10 ^ Z.of_nat k) ltac:(apply Z.div_pos; lia)) as (c & w & -> & Hc).
    apply skip_loop_word, no_blank_word. by right.
Qed.

Lemma skip_loop_tokens fuel ts pos :
  forallb spellable ts = true ->
  skip_loop fuel {| lx_pos := pos; lx_rest := render ts |} = {| lx_pos := pos; lx_rest := render ts |}.
Proof.
  destruct ts as [|t ts]; [by destruct fuel|]. cbn [forallb render]. intros [Ht _]%andb_true_iff.
  by apply skip_loop_render.
Qed.

Lemma skip_space ts pos :
  forallb spellable ts = true ->
  skip_whitespace_and_comments {| lx_pos := pos; lx_rest := String " " (render ts) |}
  = {| lx_pos := pos + 1; lx_rest := render ts |}.
Proof. intros Hts. exact (skip_loop_tokens (S (String.length (render ts))) ts (pos + 1) Hts). Qed.

Lemma render_tok_nonempty t s : spellable t = true -> exists c s', render_tok t +:+ String " " s = String c s'.
Proof. intros _. destruct (render_tok t); simpl; eauto. Qed.

Lemma tokenise_loop_render fuel ts l :
  forallb spellable ts = true -> (length ts < fuel)%nat ->
  (exists pos, skip_whitespace_and_comments l = {| lx_pos := pos; lx_rest := render ts |}) ->
  tokenise_loop fuel l = Ret (ts ++ [TEof]).
Proof.
  revert fuel l; induction ts as [|t ts IH]; intros [|fuel] l Hts Hf [pos Hl]; simpl in Hf; try lia;
    cbn [tokenise_loop]; rewrite Hl; [done|].
  cbn [forallb] in Hts. apply andb_true_iff in Hts as [Ht Hts]. cbn [render lx_rest].
  destruct (next_token_render t pos (render ts) Ht) as [pos' E].
  destruct (render_tok_nonempty t (render ts) Ht) as (c & s' & Es). rewrite Es in *. cbv zeta.
  rewrite E. cbn [mbind outcome_bind]. rewrite (IH fuel); [done|done|lia|].
  exists (pos' + 1). by apply skip_space.
Qed.

Lemma length_render ts : (length ts <= String.length (render ts))%nat.
Proof.
  induction ts as [|t ts IH]; simpl; [lia|]. rewrite string_length_app. simpl. lia.
Qed.

(** Printing and lexing agree: the text of any list of tokens, with
    keywords in upper case, identifiers quoted where they need it, quotes in
    strings doubled and a space after each, lexes to exactly these tokens and
    the end of input. *)
Lemma tokenise_render ts :
  forallb spellable ts = true -> tokenise (lexer_new (render ts)) = Ret (ts ++ [TEof]).
Proof.
  intros Hts. unfold tokenise. cbn [lexer_new lx_rest]. apply tokenise_loop_render; [done| |].
  - pose proof (length_render ts). lia.
  - exists 0. unfold lexer_new, skip_whitespace_and_comments. by apply skip_loop_tokens.
Qed.

Example tokenise_render_ex :
  render [TSelect; TIdent "order"; TComma; TStrLit "it's"; TMinus; TIntLit 42] = ("SELECT " ++ DQ ++ "order" ++ DQ ++ " , 'it''s' - 42 ")%string.
Proof. reflexivity. Qed.
