(* ===== verification/Parser.v ===== *)
(** * The parser

    [crates/infralens-query/src/parser.rs]: recursive descent over the
    tokens.  The state is the list of tokens from the current position on;
    the last token is never passed.  Every function takes fuel, and running
    out of it is a panic; the fuel [parse_statement] gives is always enough
    (see [parse_statement_total]). *)

From Stdlib Require Import ZArith Lia Ascii.
From stdpp Require Import base tactics list numbers option strings.
From S2P Require Import Prelude Text Float64 Codec Model Ast Lexer.

Abbreviation parser := (st (list Token) QueryError).

Definition pfail {A} (m : Message) : parser A := fun ts => (Fail (Parse m), ts).
Definition ppanic {A} : parser A := fun ts => (Panic, ts).

(** *** Utilities *)

(** [&self.tokens[self.pos]]: no token is a panic. *)
Definition peek : parser Token := fun ts =>
  match ts with [] => (Panic, ts) | t :: _ => (Ret t, ts) end.

Definition advance : parser Token := fun ts =>
  match ts with
  | [] => (Panic, ts)
  | [t] => (Ret t, ts)
  | t :: ts' => (Ret t, ts')
  end.

Definition eat_optional (tok : Token) : parser bool :=
  t ← peek; if tok_eqb t tok then (_ ← advance; mret true) else mret false.

Definition expect (tok : Token) : parser unit :=
  t ← peek;
  if tok_eqb t tok then (_ ← advance; mret tt)
  else pfail (Msg "expected {tok:?}, got {:?}" [ATok tok; ATok t]).

Definition expect_ident : parser string :=
  t ← advance;
  match t with TIdent s => mret s | other => pfail (Msg "expected identifier, got {other:?}" [ATok other]) end.

Definition expect_int : parser Z :=
  t ← advance;
  match t with TIntLit n => mret n | other => pfail (Msg "expected integer, got {other:?}" [ATok other]) end.

Definition expect_string : parser string :=
  t ← advance;
  match t with TStrLit s => mret s | other => pfail (Msg "expected string, got {other:?}" [ATok other]) end.

(** [parse_comma_separated]: an item, then items after commas. *)
Fixpoint comma_loop {T} (fuel : nat) (f : parser T) (items : list T) : parser (list T) :=
  match fuel with
  | O => ppanic
  | S fuel =>
      t ← peek;
      if tok_eqb t TComma then (_ ← advance; x ← f; comma_loop fuel f (items ++ [x]))
      else mret items
  end.

Definition parse_comma_separated {T} (fuel : nat) (f : parser T) : parser (list T) :=
  x ← f; comma_loop fuel f [x].

(** *** Intervals *)

(** The code points of a UTF-8 text of code points below 2048, which is what
    the lexer makes of a literal. *)
Fixpoint chars (s : string) : list Z :=
  match s with
  | EmptyString => []
  | String c s =>
      let b := byte_of_ascii c in
      match s with
      | String d s' => if 192 <=? b then ((b - 192) * 64 + (byte_of_ascii d - 128)) :: chars s' else b :: chars s
      | EmptyString => [b]
      end
  end.

Definition push_code (b : Z) : string :=
  if b <? 128 then String (ascii_of_byte b) ""
  else String (ascii_of_byte (192 + b / 64)) (String (ascii_of_byte (128 + b mod 64)) "").

Definition text (cs : list Z) : string := fold_right (fun b s => push_code b +:+ s) ""%string cs.

(** [char::is_whitespace] and [char::is_alphabetic] on code points below 256. *)
Definition is_whitespace (b : Z) : bool :=
  (b =? 32) || ((9 <=? b) && (b <=? 13)) || (b =? 133) || (b =? 160).

Definition is_alphabetic (b : Z) : bool :=
  ((65 <=? b) && (b <=? 90)) || ((97 <=? b) && (b <=? 122)) || (b =? 170) || (b =? 181) || (b =? 186) ||
  ((192 <=? b) && (b <=? 255) && negb (b =? 215) && negb (b =? 247)).

Fixpoint ctrim_start (cs : list Z) : list Z :=
  match cs with
  | b :: cs' => if is_whitespace b then ctrim_start cs' else cs
  | [] => []
  end.

Definition ctrim (cs : list Z) : list Z := rev (ctrim_start (rev (ctrim_start cs))).

(** The text before the first letter, and from it on. *)
Fixpoint split_alphabetic (cs : list Z) : list Z * list Z :=
  match cs with
  | b :: cs' => if is_alphabetic b then ([], cs) else let '(l, r) := split_alphabetic cs' in (b :: l, r)
  | [] => ([], [])
  end.

Definition ns_per_unit (unit : string) : option Z :=
  match unit with
  | "us" | "microsecond" | "microseconds" => Some 1000
  | "ms" | "millisecond" | "milliseconds" | "millisec" => Some 1000000
  | "s" | "sec" | "second" | "seconds" => Some 1000000000
  | "m" | "min" | "minute" | "minutes" => Some (60 * 1000000000)
  | "h" | "hr" | "hour" | "hours" => Some (3600 * 1000000000)
  | "d" | "day" | "days" => Some (86400 * 1000000000)
  | _ => None
  end%string%Z.

(** [parse_interval]; the product wraps around as a release build does. *)
Definition parse_interval (s : string) : outcome QueryError Z :=
  let cs := ctrim (chars s) in
  let '(num_cs, unit_cs) := split_alphabetic cs in
  let num_str := text (ctrim num_cs) in
  let unit := to_ascii_lowercase (text (ctrim unit_cs)) in
  num ← ok_or (parse_i64 num_str) (Parse (Msg "invalid interval number in: '{s}'" [AStr (text cs)]));
  per ← ok_or (ns_per_unit unit) (Parse (Msg "unknown interval unit: {other}" [AStr unit]));
  Ret (wrap_i64 (num * per)).

Example interval_ex1 : parse_interval "5 minutes" = Ret (5 * 60 * 1000000000).
Proof. reflexivity. Qed.
Example interval_ex2 : parse_interval "1h" = Ret (3600 * 1000000000).
Proof. reflexivity. Qed.
Example interval_ex3 : parse_interval "30s" = Ret (30 * 1000000000).
Proof. reflexivity. Qed.
Example interval_ex4 : parse_interval "5 parsec" = Fail (Parse (Msg "unknown interval unit: {other}" [AStr "parsec"])).
Proof. reflexivity. Qed.

(** *** Expressions *)

Definition cmp_op (t : Token) : option BinOp :=
  match t with
  | TEq => Some OpEq | TNotEq => Some OpNotEq | TLt => Some OpLt
  | TLtEq => Some OpLtEq | TGt => Some OpGt | TGtEq => Some OpGtEq
  | _ => None
  end.

Definition add_op (t : Token) : option BinOp :=
  match t with TPlus => Some OpAdd | TMinus => Some OpSub | _ => None end.

Definition mul_op (t : Token) : option BinOp :=
  match t with TStar => Some OpMul | TSlash => Some OpDiv | TPercent => Some OpMod | _ => None end.

Definition or_op (t : Token) : option BinOp := match t with TOr => Some OpOr | _ => None end.
Definition and_op (t : Token) : option BinOp := match t with TAnd => Some OpAnd | _ => None end.

(** The loops of [parse_or], [parse_and], [parse_addition] and
    [parse_multiplication]: an operator of the level, then an operand. *)
Fixpoint binary_loop (op_of : Token -> option BinOp) (operand : parser Expr) (fuel : nat) (left : Expr) : parser Expr :=
  match fuel with
  | O => ppanic
  | S fuel =>
      t ← peek;
      match op_of t with
      | Some op => _ ← advance; right ← operand; binary_loop op_of operand fuel (EBinOp op left right)
      | None => mret left
      end
  end.

Definition parse_in_list (fuel : nat) (parse_expr : parser Expr) : parser (list Expr) :=
  _ ← expect TLParen; l ← parse_comma_separated fuel parse_expr; _ ← expect TRParen; mret l.

(** [parse_comparison], after the left operand. *)
Definition comparison_tail (fuel : nat) (parse_expr parse_addition : parser Expr) (left : Expr) : parser Expr :=
  t ← peek;
  match cmp_op t with
  | Some op => _ ← advance; right ← parse_addition; mret (EBinOp op left right)
  | None =>
      match t with
      | TIs =>
          _ ← advance; n ← peek;
          negated ← (if tok_eqb n TNot then (_ ← advance; mret true) else mret false);
          _ ← expect TNull;
          mret (if (negated : bool) then EIsNotNull left else EIsNull left)
      | TBetween =>
          _ ← advance; low ← parse_addition; _ ← expect TAnd; high ← parse_addition;
          mret (EBetween left low high)
      | TNot =>
          _ ← advance; n ← peek;
          match n with
          | TIn => _ ← advance; l ← parse_in_list fuel parse_expr; mret (EUnaryOp Not (EIn left l))
          | TLike => _ ← advance; pattern ← expect_string; mret (ELike left pattern true)
          | _ => pfail (Msg "expected IN or LIKE after NOT" [])
          end
      | TIn => _ ← advance; l ← parse_in_list fuel parse_expr; mret (EIn left l)
      | TLike => _ ← advance; pattern ← expect_string; mret (ELike left pattern false)
      | _ => mret left
      end
  end.

(** [parse_primary]; [parse_expr] is the call back to the top. *)
Definition parse_primary (fuel : nat) (parse_expr : parser Expr) : parser Expr :=
  t ← peek;
  match t with
  | TIntLit n => _ ← advance; mret (ELiteral (LInt n))
  | TFloatLit x => _ ← advance; mret (ELiteral (LFloat x))
  | TStrLit s => _ ← advance; mret (ELiteral (LStr s))
  | TTrue => _ ← advance; mret (ELiteral (LBool true))
  | TFalse => _ ← advance; mret (ELiteral (LBool false))
  | TNull => _ ← advance; mret (ELiteral LNull)
  | TStar => _ ← advance; mret EStar
  | TLParen => _ ← advance; e ← parse_expr; _ ← expect TRParen; mret e
  | TInterval => _ ← advance; s ← expect_string; ns ← st_lift (parse_interval s); mret (EInterval ns)
  | TIdent name =>
      _ ← advance; n ← peek;
      if tok_eqb n TDot then (_ ← advance; col ← expect_ident; mret (EColumn (Some name) col))
      else if tok_eqb n TLParen then
        _ ← advance; m ← peek;
        args ← (if tok_eqb m TRParen then mret [] else parse_comma_separated fuel parse_expr);
        _ ← expect TRParen;
        mret (EFunction (to_ascii_lowercase name) args)
      else mret (EColumn None name)
  | other => pfail (Msg "unexpected token in expression: {other:?}" [ATok other])
  end.

(** [parse_unary] and [parse_not] call themselves after each minus and each
    [NOT]. *)
Fixpoint parse_unary (fuel : nat) (parse_expr : parser Expr) : parser Expr :=
  match fuel with
  | O => ppanic
  | S f =>
      t ← peek;
      if tok_eqb t TMinus then (_ ← advance; operand ← parse_unary f parse_expr; mret (EUnaryOp Neg operand))
      else parse_primary fuel parse_expr
  end.

Definition parse_multiplication (fuel : nat) (parse_expr : parser Expr) : parser Expr :=
  left ← parse_unary fuel parse_expr; binary_loop mul_op (parse_unary fuel parse_expr) fuel left.

Definition parse_addition (fuel : nat) (parse_expr : parser Expr) : parser Expr :=
  left ← parse_multiplication fuel parse_expr; binary_loop add_op (parse_multiplication fuel parse_expr) fuel left.

Definition parse_comparison (fuel : nat) (parse_expr : parser Expr) : parser Expr :=
  left ← parse_addition fuel parse_expr; comparison_tail fuel parse_expr (parse_addition fuel parse_expr) left.

Fixpoint parse_not (fuel : nat) (parse_expr : parser Expr) : parser Expr :=
  match fuel with
  | O => ppanic
  | S f =>
      t ← peek;
      if tok_eqb t TNot then (_ ← advance; operand ← parse_not f parse_expr; mret (EUnaryOp Not operand))
      else parse_comparison fuel parse_expr
  end.

Definition parse_and (fuel : nat) (parse_expr : parser Expr) : parser Expr :=
  left ← parse_not fuel parse_expr; binary_loop and_op (parse_not fuel parse_expr) fuel left.

Definition parse_or (fuel : nat) (parse_expr : parser Expr) : parser Expr :=
  left ← parse_and fuel parse_expr; binary_loop or_op (parse_and fuel parse_expr) fuel left.

(** [parse_expr]: the recursion through parentheses, lists and calls; a
    level costs one unit of fuel, and its loops get what is left. *)
Fixpoint parse_expr (fuel : nat) : parser Expr :=
  match fuel with
  | O => ppanic
  | S f => parse_or fuel (parse_expr f)
  end.

(** *** Statements *)

Definition parse_alias : parser (option string) :=
  t ← peek;
  if tok_eqb t TAs then (_ ← advance; a ← expect_ident; mret (Some a))
  else match t with TIdent _ => a ← expect_ident; mret (Some a) | _ => mret None end.

Definition parse_projection (fuel : nat) : parser Projection :=
  t ← peek;
  if tok_eqb t TStar then (_ ← advance; mret PStar)
  else (e ← parse_expr fuel; alias ← parse_alias; mret (PExpr e alias)).

Definition parse_projections (fuel : nat) : parser (list Projection) :=
  parse_comma_separated fuel (parse_projection fuel).

Definition parse_table_ref : parser TableRef :=
  name ← expect_ident; alias ← parse_alias; mret {| tr_name := name; tr_alias := alias |}.

(** The keywords of a join; [None] ends the list. *)
Definition join_kind : parser (option JoinKind) :=
  t ← peek;
  match t with
  | TJoin => _ ← advance; mret (Some JInner)
  | TInner => _ ← advance; _ ← expect TJoin; mret (Some JInner)
  | TLeft => _ ← advance; _ ← eat_optional TInner; _ ← expect TJoin; mret (Some JLeft)
  | TRight => _ ← advance; _ ← eat_optional TInner; _ ← expect TJoin; mret (Some JRight)
  | _ => mret None
  end.

Fixpoint joins_loop (efuel fuel : nat) (joins : list JoinClause) : parser (list JoinClause) :=
  match fuel with
  | O => ppanic
  | S fuel =>
      k ← join_kind;
      match k with
      | Some kind =>
          table ← parse_table_ref; _ ← expect TOn; condition ← parse_expr efuel;
          joins_loop efuel fuel (joins ++ [{| jc_kind := kind; jc_table := table; jc_condition := condition |}])
      | None => mret joins
      end
  end.

Definition parse_joins (fuel : nat) : parser (list JoinClause) := joins_loop fuel fuel [].

Definition parse_order_by_item (fuel : nat) : parser OrderByItem :=
  e ← parse_expr fuel; t ← peek;
  asc ← match t with
        | TAsc => _ ← advance; mret true
        | TDesc => _ ← advance; mret false
        | _ => mret true
        end;
  mret {| ob_expr := e; ob_asc := asc |}.

(** An optional clause: its keyword and what follows it. *)
Definition clause {A} (kw : Token) (dflt : A) (p : parser A) : parser A :=
  t ← peek; if tok_eqb t kw then (_ ← advance; p) else mret dflt.

Definition parse_select (fuel : nat) : parser SelectStatement :=
  _ ← expect TSelect;
  _ ← eat_optional TDistinct;
  projections ← parse_projections fuel;
  _ ← expect TFrom;
  from ← parse_table_ref;
  joins ← parse_joins fuel;
  filter ← clause TWhere None (Some <$> parse_expr fuel);
  group_by ← clause TGroup [] (_ ← expect TBy; parse_comma_separated fuel (parse_expr fuel));
  having ← clause THaving None (Some <$> parse_expr fuel);
  order_by ← clause TOrder [] (_ ← expect TBy; parse_comma_separated fuel (parse_order_by_item fuel));
  limit ← clause TLimit None ((fun n => Some (wrap_u64 n)) <$> expect_int);
  offset ← clause TOffset None ((fun n => Some (wrap_u64 n)) <$> expect_int);
  mret {| sel_projections := projections; sel_from := from; sel_joins := joins; sel_filter := filter;
          sel_group_by := group_by; sel_having := having; sel_order_by := order_by; sel_limit := limit;
          sel_offset := offset |}.

Definition parse_statement_fuel (fuel : nat) : parser Statement :=
  t ← peek;
  stmt ← match t with
         | TSelect => s ← parse_select fuel; mret (Select s)
         | other => pfail (Msg "expected SELECT, got {other:?}" [ATok other])
         end;
  _ ← eat_optional TSemicolon;
  _ ← expect TEof;
  mret stmt.

(** [Parser::new(tokens).parse_statement()]. *)
Definition parse_statement (tokens : list Token) : outcome QueryError Statement :=
  fst (parse_statement_fuel (S (length tokens)) tokens).

(** The first two steps of [execute] ([lib.rs]): lex, then parse. *)
Definition parse_query (sql : string) : outcome QueryError Statement :=
  tokens ← tokenise (lexer_new sql); parse_statement tokens.

Example parse_ex1 :
  parse_query "SELECT count(*) AS cnt FROM logs l WHERE a + 2 * 3 < b AND NOT c IS NULL GROUP BY m ORDER BY m DESC LIMIT 100;"
  = Ret (Select {| sel_projections := [PExpr (EFunction "count" [EStar]) (Some "cnt"%string)];
       sel_from := {| tr_name := "logs"; tr_alias := Some "l"%string |}; sel_joins := [];
       sel_filter := Some (EBinOp OpAnd
         (EBinOp OpLt (EBinOp OpAdd (EColumn None "a") (EBinOp OpMul (ELiteral (LInt 2)) (ELiteral (LInt 3)))) (EColumn None "b"))
         (EUnaryOp Not (EIsNull (EColumn None "c"))));
       sel_group_by := [EColumn None "m"]; sel_having := None;
       sel_order_by := [{| ob_expr := EColumn None "m"; ob_asc := false |}];
       sel_limit := Some 100; sel_offset := None |}).
Proof. vm_compute. reflexivity. Qed.

Example parse_not_between :
  parse_query "SELECT * FROM logs WHERE a NOT BETWEEN 1 AND 2" = Fail (Parse (Msg "expected IN or LIKE after NOT" [])).
Proof. vm_compute. reflexivity. Qed.

(** ** Termination

    [runs h k n m]: from any token list of at most [n] tokens that ends in
    the end of input, and whose first token is [h] where that is given, [m]
    does not panic, fails only with a parse error, and a result leaves at
    least [k] tokens fewer. *)

Definition eof_last (ts : list Token) : Prop := exists l, ts = l ++ [TEof].

Definition runs {A} (h : option Token) (k n : nat) (m : parser A) : Prop := forall ts,
  eof_last ts -> (length ts <= n)%nat -> match h with Some t => head ts = Some t | None => True end ->
  match m ts with
  | (Ret _, ts') => eof_last ts' /\ (length ts' + k <= length ts)%nat
  | (Fail e, _) => exists msg, e = Parse msg
  | (Panic, _) => False
  end.

Lemma eof_last_pos ts : eof_last ts -> (1 <= length ts)%nat.
Proof. intros [l ->]. rewrite length_app. simpl. lia. Qed.

Lemma eof_last_tail t u ts : eof_last (t :: u :: ts) -> eof_last (u :: ts).
Proof. intros [[|x l] E]; [done|]. exists l. by injection E. Qed.

Lemma runs_weaken {A} h k n k' n' (m : parser A) :
  runs None k n m -> (k' <= k)%nat -> (n' <= n)%nat -> runs h k' n' m.
Proof.
  intros Hm Hk Hn ts He Hl _. specialize (Hm ts He ltac:(lia) I). destruct (m ts) as [[a|e|] ts']; [|done|done].
  destruct Hm. split; [done|lia].
Qed.

Lemma runs_bind {A B} h k j n (m : parser A) (f : A -> parser B) :
  runs h k n m -> (forall a, runs None j (n - k) (f a)) -> runs h (k + j) n (m ≫= f).
Proof.
  intros Hm Hf ts He Hl Hh. specialize (Hm ts He Hl Hh). unfold mbind, st_bind.
  destruct (m ts) as [[a|e|] ts']; [|done|done]. destruct Hm as [He' Hl'].
  specialize (Hf a ts' He' ltac:(lia) I). destruct (f a ts') as [[b|e|] ts2]; [|done|done].
  destruct Hf. split; [done|lia].
Qed.

Lemma runs_ret {A} h n (a : A) : runs h 0 n (mret a).
Proof. intros ts He Hl _. split; [done|]. lia. Qed.

Lemma runs_fail {A} h k n msg : runs h k n (@pfail A msg).
Proof. intros ts He Hl _. simpl. eauto. Qed.

Lemma runs_peek {B} h k n (f : Token -> parser B) :
  (forall t, runs (Some t) k n (f t)) -> runs h k n (peek ≫= f).
Proof.
  intros Hf ts He Hl _. destruct ts as [|t ts]; [apply eof_last_pos in He; simpl in He; lia|].
  exact (Hf t (t :: ts) He Hl eq_refl).
Qed.

Lemma runs_advance t n : t <> TEof -> runs (Some t) 1 n advance.
Proof.
  intros Ht ts He Hl Hh. destruct ts as [|t' ts]; [done|]. injection Hh as ->. destruct ts as [|u ts].
  - destruct He as [[|x l] E]; [by injection E as ->|]. injection E as _ E. by destruct l.
  - simpl. split; [by eapply eof_last_tail|lia].
Qed.

(** Code that takes a token it does not expect to be the last. *)
Lemma runs_take {B} h k n (f : Token -> parser B) msg :
  (forall ts, f TEof ts = (Fail (Parse msg), ts)) -> (forall t, t <> TEof -> runs None k (n - 1) (f t)) ->
  runs h (S k) n (advance ≫= f).
Proof.
  intros He Hf ts Hl Hn _. destruct ts as [|t ts]; [apply eof_last_pos in Hl; simpl in Hl; lia|].
  destruct (decide (t = TEof)) as [->|Ht].
  { unfold mbind, st_bind. simpl. destruct ts; rewrite He; eauto. }
  exact (runs_bind (Some t) 1 k n advance f (runs_advance t n Ht) (fun a => match decide (a = TEof) with
    | left E => ltac:(rewrite E; intros ts' _ _ _; rewrite He; eauto) | right Hne => Hf a Hne end) (t :: ts) Hl Hn eq_refl).
Qed.

Lemma tok_eqb_true t u : tok_eqb t u = true -> t = u.
Proof. apply bool_decide_eq_true. Qed.

Lemma runs_if {A} t u k n (m m' : parser A) :
  u <> TEof -> (t = u -> t <> TEof -> runs (Some t) k n m) -> runs (Some t) k n m' ->
  runs (Some t) k n (if tok_eqb t u then m else m').
Proof.
  intros Hu Hm Hm'. destruct (tok_eqb t u) eqn:E; [|done]. apply tok_eqb_true in E. apply Hm; [done|congruence].
Qed.

Lemma runs_seq {A B} k' h k n (m : parser A) (f : A -> parser B) :
  runs h k' n m -> (forall a, runs None (k - k') (n - k') (f a)) -> runs h k n (m ≫= f).
Proof.
  intros Hm Hf ts He Hl Hh. pose proof (runs_bind h k' (k - k') n m f Hm Hf ts He Hl Hh) as H.
  destruct ((m ≫= f) ts) as [[b|e|] ts2]; [|done|done]. destruct H. split; [done|lia].
Qed.

Lemma runs_then {B} t k n (f : Token -> parser B) :
  t <> TEof -> (forall a, runs None (k - 1) (n - 1) (f a)) -> runs (Some t) k n (advance ≫= f).
Proof. intros Ht. apply runs_seq. by apply runs_advance. Qed.

Lemma runs_done {A} h k n (a : A) : (k <= 0)%nat -> runs h k n (mret a).
Proof. intros Hk ts He Hl _. split; [done|lia]. Qed.

Lemma runs_any {A} h k n (m : parser A) : runs None k n m -> runs h k n m.
Proof. intros Hm. by eapply runs_weaken. Qed.

Lemma runs_eat tok h n : tok <> TEof -> runs h 0 n (eat_optional tok).
Proof.
  intros Ht. apply runs_peek. intros t. apply runs_if; [done| |by apply runs_done].
  intros _ Hne. apply runs_then; [done|]. intros a. apply runs_done. lia.
Qed.

Lemma runs_expect tok h n : tok <> TEof -> runs h 1 n (expect tok).
Proof.
  intros Ht. apply runs_peek. intros t. apply runs_if; [done| |apply runs_fail].
  intros _ Hne. apply runs_then; [done|]. intros a. apply runs_done. lia.
Qed.

Lemma runs_expect_ident h n : runs h 1 n expect_ident.
Proof. eapply runs_take; [reflexivity|]. intros [] Ht; (apply runs_done; lia) || apply runs_fail. Qed.
Lemma runs_expect_int h n : runs h 1 n expect_int.
Proof. eapply runs_take; [reflexivity|]. intros [] Ht; (apply runs_done; lia) || apply runs_fail. Qed.
Lemma runs_expect_string h n : runs h 1 n expect_string.
Proof. eapply runs_take; [reflexivity|]. intros [] Ht; (apply runs_done; lia) || apply runs_fail. Qed.

(** One step of a [runs] goal: the head of a sequence, or its end. *)
Ltac runs_step :=
  match goal with
  | |- runs _ _ _ (mret _) => apply runs_done; lia
  | |- runs _ _ _ (pfail _) => apply runs_fail
  | |- runs _ _ _ (peek ≫= _) => apply runs_peek; intros ?
  | |- runs (Some _) _ _ (advance ≫= _) => apply runs_then; [congruence|intros _]
  | |- runs _ _ _ (expect _ ≫= _) => apply (runs_seq 1); [by apply runs_expect|intros _]
  | |- runs _ _ _ (eat_optional _ ≫= _) => apply (runs_seq 0); [by apply runs_eat|intros _]
  | |- runs _ _ _ (expect_ident ≫= _) => apply (runs_seq 1); [by apply runs_expect_ident|intros ?]
  | |- runs _ _ _ (expect_int ≫= _) => apply (runs_seq 1); [by apply runs_expect_int|intros ?]
  | |- runs _ _ _ (expect_string ≫= _) => apply (runs_seq 1); [by apply runs_expect_string|intros ?]
  | |- runs _ _ _ (if tok_eqb _ _ then _ else _) => apply runs_if; [done|intros ? ?|]
  | H : runs None _ _ ?m |- runs _ _ _ ?m => eapply runs_weaken; [exact H|lia|lia]
  | H : runs None ?k _ ?m |- runs _ _ _ (?m ≫= _) => apply (runs_seq k); [eapply runs_weaken; [exact H|lia|lia]|intros ?]
  end.
Ltac runs_go := repeat runs_step.

Lemma runs_comma_loop {T} fuel n (f : parser T) items :
  runs None 1 n f -> (n <= fuel)%nat -> runs None 0 n (comma_loop fuel f items).
Proof.
  revert n items; induction fuel as [|fuel IH]; intros n items Hf Hn; cbn [comma_loop].
  { intros ts He%eof_last_pos Hl. lia. }
  runs_go. eapply runs_weaken; [apply (IH (n - 1)%nat)|lia|lia]; [|lia]. by eapply runs_weaken; [exact Hf|lia|lia].
Qed.

Lemma runs_comma {T} fuel n (f : parser T) :
  runs None 1 n f -> (n <= fuel)%nat -> runs None 1 n (parse_comma_separated fuel f).
Proof.
  intros Hf Hn. unfold parse_comma_separated. runs_go.
  eapply runs_weaken; [apply (runs_comma_loop fuel n)|lia|lia]; done.
Qed.

Lemma runs_binary_loop op_of fuel n (operand : parser Expr) e :
  op_of TEof = None -> runs None 1 n operand -> (n <= fuel)%nat -> runs None 0 n (binary_loop op_of operand fuel e).
Proof.
  intros Ho. revert n e; induction fuel as [|fuel IH]; intros n e Hf Hn; cbn [binary_loop].
  { intros ts He%eof_last_pos Hl. lia. }
  runs_step. destruct (op_of t) as [op|] eqn:E; runs_go.
  eapply runs_weaken; [apply (IH (n - 1)%nat)|lia|lia]; [|lia]. by eapply runs_weaken; [exact Hf|lia|lia].
Qed.

Section Levels.
Context (fuel n : nat) (pe : parser Expr).
Hypothesis Hpe : runs None 1 (n - 1) pe.
Hypothesis Hn : (n <= fuel)%nat.

Lemma runs_in_list k : (1 <= k)%nat -> runs None 1 (n - k) (parse_in_list fuel pe).
Proof.
  intros Hk. unfold parse_in_list. runs_go.
  apply (runs_seq 1); [|intros l; runs_go]. eapply runs_weaken; [apply (runs_comma fuel (n - 1))|lia|lia]; [done|lia].
Qed.

Lemma runs_interval s h k : runs h 0 k (st_lift (parse_interval s)).
Proof.
  intros ts He Hl _. unfold st_lift, parse_interval. destruct (split_alphabetic _) as [a b].
  destruct (parse_i64 _); simpl; [|by eauto]. destruct (ns_per_unit _); simpl; [|by eauto]. split; [done|lia].
Qed.

Lemma runs_primary : runs None 1 n (parse_primary fuel pe).
Proof.
  unfold parse_primary. runs_step. destruct t; runs_go.
  - apply (runs_seq 0); [apply runs_interval|intros ns; runs_go].
  - apply (runs_seq 0); [|intros args; runs_go]. runs_go.
    eapply runs_weaken; [apply (runs_comma fuel (n - 1))|lia|lia]; [done|lia].
Qed.
End Levels.

Lemma runs_unary fuel n pe : runs None 1 (n - 1) pe -> (n <= fuel)%nat -> runs None 1 n (parse_unary fuel pe).
Proof.
  revert n; induction fuel as [|fuel IH]; intros n Hpe Hn; cbn [parse_unary].
  { intros ts He%eof_last_pos Hl. lia. }
  runs_go; [|apply runs_any; by apply runs_primary].
  apply (runs_seq 1); [apply IH; [by eapply runs_weaken; [exact Hpe|lia|lia]|lia]|intros e; runs_go].
Qed.

Section Operators.
Context (fuel n : nat) (pe : parser Expr).
Hypothesis Hpe : runs None 1 (n - 1) pe.
Hypothesis Hn : (n <= fuel)%nat.

Lemma runs_level op_of (p : parser Expr) :
  op_of TEof = None -> runs None 1 n p -> runs None 1 n (left ← p; binary_loop op_of p fuel left).
Proof.
  intros Ho Hp. runs_go. eapply runs_weaken; [by apply (runs_binary_loop op_of fuel n)|lia|lia].
Qed.

Lemma runs_addition : runs None 1 n (parse_addition fuel pe).
Proof. apply runs_level; [done|]. apply runs_level; [done|]. by apply runs_unary. Qed.

Lemma runs_comparison : runs None 1 n (parse_comparison fuel pe).
Proof.
  unfold parse_comparison, comparison_tail. pose proof runs_addition as Ha. pose proof (runs_in_list fuel n pe Hpe Hn) as Hl.
  runs_go. destruct (cmp_op t) as [op|] eqn:E.
  { destruct t; try done; runs_go. }
  destruct t; runs_go.
  - destruct t; runs_go. apply (runs_seq 1); [|intros l; runs_go]. eapply runs_weaken; [apply (Hl 1%nat)|lia|lia]. lia.
  - apply (runs_seq 0); [runs_go|intros neg; runs_go].
  - apply (runs_seq 1); [|intros l; runs_go]. eapply runs_weaken; [apply (Hl 1%nat)|lia|lia]. lia.
Qed.
End Operators.

Lemma runs_not fuel n pe : runs None 1 (n - 1) pe -> (n <= fuel)%nat -> runs None 1 n (parse_not fuel pe).
Proof.
  revert n; induction fuel as [|fuel IH]; intros n Hpe Hn; cbn [parse_not].
  { intros ts He%eof_last_pos Hl. lia. }
  runs_go; [|apply runs_any; by apply runs_comparison].
  apply (runs_seq 1); [apply IH; [by eapply runs_weaken; [exact Hpe|lia|lia]|lia]|intros e; runs_go].
Qed.

Lemma runs_expr fuel n : (n <= fuel)%nat -> runs None 1 n (parse_expr fuel).
Proof.
  revert n; induction fuel as [|fuel IH]; intros n Hn; cbn [parse_expr].
  { intros ts He%eof_last_pos Hl. lia. }
  apply runs_level; [done|done|]. apply runs_level; [done|done|]. apply runs_not; [|done]. apply IH. lia.
Qed.

Lemma runs_alias h n : runs h 0 n parse_alias.
Proof. unfold parse_alias. runs_go. destruct t; runs_go. Qed.

Lemma runs_projection fuel n : (n <= fuel)%nat -> runs None 1 n (parse_projection fuel).
Proof.
  intros Hn. pose proof (runs_expr fuel n Hn) as He. unfold parse_projection. runs_go.
  apply (runs_seq 0); [apply runs_alias|intros al; runs_go].
Qed.

Lemma runs_table_ref h n : runs h 1 n parse_table_ref.
Proof. unfold parse_table_ref. runs_go. apply (runs_seq 0); [apply runs_alias|intros al; runs_go]. Qed.

Lemma runs_assoc {A B C} h k n (m : parser A) (g : A -> parser B) (f : B -> parser C) :
  runs h k n (a ← m; g a ≫= f) -> runs h k n ((m ≫= g) ≫= f).
Proof.
  intros H ts He Hl Hh. specialize (H ts He Hl Hh). unfold mbind, st_bind in *. by destruct (m ts) as [[] ?].
Qed.

Lemma runs_join_kind {B} k n (f : option JoinKind -> parser B) :
  (forall kind, runs None (k - 1) (n - 1) (f (Some kind))) -> runs None k n (f None) ->
  runs None k n (join_kind ≫= f).
Proof.
  intros Hs Hnone. unfold join_kind. apply runs_assoc. runs_step.
  assert (forall kind j, (1 <= j)%nat -> runs None (k - j) (n - j) (mret (Some kind) ≫= f)) as Hret.
  { intros kind j Hj. eapply runs_weaken; [exact (Hs kind)|lia|lia]. }
  destruct t; try (by apply runs_any); repeat (apply runs_assoc; runs_step); rewrite <- ?Nat.sub_add_distr; apply Hret; lia.
Qed.

Lemma runs_joins_loop efuel n fuel joins :
  (n <= fuel)%nat -> (n <= efuel)%nat -> runs None 0 n (joins_loop efuel fuel joins).
Proof.
  revert n joins; induction fuel as [|fuel IH]; intros n joins Hn Hef; cbn [joins_loop].
  { intros ts He%eof_last_pos Hl. lia. }
  pose proof (runs_expr efuel n Hef) as He. apply runs_join_kind; [|apply runs_done; lia]. intros kind.
  apply (runs_seq 1); [apply runs_table_ref|intros table]. runs_go.
  eapply runs_weaken; [apply (IH (n - 1)%nat)|lia|lia]; lia.
Qed.

Lemma runs_order_by_item fuel n : (n <= fuel)%nat -> runs None 1 n (parse_order_by_item fuel).
Proof.
  intros Hn. pose proof (runs_expr fuel n Hn) as He. unfold parse_order_by_item. runs_go.
  destruct t; (apply (runs_seq 0); [runs_go|intros asc; runs_go]).
Qed.

Lemma runs_clause {A} kw (dflt : A) n p : kw <> TEof -> runs None 0 (n - 1) p -> runs None 0 n (clause kw dflt p).
Proof. intros Hkw Hp. unfold clause. runs_step. runs_step; runs_go. Qed.

Lemma runs_fmap {A B} k n (g : A -> B) (p : parser A) : runs None k n p -> runs None k n (g <$> p).
Proof. intros Hp. unfold fmap, st_fmap. runs_go. Qed.

Lemma runs_select fuel n : (n <= fuel)%nat -> runs None 1 n (parse_select fuel).
Proof.
  intros Hn. pose proof (runs_expr fuel n Hn) as He. unfold parse_select.
  assert (forall j, runs None 0 (n - j) (Some <$> parse_expr fuel)) as Hopt.
  { intros j. apply runs_fmap. eapply runs_weaken; [exact He|lia|lia]. }
  assert (forall A (p : parser A) j, runs None 1 n p -> runs None 0 (n - j) (_ ← expect TBy; parse_comma_separated fuel p)) as Hby.
  { intros A p j Hp. runs_go. eapply runs_weaken; [by apply (runs_comma fuel n)|lia|lia]. }
  assert (forall j, runs None 0 (n - j) ((fun z => Some (wrap_u64 z)) <$> expect_int)) as Hint.
  { intros j. apply runs_fmap. eapply runs_weaken; [apply (runs_expect_int _ n)|lia|lia]. }
  runs_go.
  apply (runs_seq 1); [eapply runs_weaken; [apply (runs_comma fuel n); [by apply runs_projection|done]|lia|lia]|intros ps].
  runs_go. apply (runs_seq 1); [apply runs_table_ref|intros from].
  apply (runs_seq 0); [eapply runs_weaken; [apply (runs_joins_loop fuel n fuel)|lia|lia]; done|intros joins].
  rewrite <- !Nat.sub_add_distr.
  repeat (apply (runs_seq 0); [apply runs_clause; [done|]; rewrite <- ?Nat.sub_add_distr;
    first [apply Hopt|apply Hint|apply Hby; done|apply Hby; by apply runs_order_by_item]|intros ?]).
  apply runs_done. lia.
Qed.

Lemma runs_expect_eof h n : runs h 0 n (expect TEof).
Proof.
  intros ts He Hl _. destruct ts as [|t ts]; [apply eof_last_pos in He; simpl in He; lia|].
  unfold expect, mbind, st_bind. cbn [peek]. destruct (tok_eqb t TEof); [|simpl; eauto].
  destruct ts as [|u ts]; simpl; (split; [|lia]); [done|by eapply eof_last_tail].
Qed.

(** C31: the parser terminates on every token list that ends in the end of
    input, as the lexer's lists do: it gives a statement or a parse error,
    and neither runs out of fuel nor reads past the tokens. *)
Theorem parse_statement_total ts :
  match parse_statement (ts ++ [TEof]) with
  | Ret _ => True
  | Fail e => exists m, e = Parse m
  | Panic => False
  end.
Proof.
  unfold parse_statement. set (toks := ts ++ [TEof]). set (fuel := S (length toks)).
  assert (eof_last toks) as He by (by exists ts).
  assert (runs None 0 (length toks) (parse_statement_fuel fuel)) as H.
  { unfold parse_statement_fuel. runs_step.
    apply (runs_seq 0); [|intros s].
    - destruct t; runs_go. apply runs_any. apply (runs_seq 1); [apply runs_select; unfold fuel; lia|intros s; runs_go].
    - runs_go. apply (runs_seq 0); [apply runs_expect_eof|intros a; runs_go]. }
  specialize (H toks He ltac:(done) I). destruct (parse_statement_fuel fuel toks) as [[s|e|] ts']; done.
Qed.
