(* ===== verification/Printer.v ===== *)
(** * Printing and parsing agree

    A printer of statements, with parentheses only where the precedence of
    [crates/infralens-query/src/parser.rs] needs them, and the proof that
    the lexer and the parser give back the statement it prints. *)

From Stdlib Require Import ZArith Lia ZifyBool Ascii.
From stdpp Require Import base tactics list numbers option strings.
From S2P Require Import Prelude Text Float64 Codec Model Ast Lexer Parser.

(** ** The printer *)

(** The levels of the grammar: OR, AND, NOT, comparison, addition,
    multiplication, unary minus, primary. *)
Definition op_level (op : BinOp) : nat :=
  match op with
  | OpOr => 0 | OpAnd => 1
  | OpEq | OpNotEq | OpLt | OpLtEq | OpGt | OpGtEq => 3
  | OpAdd | OpSub => 4
  | OpMul | OpDiv | OpMod => 5
  end.

Definition level (e : Expr) : nat :=
  match e with
  | EBinOp op _ _ => op_level op
  | EUnaryOp Not _ => 2
  | EUnaryOp Neg _ => 6
  | EIsNull _ | EIsNotNull _ | EBetween _ _ _ | EIn _ _ | ELike _ _ _ => 3
  | _ => 7
  end.

Definition op_tok (op : BinOp) : Token :=
  match op with
  | OpAdd => TPlus | OpSub => TMinus | OpMul => TStar | OpDiv => TSlash | OpMod => TPercent
  | OpEq => TEq | OpNotEq => TNotEq | OpLt => TLt | OpLtEq => TLtEq | OpGt => TGt | OpGtEq => TGtEq
  | OpAnd => TAnd | OpOr => TOr
  end.

(** Comparisons do not associate; the other operators do, to the left. *)
Definition left_level (op : BinOp) : nat := if (op_level op =? 3)%nat then 4 else op_level op.
Definition right_level (op : BinOp) : nat := S (op_level op).

Definition paren (wanted : nat) (e : Expr) (toks : list Token) : list Token :=
  if (level e <? wanted)%nat then TLParen :: toks ++ [TRParen] else toks.

(** Items with commas between them. *)
Definition commas {T} (pt : T -> list Token) (l : list T) : list Token :=
  match l with
  | [] => []
  | x :: l => pt x ++ concat (map (fun y => TComma :: pt y) l)
  end.

(** An interval as a number of microseconds.  The product with the unit
    wraps around, so that all multiples of eight nanoseconds are intervals;
    one that is no whole number of microseconds is the product of a number
    that wraps (the factor is the inverse of 125). *)
Definition interval_number (ns : Z) : Z :=
  if ns mod 1000 =? 0 then ns / 1000 else (ns / 8 * 2066035336255469781) mod 2 ^ 61.

Fixpoint body (e : Expr) : list Token :=
  let pr w e := paren w e (body e) in
  match e with
  | EColumn None n => [TIdent n]
  | EColumn (Some t) n => [TIdent t; TDot; TIdent n]
  | ELiteral (LInt n) => [TIntLit n]
  | ELiteral (LFloat x) => [TFloatLit x]
  | ELiteral (LStr s) => [TStrLit s]
  | ELiteral (LBool b) => [if b then TTrue else TFalse]
  | ELiteral LNull => [TNull]
  | EStar => [TStar]
  | EBinOp op l r => pr (left_level op) l ++ op_tok op :: pr (right_level op) r
  | EUnaryOp Not e => TNot :: pr 2%nat e
  | EUnaryOp Neg e => TMinus :: pr 6%nat e
  | EIsNull e => pr 4%nat e ++ [TIs; TNull]
  | EIsNotNull e => pr 4%nat e ++ [TIs; TNot; TNull]
  | EBetween e lo hi => pr 4%nat e ++ TBetween :: pr 4%nat lo ++ TAnd :: pr 4%nat hi
  | EIn e l => pr 4%nat e ++ TIn :: TLParen :: commas body l ++ [TRParen]
  | ELike e p negated => pr 4%nat e ++ (if negated then [TNot] else []) ++ [TLike; TStrLit p]
  | EFunction n args => TIdent n :: TLParen :: commas body args ++ [TRParen]
  | EInterval ns => [TInterval; TStrLit (show_i64 (interval_number ns) ++ " us")]
  | _ => []
  end.

(** An expression where the grammar wants one of level [w]. *)
Definition pr (w : nat) (e : Expr) : list Token := paren w e (body e).

(** The trees the parser can give: no nodes of later passes, no empty lists
    after [IN], function names in lower case, and intervals that are a number
    of some unit, negative ones included. *)
Fixpoint printable (e : Expr) : bool :=
  match e with
  | EColumn _ _ | EStar => true
  | ELiteral (LIntervalNs _) => false
  | ELiteral _ => true
  | EBinOp _ l r => printable l && printable r
  | EUnaryOp _ e | EIsNull e | EIsNotNull e | ELike e _ _ => printable e
  | EBetween e lo hi => printable e && printable lo && printable hi
  | EIn e l => printable e && forallb printable l && match l with [] => false | _ => true end
  | EFunction n args => bool_decide (to_ascii_lowercase n = n) && forallb printable args
  | EInterval ns => (i64_min <=? ns) && (ns <=? i64_max) && (ns mod 8 =? 0)
  | _ => false
  end.

Example print_ex :
  body (EBinOp OpMul (EBinOp OpAdd (EColumn None "a") (ELiteral (LInt 1))) (EUnaryOp Neg (EColumn None "b")))
  = [TLParen; TIdent "a"; TPlus; TIntLit 1; TRParen; TStar; TMinus; TIdent "b"].
Proof. reflexivity. Qed.

(** Tokens that go on with an expression, and the level they belong to. *)
Definition cont (t : Token) : option nat :=
  match t with
  | TOr => Some 0%nat
  | TAnd => Some 1%nat
  | TEq | TNotEq | TLt | TLtEq | TGt | TGtEq | TIs | TBetween | TNot | TIn | TLike => Some 3%nat
  | TPlus | TMinus => Some 4%nat
  | TStar | TSlash | TPercent => Some 5%nat
  | TDot | TLParen => Some 7%nat
  | _ => None
  end.

(** What follows does not go on at level [w] or above. *)
Definition stops (w : nat) (rest : list Token) : Prop :=
  match rest with
  | [] => False
  | t :: _ => match cont t with Some k => (k < w)%nat | None => True end
  end.

(** ** Steps of the parser on known tokens *)

Lemma stops_ne w rest : stops w rest -> rest <> [].
Proof. by destruct rest. Qed.

Lemma stops_mono w w' rest : stops w rest -> (w <= w')%nat -> stops w' rest.
Proof. destruct rest as [|t rest]; [done|]. simpl. destruct (cont t); [lia|done]. Qed.

Lemma app_ne {A} (l r : list A) : r <> [] -> l ++ r <> [].
Proof. destruct l; done. Qed.

Lemma peek_bind {B} t ts (f : Token -> parser B) : (peek ≫= f) (t :: ts) = f t (t :: ts).
Proof. done. Qed.

Lemma advance_bind {B} t ts (f : Token -> parser B) : ts <> [] -> (advance ≫= f) (t :: ts) = f t ts.
Proof. by destruct ts. Qed.

Lemma bind_ret {A B} (m : parser A) (f : A -> parser B) ts a ts' : m ts = (Ret a, ts') -> (m ≫= f) ts = f a ts'.
Proof. intros H. unfold mbind, st_bind. by rewrite H. Qed.

Lemma tok_eqb_refl t : tok_eqb t t = true.
Proof. by apply bool_decide_eq_true. Qed.

Lemma tok_eqb_false t u : t <> u -> tok_eqb t u = false.
Proof. apply bool_decide_eq_false. Qed.

Lemma expect_bind {B} tok ts (f : unit -> parser B) : ts <> [] -> (expect tok ≫= f) (tok :: ts) = f tt ts.
Proof.
  intros H. apply bind_ret. unfold expect. rewrite peek_bind, tok_eqb_refl. by rewrite advance_bind.
Qed.

Lemma expect_ident_bind {B} s ts (f : string -> parser B) : ts <> [] -> (expect_ident ≫= f) (TIdent s :: ts) = f s ts.
Proof. intros H. apply bind_ret. unfold expect_ident. by rewrite advance_bind. Qed.

Lemma expect_string_bind {B} s ts (f : string -> parser B) : ts <> [] -> (expect_string ≫= f) (TStrLit s :: ts) = f s ts.
Proof. intros H. apply bind_ret. unfold expect_string. by rewrite advance_bind. Qed.

Lemma expect_int_bind {B} n ts (f : Z -> parser B) : ts <> [] -> (expect_int ≫= f) (TIntLit n :: ts) = f n ts.
Proof. intros H. apply bind_ret. unfold expect_int. by rewrite advance_bind. Qed.

(** Not the end of the tokens. *)
Ltac ne_tac := solve [done | eauto using stops_ne, app_ne | intros ?; by simplify_eq/= | repeat apply app_ne; eauto using stops_ne].

(** Run the parser on the tokens it looks at. *)
Ltac pstep :=
  first [ rewrite peek_bind | rewrite advance_bind by ne_tac | rewrite expect_bind by ne_tac
        | rewrite expect_ident_bind by ne_tac | rewrite expect_string_bind by ne_tac | rewrite expect_int_bind by ne_tac
        | rewrite tok_eqb_refl | rewrite tok_eqb_false by congruence ].
Ltac psteps := repeat (pstep; cbv beta iota).

(** ** Lists with commas *)

Lemma comma_loop_ok {T} (f : parser T) (pt : T -> list Token) N rest l : forall fuel items,
  rest <> [] -> head rest <> Some TComma ->
  (forall x rest', In x l -> rest' = rest \/ head rest' = Some TComma -> (length (pt x ++ rest') <= N)%nat ->
    f (pt x ++ rest') = (Ret x, rest')) ->
  let toks := concat (map (fun y => TComma :: pt y) l) ++ rest in
  (length toks <= N)%nat -> (length toks <= fuel)%nat ->
  comma_loop fuel f items toks = (Ret (items ++ l), rest).
Proof.
  induction l as [|x l IH]; intros fuel items Hne Hc Hf toks HN Hfuel; unfold toks in *; cbn [map concat] in *.
  - destruct rest as [|t rest]; [done|]. destruct fuel; [simpl in Hfuel; lia|]. cbn [comma_loop]. cbn [app].
    rewrite peek_bind, tok_eqb_false, app_nil_r by (intros ->; done). done.
  - rewrite <- !app_assoc in *. cbn [app length] in *. destruct fuel as [|fuel]; [lia|]. cbn [comma_loop].
    set (rest' := concat (map (fun y => TComma :: pt y) l) ++ rest) in *.
    assert (rest' <> []) as Hne' by (by apply app_ne).
    psteps. erewrite bind_ret; [|apply Hf; [by left| |lia]].
    2:{ unfold rest'. destruct l; [by left|by right]. }
    rewrite (IH fuel (items ++ [x])); [by rewrite <- app_assoc|done|done| | |].
    + intros y rest'' Hy. apply Hf. by right.
    + fold rest'. rewrite length_app in HN. lia.
    + fold rest'. rewrite length_app in Hfuel. lia.
Qed.

Lemma comma_separated_ok {T} (f : parser T) (pt : T -> list Token) N fuel rest l :
  l <> [] -> rest <> [] -> head rest <> Some TComma ->
  (forall x rest', In x l -> rest' = rest \/ head rest' = Some TComma -> (length (pt x ++ rest') <= N)%nat ->
    f (pt x ++ rest') = (Ret x, rest')) ->
  (length (commas pt l ++ rest) <= N)%nat -> (length (commas pt l ++ rest) <= fuel)%nat ->
  parse_comma_separated fuel f (commas pt l ++ rest) = (Ret l, rest).
Proof.
  intros Hl Hne Hc Hf HN Hfuel. destruct l as [|x l]; [done|]. unfold commas in *. rewrite <- app_assoc in *.
  unfold parse_comma_separated. erewrite bind_ret; [|apply Hf; [by left| |done]].
  2:{ destruct l; [by left|by right]. }
  rewrite length_app in *. apply (comma_loop_ok f pt N); [done|done| |lia|lia]. intros y rest' Hy. apply Hf. by right.
Qed.

(** ** Intervals *)

Lemma byte_of_digit d : 0 <= d < 10 -> byte_of_ascii (digit_char d) = 48 + d.
Proof.
  intros Hd. destruct (digit_char_spec d Hd) as [_ H]. unfold digit_val in H. lia.
Qed.

(** A digit or a minus. *)
Definition number_code (b : Z) : Prop := 48 <= b <= 57 \/ b = 45.

Lemma chars_digit a s : number_code (byte_of_ascii a) -> chars (String a s) = byte_of_ascii a :: chars s.
Proof.
  unfold number_code. intros Ha. destruct s as [|c s]; [done|]. cbn [chars]. destruct (Z.leb_spec 192 (byte_of_ascii a)); [lia|done].
Qed.

Lemma text_digits_app ds cs : text (ds ++ cs) = text ds +:+ text cs.
Proof. unfold text. induction ds as [|b ds IH]; cbn [app fold_right]; [done|]. by rewrite IH, string_app_assoc. Qed.

Lemma text_digit a : number_code (byte_of_ascii a) -> text [byte_of_ascii a] = String a "".
Proof.
  intros Ha. unfold text, push_code, number_code in *. cbn [fold_right].
  destruct (Z.ltb_spec (byte_of_ascii a) 128); [|lia]. by rewrite ascii_byte_of_ascii.
Qed.

Lemma show_aux_codes fuel z : 0 <= z -> exists ds, show_aux fuel z "" = text ds /\ Forall number_code ds.
Proof.
  revert z; induction fuel as [|fuel IH]; intros z Hz; cbn [show_aux]; [by exists []|].
  pose proof (Z.mod_pos_bound z 10 ltac:(lia)) as Hm. pose proof (byte_of_digit (z mod 10) Hm) as Hb.
  set (a := digit_char (z mod 10)) in *. assert (number_code (byte_of_ascii a)) as Hd by (unfold number_code; lia).
  destruct (z <? 10).
  - exists [byte_of_ascii a]. rewrite text_digit by done. split; [done|by constructor].
  - destruct (IH (z / 10)) as (ds & E & Hds); [by apply Z.div_pos|]. exists (ds ++ [byte_of_ascii a]).
    rewrite show_aux_app, E, text_digits_app, text_digit by done. split; [done|]. apply Forall_app. split; [done|by constructor].
Qed.

Lemma chars_text_digits ds s : Forall number_code ds -> chars (text ds +:+ s) = ds ++ chars s.
Proof.
  induction 1 as [|b ds Hb _ IH]; [done|].
  assert (exists a, b = byte_of_ascii a) as [a ->].
  { exists (ascii_of_byte b). unfold number_code in Hb. unfold byte_of_ascii, ascii_of_byte.
    rewrite N_ascii_embedding by lia. lia. }
  change (byte_of_ascii a :: ds) with ([byte_of_ascii a] ++ ds). rewrite text_digits_app, text_digit by done.
  cbn [app String.append]. rewrite chars_digit by done. by rewrite IH.
Qed.

Lemma ctrim_start_not b cs : is_whitespace b = false -> ctrim_start (b :: cs) = b :: cs.
Proof. cbn [ctrim_start]. by intros ->. Qed.

Lemma digit_not_space b : number_code b -> is_whitespace b = false.
Proof. unfold number_code, is_whitespace. lia. Qed.

Lemma ctrim_fixed b cs c : is_whitespace b = false -> is_whitespace c = false -> ctrim (b :: cs ++ [c]) = b :: cs ++ [c].
Proof.
  intros Hb Hc. unfold ctrim. rewrite ctrim_start_not by done. cbn [rev]. rewrite rev_app_distr. cbn [rev app].
  rewrite ctrim_start_not by done. cbn [rev]. by rewrite rev_app_distr, rev_involutive.
Qed.

Lemma split_digits ds rest : Forall number_code ds ->
  split_alphabetic (ds ++ rest) = let '(l, r) := split_alphabetic rest in (ds ++ l, r).
Proof.
  induction 1 as [|b ds Hb _ IH]; [cbn; by destruct (split_alphabetic rest)|].
  cbn [app split_alphabetic]. rewrite IH. unfold number_code in Hb.
  assert (is_alphabetic b = false) as -> by (unfold is_alphabetic; lia).
  by destruct (split_alphabetic rest).
Qed.

Lemma ctrim_digits_space ds : Forall number_code ds -> ctrim (ds ++ [32]) = ds.
Proof.
  intros Hds. unfold ctrim. assert (ctrim_start (ds ++ [32]) = match ds with [] => [] | _ => ds ++ [32] end) as ->.
  { destruct Hds as [|b ds Hb _]; [done|]. cbn [app]. apply ctrim_start_not. by apply digit_not_space. }
  destruct ds as [|b ds _] using rev_ind; [done|]. apply Forall_app in Hds as [_ Hb]. apply Forall_cons_1 in Hb as [Hb _].
  assert (match ds ++ [b] with [] => [] | _ => (ds ++ [b]) ++ [32] end = (ds ++ [b]) ++ [32]) as -> by (by destruct ds).
  rewrite rev_app_distr. cbn [rev app ctrim_start]. change (is_whitespace 32) with true. cbv iota.
  rewrite rev_app_distr. cbn [rev app]. rewrite ctrim_start_not by (by apply digit_not_space). cbn [rev]. by rewrite rev_involutive.
Qed.

(** The units and their lengths in nanoseconds. *)
Definition interval_units : list (string * Z) :=
  [("us", 1000); ("microsecond", 1000); ("microseconds", 1000);
   ("ms", 1000000); ("millisecond", 1000000); ("milliseconds", 1000000); ("millisec", 1000000);
   ("s", 1000000000); ("sec", 1000000000); ("second", 1000000000); ("seconds", 1000000000);
   ("m", 60000000000); ("min", 60000000000); ("minute", 60000000000); ("minutes", 60000000000);
   ("h", 3600000000000); ("hr", 3600000000000); ("hour", 3600000000000); ("hours", 3600000000000);
   ("d", 86400000000000); ("day", 86400000000000); ("days", 86400000000000)]%string.

(** Digits, a gap and letters are split as they should be. *)
Lemma interval_split ds gap uc c : Forall number_code ds -> ds <> [] -> gap = [] \/ gap = [32] ->
  is_whitespace c = false -> split_alphabetic (gap ++ uc ++ [c]) = (gap, uc ++ [c]) ->
  let '(num_cs, unit_cs) := split_alphabetic (ctrim (ds ++ gap ++ uc ++ [c])) in
  ctrim (ds ++ gap ++ uc ++ [c]) = ds ++ gap ++ uc ++ [c] /\ ctrim num_cs = ds /\ unit_cs = uc ++ [c].
Proof.
  intros Hds Hne Hgap Hc Hsp.
  assert (ctrim (ds ++ gap ++ uc ++ [c]) = ds ++ gap ++ uc ++ [c]) as Et.
  { destruct ds as [|b ds]; [done|]. apply Forall_cons_1 in Hds as [Hb _]. cbn [app].
    replace (ds ++ gap ++ uc ++ [c]) with ((ds ++ gap ++ uc) ++ [c]) by (by rewrite <- !app_assoc).
    apply ctrim_fixed; [by apply digit_not_space|done]. }
  rewrite Et, split_digits, Hsp by done. cbv iota beta. split; [done|split; [|done]].
  destruct Hgap as [->| ->]; [|by apply ctrim_digits_space]. rewrite app_nil_r.
  unfold ctrim. destruct ds as [|b ds] using rev_ind; [done|]. clear IHds. apply Forall_app in Hds as Hd.
  destruct Hd as [Hd Hb]. apply Forall_cons_1 in Hb as [Hb _].
  assert (ctrim_start (ds ++ [b]) = ds ++ [b]) as ->.
  { destruct ds; cbn [app]; apply ctrim_start_not, digit_not_space; [done|]. by apply Forall_cons_1 in Hd as [? _]. }
  rewrite rev_app_distr. cbn [rev app]. rewrite ctrim_start_not by (by apply digit_not_space). cbn [rev]. by rewrite rev_involutive.
Qed.

Lemma show_i64_codes z : exists ds, show_i64 z = text ds /\ Forall number_code ds /\ ds <> [].
Proof.
  assert (forall y, 0 <= y -> exists ds, show_u64 y = text ds /\ Forall number_code ds /\ ds <> []) as Hu.
  { intros y Hy. destruct (show_aux_codes (show_fuel y) y Hy) as (ds & E & Hds). exists ds. split_and!; [done|done|].
    intros ->. destruct (show_u64_digit_head y Hy) as (c & w & Eh & _). unfold show_u64 in Eh. rewrite E in Eh. done. }
  unfold show_i64. destruct (Z.ltb_spec z 0); [|by apply Hu]. destruct (Hu (- z)) as (ds & -> & Hds & _); [lia|].
  exists (45 :: ds). split_and!; [done|by constructor; [right|]|done].
Qed.

Lemma parse_interval_number z gap u per :
  is_i64 z -> gap = ""%string \/ gap = " "%string -> In (u, per) interval_units ->
  parse_interval (show_i64 z +:+ gap +:+ u) = Ret (wrap_i64 (z * per)).
Proof.
  intros Hz Hgap Hu. destruct (show_i64_codes z) as (ds & E & Hds & Hne).
  pose proof (parse_show_signed z Hz) as Hp. rewrite E in *. unfold parse_interval. rewrite chars_text_digits by done.
  assert (exists g uc c, chars (gap +:+ u) = g ++ uc ++ [c] /\ (g = [] \/ g = [32]) /\ is_whitespace c = false /\
    split_alphabetic (g ++ uc ++ [c]) = (g, uc ++ [c]) /\
    ns_per_unit (to_ascii_lowercase (text (ctrim (uc ++ [c])))) = Some per) as (g & uc & c & -> & Hg & Hc & Hs & Hn).
  { assert (exists uc c, chars u = uc ++ [c] /\ is_whitespace c = false /\ split_alphabetic (uc ++ [c]) = ([], uc ++ [c]) /\
      ns_per_unit (to_ascii_lowercase (text (ctrim (uc ++ [c])))) = Some per) as (uc & c & Ec & Hc & Hs & Hn).
    { cbn [In interval_units] in Hu.
      repeat (destruct Hu as [[= <- <-]|Hu]; [match goal with |- exists uc c, chars ?s = _ /\ _ =>
        exists (removelast (chars s)), (List.last (chars s) 0) end; split_and!; reflexivity|]). done. }
    destruct Hgap as [->| ->]; [exists [], uc, c|exists [32], uc, c]; split_and!; auto.
    - change (" " +:+ u) with (String " " u). destruct u as [|a u]; [by destruct uc|]. cbn [app]. rewrite <- Ec. reflexivity.
    - cbn [app split_alphabetic]. change (is_alphabetic 32) with false. cbv iota. by rewrite Hs. }
  pose proof (interval_split ds g uc c Hds Hne Hg Hc Hs) as H. destruct (split_alphabetic (ctrim _)) as [nc ucs].
  destruct H as (_ & -> & ->). by rewrite Hp, Hn.
Qed.

(** ** Expressions, level by level *)

Lemma pr_zero e : pr 0 e = body e.
Proof. unfold pr, paren. by destruct (level e). Qed.

Lemma pr_up w e : level e <> w -> pr w e = pr (S w) e.
Proof.
  intros H. unfold pr, paren.
  destruct (Nat.ltb_spec (level e) w), (Nat.ltb_spec (level e) (S w)); try done; lia.
Qed.

Lemma pr_own w e : level e = w -> pr w e = body e.
Proof. intros H. unfold pr, paren. destruct (Nat.ltb_spec (level e) w); [lia|done]. Qed.

(** The first token of an expression: no closing parenthesis, no [DISTINCT],
    no [NOT] from
    level 3 on, and no minus in the place of a primary. *)
Definition starts_ok (w : nat) (ts : list Token) : Prop :=
  exists t ts', ts = t :: ts' /\ t <> TRParen /\ t <> TDistinct /\ ((3 <= w)%nat -> t <> TNot).

Lemma starts_app w ts ys : starts_ok w ts -> starts_ok w (ts ++ ys).
Proof. intros (t & ts' & -> & H). by exists t, (ts' ++ ys). Qed.

Lemma starts_paren w e : starts_ok (level e) (body e) -> starts_ok w (paren w e (body e)).
Proof.
  unfold paren. intros (t & ts & -> & Hr & He & Hn). destruct (Nat.ltb_spec (level e) w); [by eexists TLParen, _|].
  exists t, ts. split_and!; [done..|]. intros. apply Hn. lia.
Qed.

Lemma starts_body e : printable e = true -> starts_ok (level e) (body e).
Proof.
  assert (forall w w' e ys, starts_ok (level e) (body e) -> (w <= w' \/ 3 <= w')%nat -> starts_ok w (paren w' e (body e) ++ ys)) as Ha.
  { intros w w' e' ys He Hw. apply starts_app. destruct (starts_paren w' e' He) as (t & ts & -> & Hr & Heof & Hn).
    exists t, ts. split_and!; [done..|]. intros. apply Hn. lia. }
  induction e using Expr_ind'; intros Hpr; cbn [printable] in Hpr; cbn [body]; try done;
    repeat match goal with H : _ && _ = true |- _ => apply andb_true_iff in H as [? ?] end.
  - destruct t; by eexists _, _.
  - destruct l; try done; try (by eexists _, _). destruct b; by eexists _, _.
  - by eexists _, _.
  - apply Ha; [auto|]. destruct op; cbn; lia.
  - destruct op; (eexists _, _; split_and!; [done..|cbn; try done; lia]).
  - apply Ha; [auto|lia].
  - apply Ha; [auto|lia].
  - apply Ha; [auto|lia].
  - apply Ha; [auto|lia].
  - apply Ha; [auto|lia].
  - by eexists _, _.
  - by eexists _, _.
Qed.

Lemma starts_pr w e : printable e = true -> starts_ok w (pr w e).
Proof. intros Hp. by apply starts_paren, starts_body. Qed.

Lemma pr_head w e : printable e = true -> (3 <= w)%nat -> exists t ts, pr w e = t :: ts /\ t <> TNot.
Proof. intros Hp Hw. destruct (starts_pr w e Hp) as (t & ts & -> & _ & _ & Hn). exists t, ts. auto. Qed.

Lemma pr7_head e : printable e = true -> exists t ts, pr 7 e = t :: ts /\ t <> TMinus.
Proof.
  intros Hp. unfold pr, paren. destruct (Nat.ltb_spec (level e) 7); [by eexists TLParen, _|].
  destruct e; cbn [level] in *; try lia; try done; cbn [body].
  - destruct table; by eexists _, _.
  - destruct l; try done; try (by eexists _, _). destruct b; by eexists _, _.
  - by eexists _, _.
  - destruct op; simpl in *; lia.
  - destruct op; simpl in *; lia.
  - by eexists _, _.
  - by eexists _, _.
Qed.

Section Levels.
Context (pe : parser Expr) (n : nat).
(** The call back to [parse_expr], on fewer tokens than [n]. *)
Hypothesis Hpe : forall e rest, printable e = true -> stops 0 rest -> (length (body e ++ rest) < n)%nat ->
  pe (body e ++ rest) = (Ret e, rest).

Lemma pe_commas fuel l rest :
  forallb printable l = true -> l <> [] -> (length (commas body l ++ TRParen :: rest) < n)%nat ->
  (length (commas body l ++ TRParen :: rest) <= fuel)%nat ->
  parse_comma_separated fuel pe (commas body l ++ TRParen :: rest) = (Ret l, TRParen :: rest).
Proof.
  intros Hl Hne Hn Hfuel. apply (comma_separated_ok pe body (n - 1)); [done|done|done| |lia|done].
  intros x rest' Hin Hr Hlen. apply Hpe; [by eapply forallb_forall in Hl|destruct Hr as [->|Hr]|].
  - done.
  - destruct rest' as [|t rest']; [done|]. injection Hr as ->. done.
  - assert (1 <= length (body x ++ rest'))%nat; [|lia].
    rewrite length_app. destruct rest'; [destruct Hr as [Hr|Hr]; done|]. simpl. lia.
Qed.

Lemma interval_number_ok ns : is_i64 ns -> ns mod 8 = 0 -> is_i64 (interval_number ns) /\ wrap_i64 (interval_number ns * 1000) = ns.
Proof.
  intros Hns Hm. unfold interval_number. destruct (Z.eqb_spec (ns mod 1000) 0) as [H0|_].
  - split; [unfold is_i64, i64_min, i64_max in *; Z.div_mod_to_equations; lia|].
    replace (ns / 1000 * 1000) with ns by (Z.div_mod_to_equations; lia). by apply wrap_i64_small.
  - set (inv := 2066035336255469781). pose proof (Z.mod_pos_bound (ns / 8 * inv) (2 ^ 61) ltac:(lia)) as Hb.
    split; [unfold is_i64, i64_min, i64_max; lia|].
    assert (exists k, (ns / 8 * inv) mod 2 ^ 61 * 1000 = ns + k * two64) as [k ->].
    { assert (125 * inv = 1 + (125 * inv - 1) / 2 ^ 61 * 2 ^ 61) as Hi by reflexivity.
      set (q := (125 * inv - 1) / 2 ^ 61) in *. pose proof (Z.div_mod (ns / 8 * inv) (2 ^ 61) ltac:(lia)) as Hd.
      set (d := ns / 8 * inv / 2 ^ 61) in *. assert (ns = 8 * (ns / 8)) as Hn8 by (Z.div_mod_to_equations; lia).
      set (m := ns / 8) in *. exists (m * q - 125 * d).
      assert (m * (125 * inv) = m * (1 + q * 2 ^ 61)) as Hmi by (by rewrite Hi). clearbody inv q d. lia. }
    unfold wrap_i64. rewrite Z_mod_plus_full. exact (wrap_i64_small ns Hns).
Qed.

Lemma interval_ok ns : printable (EInterval ns) = true -> parse_interval (show_i64 (interval_number ns) +:+ " us") = Ret ns.
Proof.
  cbn [printable]. intros H. assert (is_i64 ns /\ ns mod 8 = 0) as [Hns Hm] by (unfold is_i64; lia).
  destruct (interval_number_ok ns Hns Hm) as [Hi Hw]. change " us"%string with (" " +:+ "us")%string.
  rewrite (parse_interval_number (interval_number ns) " " "us" 1000); [by rewrite Hw|done|by right|by left].
Qed.

Definition full (w : nat) (p : nat -> parser Expr -> parser Expr) (e : Expr) : Prop := forall fuel rest,
  (length (pr w e ++ rest) <= fuel)%nat -> (length (pr w e ++ rest) <= n)%nat -> stops w rest ->
  p fuel pe (pr w e ++ rest) = (Ret e, rest).

(** A primary expression needs no induction: what is inside goes through the
    call back. *)
Lemma primary_full e : printable e = true -> full 7 parse_primary e.
Proof.
  intros Hp fuel rest Hfuel Hn Hs. pose proof (stops_ne _ _ Hs) as Hne. destruct (decide (level e = 7%nat)) as [Hl|Hl].
  2:{ assert (pr 7 e = TLParen :: body e ++ [TRParen]) as E.
      { unfold pr, paren. destruct (Nat.ltb_spec (level e) 7); [done|]. exfalso.
        assert (level e <= 7)%nat; [|lia]. destruct e as [| | |[]|[]| | | | | | | | | | | |]; simpl; lia. }
      rewrite E in *. cbn [app length] in *. rewrite <- app_assoc in *. cbn [app] in *. unfold parse_primary. psteps.
      erewrite bind_ret; [|apply Hpe; [done|done|lia]]. by psteps. }
  rewrite (pr_own 7 e Hl) in *. destruct rest as [|r0 rest]; [done|].
  destruct e; try done; try (destruct op; done).
  - cbn [stops] in Hs. destruct table as [t|]; cbn [body app]; unfold parse_primary; psteps; [done|].
    destruct (decide (r0 = TDot)) as [->|Hd]; [simpl in Hs; lia|].
    destruct (decide (r0 = TLParen)) as [->|Hd']; [simpl in Hs; lia|]. by psteps.
  - destruct l; try done; cbn [body app]; unfold parse_primary; psteps; try done. destruct b; by psteps.
  - cbn [printable] in Hp. apply andb_true_iff in Hp as [Hname%bool_decide_eq_true Hargs]. cbn [body app length] in *.
    rewrite <- app_assoc in *. cbn [app] in *. unfold parse_primary. psteps.
    destruct args as [|a args].
    + cbn [commas app] in *. psteps. by rewrite Hname.
    + assert (exists t ts, commas body (a :: args) ++ TRParen :: r0 :: rest = t :: ts /\ t <> TRParen) as (t & ts & E & Ht).
      { cbn [commas]. cbn [forallb] in Hargs. apply andb_true_iff in Hargs as [Ha _].
        destruct (starts_body a Ha) as (t & ts & -> & Hr & _). by eexists t, _. }
      rewrite E, peek_bind. rewrite (tok_eqb_false t) by done. rewrite <- E.
      erewrite bind_ret; [|apply pe_commas; [done|done|simpl in *; lia|simpl in *; lia]]. psteps. by rewrite Hname.
  - cbn [body app]. unfold parse_primary. psteps. erewrite bind_ret; [|unfold st_lift; by rewrite interval_ok]. done.
Qed.

(** The levels with a loop: after the expression the loop goes on with it. *)
Definition looped (w : nat) (op_of : Token -> option BinOp) (operand : nat -> parser Expr -> parser Expr) (e : Expr) : Prop :=
  forall fuel rest,
  (length (pr w e ++ rest) <= fuel)%nat -> (length (pr w e ++ rest) <= n)%nat -> stops (S w) rest ->
  exists fuel', (length rest <= fuel')%nat /\
    (left ← operand fuel pe; binary_loop op_of (operand fuel pe) fuel left) (pr w e ++ rest)
    = binary_loop op_of (operand fuel pe) fuel' e rest.

Lemma looped_base w op_of operand e : level e <> w -> full (S w) operand e -> looped w op_of operand e.
Proof.
  intros Hl Hf fuel rest. rewrite (pr_up w e Hl). intros Hfuel Hn Hs. exists fuel.
  split; [rewrite length_app in Hfuel; lia|]. by erewrite bind_ret; [|by apply Hf].
Qed.

Lemma looped_step w op_of operand op l r :
  op_level op = w -> w <> 3%nat -> op_of (op_tok op) = Some op -> cont (op_tok op) = Some w ->
  looped w op_of operand l -> full (S w) operand r -> looped w op_of operand (EBinOp op l r).
Proof.
  intros Hw H3 Hop Hc Hl Hr fuel rest. rewrite (pr_own w (EBinOp op l r) Hw). cbn [body].
  unfold left_level, right_level. rewrite Hw. destruct (Nat.eqb_spec w 3); [lia|].
  change (paren w l (body l)) with (pr w l). change (paren (S w) r (body r)) with (pr (S w) r).
  rewrite <- app_assoc. cbn [app]. intros Hfuel Hn Hs.
  destruct (Hl fuel (op_tok op :: pr (S w) r ++ rest) Hfuel Hn) as (fuel' & Hf' & ->).
  { cbn [stops]. rewrite Hc. lia. }
  destruct fuel' as [|fuel']; [simpl in Hf'; lia|]. rewrite length_app in Hfuel, Hn. cbn [length] in *. exists fuel'.
  split; [rewrite length_app in Hf'; lia|]. cbn [binary_loop]. rewrite peek_bind, Hop. pose proof (stops_ne _ _ Hs) as Hne.
  psteps. erewrite bind_ret; [|apply Hr; [lia|lia|done]]. done.
Qed.

Lemma looped_full w op_of operand e :
  (forall t, op_of t <> None -> cont t = Some w) -> looped w op_of operand e ->
  full w (fun fuel pe => left ← operand fuel pe; binary_loop op_of (operand fuel pe) fuel left) e.
Proof.
  intros Ho Hl fuel rest Hfuel Hn Hs. destruct (Hl fuel rest Hfuel Hn (stops_mono w (S w) rest Hs ltac:(lia))) as (fuel' & Hf' & ->).
  destruct rest as [|t rest]; [done|]. destruct fuel' as [|fuel']; [simpl in Hf'; lia|]. cbn [binary_loop]. rewrite peek_bind.
  destruct (op_of t) eqn:E; [|done]. cbn [stops] in Hs. rewrite Ho in Hs by congruence. lia.
Qed.

Record good (e : Expr) : Prop := {
  good6 : full 6 parse_unary e;
  good5 : looped 5 mul_op parse_unary e;
  good4 : looped 4 add_op parse_multiplication e;
  good3 : full 3 parse_comparison e;
  good2 : full 2 parse_not e;
  good1 : looped 1 and_op parse_not e;
  good0 : looped 0 or_op parse_and e
}.

Lemma good_full4 e : good e -> full 4 parse_addition e.
Proof. intros H. apply looped_full; [|apply H]. by intros []. Qed.

Lemma good_full5 e : looped 5 mul_op parse_unary e -> full 5 parse_multiplication e.
Proof. intros H. apply looped_full; [|apply H]. by intros []. Qed.

Lemma unary_base e : printable e = true -> level e <> 6%nat -> full 6 parse_unary e.
Proof.
  intros Hp Hl fuel rest. rewrite (pr_up 6 e Hl). intros Hfuel Hn Hs. destruct (pr7_head e Hp) as (t & ts & E & Ht).
  pose proof (primary_full e Hp fuel rest Hfuel Hn (stops_mono 6 7 rest Hs ltac:(lia))) as H. rewrite E in *.
  destruct fuel; [simpl in Hfuel; lia|]. cbn [app parse_unary] in *. by psteps.
Qed.

Lemma comparison_base e : level e <> 3%nat -> full 4 parse_addition e -> full 3 parse_comparison e.
Proof.
  intros Hl Hf fuel rest. rewrite (pr_up 3 e Hl). intros Hfuel Hn Hs. unfold parse_comparison.
  erewrite bind_ret; [|apply Hf; [done|done|by eapply stops_mono; [exact Hs|lia]]].
  destruct rest as [|t rest]; [done|]. unfold comparison_tail. rewrite peek_bind. cbn [stops] in Hs.
  destruct t; cbn [cmp_op]; cbn [cont] in Hs; try lia; done.
Qed.

Lemma not_base e : printable e = true -> level e <> 2%nat -> full 3 parse_comparison e -> full 2 parse_not e.
Proof.
  intros Hp Hl Hf fuel rest. rewrite (pr_up 2 e Hl). intros Hfuel Hn Hs. destruct (pr_head 3 e Hp) as (t & ts & E & Ht); [lia|].
  pose proof (Hf fuel rest Hfuel Hn (stops_mono 2 3 rest Hs ltac:(lia))) as H. rewrite E in *.
  destruct fuel; [simpl in Hfuel; lia|]. cbn [app parse_not] in *. by psteps.
Qed.

(** All levels follow from the level of the expression itself. *)
Lemma good_intro e :
  printable e = true ->
  (level e = 6%nat -> full 6 parse_unary e) -> (level e = 5%nat -> looped 5 mul_op parse_unary e) ->
  (level e = 4%nat -> looped 4 add_op parse_multiplication e) -> (level e = 3%nat -> full 3 parse_comparison e) ->
  (level e = 2%nat -> full 2 parse_not e) -> (level e = 1%nat -> looped 1 and_op parse_not e) ->
  (level e = 0%nat -> looped 0 or_op parse_and e) -> good e.
Proof.
  intros Hp H6 H5 H4 H3 H2 H1 H0.
  assert (full 6 parse_unary e) as G6 by (destruct (decide (level e = 6%nat)); [auto|by apply unary_base]).
  assert (looped 5 mul_op parse_unary e) as G5 by (destruct (decide (level e = 5%nat)); [auto|by apply looped_base]).
  assert (looped 4 add_op parse_multiplication e) as G4.
  { destruct (decide (level e = 4%nat)); [auto|]. apply looped_base; [done|by apply good_full5]. }
  assert (full 3 parse_comparison e) as G3.
  { destruct (decide (level e = 3%nat)); [auto|]. apply comparison_base; [done|]. apply looped_full; [by intros []|done]. }
  assert (full 2 parse_not e) as G2 by (destruct (decide (level e = 2%nat)); [auto|by apply not_base]).
  assert (looped 1 and_op parse_not e) as G1 by (destruct (decide (level e = 1%nat)); [auto|by apply looped_base]).
  assert (looped 0 or_op parse_and e) as G0.
  { destruct (decide (level e = 0%nat)); [auto|]. apply looped_base; [done|]. apply looped_full; [by intros []|done]. }
  by split.
Qed.

(** The comparison level: the left operand is an addition, and what follows
    says which comparison it is. *)
Lemma comparison_own e l tail :
  level e = 3%nat -> body e = pr 4 l ++ tail -> full 4 parse_addition l ->
  (forall rest, rest <> [] -> stops 4 (tail ++ rest)) ->
  (forall fuel rest, (length (tail ++ rest) <= fuel)%nat -> (length (tail ++ rest) < n)%nat -> stops 3 rest ->
    comparison_tail fuel pe (parse_addition fuel pe) l (tail ++ rest) = (Ret e, rest)) ->
  (exists t ts, pr 4 l = t :: ts) ->
  full 3 parse_comparison e.
Proof.
  intros Hl Hb Hf Hst Ht (t & ts & Ep) fuel rest. rewrite (pr_own 3 e Hl), Hb, <- app_assoc. intros Hfuel Hn Hs.
  pose proof (stops_ne _ _ Hs) as Hne. unfold parse_comparison.
  erewrite bind_ret; [|apply Hf; [done|done|by apply Hst]]. rewrite Ep in Hfuel, Hn. cbn [app length] in *.
  rewrite length_app in Hfuel, Hn. apply Ht; [lia|lia|done].
Qed.

Lemma nonempty_pr w e : printable e = true -> exists t ts, pr w e = t :: ts.
Proof. intros Hp. destruct (starts_pr w e Hp) as (t & ts & H & _). eauto. Qed.

Lemma cmp_own op l r :
  op_level op = 3%nat -> printable l = true -> full 4 parse_addition l -> full 4 parse_addition r ->
  full 3 parse_comparison (EBinOp op l r).
Proof.
  intros Ho Hp Hl Hr. apply (comparison_own _ l (op_tok op :: pr 4 r)); [done| |done| | |by apply nonempty_pr].
  - cbn [body]. unfold left_level, right_level. by rewrite Ho.
  - intros rest _. destruct op; cbn; try done; lia.
  - intros fuel rest Hfuel Hn Hs. cbn [app length] in *. unfold comparison_tail. rewrite peek_bind.
    assert (cmp_op (op_tok op) = Some op) as -> by (by destruct op). pose proof (stops_ne _ _ Hs) as Hne.
    psteps. erewrite bind_ret; [done|]. apply Hr; [lia|lia|by eapply stops_mono; [exact Hs|lia]].
Qed.

Lemma between_own e lo hi :
  printable e = true -> full 4 parse_addition e -> full 4 parse_addition lo -> full 4 parse_addition hi ->
  full 3 parse_comparison (EBetween e lo hi).
Proof.
  intros Hp He Hlo Hhi. apply (comparison_own _ e (TBetween :: pr 4 lo ++ TAnd :: pr 4 hi));
    [done|done|done|intros; cbn; lia| |by apply nonempty_pr].
  intros fuel rest Hfuel Hn Hs. cbn [app length] in *. rewrite <- app_assoc in *. cbn [app] in *.
  pose proof (stops_ne _ _ Hs) as Hne. unfold comparison_tail. rewrite peek_bind. cbn [cmp_op]. psteps.
  erewrite bind_ret; [|apply Hlo; [lia|lia|cbn; lia]]. psteps. rewrite length_app in Hfuel, Hn. cbn [length] in *.
  erewrite bind_ret; [done|]. apply Hhi; [lia|lia|by eapply stops_mono; [exact Hs|lia]].
Qed.

Lemma in_own e l :
  printable (EIn e l) = true -> full 4 parse_addition e -> full 3 parse_comparison (EIn e l).
Proof.
  cbn [printable]. intros [[Hp Hl]%andb_true_iff Hne]%andb_true_iff He.
  apply (comparison_own _ e (TIn :: TLParen :: commas body l ++ [TRParen]));
    [done|done|done|intros; cbn; lia| |by apply nonempty_pr].
  intros fuel rest Hfuel Hn Hs. cbn [app length] in *. rewrite <- app_assoc in *. cbn [app] in *.
  pose proof (stops_ne _ _ Hs) as Hr. unfold comparison_tail, parse_in_list. rewrite peek_bind. cbn [cmp_op]. psteps.
  erewrite bind_ret; [done|]. psteps.
  erewrite bind_ret; [|apply pe_commas; [done|by destruct l|lia|lia]]. by psteps.
Qed.

Lemma like_own e p negated :
  printable e = true -> full 4 parse_addition e -> full 3 parse_comparison (ELike e p negated).
Proof.
  intros Hp He. apply (comparison_own _ e ((if negated then [TNot] else []) ++ [TLike; TStrLit p]));
    [done|done|done|intros; destruct negated; cbn; lia| |by apply nonempty_pr].
  intros fuel rest Hfuel Hn Hs. pose proof (stops_ne _ _ Hs) as Hr. unfold comparison_tail.
  destruct negated; cbn [app]; rewrite peek_bind; cbn [cmp_op]; by psteps.
Qed.

Lemma null_own e (negated : bool) :
  printable e = true -> full 4 parse_addition e -> full 3 parse_comparison (if negated then EIsNotNull e else EIsNull e).
Proof.
  intros Hp He. apply (comparison_own _ e (TIs :: (if negated then [TNot] else []) ++ [TNull]));
    [by destruct negated|by destruct negated|done|intros; cbn; lia| |by apply nonempty_pr].
  intros fuel rest Hfuel Hn Hs. pose proof (stops_ne _ _ Hs) as Hr. unfold comparison_tail. cbn [app].
  rewrite peek_bind. cbn [cmp_op].
  destruct negated; cbn [app]; psteps; (erewrite bind_ret; [|by psteps]); by psteps.
Qed.

Lemma neg_own e : full 6 parse_unary e -> full 6 parse_unary (EUnaryOp Neg e).
Proof.
  intros He fuel rest. rewrite (pr_own 6 (EUnaryOp Neg e)) by done. cbn [body app length].
  change (paren 6 e (body e)) with (pr 6 e). intros Hfuel Hn Hs. pose proof (stops_ne _ _ Hs) as Hne.
  destruct fuel as [|fuel]; [lia|]. cbn [parse_unary]. psteps. erewrite bind_ret; [done|]. apply He; [lia|lia|done].
Qed.

Lemma not_own e : full 2 parse_not e -> full 2 parse_not (EUnaryOp Not e).
Proof.
  intros He fuel rest. rewrite (pr_own 2 (EUnaryOp Not e)) by done. cbn [body app length].
  change (paren 2 e (body e)) with (pr 2 e). intros Hfuel Hn Hs. pose proof (stops_ne _ _ Hs) as Hne.
  destruct fuel as [|fuel]; [lia|]. cbn [parse_not]. psteps. erewrite bind_ret; [done|]. apply He; [lia|lia|done].
Qed.

Lemma binop_good op l r : printable l = true -> printable r = true -> good l -> good r -> good (EBinOp op l r).
Proof.
  intros Hpl Hpr Hl Hr. apply good_intro; [cbn; by rewrite Hpl, Hpr|..]; cbn [level]; intros Ho;
    try (destruct op; discriminate);
    try (apply looped_step; [done|done|by destruct op|by destruct op|apply Hl|]); try apply Hr.
  - by apply good_full5, Hr.
  - apply cmp_own; [done|done|by apply good_full4..].
  - apply looped_full; [by intros []|apply Hr].
Qed.

Lemma all_good e : printable e = true -> good e.
Proof.
  induction e using Expr_ind'; intros Hp; try done;
    try (apply good_intro; [done|done..]);
    try (cbn [printable] in Hp; repeat match goal with H : _ && _ = true |- _ => apply andb_true_iff in H as [? ?] end;
         by apply binop_good; auto).
  - destruct op; (apply good_intro; [done|..]; cbn [level]; try done; intros _); [apply neg_own|apply not_own]; by apply IHe.
  - apply good_intro; [done|..]; cbn [level]; try done; intros _. apply (null_own e false); [done|]. by apply good_full4, IHe.
  - apply good_intro; [done|..]; cbn [level]; try done; intros _. apply (null_own e true); [done|]. by apply good_full4, IHe.
  - apply good_intro; [done|..]; cbn [level]; try done; intros _. cbn [printable] in Hp.
    apply andb_true_iff in Hp as [[Hp Hlo]%andb_true_iff Hhi].
    apply between_own; [done|apply good_full4; auto..].
  - apply good_intro; [done|..]; cbn [level]; try done; intros _. apply in_own; [done|]. apply good_full4, IHe.
    cbn [printable] in Hp. by apply andb_true_iff in Hp as [[Hp _]%andb_true_iff _].
  - apply good_intro; [done|..]; cbn [level]; try done; intros _. apply like_own; [done|]. by apply good_full4, IHe.
Qed.
End Levels.

Lemma parse_expr_ok fuel : forall e rest,
  printable e = true -> stops 0 rest -> (length (body e ++ rest) <= fuel)%nat ->
  parse_expr fuel (body e ++ rest) = (Ret e, rest).
Proof.
  induction fuel as [|fuel IH]; intros e rest Hp Hs Hlen.
  { pose proof (stops_ne _ _ Hs). destruct rest; [done|]. rewrite length_app in Hlen. simpl in Hlen. lia. }
  cbn [parse_expr]. assert (good (parse_expr fuel) (S fuel) e) as Hg.
  { apply all_good; [|done]. intros e' rest' Hp' Hs' Hl'. apply IH; [done|done|lia]. }
  rewrite <- (pr_zero e) in *. assert (forall t, or_op t <> None -> cont t = Some 0%nat) as Hc by (by intros []).
  exact (looped_full (parse_expr fuel) (S fuel) 0 or_op parse_and e Hc (good0 _ _ _ Hg) (S fuel) rest Hlen Hlen Hs).
Qed.

(** ** Statements *)

Definition print_alias (a : option string) : list Token := match a with Some a => [TAs; TIdent a] | None => [] end.

Definition print_projection (p : Projection) : list Token :=
  match p with PStar => [TStar] | PExpr e a => body e ++ print_alias a end.

Definition print_table_ref (t : TableRef) : list Token := TIdent (tr_name t) :: print_alias (tr_alias t).

Definition print_join (j : JoinClause) : list Token :=
  match jc_kind j with JInner => [TJoin] | JLeft => [TLeft; TJoin] | JRight => [TRight; TJoin] end ++
  print_table_ref (jc_table j) ++ TOn :: body (jc_condition j).

Definition print_order_by_item (o : OrderByItem) : list Token := body (ob_expr o) ++ [if ob_asc o then TAsc else TDesc].

Definition print_clause {A} (kw : list Token) (pt : A -> list Token) (o : option A) : list Token :=
  match o with Some a => kw ++ pt a | None => [] end.

Definition print_list {A} (kw : list Token) (pt : A -> list Token) (l : list A) : list Token :=
  match l with [] => [] | _ => kw ++ commas pt l end.

Definition print_select (s : SelectStatement) : list Token :=
  TSelect :: commas print_projection (sel_projections s) ++ TFrom :: print_table_ref (sel_from s) ++
  concat (map print_join (sel_joins s)) ++
  print_clause [TWhere] body (sel_filter s) ++
  print_list [TGroup; TBy] body (sel_group_by s) ++
  print_clause [THaving] body (sel_having s) ++
  print_list [TOrder; TBy] print_order_by_item (sel_order_by s) ++
  print_clause [TLimit] (fun n => [TIntLit n]) (sel_limit s) ++
  print_clause [TOffset] (fun n => [TIntLit n]) (sel_offset s).

(** A projected expression that starts with a star is read as the star. *)
Definition projection_ok (p : Projection) : bool :=
  match p with
  | PStar => true
  | PExpr e _ => printable e && match body e with TStar :: _ => false | _ => true end
  end.

Definition opt_ok {A} (p : A -> bool) (o : option A) : bool := match o with Some a => p a | None => true end.

Definition is_u63 (n : Z) : bool := (0 <=? n) && (n <=? i64_max).

(** The statements the grammar has a text for. *)
Definition select_ok (s : SelectStatement) : bool :=
  forallb projection_ok (sel_projections s) && match sel_projections s with [] => false | _ => true end &&
  forallb (fun j => printable (jc_condition j)) (sel_joins s) &&
  opt_ok printable (sel_filter s) && forallb printable (sel_group_by s) && opt_ok printable (sel_having s) &&
  forallb (fun o => printable (ob_expr o)) (sel_order_by s) && opt_ok is_u63 (sel_limit s) && opt_ok is_u63 (sel_offset s).

(** The keywords after the table, in the order of the clauses. *)
Definition rank (t : Token) : option nat :=
  match t with
  | TJoin | TLeft | TRight => Some 0%nat
  | TWhere => Some 1%nat | TGroup => Some 2%nat | THaving => Some 3%nat | TOrder => Some 4%nat
  | TLimit => Some 5%nat | TOffset => Some 6%nat | TEof => Some 7%nat
  | _ => None
  end.

Definition follow (k : nat) (ts : list Token) : Prop :=
  match ts with
  | [] => False
  | t :: _ => match rank t with Some r => (k <= r)%nat | None => False end
  end.

Lemma follow_mono k k' ts : follow k ts -> (k' <= k)%nat -> follow k' ts.
Proof. destruct ts as [|t ts]; [done|]. simpl. destruct (rank t); [lia|done]. Qed.

Lemma follow_ne k ts : follow k ts -> ts <> [].
Proof. by destruct ts. Qed.

Lemma follow_stops k ts : follow k ts -> stops 0 ts.
Proof. destruct ts as [|[] ts]; done. Qed.

Lemma follow_head k ts : follow k ts -> head ts <> Some TComma.
Proof. destruct ts as [|[] ts]; done. Qed.

Lemma follow_app {A} k kw (pt : A -> list Token) o rest :
  follow (S k) rest -> rank kw = Some k -> follow k (print_clause [kw] pt o ++ rest).
Proof.
  intros Hr Hk. destruct o; cbn; [rewrite Hk; lia|]. by eapply follow_mono; [exact Hr|lia].
Qed.

Lemma follow_list {A} k kw kw' (pt : A -> list Token) l rest :
  follow (S k) rest -> rank kw = Some k -> follow k (print_list [kw; kw'] pt l ++ rest).
Proof.
  intros Hr Hk. destruct l; cbn; [by eapply follow_mono; [exact Hr|lia]|]. rewrite Hk. lia.
Qed.

Lemma clause_skip {A} k kw (d : A) p ts : follow (S k) ts -> rank kw = Some k -> clause kw d p ts = (Ret d, ts).
Proof.
  intros Hf Hk. destruct ts as [|t ts]; [done|]. unfold clause. rewrite peek_bind, tok_eqb_false; [done|].
  intros ->. simpl in Hf. rewrite Hk in Hf. lia.
Qed.

Lemma clause_take {A} kw (d : A) p ts : ts <> [] -> clause kw d p (kw :: ts) = p ts.
Proof. intros Hne. unfold clause. by psteps. Qed.

Lemma clause_ok {A} k kw (g : A -> option A) (pt : A -> list Token) p o rest :
  rank kw = Some k -> follow (S k) rest ->
  (forall a, o = Some a -> p (pt a ++ rest) = (Ret a, rest) /\ g a = Some a) ->
  clause kw None (g <$> p) (print_clause [kw] pt o ++ rest) = (Ret o, rest).
Proof.
  intros Hk Hf Hp. pose proof (follow_ne _ _ Hf). destruct o as [a|]; cbn [print_clause app]; [|by eapply clause_skip].
  destruct (Hp a eq_refl) as [E Eg]. rewrite clause_take by ne_tac. unfold fmap, st_fmap. erewrite bind_ret; [|exact E].
  by rewrite Eg.
Qed.

Lemma clause_list_ok {A} k kw (pt : A -> list Token) p fuel l rest :
  rank kw = Some k -> follow (S k) rest ->
  (forall x rest', In x l -> rest' = rest \/ head rest' = Some TComma -> (length (pt x ++ rest') <= fuel)%nat ->
    p (pt x ++ rest') = (Ret x, rest')) ->
  (length (print_list [kw; TBy] pt l ++ rest) <= fuel)%nat ->
  clause kw [] (_ ← expect TBy; parse_comma_separated fuel p) (print_list [kw; TBy] pt l ++ rest) = (Ret l, rest).
Proof.
  intros Hk Hf Hp Hlen. pose proof (follow_ne _ _ Hf) as Hne. unfold print_list in *.
  destruct l as [|x l]; cbn [app] in *; [by eapply clause_skip|]. set (xs := x :: l) in *.
  rewrite clause_take by ne_tac. psteps. cbn [length] in Hlen.
  apply (comma_separated_ok p pt fuel); [done|done|by eapply follow_head|done|lia|lia].
Qed.

Lemma alias_ok k a rest : (follow k rest \/ head rest = Some TComma \/ head rest = Some TFrom \/ head rest = Some TOn) ->
  parse_alias (print_alias a ++ rest) = (Ret a, rest).
Proof.
  intros Hr. assert (rest <> []) as Hne by (destruct rest; [by destruct Hr as [Hr|[Hr|[Hr|Hr]]]|done]).
  destruct a as [a|]; cbn [print_alias app]; unfold parse_alias; [by psteps|].
  destruct rest as [|t rest]; [done|]. rewrite peek_bind.
  destruct t; try done; by destruct Hr as [Hr|[Hr|[Hr|Hr]]].
Qed.

Lemma expr_ok fuel e k rest :
  printable e = true -> (follow k rest \/ (exists t ts, rest = t :: ts /\ cont t = None)) ->
  (length (body e ++ rest) <= fuel)%nat -> parse_expr fuel (body e ++ rest) = (Ret e, rest).
Proof.
  intros Hp Hr Hl. apply parse_expr_ok; [done| |done]. destruct Hr as [Hr|(t & ts & -> & Hc)]; [by eapply follow_stops|].
  cbn [stops]. by rewrite Hc.
Qed.

Lemma projection_parse fuel p rest :
  projection_ok p = true -> head rest = Some TComma \/ head rest = Some TFrom ->
  (length (print_projection p ++ rest) <= fuel)%nat -> parse_projection fuel (print_projection p ++ rest) = (Ret p, rest).
Proof.
  intros Hp Hr Hl. assert (exists t ts, rest = t :: ts /\ cont t = None) as (t & ts & -> & Hc).
  { destruct rest as [|t ts]; [by destruct Hr|]. exists t, ts. split; [done|].
    destruct Hr as [Hr|Hr]; injection Hr as ->; done. }
  destruct p as [|e a]; unfold parse_projection; cbn [print_projection]; [cbn [app]; by psteps|].
  cbn [projection_ok] in Hp. apply andb_true_iff in Hp as [Hp Hst]. cbn [print_projection] in Hl. rewrite <- app_assoc in *.
  destruct (starts_body e Hp) as (t0 & ts0 & E & _).
  assert (t0 <> TStar) as H0 by (intros ->; by rewrite E in Hst).
  rewrite E. cbn [app]. rewrite peek_bind, tok_eqb_false by done. rewrite app_comm_cons, <- E.
  erewrite bind_ret; [|apply (expr_ok fuel e 0); [done| |done]].
  2:{ right. destruct a; cbn; eauto. }
  erewrite bind_ret; [done|]. apply (alias_ok 0). tauto.
Qed.

Lemma table_ref_parse t k rest :
  follow k rest \/ head rest = Some TOn -> parse_table_ref (print_table_ref t ++ rest) = (Ret t, rest).
Proof.
  intros Hr. assert (rest <> []) as Hne by (destruct rest; [by destruct Hr|done]).
  unfold print_table_ref, parse_table_ref. cbn [app]. psteps. erewrite bind_ret; [|apply (alias_ok k); tauto]. by destruct t.
Qed.

Lemma joins_parse efuel joins rest : forall fuel acc,
  follow 1 rest -> forallb (fun j => printable (jc_condition j)) joins = true ->
  let toks := concat (map print_join joins) ++ rest in
  (length toks <= fuel)%nat -> (length toks <= efuel)%nat ->
  joins_loop efuel fuel acc toks = (Ret (acc ++ joins), rest).
Proof.
  induction joins as [|j joins IH]; intros fuel acc Hr Hj toks Hf He; unfold toks in *; cbn [map concat app] in *.
  - destruct rest as [|t rest]; [done|]. destruct fuel; [simpl in Hf; lia|]. cbn [joins_loop]. rewrite app_nil_r.
    rewrite (bind_ret join_kind _ (t :: rest) None (t :: rest)); [done|]. unfold join_kind. rewrite peek_bind. destruct t; try done; simpl in Hr; lia.
  - rewrite <- app_assoc in *. set (rest' := concat (map print_join joins) ++ rest) in *.
    cbn [forallb] in Hj. apply andb_true_iff in Hj as [Hj Hjs].
    assert (follow 0 rest') as Hr'.
    { unfold rest'. destruct joins as [|[[] ? ?] ?]; cbn; [by eapply follow_mono; [exact Hr|lia]|lia..]. }
    pose proof (follow_ne _ _ Hr') as Hne. unfold print_join in Hf, He |- *. rewrite <- !app_assoc in *. cbn [app] in *.
    destruct fuel as [|fuel]; [destruct (jc_kind j); simpl in Hf; lia|]. cbn [joins_loop].
    assert (length rest' < S fuel /\ length (body (jc_condition j) ++ rest') <= efuel)%nat as [Hl1 Hl2].
    { rewrite !length_app in *. cbn [length] in *. rewrite !length_app in *. destruct (jc_kind j); simpl in *; lia. }
    erewrite (bind_ret join_kind _ _ (Some (jc_kind j))).
    2:{ unfold join_kind. destruct (jc_kind j); cbn [app]; psteps; try done;
        (erewrite bind_ret; [|unfold eat_optional; by psteps]); by psteps. }
    cbv beta iota. erewrite bind_ret; [|apply (table_ref_parse _ 0); by right]. psteps.
    erewrite bind_ret; [|apply (expr_ok efuel _ 0); [done|by left|done]].
    rewrite (IH fuel); [rewrite <- app_assoc; by destruct j|done|done|fold rest'; lia|].
    fold rest'. rewrite length_app in Hl2. lia.
Qed.

Lemma order_by_parse fuel o rest :
  printable (ob_expr o) = true -> rest <> [] -> (length (print_order_by_item o ++ rest) <= fuel)%nat ->
  parse_order_by_item fuel (print_order_by_item o ++ rest) = (Ret o, rest).
Proof.
  intros Hp Hne Hl. unfold parse_order_by_item, print_order_by_item in *. rewrite <- app_assoc in *. cbn [app] in *.
  erewrite bind_ret; [|apply (expr_ok fuel _ 0); [done| |done]].
  2:{ right. destruct (ob_asc o); by eexists _, _. }
  destruct o as [e []]; cbn [ob_asc]; psteps; (erewrite bind_ret; [|by psteps]); done.
Qed.

Lemma limit_parse n rest : is_u63 n = true -> rest <> [] ->
  expect_int ([TIntLit n] ++ rest) = (Ret n, rest) /\ Some (wrap_u64 n) = Some n.
Proof.
  unfold is_u63. intros Hn Hne. split; [|f_equal; apply wrap_u64_small; unfold is_u64, i64_max in *; lia].
  unfold expect_int. cbn [app]. by psteps.
Qed.

Lemma in_comma_follow {A} (l : list A) x k rest rest' :
  In x l -> follow k rest -> rest' = rest \/ head rest' = Some TComma ->
  follow k rest' \/ exists t ts, rest' = t :: ts /\ cont t = None.
Proof.
  intros _ Hf [->|Hr]; [by left|right]. destruct rest' as [|t ts]; [done|]. injection Hr as ->. by eexists _, _.
Qed.

Lemma clause_expr_list k kw fuel l rest :
  rank kw = Some k -> follow (S k) rest -> forallb printable l = true ->
  (length (print_list [kw; TBy] body l ++ rest) <= fuel)%nat ->
  clause kw [] (_ ← expect TBy; parse_comma_separated fuel (parse_expr fuel)) (print_list [kw; TBy] body l ++ rest) = (Ret l, rest).
Proof.
  intros Hk Hf Hl Hlen. apply (clause_list_ok k); [done|done| |done]. intros x rest' Hin Hr Hx.
  apply (expr_ok fuel x (S k)); [by eapply forallb_forall in Hl|by eapply in_comma_follow|done].
Qed.

Lemma clause_order_list k kw fuel l rest :
  rank kw = Some k -> follow (S k) rest -> forallb (fun o => printable (ob_expr o)) l = true ->
  (length (print_list [kw; TBy] print_order_by_item l ++ rest) <= fuel)%nat ->
  clause kw [] (_ ← expect TBy; parse_comma_separated fuel (parse_order_by_item fuel))
    (print_list [kw; TBy] print_order_by_item l ++ rest) = (Ret l, rest).
Proof.
  intros Hk Hf Hl Hlen. apply (clause_list_ok k); [done|done| |done]. intros x rest' Hin Hr Hx.
  apply order_by_parse; [|destruct Hr as [->|Hr]; [by eapply follow_ne|by destruct rest']|done].
  eapply forallb_forall in Hl; [|done]. done.
Qed.

Lemma clause_expr k kw fuel o rest :
  rank kw = Some k -> follow (S k) rest -> opt_ok printable o = true ->
  (length (print_clause [kw] body o ++ rest) <= fuel)%nat ->
  clause kw None (Some <$> parse_expr fuel) (print_clause [kw] body o ++ rest) = (Ret o, rest).
Proof.
  intros Hk Hf Ho Hlen. apply (clause_ok k); [done|done|]. intros a ->. split; [|done].
  apply (expr_ok fuel a (S k)); [done|by left|]. simpl in Hlen. lia.
Qed.

Lemma clause_int k kw o rest :
  rank kw = Some k -> follow (S k) rest -> opt_ok is_u63 o = true ->
  clause kw None ((fun n => Some (wrap_u64 n)) <$> expect_int) (print_clause [kw] (fun n => [TIntLit n]) o ++ rest) = (Ret o, rest).
Proof.
  intros Hk Hf Ho. apply (clause_ok k); [done|done|]. intros a ->. apply limit_parse; [done|by eapply follow_ne].
Qed.

Lemma length_suffix {A} (l r : list A) k : (length (l ++ r) <= k)%nat -> (length r <= k)%nat.
Proof. rewrite length_app. lia. Qed.

(** The projections do not start with [DISTINCT]. *)
Lemma no_distinct ps rest :
  forallb projection_ok ps = true -> match ps with [] => false | _ => true end = true ->
  eat_optional TDistinct (commas print_projection ps ++ rest) = (Ret false, commas print_projection ps ++ rest).
Proof.
  destruct ps as [|p ps]; [done|]. cbn [forallb commas]. intros [Hp _]%andb_true_iff _.
  assert (exists t ts, print_projection p = t :: ts /\ t <> TDistinct) as (t & ts & -> & Ht).
  { destruct p as [|e a]; [by eexists _, _|]. apply andb_true_iff in Hp as [Hp _].
    destruct (starts_body e Hp) as (t & ts & E & _ & Ht & _). cbn [print_projection]. rewrite E. by eexists t, _. }
  cbn [app]. unfold eat_optional. rewrite peek_bind, tok_eqb_false; done.
Qed.

Lemma parse_select_ok fuel s :
  select_ok s = true -> (length (print_select s ++ [TEof]) <= fuel)%nat ->
  parse_select fuel (print_select s ++ [TEof]) = (Ret s, [TEof]).
Proof.
  unfold select_ok, print_select. intros Hok Hlen.
  apply andb_true_iff in Hok as [[[[[[[[Hpj Hpn]%andb_true_iff Hj]%andb_true_iff Hw]%andb_true_iff Hg]%andb_true_iff
    Hh]%andb_true_iff Ho]%andb_true_iff Hli]%andb_true_iff Hof].
  rewrite <- !app_comm_cons, <- !app_assoc, <- !app_comm_cons, <- !app_assoc in *.
  set (t6 := print_clause [TOffset] _ _ ++ [TEof]) in *. assert (follow 6 t6) as F6 by (apply follow_app; [cbn; lia|done]).
  set (t5 := print_clause [TLimit] _ _ ++ t6) in *. assert (follow 5 t5) as F5 by (by apply follow_app).
  set (t4 := print_list [TOrder; TBy] _ _ ++ t5) in *. assert (follow 4 t4) as F4 by (by apply follow_list).
  set (t3 := print_clause [THaving] _ _ ++ t4) in *. assert (follow 3 t3) as F3 by (by apply follow_app).
  set (t2 := print_list [TGroup; TBy] _ _ ++ t3) in *. assert (follow 2 t2) as F2 by (by apply follow_list).
  set (t1 := print_clause [TWhere] _ _ ++ t2) in *. assert (follow 1 t1) as F1 by (by apply follow_app).
  set (t0 := concat (map print_join (sel_joins s)) ++ t1) in *.
  assert (follow 0 t0) as F0.
  { unfold t0. destruct (sel_joins s) as [|[[] ? ?] ?]; cbn; [by eapply follow_mono; [exact F1|lia]|lia..]. }
  cbn [length] in Hlen. set (tf := TFrom :: print_table_ref (sel_from s) ++ t0) in *.
  assert (length tf <= fuel)%nat as Lf by (apply length_suffix with (l := commas print_projection (sel_projections s)); lia).
  assert (length t0 <= fuel)%nat as L0 by (unfold tf in Lf; cbn [length] in Lf; rewrite length_app in Lf; lia).
  pose proof (length_suffix _ _ _ L0) as L1. pose proof (length_suffix _ _ _ L1) as L2. pose proof (length_suffix _ _ _ L2) as L3.
  pose proof (length_suffix _ _ _ L3) as L4.
  unfold parse_select. rewrite expect_bind by (apply app_ne; done).
  erewrite bind_ret; [|by apply no_distinct].
  erewrite bind_ret; [|unfold parse_projections; apply (comma_separated_ok _ print_projection fuel); [by intros E; rewrite E in Hpn|done|done| |lia|lia]].
  2:{ intros x rest' Hin Hr Hx. apply projection_parse; [by eapply forallb_forall in Hpj| |done].
      destruct Hr as [->|Hr]; [by right|by left]. }
  unfold tf. rewrite expect_bind by (apply app_ne; by eapply follow_ne).
  erewrite bind_ret; [|apply (table_ref_parse _ 0); by left].
  erewrite bind_ret; [|unfold parse_joins, t0; by apply joins_parse].
  cbn [app]. unfold t1. erewrite bind_ret; [|by apply (clause_expr 1)].
  unfold t2. erewrite bind_ret; [|by apply (clause_expr_list 2)].
  unfold t3. erewrite bind_ret; [|by apply (clause_expr 3)].
  unfold t4. erewrite bind_ret; [|by apply (clause_order_list 4)].
  unfold t5. erewrite bind_ret; [|by apply (clause_int 5)].
  unfold t6. erewrite bind_ret; [|apply (clause_int 6); [done|cbn; lia|done]]. by destruct s.
Qed.

(** An interval literal means its number of units.  A decimal number of 64
    bits with its sign, with or without a space, followed by the name of a
    unit parses to the number times the unit in nanoseconds: exactly where
    the product fits 64 bits, and wrapped around to another length where it
    does not. *)
Theorem parse_interval_exact z gap u per :
  is_i64 z -> gap = ""%string \/ gap = " "%string -> In (u, per) interval_units ->
  parse_interval (show_i64 z +:+ gap +:+ u) = Ret (wrap_i64 (z * per)) /\
  (wrap_i64 (z * per) = z * per <-> is_i64 (z * per)).
Proof.
  intros Hz Hgap Hu. split; [by apply parse_interval_number|].
  split; [intros <-; apply wrap_i64_range|apply wrap_i64_small].
Qed.

Lemma parse_interval_exact_witness :
  parse_interval "90 days" = Ret (90 * 86400000000000) /\ parse_interval "106752 days" = Ret (-9223371273709551616).
Proof.
  destruct (parse_interval_exact 90 " " "days" 86400000000000 ltac:(unfold is_i64, i64_min, i64_max; lia) ltac:(by right) ltac:(simpl; tauto)) as [H1 _].
  destruct (parse_interval_exact 106752 " " "days" 86400000000000 ltac:(unfold is_i64, i64_min, i64_max; lia) ltac:(by right) ltac:(simpl; tauto)) as [H2 _].
  split; [exact H1|exact H2].
Defined.

(** C6: printing and parsing agree.  A statement of the grammar, printed with
    parentheses only where precedence and associativity need them, parses
    back to itself, from its tokens and, where every token has a spelling,
    from its text through the lexer.  Spellings are those of [spellable]:
    keywords, operators, integers, floats in full decimal expansion, text of
    ASCII characters other than the zero byte, and names without a double
    quote (the lexer has no escape for one).  The statements are the trees
    the parser builds ([printable]), with intervals of
    the lengths a literal can name, negative ones included. *)
Theorem parse_print_roundtrip s :
  select_ok s = true ->
  parse_statement (print_select s ++ [TEof]) = Ret (Select s) /\
  (forallb spellable (print_select s) = true -> parse_query (render (print_select s)) = Ret (Select s)).
Proof.
  intros Hok. assert (parse_statement (print_select s ++ [TEof]) = Ret (Select s)) as Hp.
  { unfold parse_statement, parse_statement_fuel. set (fuel := S _).
    pose proof (parse_select_ok fuel s Hok ltac:(unfold fuel; lia)) as H. unfold print_select at 1. cbn [app]. rewrite peek_bind.
    change (TSelect :: ?x ++ [TEof]) with (print_select s ++ [TEof]). fold (print_select s).
    erewrite bind_ret; [|erewrite bind_ret; [reflexivity|exact H]]. reflexivity. }
  split; [done|]. intros Hsp. unfold parse_query.
  by rewrite tokenise_render.
Qed.

Lemma parse_print_roundtrip_witness :
  let s := {| sel_projections := [PExpr (EFunction "count" [EStar]) (Some "n"%string); PExpr (EColumn (Some "l"%string) "body") None];
    sel_from := {| tr_name := "logs"; tr_alias := Some "l"%string |};
    sel_joins := [{| jc_kind := JLeft; jc_table := {| tr_name := "traces"; tr_alias := None |};
      jc_condition := EBinOp OpEq (EColumn None "a") (EColumn None "b") |}];
    sel_filter := Some (EBinOp OpAnd (EBinOp OpOr (EIsNotNull (EColumn None "x")) (EIn (EColumn None "y") [ELiteral (LInt 1); ELiteral (LFloat (f64_of_decimal 1 1))]))
      (EBinOp OpLt (EBinOp OpSub (EColumn None "t") (EBinOp OpSub (EInterval (-300000000000)) (ELiteral (LInt 3)))) (EUnaryOp Neg (ELiteral (LInt 7)))));
    sel_group_by := [EColumn None "m"]; sel_having := None;
    sel_order_by := [{| ob_expr := EColumn None "m"; ob_asc := false |}]; sel_limit := Some 100; sel_offset := Some 5 |} in
  parse_query (render (print_select s)) = Ret (Select s).
Proof. intros s. apply (parse_print_roundtrip s); vm_compute; reflexivity. Defined.
