(* ===== verification/Plan.v ===== *)
(** * Catalog, planner and optimizer

    [crates/infralens-query/src]: the tables and their partition statistics
    ([catalog.rs]), logical and physical plans ([planner.rs]), and the
    rewrites of [optimizer/rules.rs] with the join costs of
    [optimizer/cost.rs]. *)

From Stdlib Require Import ZArith Lia ZifyBool.
From stdpp Require Import base tactics list numbers option strings gmap.
From S2P Require Import Prelude Text Float64 Codec Model Wal ZoneMap Ast Lexer Parser.

(** ** Catalog *)

Record ColumnDesc := { cd_name : string; cd_type : DataType; cd_nullable : bool }.

Record TableStats := { ts_partition_key : Z; ts_min_timestamp_ns : Z; ts_max_timestamp_ns : Z; ts_row_count : Z }.

Record TableDesc := {
  td_name : string;
  td_schema : Schema;
  td_columns : list ColumnDesc;
  td_stats : list TableStats
}.

Definition from_schema (name : string) (schema : Schema) : TableDesc :=
  {| td_name := name; td_schema := schema;
     td_columns := map (fun f => {| cd_name := field_name f; cd_type := field_type f; cd_nullable := field_nullable f |}) schema;
     td_stats := [] |}.

Definition table_column (d : TableDesc) (name : string) : option ColumnDesc :=
  find (fun c => (cd_name c =? name)%string) (td_columns d).

(** The tables behind the lock. *)
Definition Catalog : Type := gmap string TableDesc.

Definition catalog_new : Catalog :=
  <["traces" := from_schema "traces" span_schema]>
  (<["metrics" := from_schema "metrics" metric_schema]>
  (<["logs" := from_schema "logs" log_schema]> ∅)).

(** [Catalog::default], which repeats [Catalog::new] without the [Arc]. *)
Definition catalog_default : Catalog :=
  <["traces" := from_schema "traces" span_schema]>
  (<["metrics" := from_schema "metrics" metric_schema]>
  (<["logs" := from_schema "logs" log_schema]> ∅)).

Definition get_table (c : Catalog) (name : string) : outcome QueryError TableDesc :=
  ok_or (c !! name) (Bind (Msg "unknown table '{name}'" [AStr name])).

Definition stats_of (key_zm : Z * ZoneMap) : TableStats :=
  let '(key, zm) := key_zm in
  {| ts_partition_key := key; ts_min_timestamp_ns := min_timestamp_ns zm;
     ts_max_timestamp_ns := max_timestamp_ns zm; ts_row_count := row_count zm |}.

Definition update_stats (c : Catalog) (table : string) (zone_maps : list (Z * ZoneMap)) : Catalog :=
  match c !! table with
  | Some d => <[table := {| td_name := td_name d; td_schema := td_schema d; td_columns := td_columns d;
                            td_stats := map stats_of zone_maps |}]> c
  | None => c
  end.

Definition overlapping_partitions (c : Catalog) (table : string) (start_ns end_ns : Z) : list Z :=
  match c !! table with
  | Some d => map ts_partition_key
      (List.filter (fun s => (ts_min_timestamp_ns s <=? end_ns) && (start_ns <=? ts_max_timestamp_ns s)) (td_stats d))
  | None => []
  end.

(** ** Plans *)

Record ScanOp := {
  sc_table : string;
  sc_predicate : option Expr;
  sc_projection : option (list string);
  sc_partition_filter : list Z;
  sc_limit : option Z
}.

Inductive JoinStrategy : Type := NestedLoop | HashJoin | SortMerge.

Record AggExpr := { ag_func : string; ag_arg : option Expr; ag_alias : string }.

Inductive LogicalPlan : Type :=
| Scan (op : ScanOp)
| Filter (predicate : Expr) (input : LogicalPlan)
| Project (columns : list string) (input : LogicalPlan)
| Aggregate (keys : list Expr) (aggregates : list AggExpr) (input : LogicalPlan)
| Sort (keys : list (Expr * bool)) (input : LogicalPlan)
| Limit (n offset : Z) (input : LogicalPlan)
| Join (kind : JoinKind) (left right : LogicalPlan) (condition : Expr).

Record PhysicalPlan := { pp_logical : LogicalPlan; pp_join_strategy : option JoinStrategy; pp_batch_size : Z }.

(** *** Planning *)

Definition agg_fns : list string := ["count"; "sum"; "avg"; "min"; "max"]%string.

(** [extract_aggregates]: the aggregate calls; the list of plain columns it
    also returns is not used. *)
Definition extract_aggregate (p : Projection) : option AggExpr :=
  match p with
  | PExpr (EFunction name args) alias =>
      let lname := to_ascii_lowercase name in
      if bool_decide (lname ∈ agg_fns) then
        Some {| ag_func := lname; ag_arg := head args; ag_alias := default name alias |}
      else None
  | _ => None
  end.

Definition extract_aggregates (ps : list Projection) : list AggExpr := filter_map extract_aggregate ps.

(** The name of a projected column. *)
Definition projected_column (p : Projection) : option string :=
  match p with
  | PExpr (EColumn _ name) alias => Some (default name alias)
  | PExpr _ (Some a) => Some a
  | _ => None
  end.

Definition scan_of (table : string) (limit : option Z) : LogicalPlan :=
  Scan {| sc_table := table; sc_predicate := None; sc_projection := None; sc_partition_filter := []; sc_limit := limit |}.

Definition plan_join (plan : LogicalPlan) (j : JoinClause) : LogicalPlan :=
  Join (jc_kind j) plan (scan_of (tr_name (jc_table j)) None) (jc_condition j).

(** [plan_select], one step per clause. *)
Definition plan_select (sel : SelectStatement) : LogicalPlan :=
  let plan := scan_of (tr_name (sel_from sel)) (sel_limit sel) in
  let plan := fold_left plan_join (sel_joins sel) plan in
  let plan := match sel_filter sel with Some pred => Filter pred plan | None => plan end in
  let agg_exprs := extract_aggregates (sel_projections sel) in
  let plan := match agg_exprs, sel_group_by sel with
              | [], [] => plan
              | _, _ => Aggregate (sel_group_by sel) agg_exprs plan
              end in
  let plan := match sel_having sel with Some having => Filter having plan | None => plan end in
  let plan := match filter_map projected_column (sel_projections sel) with
              | [] => plan
              | cols => Project cols plan
              end in
  let plan := match sel_order_by sel with
              | [] => plan
              | obs => Sort (map (fun o => (ob_expr o, ob_asc o)) obs) plan
              end in
  match sel_limit sel with
  | Some n => Limit n (default 0 (sel_offset sel)) plan
  | None => plan
  end.

Definition plan_statement (stmt : Statement) : LogicalPlan := match stmt with Select sel => plan_select sel end.

(** [optimizer/cost.rs]; the sum wraps around. *)
Definition estimated_rows (d : TableDesc) : Z := wrap_u64 (zsum (map ts_row_count (td_stats d))).

Definition choose_join_strategy (left_rows right_rows : Z) : JoinStrategy :=
  if (left_rows <=? 10000) || (right_rows <=? 10000) then NestedLoop
  else if (left_rows <=? 1000000) && (right_rows <=? 1000000) then HashJoin
  else SortMerge.

Fixpoint extract_scan_table (plan : LogicalPlan) : option string :=
  match plan with
  | Scan s => Some (sc_table s)
  | Filter _ input => extract_scan_table input
  | Project _ input => extract_scan_table input
  | _ => None
  end.

Definition plan_rows (c : Catalog) (plan : LogicalPlan) : Z :=
  default u64_max (t ← extract_scan_table plan; estimated_rows <$> ok (get_table c t)).

Definition pick_join_strategy (c : Catalog) (plan : LogicalPlan) : option JoinStrategy :=
  match plan with
  | Join _ l r _ => Some (choose_join_strategy (plan_rows c l) (plan_rows c r))
  | _ => None
  end.

Definition to_physical (c : Catalog) (logical : LogicalPlan) : PhysicalPlan :=
  {| pp_logical := logical; pp_join_strategy := pick_join_strategy c logical; pp_batch_size := 8192 |}.

(** ** Rewrites *)

Definition map_children (f : LogicalPlan -> LogicalPlan) (plan : LogicalPlan) : LogicalPlan :=
  match plan with
  | Scan s => Scan s
  | Filter p input => Filter p (f input)
  | Project cols input => Project cols (f input)
  | Aggregate keys aggs input => Aggregate keys aggs (f input)
  | Sort keys input => Sort keys (f input)
  | Limit n off input => Limit n off (f input)
  | Join k l r c => Join k (f l) (f r) c
  end.

Definition with_predicate (s : ScanOp) (p : option Expr) : ScanOp :=
  {| sc_table := sc_table s; sc_predicate := p; sc_projection := sc_projection s;
     sc_partition_filter := sc_partition_filter s; sc_limit := sc_limit s |}.

Definition with_projection (s : ScanOp) (cols : option (list string)) : ScanOp :=
  {| sc_table := sc_table s; sc_predicate := sc_predicate s; sc_projection := cols;
     sc_partition_filter := sc_partition_filter s; sc_limit := sc_limit s |}.

Definition with_partitions (s : ScanOp) (keys : list Z) : ScanOp :=
  {| sc_table := sc_table s; sc_predicate := sc_predicate s; sc_projection := sc_projection s;
     sc_partition_filter := keys; sc_limit := sc_limit s |}.

Fixpoint transform_plan (f : Expr -> Expr) (plan : LogicalPlan) : LogicalPlan :=
  match plan with
  | Filter p input => Filter (f p) (transform_plan f input)
  | Scan s => Scan (with_predicate s (f <$> sc_predicate s))
  | other => map_children (transform_plan f) other
  end.

(** The checked operators of [i64] that [fold_expr] uses. *)
Definition fold_int (op : BinOp) (a b : Z) : option Z :=
  match op with
  | OpAdd => checked_i64 (a + b)
  | OpSub => checked_i64 (a - b)
  | OpMul => checked_i64 (a * b)
  | OpDiv => if b =? 0 then None else checked_i64 (Z.quot a b)
  | OpMod => if b =? 0 then None else if (a =? i64_min) && (b =? -1) then None else Some (Z.rem a b)
  | _ => None
  end.

(** [fold_expr]; [now] is what the clock shows at planning. *)
Fixpoint fold_expr (now : Clock) (e : Expr) : Expr :=
  match e with
  | EFunction name args =>
      match args with
      | [] => if (name =? "now")%string then ELiteral (LInt (now [])) else e
      | _ => e
      end
  | EBinOp op l0 r0 =>
      let l := fold_expr (below now 0) l0 in
      let r := fold_expr (below now 1) r0 in
      match l, r with
      | ELiteral (LInt a), ELiteral (LInt b) =>
          match fold_int op a b with Some v => ELiteral (LInt v) | None => EBinOp op l r end
      | _, _ => EBinOp op l r
      end
  | other => other
  end.

(** [now] is what the clock shows while each of the expressions is folded. *)
Definition fold_constants (now : Expr -> Clock) : LogicalPlan -> LogicalPlan := transform_plan (fun e => fold_expr (now e) e).

Fixpoint predicate_pushdown (plan : LogicalPlan) : LogicalPlan :=
  match plan with
  | Filter p input =>
      match predicate_pushdown input with
      | Scan s => Scan (with_predicate s (Some p))
      | other => Filter p other
      end
  | other => map_children predicate_pushdown other
  end.

Fixpoint projection_pushdown (plan : LogicalPlan) : LogicalPlan :=
  match plan with
  | Project cols input =>
      match projection_pushdown input with
      | Scan s => Project cols (Scan (match sc_projection s with None => with_projection s (Some cols) | Some _ => s end))
      | other => Project cols other
      end
  | other => map_children projection_pushdown other
  end.

Definition is_ts (e : Expr) : bool := match e with EColumn _ name => (name =? "timestamp_ns")%string | _ => false end.
Definition as_u64 (e : Expr) : option Z := match e with ELiteral (LInt n) => Some (wrap_u64 n) | _ => None end.

Fixpoint extract_time_range (e : Expr) : option (Z * Z) :=
  match e with
  | EBinOp OpAnd l r =>
      match extract_time_range l, extract_time_range r with
      | Some (ls, _), Some (_, re) => Some (ls, re)
      | Some v, None | None, Some v => Some v
      | None, None => None
      end
  | EBinOp OpGtEq l r => if is_ts l then (fun v => (v, u64_max)) <$> as_u64 r else None
  | EBinOp OpLtEq l r => if is_ts l then (fun v => (0, v)) <$> as_u64 r else None
  | EBetween e low high =>
      if is_ts e then match as_u64 low, as_u64 high with Some lo, Some hi => Some (lo, hi) | _, _ => None end
      else None
  | _ => None
  end.

Definition prune_scan (c : Catalog) (s : ScanOp) : ScanOp :=
  match sc_predicate s with
  | Some pred =>
      match extract_time_range pred with
      | Some (start, stop) => with_partitions s (overlapping_partitions c (sc_table s) start stop)
      | None => s
      end
  | None => s
  end.

Fixpoint partition_prune (c : Catalog) (plan : LogicalPlan) : LogicalPlan :=
  match plan with
  | Scan s => Scan (prune_scan c s)
  | other => map_children (partition_prune c) other
  end.

(** [Optimizer::optimize]. *)
Definition optimize (c : Catalog) (now : Expr -> Clock) (plan : LogicalPlan) : LogicalPlan :=
  partition_prune c (projection_pushdown (predicate_pushdown (fold_constants now plan))).

(** ** Partition pruning *)

(** Whether a row with timestamp [t] can satisfy a predicate: the comparisons
    of the timestamp with a literal as numbers, anything else unknown. *)
Fixpoint may_hold (t : Z) (e : Expr) : bool :=
  match e with
  | EBinOp OpAnd l r => may_hold t l && may_hold t r
  | EBinOp OpGtEq l (ELiteral (LInt n)) => if is_ts l then n <=? t else true
  | EBinOp OpLtEq l (ELiteral (LInt n)) => if is_ts l then t <=? n else true
  | EBetween e (ELiteral (LInt lo)) (ELiteral (LInt hi)) => if is_ts e then (lo <=? t) && (t <=? hi) else true
  | _ => true
  end.

(** An integer literal is at most the largest [i64], and, where it is a lower
    bound, not negative. *)
Definition upper_lit (e : Expr) : bool := match e with ELiteral (LInt n) => n <=? i64_max | _ => true end.
Definition lower_lit (e : Expr) : bool := match e with ELiteral (LInt n) => (0 <=? n) && (n <=? i64_max) | _ => true end.

(** No lower bound on the time is negative. *)
Fixpoint time_literals (e : Expr) : bool :=
  match e with
  | EBinOp OpAnd l r => time_literals l && time_literals r
  | EBinOp OpGtEq l r => negb (is_ts l) || lower_lit r
  | EBinOp OpLtEq l r => negb (is_ts l) || upper_lit r
  | EBetween e lo hi => negb (is_ts e) || lower_lit lo && upper_lit hi
  | _ => true
  end.

Lemma as_u64_upper e v t : as_u64 e = Some v -> upper_lit e = true -> 0 <= t -> (forall n, e = ELiteral (LInt n) -> t <= n) -> t <= v.
Proof.
  destruct e as [|[n| | | | |]| | | | | | | | | | | | | | |]; try done. cbn. intros [= <-] H Ht Hn. specialize (Hn n eq_refl).
  rewrite wrap_u64_small; [done|]. unfold is_u64, i64_max in *. lia.
Qed.

Lemma as_u64_lower e v : as_u64 e = Some v -> lower_lit e = true -> e = ELiteral (LInt v).
Proof.
  destruct e as [|[]| | | | | | | | | | | | | | |]; try done. cbn. intros [= <-] H.
  rewrite wrap_u64_small; [done|]. unfold is_u64, i64_max in *. lia.
Qed.

Lemma time_range_sound t e s u :
  is_u64 t -> time_literals e = true -> may_hold t e = true -> extract_time_range e = Some (s, u) -> s <= t <= u.
Proof.
  intros Ht. revert s u. induction e using Expr_ind'; intros s u Hl Hh Hr; try done.
  - destruct op; try done; cbn [extract_time_range] in Hr; cbn [time_literals] in Hl.
    + destruct (is_ts e1) eqn:Et; [|done]. destruct (as_u64 e2) as [v|] eqn:Ev; [|done]. simplify_eq/=. split; [unfold is_u64 in Ht; lia|].
      apply (as_u64_upper e2 u t Ev Hl); [unfold is_u64 in Ht; lia|]. intros n ->. cbn [may_hold] in Hh. rewrite Et in Hh. lia.
    + destruct (is_ts e1) eqn:Et; [|done]. destruct (as_u64 e2) as [v|] eqn:Ev; [|done]. simplify_eq/=.
      rewrite (as_u64_lower e2 s Ev Hl) in *. cbn [may_hold] in Hh. rewrite Et in Hh. unfold is_u64, u64_max in *. lia.
    + apply andb_true_iff in Hl as [Hl1 Hl2]. cbn [may_hold] in Hh. apply andb_true_iff in Hh as [Hh1 Hh2].
      destruct (extract_time_range e1) as [[s1 u1]|]; destruct (extract_time_range e2) as [[s2 u2]|]; simplify_eq.
      * pose proof (IHe1 _ _ Hl1 Hh1 eq_refl). pose proof (IHe2 _ _ Hl2 Hh2 eq_refl). lia.
      * by apply IHe1.
      * by apply IHe2.
  - cbn [extract_time_range] in Hr. cbn [time_literals] in Hl.
    destruct (is_ts e1) eqn:Et; [|done]. destruct (as_u64 e2) as [lo|] eqn:El; [|done].
    destruct (as_u64 e3) as [hi|] eqn:Eh; [|done]. simplify_eq. cbn [negb orb] in Hl. apply andb_true_iff in Hl as [Hl1 Hl2].
    rewrite (as_u64_lower e2 s El Hl1) in *.
    assert (exists h, e3 = ELiteral (LInt h)) as [h E3] by (destruct e3 as [|[]| | | | | | | | | | | | | | |]; try done; eauto).
    subst e3. cbn [may_hold] in Hh. rewrite Et in Hh. split; [lia|].
    apply (as_u64_upper _ u t Eh Hl2); [unfold is_u64 in Ht; lia|]. intros n [= <-]. lia.
Qed.

Lemma overlapping_partitions_in c table d zms k zm t s u :
  c !! table = Some d -> In (k, zm) zms -> min_timestamp_ns zm <= t <= max_timestamp_ns zm -> s <= t <= u ->
  In k (overlapping_partitions (update_stats c table zms) table s u).
Proof.
  intros Hd Hin Ht Hs. unfold update_stats, overlapping_partitions. rewrite Hd. unfold Catalog. rewrite lookup_insert_eq. cbn [td_stats].
  apply in_map_iff. exists (stats_of (k, zm)). split; [done|]. apply filter_In. split; [by apply in_map|]. cbn. lia.
Qed.

Lemma overlapping_partitions_only c table d zms k s u :
  c !! table = Some d -> In k (overlapping_partitions (update_stats c table zms) table s u) ->
  exists zm, In (k, zm) zms /\ min_timestamp_ns zm <= u /\ s <= max_timestamp_ns zm.
Proof.
  intros Hd. unfold update_stats, overlapping_partitions. rewrite Hd. unfold Catalog. rewrite lookup_insert_eq. cbn [td_stats].
  intros H. apply in_map_iff in H as (st & <- & H). apply filter_In in H as [H Ho]. apply in_map_iff in H as ([k zm] & <- & H).
  exists zm. split; [done|]. cbn in *. lia.
Qed.

(** C24: partition pruning keeps every partition that matters.  The
    statistics are taken from zone maps, and no lower bound of the predicate
    on the time is a negative literal.  Where the optimizer finds no time
    range in the predicate it leaves the scan as it is.  Where it finds one,
    a partition whose time range has a timestamp at which the predicate can
    hold is in the filter of the scan, which is then not empty and so not
    taken for a scan of everything; and the filter has no other partitions
    than those whose range overlaps the range of the predicate. *)
Theorem partition_prune_sound c table d zms k zm t s p :
  c !! table = Some d -> In (k, zm) zms -> min_timestamp_ns zm <= t <= max_timestamp_ns zm -> is_u64 t ->
  sc_table s = table -> sc_predicate s = Some p -> time_literals p = true -> may_hold t p = true ->
  let s' := prune_scan (update_stats c table zms) s in
  match extract_time_range p with
  | None => s' = s
  | Some (start, stop) =>
      In k (sc_partition_filter s') /\
      forall k', In k' (sc_partition_filter s') ->
        exists zm', In (k', zm') zms /\ min_timestamp_ns zm' <= stop /\ start <= max_timestamp_ns zm'
  end.
Proof.
  intros Hd Hin Hz Ht <- Hp Hl Hh. unfold prune_scan. rewrite Hp.
  destruct (extract_time_range p) as [[start stop]|] eqn:Er; [|done]. cbn [sc_partition_filter with_partitions]. split.
  - eapply overlapping_partitions_in; [done|done|done|]. by eapply time_range_sound.
  - intros k'. by eapply overlapping_partitions_only.
Qed.

Definition scan_range : ScanOp :=
  {| sc_table := "logs"; sc_predicate := Some (EBinOp OpAnd
       (EBinOp OpGtEq (EColumn None "timestamp_ns") (ELiteral (LInt 150)))
       (EBinOp OpLtEq (EColumn None "timestamp_ns") (ELiteral (LInt 350))));
     sc_projection := None; sc_partition_filter := []; sc_limit := None |}.

Definition zone_at (lo hi : Z) : ZoneMap := {| min_timestamp_ns := lo; max_timestamp_ns := hi; row_count := 1; columns := ∅ |}.

Lemma partition_prune_sound_witness :
  let parts := sc_partition_filter (prune_scan (update_stats catalog_new "logs" [(1, zone_at 100 200); (2, zone_at 300 400); (3, zone_at 500 600)]) scan_range) in
  In 2 parts /\ forall k, In k parts -> exists zm, In (k, zm) [(1, zone_at 100 200); (2, zone_at 300 400); (3, zone_at 500 600)] /\
    min_timestamp_ns zm <= 350 /\ 150 <= max_timestamp_ns zm.
Proof.
  pose proof (fun d p H => partition_prune_sound catalog_new "logs" d [(1, zone_at 100 200); (2, zone_at 300 400); (3, zone_at 500 600)] 2
    (zone_at 300 400) 320 scan_range p H (or_intror (or_introl eq_refl))) as H.
  refine (H _ _ eq_refl _ _ eq_refl eq_refl eq_refl eq_refl); [cbn; lia|unfold is_u64; lia].
Defined.

(** ** [HAVING] without aggregates *)

Definition without_filter (sel : SelectStatement) : SelectStatement :=
  {| sel_projections := sel_projections sel; sel_from := sel_from sel; sel_joins := sel_joins sel; sel_filter := None;
     sel_group_by := sel_group_by sel; sel_having := sel_having sel; sel_order_by := sel_order_by sel;
     sel_limit := sel_limit sel; sel_offset := sel_offset sel |}.

(** The optimizer drops [WHERE] under [HAVING].  For a statement over one
    table with a [HAVING] clause, no aggregate and no [GROUP BY], the
    optimized plan is the one of the statement without its [WHERE] clause:
    pushing the second filter into the scan replaces the first. *)
Theorem having_replaces_where c now sel h :
  sel_joins sel = [] -> extract_aggregates (sel_projections sel) = [] -> sel_group_by sel = [] ->
  sel_having sel = Some h ->
  optimize c now (plan_select sel) = optimize c now (plan_select (without_filter sel)).
Proof.
  intros Hj Ha Hg Hh. unfold optimize. do 2 f_equal.
  unfold plan_select, without_filter. cbn [sel_projections sel_from sel_joins sel_filter sel_group_by sel_having sel_order_by sel_limit sel_offset].
  rewrite Hj, Ha, Hg, Hh. cbn [fold_left].
  destruct (sel_filter sel) as [w|]; [|done].
  destruct (filter_map projected_column (sel_projections sel)), (sel_order_by sel), (sel_limit sel); reflexivity.
Qed.

Lemma having_replaces_where_witness :
  exists sel w, parse_query "SELECT * FROM logs WHERE severity_number >= 17 HAVING body IS NOT NULL" = Ret (Select sel) /\
  sel_filter sel = Some w /\
  optimize catalog_new (fun _ _ => 0) (plan_select sel) = optimize catalog_new (fun _ _ => 0) (plan_select (without_filter sel)).
Proof.
  eexists _, _. split; [vm_compute; reflexivity|]. split; [reflexivity|].
  eapply (having_replaces_where catalog_new (fun _ _ => 0) _ (EIsNotNull (EColumn None "body"))); reflexivity.
Defined.
