(* ===== verification/Eval.v ===== *)
(** * Expression evaluation

    [crates/infralens-query/src/functions/eval.rs] and [temporal.rs]: an
    expression over a record batch gives an Arrow array.  The kernels of the
    Arrow crates are an interface with their documented behaviour. *)

From Stdlib Require Import ZArith Lia ZifyBool Ascii.
From stdpp Require Import base tactics list numbers option strings gmap.
From S2P Require Import Prelude Text Float64 Codec Model Arrow Wal Ast Plan.

(** ** Kernels *)

(** Element-wise on two nullable values: null where either is. *)
Definition lift2 {A B C} (f : A -> B -> C) (a : option A) (b : option B) : option C :=
  match a, b with Some a, Some b => Some (f a b) | _, _ => None end.

Definition holds_ordering (op : BinOp) (lt eq : bool) : bool :=
  match op with
  | OpEq => eq | OpNotEq => negb eq | OpLt => lt | OpLtEq => lt || eq
  | OpGt => negb (lt || eq) | OpGtEq => negb lt
  | _ => false
  end.

(** The checked element operators of [arrow_arith::numeric] on 64-bit
    integers: an overflow or a division by zero is an error. *)
Definition int_arith (op : BinOp) (a b : Z) : option Z :=
  match op with
  | OpAdd => checked_i64 (a + b)
  | OpSub => checked_i64 (a - b)
  | OpMul => checked_i64 (a * b)
  | OpDiv => if b =? 0 then None else checked_i64 (Z.quot a b)
  | _ => None
  end.

Definition is_cmp (op : BinOp) : bool :=
  match op with OpEq | OpNotEq | OpLt | OpLtEq | OpGt | OpGtEq => true | _ => false end.

(** What [value(i)] gives for a null slot, which Arrow leaves open. *)
Class NullSlots := { null_i64 : nat -> Z; null_f64 : nat -> f64; null_str : nat -> string }.

(** [arrow_ord::cmp], [arrow_arith::numeric], [compute::and], [or], [not] and
    [filter_record_batch]; the laws are about arrays of equal length, as the
    columns of a batch are. *)
Class Kernels := {
  nulls :: NullSlots;
  kcmp : BinOp -> ArrayRef -> ArrayRef -> option (list (option bool));
  karith : BinOp -> ArrayRef -> ArrayRef -> option ArrayRef;
  kand : list (option bool) -> list (option bool) -> option (list (option bool));
  kor : list (option bool) -> list (option bool) -> option (list (option bool));
  knot : list (option bool) -> option (list (option bool));
  kfilter : RecordBatch -> list (option bool) -> option RecordBatch;
  kcmp_int64 : forall op l r, is_cmp op = true -> length l = length r ->
    kcmp op (Int64Array l) (Int64Array r) = Some (zip_with (lift2 (fun a b => holds_ordering op (a <? b) (a =? b))) l r);
  kcmp_uint64 : forall op l r, is_cmp op = true -> length l = length r ->
    kcmp op (UInt64Array l) (UInt64Array r) = Some (zip_with (lift2 (fun a b => holds_ordering op (a <? b) (a =? b))) l r);
  karith_const : forall op a b n, op ∈ [OpAdd; OpSub; OpMul; OpDiv] ->
    karith op (Int64Array (replicate n (Some a))) (Int64Array (replicate n (Some b))) =
    match n with
    | O => Some (Int64Array [])
    | S _ => (fun v => Int64Array (replicate n (Some v))) <$> int_arith op a b
    end;
  kand_spec : forall l r, length l = length r -> kand l r = Some (zip_with (lift2 andb) l r);
  kor_spec : forall l r, length l = length r -> kor l r = Some (zip_with (lift2 orb) l r);
  knot_spec : forall l, knot l = Some (map (fmap negb) l);
  (** The rows whose mask is true, in order. *)
  kfilter_spec : forall b mask, batch_fits (rb_schema b) (rb_columns b) = true -> length mask = num_rows b ->
    exists b', kfilter b mask = Some b' /\ rb_schema b' = rb_schema b /\
      batch_fits (rb_schema b') (rb_columns b') = true /\
      batch_rows b' = map snd (List.filter (fun mr => match fst mr with Some true => true | _ => false end) (zip mask (batch_rows b)))
}.

Definition exec_error {A} (fmt : string) (args : list Arg) : outcome QueryError A := Fail (Execution (Msg fmt args)).

(** [map_err(QueryError::Arrow)]. *)
Definition arrow_result {A} (o : option A) : outcome QueryError A := ok_or o (QArrow "arrow").

(** [value(i)] for every slot. *)
Definition values {A} (fill : nat -> A) (l : list (option A)) : list A := imap (fun i => default (fill i)) l.
Definition ivalues {nulls : NullSlots} : list (option Z) -> list Z := values null_i64.
Definition fvalues {nulls : NullSlots} : list (option f64) -> list f64 := values null_f64.
Definition svalues {nulls : NullSlots} : list (option string) -> list string := values null_str.

Lemma length_values {A} (fill : nat -> A) l : length (values fill l) = length l.
Proof. apply length_imap. Qed.

(** ** Temporal functions ([temporal.rs]) *)

Definition time_bucket {nulls : NullSlots} (width_ns : Z) (ts : ArrayRef) : outcome QueryError ArrayRef :=
  if width_ns <=? 0 then exec_error "time_bucket width must be > 0" []
  else match ts with
  | UInt64Array l => Ret (UInt64Array (map (fun t => Some (t / width_ns * width_ns)) (ivalues l)))
  | _ => exec_error "time_bucket: expected UInt64 timestamp" []
  end.

Definition f64_1e9 : f64 := f64_of_Z 1000000000.

Definition rate (values : ArrayRef) (window_ns : Z) : outcome QueryError ArrayRef :=
  let window_s := f64_div (f64_of_Z window_ns) f64_1e9 in
  if f64_le window_s f64_zero then exec_error "rate: window must be > 0" []
  else
    let r := f64_div (f64_of_Z (Z.of_nat (array_len values))) window_s in
    Ret (Float64Array (replicate (array_len values) (Some r))).

Definition to_f64_slice {nulls : NullSlots} (arr : ArrayRef) : outcome QueryError (list f64) :=
  match arr with
  | Float64Array l => Ret (fvalues l)
  | Int64Array l => Ret (map f64_of_Z (ivalues l))
  | UInt64Array l => Ret (map f64_of_Z (ivalues l))
  | _ => exec_error "temporal function: unsupported numeric type" []
  end.

Definition delta {nulls : NullSlots} (values : ArrayRef) (window_ns : Z) : outcome QueryError ArrayRef :=
  arr ← to_f64_slice values;
  match arr with
  | [] => Ret (Float64Array [Some f64_zero])
  | x :: _ =>
      let d := f64_sub (List.last arr f64_zero) x in
      Ret (Float64Array (replicate (array_len values) (Some d)))
  end.

(** [sort_by(partial_cmp)]: a stable insertion sort of numbers. *)
Fixpoint f64_insert (x : f64) (l : list f64) : list f64 :=
  match l with
  | [] => [x]
  | y :: l' => if f64_lt x y then x :: l else y :: f64_insert x l'
  end.

Definition f64_sort (l : list f64) : list f64 := fold_left (fun acc x => f64_insert x acc) l [].

Definition f64_is_nan (x : f64) : bool := negb (f64_eq x x).

Definition histogram_quantile {nulls : NullSlots} (q : f64) (values : ArrayRef) (buckets : Z) : outcome QueryError ArrayRef :=
  if negb (f64_le f64_zero q && f64_le q (f64_of_Z 1)) then exec_error "histogram_quantile: q must be in [0, 1]" []
  else
    vals ← to_f64_slice values;
    match vals with
    | [] => Ret (Float64Array [Some f64_zero])
    | _ =>
        if (1 <? zlen vals) && existsb f64_is_nan vals then Panic
        else
          let n := zlen vals in
          let pos := f64_to_u64 (f64_round (f64_mul q (f64_sub (f64_of_Z n) (f64_of_Z 1)))) in
          let qval := nth (Z.to_nat (Z.min pos (n - 1))) (f64_sort vals) f64_zero in
          Ret (Float64Array (replicate (array_len values) (Some qval)))
    end.

(** ** Text patterns *)

(** [str::find] and [str::split] on a non-empty pattern. *)
Fixpoint sfind (fuel : nat) (p s : string) : option nat :=
  if starts_with p s then Some O
  else match fuel, s with
  | S fuel, String _ s' => S <$> sfind fuel p s'
  | _, _ => None
  end.

Definition find_str (p s : string) : option nat := sfind (String.length s) p s.

Fixpoint sdrop (n : nat) (s : string) : string :=
  match n, s with S n, String _ s => sdrop n s | _, _ => s end.

Fixpoint stake (n : nat) (s : string) : string :=
  match n, s with S n, String c s => String c (stake n s) | _, _ => "" end.

Fixpoint split_str (fuel : nat) (sep s : string) : list string :=
  match fuel, find_str sep s with
  | S fuel, Some pos => stake pos s :: split_str fuel sep (sdrop (pos + String.length sep) s)
  | _, _ => [s]
  end.

Definition ends_with (p s : string) : bool := starts_with (srev p "") (srev s "").

(** [pat.replace('%', ".*").replace('_', ".")]. *)
Fixpoint glob_to_regex (pat : string) : string :=
  match pat with
  | "" => ""
  | String "%" s => String "." (String "*" (glob_to_regex s))
  | String "_" s => String "." (glob_to_regex s)
  | String c s => String c (glob_to_regex s)
  end%string.

Definition wild : string := ".*".

(** The loop over the parts; [first] is the first turn. *)
Fixpoint like_parts (anchored first : bool) (parts : list string) (remaining : string) : option string :=
  match parts with
  | [] => Some remaining
  | "" :: parts => like_parts anchored false parts remaining
  | part :: parts =>
      match find_str part remaining with
      | Some pos =>
          if first && anchored && negb (pos =? 0)%nat then None
          else like_parts anchored false parts (sdrop (pos + String.length part) remaining)
      | None => None
      end
  end%string.

Definition simple_like_match (s pattern : string) : bool :=
  match find_str wild pattern with
  | Some _ =>
      match like_parts (negb (starts_with wild pattern)) true (split_str (String.length pattern) wild pattern) s with
      | Some remaining => ends_with wild pattern || (String.length remaining =? 0)%nat
      | None => false
      end
  | None => (s =? pattern)%string
  end.

Definition like (s pattern : string) : bool := simple_like_match s (glob_to_regex pattern).

Example like_ex1 : like "error: timeout" "%time%" = true.
Proof. reflexivity. Qed.
Example like_ex2 : like "error" "err%x" = false.
Proof. reflexivity. Qed.
Example like_first_match : like "abab" "a%b" = false.
Proof. reflexivity. Qed.
Example like_underscore : like "cat" "c_t" = false.
Proof. reflexivity. Qed.

(** ** Evaluation ([eval.rs]) *)

Section Eval.
Context {kernels : Kernels}.

Definition eval_literal (l : Literal) (nrows : nat) : ArrayRef :=
  match l with
  | LInt n => Int64Array (replicate nrows (Some n))
  | LFloat x => Float64Array (replicate nrows (Some x))
  | LStr s => StringArray (replicate nrows (Some s))
  | LBool b => BooleanArray (replicate nrows (Some b))
  | LNull => BooleanArray (replicate nrows None)
  | LIntervalNs n => Int64Array (replicate nrows (Some n))
  end.

(** A downcast to a boolean array, or the error. *)
Definition as_bool (a : ArrayRef) (msg : string) : outcome QueryError (list (option bool)) :=
  match a with BooleanArray l => Ret l | _ => exec_error msg [] end.

Definition compare_arrays (l r : ArrayRef) (op : BinOp) : outcome QueryError (list (option bool)) :=
  let unsupported := exec_error "unsupported comparison between {:?} and {:?}" [AType (data_type l); AType (data_type r)] in
  if is_cmp op then
    match l, r with
    | UInt64Array _, UInt64Array _ | Int64Array _, Int64Array _
    | Float64Array _, Float64Array _ | StringArray _, StringArray _ => arrow_result (kcmp op l r)
    | _, _ => unsupported
    end
  else unsupported.

Definition arithmetic_arrays (l r : ArrayRef) (op : BinOp) : outcome QueryError ArrayRef :=
  match op with
  | OpAdd | OpSub | OpMul | OpDiv =>
      match l, r with
      | Int64Array _, Int64Array _ | Float64Array _, Float64Array _ => arrow_result (karith op l r)
      | _, _ => exec_error "unsupported arithmetic types" []
      end
  | _ => exec_error "unsupported arithmetic types" []
  end.

(** [-a.value(i)] on every slot; the result has no nulls. *)
Definition negate_numeric (arr : ArrayRef) : outcome QueryError ArrayRef :=
  match arr with
  | Int64Array l => Ret (Int64Array (map (fun z => Some (wrap_i64 (- z))) (ivalues l)))
  | Float64Array l => Ret (Float64Array (map (fun x => Some (f64_neg x)) (fvalues l)))
  | _ => exec_error "unary minus on non-numeric type" []
  end.

Definition validity (a : ArrayRef) : list bool :=
  map (fun c => match c with CNull => false | _ => true end) (array_cells a).

(** [a.value(0)] panics on an empty array. *)
Definition scalar_i64 (arr : ArrayRef) : outcome QueryError Z :=
  match arr with
  | Int64Array l => match ivalues l with v :: _ => Ret v | [] => Panic end
  | UInt64Array l => match ivalues l with v :: _ => Ret (wrap_i64 v) | [] => Panic end
  | _ => exec_error "expected integer scalar" []
  end.

Definition scalar_f64 (arr : ArrayRef) : outcome QueryError f64 :=
  match arr with
  | Float64Array l => match fvalues l with v :: _ => Ret v | [] => Panic end
  | Int64Array l => match ivalues l with v :: _ => Ret (f64_of_Z v) | [] => Panic end
  | _ => exec_error "expected float scalar" []
  end.

(** [eval_binop] and [eval_function]; [eval_expr] is the call back, which
    takes the place of the part. *)
Definition eval_binop (eval_expr : nat -> Expr -> outcome QueryError ArrayRef) (op : BinOp) (left_e right_e : Expr)
    : outcome QueryError ArrayRef :=
  l ← eval_expr 0%nat left_e;
  r ← eval_expr 1%nat right_e;
  match op with
  | OpAnd =>
      lb ← as_bool l "AND: left not boolean"; rb ← as_bool r "AND: right not boolean";
      BooleanArray <$> arrow_result (kand lb rb)
  | OpOr =>
      lb ← as_bool l "OR: left not boolean"; rb ← as_bool r "OR: right not boolean";
      BooleanArray <$> arrow_result (kor lb rb)
  | OpAdd | OpSub | OpMul | OpDiv | OpMod => arithmetic_arrays l r op
  | cmp => BooleanArray <$> compare_arrays l r cmp
  end.

Definition eval_function (now : Clock) (batch : RecordBatch) (eval_expr : nat -> Expr -> outcome QueryError ArrayRef) (name : string) (args : list Expr)
    : outcome QueryError ArrayRef :=
  if (name =? "now")%string then Ret (Int64Array (replicate (num_rows batch) (Some (now []))))
  else if (name =? "time_bucket")%string then
    match args with
    | a0 :: a1 :: _ =>
        width_arr ← eval_expr 0%nat a0; width_ns ← scalar_i64 width_arr; ts ← eval_expr 1%nat a1; time_bucket width_ns ts
    | _ => exec_error "time_bucket(width, ts)" []
    end
  else if (name =? "rate")%string then
    match args with
    | a0 :: a1 :: _ =>
        vals ← eval_expr 0%nat a0; window ← eval_expr 1%nat a1; window_ns ← scalar_i64 window; rate vals window_ns
    | _ => exec_error "rate(value, window)" []
    end
  else if (name =? "delta")%string then
    match args with
    | a0 :: a1 :: _ =>
        vals ← eval_expr 0%nat a0; window ← eval_expr 1%nat a1; window_ns ← scalar_i64 window; delta vals window_ns
    | _ => exec_error "delta(value, window)" []
    end
  else if (name =? "histogram_quantile")%string then
    match args with
    | a0 :: a1 :: rest =>
        q_arr ← eval_expr 0%nat a0; q ← scalar_f64 q_arr; vals ← eval_expr 1%nat a1;
        buckets ← match rest with
                  | a2 :: _ => b ← eval_expr 2%nat a2; wrap_u32 <$> scalar_i64 b
                  | [] => Ret 50
                  end;
        histogram_quantile q vals buckets
    | _ => exec_error "histogram_quantile(q, col[, buckets])" []
    end
  else exec_error "unknown function '{other}'" [AStr name].

(** [now] is what the clock shows during the evaluation. *)
Fixpoint eval_expr (now : Clock) (batch : RecordBatch) (e : Expr) : outcome QueryError ArrayRef :=
  match e with
  | ELiteral l => Ret (eval_literal l (num_rows batch))
  | EColumn _ name => ok_or (column_by_name batch name) (Execution (Msg "column '{name}' not found" [AStr name]))
  | EStar => exec_error "cannot evaluate * as a value" []
  | EBinOp op l r => eval_binop (fun i => eval_expr (below now i) batch) op l r
  | EUnaryOp Neg operand => arr ← eval_expr (below now 0) batch operand; negate_numeric arr
  | EUnaryOp Not operand =>
      arr ← eval_expr (below now 0) batch operand; b ← as_bool arr "NOT requires boolean"; BooleanArray <$> arrow_result (knot b)
  | EIsNull e => arr ← eval_expr (below now 0) batch e; Ret (BooleanArray (map (fun v => Some (negb v)) (validity arr)))
  | EIsNotNull e => arr ← eval_expr (below now 0) batch e; Ret (BooleanArray (map Some (validity arr)))
  | EBetween e low high =>
      val ← eval_expr (below now 0) batch e; lo ← eval_expr (below now 1) batch low; hi ← eval_expr (below now 2) batch high;
      ge ← compare_arrays val lo OpGtEq; le ← compare_arrays val hi OpLtEq;
      BooleanArray <$> arrow_result (kand ge le)
  | EIn e items =>
      val ← eval_expr (below now 0) batch e;
      mask ← (fix loop (i : nat) (items : list Expr) (mask : list (option bool)) : outcome QueryError (list (option bool)) :=
        match items with
        | [] => Ret mask
        | item :: items =>
            cmp_arr ← eval_expr (below now i) batch item; eq ← compare_arrays val cmp_arr OpEq;
            mask ← arrow_result (kor mask eq); loop (S i) items mask
        end) 1%nat items (replicate (array_len val) (Some false));
      Ret (BooleanArray mask)
  | EFunction name args => eval_function now batch (fun i => eval_expr (below now i) batch) name args
  | ETimeBucket width_ns ts_expr => ts ← eval_expr (below now 0) batch ts_expr; time_bucket width_ns ts
  | ERate value_expr window_ns => vals ← eval_expr (below now 0) batch value_expr; rate vals window_ns
  | EDelta value_expr window_ns => vals ← eval_expr (below now 0) batch value_expr; delta vals window_ns
  | EHistogramQuantile q value_expr buckets => vals ← eval_expr (below now 0) batch value_expr; histogram_quantile q vals buckets
  | ENow => Ret (eval_literal (LInt (now [])) (num_rows batch))
  | EInterval ns => Ret (eval_literal (LInt ns) (num_rows batch))
  | ELike e pattern negated =>
      arr ← eval_expr (below now 0) batch e;
      match arr with
      | StringArray l =>
          Ret (BooleanArray (map (fun s => let m := like s pattern in Some (if negated then negb m else m)) (svalues l)))
      | _ => exec_error "LIKE requires text column" []
      end
  end.

Definition eval_filter (now : Clock) (batch : RecordBatch) (e : Expr) : outcome QueryError (list (option bool)) :=
  arr ← eval_expr now batch e; as_bool arr "filter expression must be boolean".
End Eval.

(** ** Reference kernels *)

Definition keep {A} (mask : list (option bool)) (l : list A) : list A :=
  map snd (List.filter (fun mr => match fst mr with Some true => true | _ => false end) (zip mask l)).

Definition keep_array (mask : list (option bool)) (a : ArrayRef) : ArrayRef :=
  match a with
  | UInt64Array l => UInt64Array (keep mask l)
  | Int64Array l => Int64Array (keep mask l)
  | Int32Array l => Int32Array (keep mask l)
  | Int8Array l => Int8Array (keep mask l)
  | Float64Array l => Float64Array (keep mask l)
  | StringArray l => StringArray (keep mask l)
  | BinaryArray l => BinaryArray (keep mask l)
  | BooleanArray l => BooleanArray (keep mask l)
  end.

Lemma keep_map {A B} (f : A -> B) mask l : keep mask (map f l) = map f (keep mask l).
Proof.
  unfold keep. revert l; induction mask as [|m mask IH]; intros [|x l]; try done. simpl.
  destruct m as [[]|]; simpl; rewrite IH; done.
Qed.

Lemma array_cells_keep mask a : array_cells (keep_array mask a) = keep mask (array_cells a).
Proof. destruct a; simpl; by rewrite keep_map. Qed.

Lemma array_len_keep mask a : array_len (keep_array mask a) = length (keep mask (array_cells a)).
Proof. by rewrite <- array_cells_keep, length_array_cells. Qed.

Lemma length_keep {A B} mask (l : list A) (r : list B) : length l = length r -> length (keep mask l) = length (keep mask r).
Proof.
  unfold keep. revert l r; induction mask as [|m mask IH]; intros [|x l] [|y r] H; try done. simpl in *.
  injection H as H. destruct m as [[]|]; simpl; rewrite ?(IH l r); done.
Qed.

(** The kept rows are the rows at the kept positions. *)
Lemma keep_rows mask cols ixs :
  Forall (fun c => length (array_cells c) = length ixs) cols -> length mask = length ixs ->
  (forall i, (i < length ixs)%nat -> nth i ixs O = i) -> forall k, (k < length (keep mask ixs))%nat ->
  map (fun c => nth k (keep mask (array_cells c)) CNull) cols = row_at cols (nth k (keep mask ixs) O).
Proof.
  intros Hc Hm Hix k Hk. unfold row_at. apply map_ext_in. intros c Hin.
  rewrite List.Forall_forall in Hc. specialize (Hc c Hin).
  assert (array_cells c = map (fun i => nth i (array_cells c) CNull) ixs) as E.
  { apply nth_ext with (d := CNull) (d' := CNull); [by rewrite length_map|]. intros i Hi.
    rewrite (nth_indep (map _ ixs) CNull (nth O (array_cells c) CNull)) by (rewrite length_map; lia).
    rewrite (map_nth (fun i => nth i (array_cells c) CNull)). rewrite Hix by lia. done. }
  rewrite E at 1. rewrite keep_map.
  rewrite (nth_indep (map _ (keep mask ixs)) CNull (nth O (array_cells c) CNull)) by (rewrite length_map; lia).
  by rewrite (map_nth (fun i => nth i (array_cells c) CNull)).
Qed.

Lemma columns_fit_len n s cols : columns_fit n s cols = true -> Forall (fun c => length (array_cells c) = n) cols.
Proof.
  revert s; induction cols as [|c cols IH]; intros [|f s] H; try done. simpl in H.
  apply andb_true_iff in H as [Hc H]. constructor; [|by eapply IH]. unfold column_fits in Hc.
  rewrite length_array_cells. apply andb_true_iff in Hc as [[_ Hc]%andb_true_iff _]. by apply Nat.eqb_eq.
Qed.

Lemma keep_batch_rows b mask :
  batch_fits (rb_schema b) (rb_columns b) = true -> length mask = num_rows b ->
  batch_rows {| rb_schema := rb_schema b; rb_columns := map (keep_array mask) (rb_columns b) |} = keep mask (batch_rows b).
Proof.
  intros Hf Hm. destruct b as [s [|c cols]]; [done|]. cbn [rb_schema rb_columns batch_fits] in *.
  set (n := array_len c) in *. assert (num_rows {| rb_schema := s; rb_columns := c :: cols |} = n) as Hn by done.
  apply columns_fit_len in Hf. unfold batch_rows. rewrite Hn in *. cbn [rb_columns]. rewrite keep_map.
  set (ixs := seq 0 n). assert (length ixs = n) as Hix by apply length_seq.
  assert (length (keep mask ixs) = num_rows {| rb_schema := s; rb_columns := map (keep_array mask) (c :: cols) |}) as Hl.
  { cbn [num_rows rb_columns map]. rewrite array_len_keep. apply length_keep. rewrite Hix.
    apply Forall_cons_1 in Hf as [Hc _]. by rewrite Hc. }
  rewrite <- Hl. apply nth_ext with (d := row_at [] O) (d' := row_at (c :: cols) O).
  { rewrite !length_map, length_seq. done. }
  intros k Hk. rewrite length_map, length_seq in Hk.
  rewrite (nth_indep _ (row_at [] O) (row_at (map (keep_array mask) (c :: cols)) O)) by (rewrite length_map, length_seq; lia).
  rewrite (map_nth (row_at (map (keep_array mask) (c :: cols)))), (map_nth (row_at (c :: cols))).
  rewrite seq_nth by done. cbn [Nat.add]. rewrite <- keep_rows; [|by rewrite Hix|by rewrite Hix| |done].
  - unfold row_at. rewrite map_map. apply map_ext. intros a. by rewrite array_cells_keep.
  - intros i Hi. unfold ixs. rewrite seq_nth; lia.
Qed.

Lemma no_nulls_keep {A} mask (l : list (option A)) : no_nulls l = true -> no_nulls (keep mask l) = true.
Proof.
  unfold no_nulls, keep. rewrite !forallb_forall. intros Hl x Hx. apply in_map_iff in Hx as ([m y] & <- & Hin).
  apply filter_In in Hin as [Hin _]. apply Hl. by eapply in_combine_r.
Qed.

Lemma keep_array_no_nulls mask a : array_no_nulls a = true -> array_no_nulls (keep_array mask a) = true.
Proof. destruct a; apply no_nulls_keep. Qed.

Lemma columns_fit_keep mask c n s cols : length (array_cells c) = n -> columns_fit n s cols = true ->
  columns_fit (length (keep mask (array_cells c))) s (map (keep_array mask) cols) = true.
Proof.
  intros Hc. revert s; induction cols as [|a cols IH]; intros [|f s] H; try done. cbn [columns_fit map] in *.
  apply andb_true_iff in H as [Ha H]. rewrite (IH s H), andb_true_r. unfold column_fits in *.
  apply andb_true_iff in Ha as [[Ht%bool_decide_eq_true_1 Hl%Nat.eqb_eq]%andb_true_iff Hn].
  assert (data_type (keep_array mask a) = data_type a) as -> by by destruct a.
  rewrite Ht, array_len_keep, bool_decide_eq_true_2 by done.
  rewrite (length_keep mask (array_cells a) (array_cells c)) by (rewrite length_array_cells; lia). rewrite Nat.eqb_refl. cbn.
  destruct (field_nullable f); [done|]. by apply keep_array_no_nulls.
Qed.

Definition kcmp_reference (op : BinOp) (l r : ArrayRef) : option (list (option bool)) :=
  match l, r with
  | UInt64Array a, UInt64Array b | Int64Array a, Int64Array b =>
      Some (zip_with (lift2 (fun a b => holds_ordering op (a <? b) (a =? b))) a b)
  | Float64Array a, Float64Array b => Some (zip_with (lift2 (fun a b => holds_ordering op (f64_lt a b) (f64_eq a b))) a b)
  | StringArray a, StringArray b =>
      Some (zip_with (lift2 (fun a b => holds_ordering op (String.ltb a b) (String.eqb a b))) a b)
  | _, _ => None
  end.

(** A nullable operation that can fail, over two arrays. *)
Fixpoint arith_all (f : Z -> Z -> option Z) (l r : list (option Z)) : option (list (option Z)) :=
  match l, r with
  | Some a :: l, Some b :: r => v ← f a b; vs ← arith_all f l r; Some (Some v :: vs)
  | _ :: l, _ :: r => vs ← arith_all f l r; Some (None :: vs)
  | _, _ => Some []
  end.

Definition karith_reference (op : BinOp) (l r : ArrayRef) : option ArrayRef :=
  match l, r with
  | Int64Array a, Int64Array b => Int64Array <$> arith_all (int_arith op) a b
  | _, _ => None
  end.

Lemma arith_all_const f a b n :
  arith_all f (replicate n (Some a)) (replicate n (Some b)) =
  match n with O => Some [] | S _ => (fun v => replicate n (Some v)) <$> f a b end.
Proof.
  induction n as [|n IH]; [done|]. cbn [replicate arith_all]. rewrite IH. destruct (f a b); [|done]. cbn. by destruct n.
Qed.

Lemma karith_reference_const op a b n : op ∈ [OpAdd; OpSub; OpMul; OpDiv] ->
  karith_reference op (Int64Array (replicate n (Some a))) (Int64Array (replicate n (Some b))) =
  match n with O => Some (Int64Array []) | S _ => (fun v => Int64Array (replicate n (Some v))) <$> int_arith op a b end.
Proof. intros _. cbn. rewrite arith_all_const. destruct n; [done|]. by destruct (int_arith op a b). Qed.

Definition kfilter_reference (b : RecordBatch) (mask : list (option bool)) : option RecordBatch :=
  Some {| rb_schema := rb_schema b; rb_columns := map (keep_array mask) (rb_columns b) |}.

Lemma kfilter_reference_spec b mask :
  batch_fits (rb_schema b) (rb_columns b) = true -> length mask = num_rows b ->
  exists b', kfilter_reference b mask = Some b' /\ rb_schema b' = rb_schema b /\
    batch_fits (rb_schema b') (rb_columns b') = true /\
    batch_rows b' = map snd (List.filter (fun mr => match fst mr with Some true => true | _ => false end) (zip mask (batch_rows b))).
Proof.
  intros Hf Hm. eexists. split; [done|]. split; [done|]. split; [|by apply keep_batch_rows].
  destruct b as [s [|c cols]]; [done|]. cbn [rb_schema rb_columns map batch_fits] in *.
  rewrite (array_len_keep mask c). apply (columns_fit_keep mask c (array_len c) s (c :: cols)); [apply length_array_cells|done].
Qed.

(** Zero and the empty text, which the builders of Arrow append. *)
Definition nulls_zero : NullSlots := {| null_i64 := fun _ => 0; null_f64 := fun _ => f64_zero; null_str := fun _ => ""%string |}.

Definition kernels_reference : Kernels.
Proof.
  refine {| nulls := nulls_zero; kcmp := kcmp_reference; karith := karith_reference;
    kand := fun l r => Some (zip_with (lift2 andb) l r); kor := fun l r => Some (zip_with (lift2 orb) l r);
    knot := fun l => Some (map (fmap negb) l); kfilter := kfilter_reference;
    karith_const := karith_reference_const; kfilter_spec := kfilter_reference_spec |}; done.
Defined.

(** ** Constant folding and time ranges *)

(** The calls of [now] that folding replaces, by their place: those without
    arguments below binary operators only. *)
Fixpoint folded_at (e : Expr) (place : list nat) : bool :=
  match e with
  | EFunction name [] => match place with [] => (name =? "now")%string | _ => false end
  | EBinOp _ l r => match place with O :: place => folded_at l place | 1%nat :: place => folded_at r place | _ => false end
  | _ => false
  end.

(** The readings an expression gets when it is folded at planning and what
    is left of it evaluated later. *)
Definition planned (e : Expr) (plan now : Clock) : Clock := fun place => if folded_at e place then plan place else now place.

(** Whether the value of the expression depends on the clock. *)
Fixpoint reads_clock (e : Expr) : bool :=
  match e with
  | EColumn _ _ | ELiteral _ | EStar | EInterval _ => false
  | EBinOp _ l r => reads_clock l || reads_clock r
  | EUnaryOp _ e | EIsNull e | EIsNotNull e | ELike e _ _ => reads_clock e
  | EBetween e low high => reads_clock e || reads_clock low || reads_clock high
  | EIn e items => reads_clock e || existsb reads_clock items
  | EFunction name args => (name =? "now")%string || existsb reads_clock args
  | ETimeBucket _ e | ERate e _ | EDelta e _ | EHistogramQuantile _ e _ => reads_clock e
  | ENow => true
  end.

Section Folding.
Context {kernels : Kernels} (batch : RecordBatch).

Lemma fold_binop_arith op a b v :
  fold_int op a b = Some v -> op ∈ [OpAdd; OpSub; OpMul; OpDiv; OpMod] /\ (op <> OpMod -> int_arith op a b = Some v).
Proof. destruct op; try done; intros H; (split; [set_solver|done]). Qed.

(** Folding two literals agrees with the kernel. *)
Lemma fold_ints_sound now op a b v arr :
  fold_int op a b = Some v ->
  eval_expr now batch (EBinOp op (ELiteral (LInt a)) (ELiteral (LInt b))) = Ret arr ->
  arr = eval_literal (LInt v) (num_rows batch).
Proof.
  intros Hf He. destruct (fold_binop_arith _ _ _ _ Hf) as [Hop Hi]. cbn [eval_expr] in He. unfold eval_binop in He. cbn [eval_expr eval_literal mbind outcome_bind] in He.
  assert (op <> OpMod) as Hm by (intros ->; done). specialize (Hi Hm).
  assert (op ∈ [OpAdd; OpSub; OpMul; OpDiv]) as Hop4 by (destruct op; set_solver).
  assert (arithmetic_arrays (Int64Array (replicate (num_rows batch) (Some a))) (Int64Array (replicate (num_rows batch) (Some b))) op = Ret arr) as Ha.
  { destruct op; try done; set_solver. }
  clear He. unfold arithmetic_arrays in Ha. rewrite karith_const, Hi in Ha by done. cbn [eval_literal].
  destruct op; try (exfalso; set_solver); destruct (num_rows batch); simpl in Ha; by simplify_eq.
Qed.

Lemma eval_binop_sub now op l r arr : eval_expr now batch (EBinOp op l r) = Ret arr ->
  exists la ra, eval_expr (below now 0) batch l = Ret la /\ eval_expr (below now 1) batch r = Ret ra /\
    forall now' l' r', eval_expr (below now' 0) batch l' = Ret la -> eval_expr (below now' 1) batch r' = Ret ra ->
      eval_expr now' batch (EBinOp op l' r') = Ret arr.
Proof.
  cbn [eval_expr]. unfold eval_binop. intros H. apply bind_Ret in H as (la & El & H). apply bind_Ret in H as (ra & Er & H).
  exists la, ra. split_and!; [done|done|]. intros now' l' r' El' Er'. cbn [eval_expr]. unfold eval_binop. rewrite El', Er'. exact H.
Qed.

Lemma fold_expr_eval plan now e arr :
  eval_expr (planned e plan now) batch e = Ret arr -> eval_expr now batch (fold_expr plan e) = Ret arr.
Proof.
  revert plan now arr. induction e using Expr_ind'; intros plan now arr He; try exact He.
  - cbn [fold_expr]. destruct (eval_binop_sub _ op e1 e2 arr He) as (la & ra & El & Er & Hsub).
    specialize (IHe1 (below plan 0) (below now 0) la El). specialize (IHe2 (below plan 1) (below now 1) ra Er).
    specialize (Hsub now _ _ IHe1 IHe2).
    destruct (fold_expr _ e1) as [|[a| | | | |]| | | | | | | | | | | | | | |] eqn:E1; try exact Hsub.
    destruct (fold_expr _ e2) as [|[b| | | | |]| | | | | | | | | | | | | | |] eqn:E2; try exact Hsub.
    destruct (fold_int op a b) as [v|] eqn:Ef; [|exact Hsub].
    rewrite (fold_ints_sound now op a b v arr Ef Hsub). done.
  - cbn [fold_expr]. destruct args as [|x args]; [|exact He].
    cbn [eval_expr] in He. unfold eval_function, planned in He. cbn [folded_at] in He.
    destruct (String.eqb_spec n "now") as [->|Hn]; [exact He|]. cbn [eval_expr]. unfold eval_function.
    by rewrite (proj2 (String.eqb_neq n "now") Hn).
Qed.

(** An expression that does not read the clock has one value. *)
Lemma eval_clock_free e : reads_clock e = false -> forall now now', eval_expr now batch e = eval_expr now' batch e.
Proof.
  induction e using Expr_ind'; cbn [reads_clock]; intros Hc now now'; try done;
    repeat match goal with H : _ || _ = false |- _ => apply orb_false_iff in H as [? ?] end; cbn [eval_expr].
  - unfold eval_binop. by rewrite (IHe1 ltac:(done) _ (below now' 0)), (IHe2 ltac:(done) _ (below now' 1)).
  - by destruct op; rewrite (IHe Hc _ (below now' 0)).
  - by rewrite (IHe Hc _ (below now' 0)).
  - by rewrite (IHe Hc _ (below now' 0)).
  - by rewrite (IHe1 ltac:(done) _ (below now' 0)), (IHe2 ltac:(done) _ (below now' 1)), (IHe3 ltac:(done) _ (below now' 2)).
  - rewrite (IHe ltac:(done) _ (below now' 0)). destruct (eval_expr (below now' 0) batch e) as [val| |]; [|done|done].
    cbn [mbind outcome_bind]. f_equal. generalize 1%nat, (replicate (array_len val) (Some false)).
    induction H as [|x l Hx Hl IHl]; [done|]. cbn [existsb] in *. apply orb_false_iff in H1 as [Hx' Hl'].
    intros i mask. rewrite (Hx Hx' _ (below now' i)). destruct (eval_expr (below now' i) batch x); [|done|done]. cbn [mbind outcome_bind].
    destruct (compare_arrays _ _ _); [|done|done]. cbn [mbind outcome_bind]. destruct (arrow_result _); [|done|done]. by apply IHl.
  - by rewrite (IHe Hc _ (below now' 0)).
  - unfold eval_function. rewrite H0.
    assert (forall i x, args !! i = Some x -> forall n m, eval_expr n batch x = eval_expr m batch x) as Ha.
    { intros i x Hx. rewrite Forall_lookup in H. apply (H i x Hx). destruct (reads_clock x) eqn:E; [|done].
      assert (existsb reads_clock args = true) as Hx2; [|congruence]. apply existsb_exists. exists x. split; [|done].
      apply base.list_elem_of_In. by eapply list_elem_of_lookup_2. }
    destruct args as [|a0 [|a1 rest]]; [done|by repeat case_match|].
    rewrite (Ha 0%nat a0 eq_refl _ (below now' 0)), (Ha 1%nat a1 eq_refl _ (below now' 1)).
    destruct rest as [|a2 rest]; [done|]. by rewrite (Ha 2%nat a2 eq_refl _ (below now' 2)).
  - by rewrite (IHe Hc _ (below now' 0)).
  - by rewrite (IHe Hc _ (below now' 0)).
  - by rewrite (IHe Hc _ (below now' 0)).
  - by rewrite (IHe Hc _ (below now' 0)).
Qed.
End Folding.

(** C22: constant folding is sound.  An expression is folded with what the
    clock shows at planning and evaluated later, with other readings.  The
    folded expression then has the value the expression has when the calls
    of now() that folding replaces read the clock at planning and all other
    calls read it during the evaluation; where the expression does not read
    the clock, it has the value of the expression at any time.  A fold never
    turns a value into an error or another value. *)
Theorem fold_expr_sound {kernels : Kernels} plan now batch e arr :
  (eval_expr (planned e plan now) batch e = Ret arr -> eval_expr now batch (fold_expr plan e) = Ret arr) /\
  (forall other, reads_clock e = false -> eval_expr other batch e = Ret arr -> eval_expr now batch (fold_expr plan e) = Ret arr).
Proof.
  split; [apply fold_expr_eval|]. intros other Hc He. apply fold_expr_eval. by rewrite (eval_clock_free batch e Hc _ other).
Qed.

(** A batch of two rows, and the reference kernels. *)
Definition two_rows : RecordBatch :=
  {| rb_schema := [F "timestamp_ns" UInt64 false; F "v" Int64 true];
     rb_columns := [UInt64Array [Some 10; Some 20]; Int64Array [Some 1; None]] |}.

(** Planned at 1000 and evaluated at 2000. *)
Lemma fold_expr_sound_witness :
  let e := EBinOp OpSub (EFunction "now" []) (EBinOp OpMul (ELiteral (LInt 6)) (ELiteral (LInt 7))) in
  let k := EBinOp OpAdd (EColumn None "v") (EBinOp OpMul (ELiteral (LInt 6)) (ELiteral (LInt 7))) in
  eval_expr (kernels := kernels_reference) (fun _ => 2000) two_rows (fold_expr (fun _ => 1000) e) = Ret (Int64Array [Some 958; Some 958]) /\
  eval_expr (kernels := kernels_reference) (fun _ => 2000) two_rows (fold_expr (fun _ => 1000) k) = Ret (Int64Array [Some 43; None]).
Proof.
  split; [apply (fold_expr_sound (kernels := kernels_reference) (fun _ => 1000) (fun _ => 2000) two_rows); vm_compute; reflexivity|].
  eapply (fold_expr_sound (kernels := kernels_reference) (fun _ => 1000) (fun _ => 2000) two_rows _ _) with (other := fun _ => 0);
    vm_compute; reflexivity.
Defined.

(** The timestamp column of a batch is unsigned, if there is one. *)
Definition ts_unsigned (batch : RecordBatch) : bool :=
  match column_by_name batch "timestamp_ns" with Some (UInt64Array _) | None => true | _ => false end.

Lemma time_range_unevaluable {kernels : Kernels} now batch p range arr :
  ts_unsigned batch = true -> extract_time_range p = Some range ->
  eval_expr now batch p <> Ret arr.
Proof.
  unfold ts_unsigned. intros Hcol. revert now range arr. induction p using Expr_ind'; intros now range arr Hr He; try done.
  - assert (forall e k, is_ts e = true -> as_u64 k <> None -> forall op, is_cmp op = true ->
      eval_expr now batch (EBinOp op e k) <> Ret arr) as Hcmp.
    { intros e k Hts Hk op' Hop H. destruct e; try done. apply String.eqb_eq in Hts. subst name.
      destruct k; try done. destruct l; try done. cbn [eval_expr] in H. unfold eval_binop in H. cbn [eval_expr] in H.
      destruct (column_by_name batch _) as [[]|]; try done; destruct op'; try done. }
    destruct op; try done; cbn [extract_time_range] in Hr.
    + destruct (is_ts p1) eqn:Et; [|done]. apply (Hcmp p1 p2 Et) with (op := OpLtEq); [by destruct (as_u64 p2)|done|done].
    + destruct (is_ts p1) eqn:Et; [|done]. apply (Hcmp p1 p2 Et) with (op := OpGtEq); [by destruct (as_u64 p2)|done|done].
    + destruct (eval_binop_sub batch now OpAnd p1 p2 arr He) as (la & ra & El & Er & _).
      destruct (extract_time_range p1) as [r1|] eqn:E1; [by eapply (IHp1 _ r1 la)|].
      destruct (extract_time_range p2) as [r2|] eqn:E2; [by eapply (IHp2 _ r2 ra)|done].
  - cbn [extract_time_range] in Hr. destruct (is_ts p1) eqn:Et; [|done]. destruct p1; try done.
    apply String.eqb_eq in Et. subst name. destruct (as_u64 p2) as [lo|] eqn:El; [|done].
    destruct p2; try done. destruct l; try done. cbn [eval_expr] in He.
    destruct (column_by_name batch _) as [[]|]; try done. cbn [ok_or mbind outcome_bind eval_literal] in He.
    apply bind_Ret in He as (hi & _ & He). done.
Qed.

(** C40: predicates on the time never evaluate.  On a batch whose
    timestamps are a 64-bit unsigned column, as in logs and metrics, or that
    has none, as in traces, every predicate the optimizer takes a time range
    from fails: the literal is a signed array, and no comparison of the two
    types is supported. *)
Theorem time_range_predicate_fails {kernels : Kernels} now batch p range arr :
  ts_unsigned batch = true -> extract_time_range p = Some range ->
  eval_expr now batch p <> Ret arr.
Proof. apply time_range_unevaluable. Qed.

Lemma time_range_predicate_fails_witness :
  eval_expr (kernels := kernels_reference) (fun _ => 0) two_rows
    (EBinOp OpGtEq (EColumn None "timestamp_ns") (ELiteral (LInt 5))) <> Ret (BooleanArray [Some true; Some true]).
Proof.
  apply (time_range_predicate_fails (kernels := kernels_reference) (fun _ => 0) two_rows _ (5, u64_max)); reflexivity.
Defined.
