(* ===== verification/Executor.v ===== *)
(** * The executor

    [crates/infralens-query/src/executor]: operators that pull record
    batches from their child.  The trait is a class, a boxed operator hides
    its state type, and each operator is an instance over the state of its
    child.  A loop over a child is bounded by the number of batches the child
    can still give ([budget]). *)

From Stdlib Require Import ZArith Lia ZifyBool.
From stdpp Require Import base tactics list numbers option strings gmap.
From S2P Require Import Prelude Text Float64 Codec Model Arrow Fs Wal SSTable Partition Compaction Engine Ast Lexer Parser Plan Eval.

(** ** The trait *)

Abbreviation polled := (outcome QueryError (option RecordBatch)).

Class PhysicalOperator (S : Type) := {
  op_schema : S -> Schema;
  poll_next : S -> polled * S;
  (** An upper bound on the batches still to come. *)
  budget : S -> nat
}.

(** A batch uses up some of the budget. *)
Class OperatorLaws (S : Type) `{PhysicalOperator S} := {
  poll_budget : forall s b s', poll_next s = (Ret (Some b), s') -> (budget s' < budget s)%nat
}.

(** [while let Some(b) = op.poll_next()? { batches.push(b); }]. *)
Fixpoint drain_loop {S} `{PhysicalOperator S} (fuel : nat) (s : S) (acc : list RecordBatch) : outcome QueryError (list RecordBatch) * S :=
  match fuel with
  | O => (Panic, s)
  | Datatypes.S fuel =>
      match poll_next s with
      | (Ret (Some b), s) => drain_loop fuel s (acc ++ [b])
      | (Ret None, s) => (Ret acc, s)
      | (Fail e, s) => (Fail e, s)
      | (Panic, s) => (Panic, s)
      end
  end.

Definition drain {S} `{PhysicalOperator S} (s : S) : outcome QueryError (list RecordBatch) * S :=
  drain_loop (Datatypes.S (budget s)) s [].

(** ** Scan ([scan.rs]) *)

Record ScanOperator := { so_schema : Schema; so_batches : list RecordBatch; so_batch_size : nat }.

Definition scan_poll (s : ScanOperator) : polled * ScanOperator :=
  match so_batches s with
  | [] => (Ret None, s)
  | b :: bs => (Ret (Some b), {| so_schema := so_schema s; so_batches := bs; so_batch_size := so_batch_size s |})
  end.

#[export] Instance scan_operator : PhysicalOperator ScanOperator := {
  op_schema := so_schema;
  poll_next := scan_poll;
  budget := fun s => length (so_batches s)
}.

#[export] Instance scan_laws : OperatorLaws ScanOperator.
Proof. split. intros [sch [|b0 bs] n] b s' [= <- <-]. simpl. lia. Qed.

Definition infralens_storage_schema_for (table : string) : outcome QueryError Schema :=
  if (table =? "logs")%string then Ret log_schema
  else if (table =? "metrics")%string then Ret metric_schema
  else if (table =? "traces")%string then Ret span_schema
  else Fail (Bind (Msg "unknown table '{other}'" [AStr table])).

Definition signal_for_table (table : string) : outcome QueryError Z :=
  if (table =? "logs")%string then Ret 0
  else if (table =? "metrics")%string then Ret 1
  else if (table =? "traces")%string then Ret 2
  else Fail (Bind (Msg "unknown table '{other}'" [AStr table])).

(** ** Filter ([filter.rs]) and limit ([limit.rs]) *)

Record FilterOperator (S : Type) := { fo_child : S; fo_predicate : Expr }.
Arguments fo_child {S} f. Arguments fo_predicate {S} f.

Definition filter_new {S} (child : S) (predicate : Expr) : FilterOperator S := {| fo_child := child; fo_predicate := predicate |}.

Record LimitOperator (S : Type) := { lo_child : S; lo_remaining : Z; lo_skip : Z }.
Arguments lo_child {S} l. Arguments lo_remaining {S} l. Arguments lo_skip {S} l.

Definition limit_new {S} (child : S) (limit offset : Z) : LimitOperator S := {| lo_child := child; lo_remaining := limit; lo_skip := offset |}.

(** [RecordBatch::slice], within the rows of the batch. *)
Class SliceKernel := {
  slice : RecordBatch -> nat -> nat -> RecordBatch;
  slice_rows : forall b off len, batch_fits (rb_schema b) (rb_columns b) = true -> (off + len <= num_rows b)%nat ->
    rb_schema (slice b off len) = rb_schema b /\ num_rows (slice b off len) = len /\
    batch_fits (rb_schema b) (rb_columns (slice b off len)) = true /\
    batch_rows (slice b off len) = take len (drop off (batch_rows b))
}.

Section Streaming.
Context {kernels : Kernels} {slices : SliceKernel}.

Definition apply_predicate (now : Clock) (b : RecordBatch) (pred : Expr) : outcome QueryError RecordBatch :=
  mask ← eval_filter now b pred; arrow_result (kfilter b mask).

(** [now] is what the clock shows while a batch is filtered, by the batches
    that are left after it. *)
Fixpoint filter_loop {S} `{PhysicalOperator S} (now : nat -> Clock) (fuel : nat) (pred : Expr) (c : S) : polled * S :=
  match fuel with
  | O => (Panic, c)
  | Datatypes.S fuel =>
      match poll_next c with
      | (Ret None, c) => (Ret None, c)
      | (Ret (Some b), c) =>
          match apply_predicate (now (budget c)) b pred with
          | Ret out => if (0 <? num_rows out)%nat then (Ret (Some out), c) else filter_loop now fuel pred c
          | Fail e => (Fail e, c)
          | Panic => (Panic, c)
          end
      | (Fail e, c) => (Fail e, c)
      | (Panic, c) => (Panic, c)
      end
  end.

Definition filter_poll {S} `{PhysicalOperator S} (now : nat -> Clock) (f : FilterOperator S) : polled * FilterOperator S :=
  let '(r, c) := filter_loop now (Datatypes.S (budget (fo_child f))) (fo_predicate f) (fo_child f) in
  (r, {| fo_child := c; fo_predicate := fo_predicate f |}).

(** [LimitOperator::poll_next], from the offset still to skip. *)
Fixpoint limit_loop {S} `{PhysicalOperator S} (fuel : nat) (remaining skip : Z) (c : S) : polled * LimitOperator S :=
  match fuel with
  | O => (Panic, {| lo_child := c; lo_remaining := remaining; lo_skip := skip |})
  | Datatypes.S fuel =>
      match poll_next c with
      | (Ret None, c) => (Ret None, {| lo_child := c; lo_remaining := remaining; lo_skip := skip |})
      | (Ret (Some b), c) =>
          let nrows := Z.of_nat (num_rows b) in
          if nrows <=? skip then limit_loop fuel remaining (skip - nrows) c
          else
            let b := if 0 <? skip then slice b (Z.to_nat skip) (num_rows b - Z.to_nat skip) else b in
            let taken := Z.min (Z.of_nat (num_rows b)) remaining in
            (Ret (Some (slice b 0 (Z.to_nat taken))),
             {| lo_child := c; lo_remaining := remaining - taken; lo_skip := 0 |})
      | (Fail e, c) => (Fail e, {| lo_child := c; lo_remaining := remaining; lo_skip := skip |})
      | (Panic, c) => (Panic, {| lo_child := c; lo_remaining := remaining; lo_skip := skip |})
      end
  end.

Definition limit_poll {S} `{PhysicalOperator S} (l : LimitOperator S) : polled * LimitOperator S :=
  if lo_remaining l =? 0 then (Ret None, l)
  else limit_loop (Datatypes.S (budget (lo_child l))) (lo_remaining l) (lo_skip l) (lo_child l).

#[export] Instance filter_operator {S} `{PhysicalOperator S} (now : nat -> Clock) : PhysicalOperator (FilterOperator S) := {
  op_schema := fun f => op_schema (fo_child f);
  poll_next := filter_poll now;
  budget := fun f => budget (fo_child f)
}.

#[export] Instance limit_operator {S} `{PhysicalOperator S} : PhysicalOperator (LimitOperator S) := {
  op_schema := fun l => op_schema (lo_child l);
  poll_next := limit_poll;
  budget := fun l => budget (lo_child l)
}.
End Streaming.

(** ** Sort ([sort.rs]) *)

Record SortColumn := { sc_values : ArrayRef; sc_descending : bool; sc_nulls_first : bool }.

(** [concat_batches], [lexsort_to_indices] and [take_record_batch]. *)
Class SortKernels := {
  concat_batches : Schema -> list RecordBatch -> option RecordBatch;
  lexsort_to_indices : list SortColumn -> option (list nat);
  take_record_batch : RecordBatch -> list nat -> option RecordBatch
}.

Record SortOperator (S : Type) := {
  sr_child : option S;
  sr_keys : list (Expr * bool);
  sr_result : option (list RecordBatch)
}.
Arguments sr_child {S} s. Arguments sr_keys {S} s. Arguments sr_result {S} s.

Definition sort_new {S} (child : S) (keys : list (Expr * bool)) : SortOperator S := {| sr_child := Some child; sr_keys := keys; sr_result := None |}.

(** The sort column of a key; keys that are no column of the batch are left
    out. *)
Definition sort_column (b : RecordBatch) (key : Expr * bool) : option SortColumn :=
  match key with
  | (EColumn _ name, asc) =>
      (fun c => {| sc_values := c; sc_descending := negb asc; sc_nulls_first := false |}) <$> column_by_name b name
  | _ => None
  end.

Definition sort_batches `{SortKernels} (keys : list (Expr * bool)) (batches : list RecordBatch)
    : outcome QueryError (list RecordBatch) :=
  match batches with
  | [] => Ret []
  | b0 :: _ =>
      whole ← arrow_result (concat_batches (rb_schema b0) batches);
      match filter_map (sort_column whole) keys with
      | [] => Ret [whole]
      | cols =>
          indices ← arrow_result (lexsort_to_indices cols);
          sorted ← arrow_result (take_record_batch whole indices);
          Ret [sorted]
      end
  end.

(** [materialize]: the child is taken and drained first. *)
Definition materialize {S} `{PhysicalOperator S} `{SortKernels} (s : SortOperator S) (c : S)
    : outcome QueryError unit * SortOperator S :=
  let taken r := {| sr_child := None; sr_keys := sr_keys s; sr_result := r |} in
  match fst (drain c) with
  | Ret batches =>
      match sort_batches (sr_keys s) batches with
      | Ret out => (Ret tt, taken (Some out))
      | Fail e => (Fail e, taken (sr_result s))
      | Panic => (Panic, taken (sr_result s))
      end
  | Fail e => (Fail e, taken (sr_result s))
  | Panic => (Panic, taken (sr_result s))
  end.

Definition sort_pop {S} (s : SortOperator S) : polled * SortOperator S :=
  match sr_result s with
  | Some (b :: bs) => (Ret (Some b), {| sr_child := sr_child s; sr_keys := sr_keys s; sr_result := Some bs |})
  | _ => (Ret None, s)
  end.

Definition sort_poll {S} `{PhysicalOperator S} `{SortKernels} (s : SortOperator S) : polled * SortOperator S :=
  match sr_child s with
  | Some c =>
      match materialize s c with
      | (Ret _, s) => sort_pop s
      | (Fail e, s) => (Fail e, s)
      | (Panic, s) => (Panic, s)
      end
  | None => sort_pop s
  end.

#[export] Instance sort_operator {S} `{PhysicalOperator S} `{SortKernels} : PhysicalOperator (SortOperator S) := {
  op_schema := fun s =>
    match sr_child s, sr_result s with
    | Some c, _ => op_schema c
    | None, Some (b :: _) => rb_schema b
    | None, _ => []
    end;
  poll_next := sort_poll;
  budget := fun s => match sr_child s with Some _ => 1%nat | None => length (default [] (sr_result s)) end
}.

(** ** Aggregation ([aggregate.rs]) *)

Record AggregateOperator (S : Type) := {
  ao_child : option S;
  ao_group_by_keys : list Expr;
  ao_aggregates : list AggExpr;
  ao_out_schema : Schema;
  ao_result : option RecordBatch
}.
Arguments ao_child {S} a. Arguments ao_group_by_keys {S} a. Arguments ao_aggregates {S} a.
Arguments ao_out_schema {S} a. Arguments ao_result {S} a.

Definition expr_name (e : Expr) : string := match e with EColumn _ name => name | _ => "key" end.

(** The output schema: the keys as nullable integers, then the aggregates. *)
Definition out_schema (keys : list Expr) (aggs : list AggExpr) : Schema :=
  map (fun k => F (expr_name k) Int64 true) keys ++
  map (fun a => F (ag_alias a) (if (ag_func a =? "count")%string then Int64 else Float64) false) aggs.

Definition aggregate_new {S} (child : S) (keys : list Expr) (aggs : list AggExpr) : AggregateOperator S :=
  {| ao_child := Some child; ao_group_by_keys := keys; ao_aggregates := aggs; ao_out_schema := out_schema keys aggs;
     ao_result := None |}.

Record GroupState := { gs_count : Z; gs_sum : f64; gs_min : f64; gs_max : f64 }.

Definition group_default : GroupState := {| gs_count := 0; gs_sum := f64_zero; gs_min := f64_zero; gs_max := f64_zero |}.

Definition accumulate (g : GroupState) (func : string) (val : option f64) : GroupState :=
  match val with
  | Some v =>
      if (func =? "sum")%string || (func =? "avg")%string then
        {| gs_count := gs_count g; gs_sum := f64_add (gs_sum g) v; gs_min := gs_min g; gs_max := gs_max g |}
      else if (func =? "min")%string then
        {| gs_count := gs_count g; gs_sum := gs_sum g;
           gs_min := if f64_lt v (gs_min g) || (gs_count g =? 0) then v else gs_min g; gs_max := gs_max g |}
      else if (func =? "max")%string then
        {| gs_count := gs_count g; gs_sum := gs_sum g; gs_min := gs_min g;
           gs_max := if f64_gt v (gs_max g) || (gs_count g =? 0) then v else gs_max g |}
      else g
  | None => g
  end.

Definition finalize (g : GroupState) (func : string) : f64 :=
  if (func =? "count")%string then f64_of_Z (gs_count g)
  else if (func =? "sum")%string then gs_sum g
  else if (func =? "avg")%string then (if 0 <? gs_count g then f64_div (gs_sum g) (f64_of_Z (gs_count g)) else f64_zero)
  else if (func =? "min")%string then gs_min g
  else if (func =? "max")%string then gs_max g
  else f64_zero.

(** The key of a row: its first column, whatever the keys are. *)
Definition extract_group_key {nulls : NullSlots} (b : RecordBatch) (row : nat) : outcome QueryError string :=
  match rb_columns b with
  | [] => Panic
  | UInt64Array l :: _ => match ivalues l !! row with Some v => Ret (show_u64 v) | None => Panic end
  | _ => Ret "?"%string
  end.

(** [value(row)] as a float; [None] for other types and columns. *)
Definition column_f64 {nulls : NullSlots} (c : ArrayRef) : option (list f64) :=
  match c with
  | Float64Array l => Some (fvalues l)
  | Int64Array l => Some (map f64_of_Z (ivalues l))
  | UInt64Array l => Some (map f64_of_Z (ivalues l))
  | _ => None
  end.

Definition extract_f64 {nulls : NullSlots} (b : RecordBatch) (row : nat) (arg : option Expr) : option f64 :=
  match arg with
  | Some (EColumn _ name) => c ← column_by_name b name; vs ← column_f64 c; vs !! row
  | _ => None
  end.

(** The groups by key, in order of arrival. *)
Fixpoint group_update (key : string) (f : GroupState -> GroupState) (groups : list (string * GroupState))
    : list (string * GroupState) :=
  match groups with
  | [] => [(key, f group_default)]
  | (k, g) :: groups => if (k =? key)%string then (k, f g) :: groups else (k, g) :: group_update key f groups
  end.

Definition group_row {nulls : NullSlots} (aggs : list AggExpr) (b : RecordBatch) (groups : list (string * GroupState)) (row : nat)
    : outcome QueryError (list (string * GroupState)) :=
  key ← extract_group_key b row;
  Ret (group_update key (fun g =>
    let g := fold_left (fun g a => accumulate g (ag_func a) (extract_f64 b row (ag_arg a))) aggs g in
    {| gs_count := gs_count g + 1; gs_sum := gs_sum g; gs_min := gs_min g; gs_max := gs_max g |}) groups).

Definition group_batch {nulls : NullSlots} (aggs : list AggExpr) (groups : list (string * GroupState)) (b : RecordBatch)
    : outcome QueryError (list (string * GroupState)) :=
  foldM (group_row aggs b) groups (seq 0 (num_rows b)).

(** One turn of the loop over the values of a column. *)
Definition scalar_step (func : string) (acc v : f64) : f64 :=
  if (func =? "sum")%string || (func =? "avg")%string then f64_add acc v
  else if (func =? "min")%string then (if f64_lt v acc then v else acc)
  else if (func =? "max")%string then (if f64_gt v acc then v else acc)
  else acc.

(** Unlike [extract_f64], unsigned columns have no values here. *)
Definition scalar_values {nulls : NullSlots} (c : ArrayRef) : list f64 :=
  match c with
  | Float64Array l => fvalues l
  | Int64Array l => map f64_of_Z (ivalues l)
  | _ => []
  end.

Definition compute_scalar_agg {nulls : NullSlots} (batches : list RecordBatch) (func : string) (arg : option Expr) : outcome QueryError f64 :=
  match arg with
  | Some (EColumn _ name) =>
      let init := if (func =? "min")%string then f64_inf else if (func =? "max")%string then f64_neg_inf else f64_zero in
      '(acc, cnt) ← foldM (fun (st : f64 * Z) b =>
        c ← ok_or (column_by_name b name) (Execution (Msg "column '{col_name}' not found" [AStr name]));
        Ret (fold_left (fun '(acc, cnt) v => (scalar_step func acc v, cnt + 1)) (scalar_values c) st)) (init, 0) batches;
      Ret (if (func =? "avg")%string then (if 0 <? cnt then f64_div acc (f64_of_Z cnt) else f64_zero) else acc)
  | _ => Ret f64_zero
  end.

(** An aggregate without groups: one value. *)
Definition scalar_column {nulls : NullSlots} (batches : list RecordBatch) (a : AggExpr) : outcome QueryError ArrayRef :=
  let func := ag_func a in
  if (func =? "count")%string then
    Ret (Int64Array [Some (wrap_i64 (zsum (map (fun b => Z.of_nat (num_rows b)) batches)))])
  else if (func =? "sum")%string || (func =? "avg")%string || (func =? "min")%string || (func =? "max")%string then
    v ← compute_scalar_agg batches func (ag_arg a); Ret (Float64Array [Some v])
  else Ret (Float64Array [Some f64_zero]).

Definition empty_array (t : DataType) : ArrayRef :=
  match t with
  | UInt64 => UInt64Array [] | Int64 => Int64Array [] | Int32 => Int32Array [] | Int8 => Int8Array []
  | Float64 => Float64Array [] | Utf8 => StringArray [] | Binary => BinaryArray [] | Boolean => BooleanArray []
  end.

(** [RecordBatch::new_empty]. *)
Definition new_empty (s : Schema) : RecordBatch := {| rb_schema := s; rb_columns := map (fun f => empty_array (field_type f)) s |}.

(** The key columns: only the first builder gets the keys. *)
Definition key_columns (keys : list Expr) (groups : list (string * GroupState)) : list ArrayRef :=
  match keys with
  | [] => []
  | _ :: ks => StringArray (map (fun kg => Some (fst kg)) groups) :: map (fun _ => StringArray []) ks
  end.

Definition aggregate_batches {libs : Libs} {nulls : NullSlots} (keys : list Expr) (aggs : list AggExpr) (s : Schema) (batches : list RecordBatch)
    : outcome QueryError RecordBatch :=
  match batches, keys with
  | [], _ => Ret (new_empty s)
  | _, [] => cols ← mapM_out (scalar_column batches) aggs; arrow_result (try_new s cols)
  | _, _ =>
      groups ← foldM (group_batch aggs) [] batches;
      let agg_cols := map (fun a => Float64Array (map (fun kg => Some (finalize (snd kg) (ag_func a))) groups)) aggs in
      arrow_result (try_new s (key_columns keys groups ++ agg_cols))
  end.

(** [poll_next]: [compute] takes and drains the child. *)
Definition aggregate_poll {libs : Libs} {nulls : NullSlots} {S} `{PhysicalOperator S} (a : AggregateOperator S) : polled * AggregateOperator S :=
  let left r := {| ao_child := None; ao_group_by_keys := ao_group_by_keys a; ao_aggregates := ao_aggregates a;
                   ao_out_schema := ao_out_schema a; ao_result := r |} in
  match ao_child a with
  | Some c =>
      match fst (drain c) with
      | Ret batches =>
          match aggregate_batches (ao_group_by_keys a) (ao_aggregates a) (ao_out_schema a) batches with
          | Ret b => (Ret (Some b), left None)
          | Fail e => (Fail e, left (ao_result a))
          | Panic => (Panic, left (ao_result a))
          end
      | Fail e => (Fail e, left (ao_result a))
      | Panic => (Panic, left (ao_result a))
      end
  | None => (Ret (ao_result a), left None)
  end.

#[export] Instance aggregate_operator {libs : Libs} {nulls : NullSlots} {S} `{PhysicalOperator S} : PhysicalOperator (AggregateOperator S) := {
  op_schema := ao_out_schema;
  poll_next := aggregate_poll;
  budget := fun a => match ao_child a, ao_result a with None, None => 0%nat | _, _ => 1%nat end
}.

(** ** Building and running a plan ([mod.rs], [lib.rs]) *)

(** A boxed operator. *)
Record DynOp := Dyn { dyn_type : Type; dyn_op : PhysicalOperator dyn_type; dyn_state : dyn_type }.

(** What the clock shows during a query: while an expression is folded, while
    the scan filters its [i]-th batch, and while a filter of the plan has [i]
    batches left. *)
Record QueryClock := { at_plan : Expr -> Clock; at_scan : nat -> Clock; at_filter : LogicalPlan -> nat -> Clock }.

Section Run.
Context {libs : EngineLibs} {kernels : Kernels} {slices : SliceKernel} {sorts : SortKernels}.
Variable now : QueryClock.

Definition execution_error {A} (m : io A) : st Fs QueryError A := fun w =>
  let '(r, w') := m w in (map_err (fun _ => Execution (Msg "{e}" [])) r, w').

(** The batches of one file, filtered by the predicate of the scan; [i]
    batches were read before. *)
Fixpoint collect_batches (i : nat) (op : ScanOp) (rs : list (outcome StorageError RecordBatch)) (all : list RecordBatch)
    : outcome QueryError (list RecordBatch) :=
  match rs with
  | [] => Ret all
  | r :: rs =>
      b ← map_err (fun _ => Execution (Msg "{e}" [])) r;
      match sc_predicate op with
      | Some pred =>
          filtered ← apply_predicate (at_scan now i) b pred;
          collect_batches (S i) op rs (if (0 <? num_rows filtered)%nat then all ++ [filtered] else all)
      | None => collect_batches (S i) op rs (all ++ [b])
      end
  end.

Fixpoint load_files (i : nat) (op : ScanOp) (batch_size : nat) (paths : list path) (all : list RecordBatch)
    : st Fs QueryError (list RecordBatch) :=
  match paths with
  | [] => mret all
  | p :: paths =>
      rs ← execution_error (read_parquet p batch_size);
      all ← st_lift (collect_batches i op rs all);
      load_files (i + length rs) op batch_size paths all
  end.

(** [all.retain]: whole batches until the limit is reached. *)
Fixpoint retain_limit (limit total : Z) (bs : list RecordBatch) : list RecordBatch :=
  match bs with
  | [] => []
  | b :: bs =>
      if limit <=? total then retain_limit limit total bs
      else b :: retain_limit limit (total + Z.of_nat (num_rows b)) bs
  end.

Definition load_batches (op : ScanOp) (batch_size : nat) (storage : Engine) : st Fs QueryError (list RecordBatch) :=
  signal ← st_lift (signal_for_table (sc_table op));
  all ← load_files 0 op batch_size (sstable_paths_for_signal storage signal (sc_partition_filter op)) [];
  mret (match sc_limit op with Some limit => retain_limit limit 0 all | None => all end).

Definition scan_new (op : ScanOp) (batch_size : nat) (storage : Engine) : st Fs QueryError ScanOperator :=
  schema ← st_lift (infralens_storage_schema_for (sc_table op));
  batches ← load_batches op batch_size storage;
  mret {| so_schema := schema; so_batches := batches; so_batch_size := batch_size |}.

Fixpoint build_logical (plan : LogicalPlan) (batch_size : nat) (storage : Engine) : st Fs QueryError DynOp :=
  match plan with
  | Scan op => s ← scan_new op batch_size storage; mret (Dyn ScanOperator _ s)
  | Filter predicate input =>
      child ← build_logical input batch_size storage;
      let 'Dyn T o c := child in
      mret (Dyn (FilterOperator T) (filter_operator (at_filter now input)) (filter_new c predicate))
  | Aggregate keys aggregates input =>
      child ← build_logical input batch_size storage;
      let 'Dyn T o c := child in
      mret (Dyn (AggregateOperator T) aggregate_operator (aggregate_new c keys aggregates))
  | Sort keys input =>
      child ← build_logical input batch_size storage;
      let 'Dyn T o c := child in
      mret (Dyn (SortOperator T) sort_operator (sort_new c keys))
  | Limit n offset input =>
      child ← build_logical input batch_size storage;
      let 'Dyn T o c := child in
      mret (Dyn (LimitOperator T) limit_operator (limit_new c n offset))
  | Project _ input => build_logical input batch_size storage
  | Join _ _ _ _ => st_lift (exec_error
      "cross-table JOIN requires distributed executor (Phase 3 local scope: single-table)" [])
  end.

(** [executor::build]. *)
Definition build (plan : PhysicalPlan) (storage : Engine) : st Fs QueryError DynOp :=
  build_logical (pp_logical plan) (Z.to_nat (pp_batch_size plan)) storage.

(** [execute]: lex, parse, plan, optimize, build, drain. *)
Definition execute (sql : string) (storage : Engine) (catalog : Catalog) : st Fs QueryError (list RecordBatch) :=
  ast ← st_lift (parse_query sql);
  let logical := optimize catalog (at_plan now) (plan_statement ast) in
  op ← build (to_physical catalog logical) storage;
  st_lift (let 'Dyn T o s := op in fst (drain (H := o) s)).
End Run.

(** ** What an operator gives *)

(** The batches of successive polls, up to the end of the stream. *)
Inductive yields {S} `{PhysicalOperator S} : S -> list RecordBatch -> Prop :=
| yields_nil s s' : poll_next s = (Ret None, s') -> yields s []
| yields_cons s b s' bs : poll_next s = (Ret (Some b), s') -> yields s' bs -> yields s (b :: bs).

Section Yields.
Context {S : Type} `{OperatorLaws S}.

Lemma yields_budget s bs : yields s bs -> (length bs <= budget s)%nat.
Proof. induction 1 as [|s b s' bs Hp _ IH]; simpl; [lia|]. apply poll_budget in Hp. lia. Qed.

Lemma drain_loop_yields s bs fuel acc : yields s bs -> (length bs < fuel)%nat -> fst (drain_loop fuel s acc) = Ret (acc ++ bs).
Proof.
  intros Hy. revert fuel acc. induction Hy as [s s' Hp|s b s' bs Hp _ IH]; intros [|fuel] acc Hf; simpl in Hf; try lia;
    cbn [drain_loop]; rewrite Hp.
  - by rewrite app_nil_r.
  - rewrite IH by lia. by rewrite <- app_assoc.
Qed.

Lemma drain_yields s bs : yields s bs -> fst (drain s) = Ret bs.
Proof. intros Hy. unfold drain. rewrite (drain_loop_yields s bs); [done|done|]. apply yields_budget in Hy. lia. Qed.
End Yields.

Lemma scan_yields s : yields s (so_batches s).
Proof.
  destruct s as [sch bs n]. induction bs as [|b bs IH]; [by eapply yields_nil|]. eapply yields_cons; [done|exact IH].
Qed.

Definition fits (b : RecordBatch) : Prop := batch_fits (rb_schema b) (rb_columns b) = true.

Section StreamingFacts.
Context {kernels : Kernels} {slices : SliceKernel} (now : nat -> Clock) {S : Type} `{OperatorLaws S}.

Lemma filter_loop_fuel pred c f1 f2 :
  (budget c < f1)%nat -> (budget c < f2)%nat -> filter_loop now f1 pred c = filter_loop now f2 pred c.
Proof.
  revert c f2; induction f1 as [|f1 IH]; intros c [|f2] H1 H2; try lia. cbn [filter_loop].
  destruct (poll_next c) as [[[b|]|e|] c'] eqn:Ep; try done. apply poll_budget in Ep.
  destruct (apply_predicate (now (budget c')) b pred); [|done|done]. destruct (_ <? _)%nat; [done|]. apply IH; lia.
Qed.

#[export] Instance filter_laws : OperatorLaws (FilterOperator S) (H := filter_operator now).
Proof.
  split. intros [c pred] b f' Hp. cbn [poll_next filter_operator] in Hp. unfold filter_poll in Hp. cbn [fo_child fo_predicate] in Hp.
  assert (forall fuel c c', filter_loop now fuel pred c = (Ret (Some b), c') -> (budget c' < budget c)%nat) as Hl.
  { clear Hp c f'. intros fuel; induction fuel as [|fuel IH]; intros c c' H1; [done|]. cbn [filter_loop] in H1.
    destruct (poll_next c) as [[[b0|]|e|] c1] eqn:Ep; try done. apply poll_budget in Ep.
    destruct (apply_predicate (now (budget c1)) b0 pred); [|done|done]. destruct (_ <? _)%nat; [injection H1 as _ <-; exact Ep|]. apply IH in H1. lia. }
  destruct (filter_loop _ _ pred c) as [r c'] eqn:El. injection Hp as -> <-. exact (Hl _ _ _ El).
Qed.

Lemma filter_yields c pred bs outs :
  yields c bs -> Forall2 (fun b out => forall t, apply_predicate t b pred = Ret out) bs outs ->
  yields (H := filter_operator now) {| fo_child := c; fo_predicate := pred |} (List.filter (fun b => (0 <? num_rows b)%nat) outs).
Proof.
  intros Hy. revert outs. induction Hy as [c c' Hp|c b c' bs Hp Hy IH]; intros outs Ho; inversion Ho as [|? out ? outs' Hb Ho']; subst.
  - eapply yields_nil. cbn [poll_next filter_operator]. unfold filter_poll. cbn [fo_child fo_predicate filter_loop]. by rewrite Hp.
  - specialize (IH outs' Ho'). cbn [List.filter].
    assert (filter_poll now {| fo_child := c; fo_predicate := pred |} =
      if (0 <? num_rows out)%nat then (Ret (Some out), {| fo_child := c'; fo_predicate := pred |})
      else filter_poll now {| fo_child := c'; fo_predicate := pred |}) as E.
    { unfold filter_poll. cbn [fo_child fo_predicate]. cbn [filter_loop]. rewrite Hp, Hb. destruct (_ <? _)%nat; [done|].
      rewrite (filter_loop_fuel pred c' (budget c) (Datatypes.S (budget c'))); [done| |lia]. by apply poll_budget in Hp. }
    destruct (0 <? num_rows out)%nat.
    + eapply yields_cons; [exact E|exact IH].
    + inversion IH as [? s' Hn|? b0 s' bs' Hn Hr]; subst; [eapply yields_nil; rewrite <- Hn; exact E|].
      eapply yields_cons; [|exact Hr]. rewrite <- Hn. exact E.
Qed.

(** The kept rows, whether or not the empty batches are passed on. *)
Lemma rows_nonempty bs : batches_rows (List.filter (fun b => (0 <? num_rows b)%nat) bs) = batches_rows bs.
Proof.
  unfold batches_rows. induction bs as [|b bs IH]; [done|]. cbn [List.filter]. destruct (Nat.ltb_spec 0 (num_rows b)); cbn [map concat].
  - by rewrite IH.
  - rewrite IH. pose proof (length_batch_rows b) as Hl. destruct (batch_rows b); [done|]. simpl in Hl. lia.
Qed.

Lemma predicate_masks pred bs masks :
  Forall fits bs -> Forall2 (fun b m => (forall t, eval_filter t b pred = Ret m) /\ length m = num_rows b) bs masks ->
  exists outs, Forall2 (fun b out => forall t, apply_predicate t b pred = Ret out) bs outs /\
    batches_rows outs = concat (zip_with keep masks (map batch_rows bs)).
Proof.
  intros Hf Hm. induction Hm as [|b m bs masks [He Hl] _ IH]; [by exists []|].
  apply Forall_cons_1 in Hf as [Hb Hbs]. destruct (IH Hbs) as (outs & Ho & Hr).
  destruct (kfilter_spec b m Hb Hl) as (out & Ek & _ & _ & Hrows). exists (out :: outs). split.
  - constructor; [|done]. intros t. unfold apply_predicate. rewrite He. cbn. by rewrite Ek.
  - unfold batches_rows in *. cbn [map concat zip_with]. by rewrite Hr, Hrows.
Qed.
End StreamingFacts.

(** The filter operator keeps exactly the rows of its predicate.  Over
    any child, the batches it gives hold, in order, the rows whose mask is
    true, where the masks are what the predicate evaluates to on each batch
    of the child, whatever the clock shows; empty batches are dropped. *)
Theorem filter_operator_rows {kernels : Kernels} {S} `{OperatorLaws S} now (c : S) pred bs masks :
  yields c bs -> Forall fits bs ->
  Forall2 (fun b m => (forall t, eval_filter t b pred = Ret m) /\ length m = num_rows b) bs masks ->
  exists outs, fst (drain (H := filter_operator now) {| fo_child := c; fo_predicate := pred |}) = Ret outs /\
    Forall (fun b => 0 < num_rows b)%nat outs /\
    batches_rows outs = concat (zip_with keep masks (map batch_rows bs)).
Proof.
  intros Hy Hf Hm. destruct (predicate_masks pred bs masks Hf Hm) as (outs & Ho & Hr).
  exists (List.filter (fun b => (0 <? num_rows b)%nat) outs). split_and!.
  - apply drain_yields. by apply (filter_yields now c pred bs outs).
  - apply List.Forall_forall. intros b Hb. apply filter_In in Hb as [_ Hb]. by apply Nat.ltb_lt.
  - by rewrite rows_nonempty.
Qed.

Lemma filter_operator_rows_witness :
  exists outs, fst (drain (H := filter_operator (kernels := kernels_reference) (fun _ _ => 0))
    {| fo_child := {| so_schema := rb_schema two_rows; so_batches := [two_rows; two_rows]; so_batch_size := 2 |};
       fo_predicate := EBinOp OpGt (EColumn None "v") (ELiteral (LInt 0)) |}) = Ret outs /\
    Forall (fun b => 0 < num_rows b)%nat outs /\ batches_rows outs = [[CInt 10; CInt 1]; [CInt 10; CInt 1]].
Proof.
  apply (filter_operator_rows (kernels := kernels_reference) (fun _ _ => 0) _ _ [two_rows; two_rows] [[Some true; None]; [Some true; None]]).
  - apply scan_yields.
  - repeat constructor.
  - repeat constructor.
Defined.

Section LimitFacts.
Context {slices : SliceKernel} {S : Type} `{OperatorLaws S}.

Lemma limit_loop_fuel c rem skip f1 f2 :
  (budget c < f1)%nat -> (budget c < f2)%nat -> limit_loop f1 rem skip c = limit_loop f2 rem skip c.
Proof.
  revert c skip f2; induction f1 as [|f1 IH]; intros c skip [|f2] H1 H2; try lia. cbn [limit_loop].
  destruct (poll_next c) as [[[b|]|e|] c'] eqn:Ep; try done. apply poll_budget in Ep.
  destruct (_ <=? _); [|done]. apply IH; lia.
Qed.

#[export] Instance limit_laws : OperatorLaws (LimitOperator S).
Proof.
  split. intros [c rem skip] b l' Hp. cbn [poll_next limit_operator] in Hp. unfold limit_poll in Hp.
  cbn [lo_child lo_remaining lo_skip] in Hp. destruct (rem =? 0); [done|].
  assert (forall fuel rem skip c, limit_loop fuel rem skip c = (Ret (Some b), l') -> (budget (lo_child l') < budget c)%nat) as Hl.
  { clear Hp c rem skip. intros fuel; induction fuel as [|fuel IH]; intros rem skip c H1; [done|]. cbn [limit_loop] in H1.
    destruct (poll_next c) as [[[b0|]|e|] c1] eqn:Ep; try done. apply poll_budget in Ep.
    destruct (_ <=? _); [apply IH in H1; lia|]. cbv zeta in H1. injection H1 as _ <-. exact Ep. }
  exact (Hl _ _ _ _ Hp).
Qed.

Lemma limit_poll_skip c rem skip b c' :
  poll_next c = (Ret (Some b), c') -> rem <> 0 -> Z.of_nat (num_rows b) <= skip ->
  limit_poll {| lo_child := c; lo_remaining := rem; lo_skip := skip |} =
  limit_poll {| lo_child := c'; lo_remaining := rem; lo_skip := skip - Z.of_nat (num_rows b) |}.
Proof.
  intros Hp Hr Hs. unfold limit_poll. cbn [lo_child lo_remaining lo_skip]. destruct (Z.eqb_spec rem 0); [done|].
  assert (limit_loop (Datatypes.S (budget c)) rem skip c = limit_loop (budget c) rem (skip - Z.of_nat (num_rows b)) c') as ->.
  { cbn [limit_loop]. rewrite Hp. cbv zeta. destruct (Z.leb_spec (Z.of_nat (num_rows b)) skip); [done|lia]. }
  apply limit_loop_fuel; [|lia]. by apply poll_budget in Hp.
Qed.

(** The rows a poll takes out of a batch that reaches past the offset. *)
Lemma limit_slice b rem skip :
  fits b -> 0 < rem -> 0 <= skip < Z.of_nat (num_rows b) ->
  let b1 := if 0 <? skip then slice b (Z.to_nat skip) (num_rows b - Z.to_nat skip) else b in
  let taken := Z.min (Z.of_nat (num_rows b1)) rem in
  0 <= taken <= rem /\
  batch_rows (slice b1 0 (Z.to_nat taken)) = take (Z.to_nat rem) (drop (Z.to_nat skip) (batch_rows b)) /\
  (taken < rem -> batch_rows (slice b1 0 (Z.to_nat taken)) = drop (Z.to_nat skip) (batch_rows b)) /\
  taken = Z.min (Z.of_nat (num_rows b) - skip) rem.
Proof.
  intros Hf Hr Hs b1 taken.
  assert (fits b1 /\ num_rows b1 = (num_rows b - Z.to_nat skip)%nat /\ batch_rows b1 = drop (Z.to_nat skip) (batch_rows b)) as (Hf1 & Hn1 & Hr1).
  { unfold b1. destruct (Z.ltb_spec 0 skip).
    - destruct (slice_rows b (Z.to_nat skip) (num_rows b - Z.to_nat skip) Hf ltac:(lia)) as (Hs1 & Hn & Hb & Hrw).
      split_and!; [unfold fits; by rewrite Hs1|done|]. rewrite Hrw. apply take_ge. rewrite length_drop, length_batch_rows. lia.
    - replace skip with 0 by lia. split_and!; [done|simpl; lia|done]. }
  unfold taken. destruct (slice_rows b1 0 (Z.to_nat (Z.min (Z.of_nat (num_rows b1)) rem)) Hf1 ltac:(lia)) as (_ & _ & _ & Hrw).
  rewrite Hrw, drop_0, Hr1. pose proof (length_batch_rows b) as Hl. split_and!; [lia|lia| | |lia].
  - destruct (Z.le_gt_cases rem (Z.of_nat (num_rows b1))).
    + rewrite Z.min_r by lia. done.
    + rewrite Z.min_l by lia. rewrite !take_ge; [done| |]; rewrite length_drop; lia.
  - intros. apply take_ge. rewrite length_drop. lia.
Qed.

Lemma limit_yields c bs rem skip :
  yields c bs -> Forall fits bs -> 0 <= rem -> 0 <= skip ->
  exists outs, yields {| lo_child := c; lo_remaining := rem; lo_skip := skip |} outs /\
    batches_rows outs = take (Z.to_nat rem) (drop (Z.to_nat skip) (batches_rows bs)).
Proof.
  intros Hy. revert rem skip. induction Hy as [c c' Hp|c b c' bs Hp Hy IH]; intros rem skip Hf Hr Hs;
    (destruct (Z.eq_dec rem 0) as [->|Hne]; [exists []; split; [eapply yields_nil; done|done]|]).
  - exists []. split; [|change (batches_rows []) with (@nil (list Cell)); by rewrite drop_nil, take_nil]. eapply yields_nil. cbn [poll_next limit_operator].
    unfold limit_poll. cbn [lo_child lo_remaining lo_skip]. rewrite (proj2 (Z.eqb_neq rem 0) Hne). cbn [limit_loop]. rewrite Hp.
    reflexivity.
  - apply Forall_cons_1 in Hf as [Hfb Hf]. pose proof (length_batch_rows b) as Hl.
    change (batches_rows (b :: bs)) with (batch_rows b ++ batches_rows bs).
    destruct (Z.le_gt_cases (Z.of_nat (num_rows b)) skip) as [Hskip|Hskip].
    + destruct (IH rem (skip - Z.of_nat (num_rows b)) Hf Hr ltac:(lia)) as (outs & Ho & Hrows). exists outs.
      pose proof (limit_poll_skip c rem skip b c' Hp Hne Hskip) as E. split.
      * inversion Ho as [? s' Hn|? b0 s' bs' Hn Hrest]; subst; [eapply yields_nil|eapply yields_cons; [|exact Hrest]];
          rewrite <- Hn; exact E.
      * rewrite Hrows. rewrite drop_app_ge by lia. f_equal. f_equal. lia.
    + destruct (limit_slice b rem skip Hfb ltac:(lia) ltac:(lia)) as (Ht & Hrw & Hfull & Htk).
      set (b1 := if 0 <? skip then _ else b) in *. set (taken := Z.min (Z.of_nat (num_rows b1)) rem) in *.
      destruct (IH (rem - taken) 0 Hf ltac:(lia) ltac:(lia)) as (outs & Ho & Hrows).
      exists (slice b1 0 (Z.to_nat taken) :: outs). split.
      * eapply yields_cons; [|exact Ho]. cbn [poll_next limit_operator]. unfold limit_poll. cbn [lo_child lo_remaining lo_skip].
        rewrite (proj2 (Z.eqb_neq rem 0) Hne). cbn [limit_loop]. rewrite Hp. cbv zeta.
        destruct (Z.leb_spec (Z.of_nat (num_rows b)) skip); [lia|]. done.
      * change (batches_rows (?x :: ?l)) with (batch_rows x ++ batches_rows l). rewrite Hrows, drop_0.
        rewrite drop_app_le by lia. destruct (Z.le_gt_cases rem taken).
        -- replace (rem - taken) with 0 by lia. rewrite Hrw, app_nil_r, take_app_le; [done|].
           rewrite length_drop. lia.
        -- rewrite Hfull by lia. rewrite take_app_ge by (rewrite length_drop; lia). f_equal. f_equal. rewrite length_drop. lia.
Qed.
End LimitFacts.

(** [LIMIT] and [OFFSET] give a window of rows.  Over any child, the
    limit operator with limit [n] and offset [off] gives the [n] rows after
    the first [off], whatever the batches they come in. *)
Theorem limit_operator_window {slices : SliceKernel} {S} `{OperatorLaws S} (c : S) bs n off :
  yields c bs -> Forall fits bs -> 0 <= n -> 0 <= off ->
  exists outs, fst (drain {| lo_child := c; lo_remaining := n; lo_skip := off |}) = Ret outs /\
    batches_rows outs = take (Z.to_nat n) (drop (Z.to_nat off) (batches_rows bs)).
Proof.
  intros Hy Hf Hn Ho. destruct (limit_yields c bs n off Hy Hf Hn Ho) as (outs & Hout & Hrows).
  exists outs. split; [|done]. by apply drain_yields.
Qed.

(** ** A reference for slicing *)

Definition slice_array (off len : nat) (a : ArrayRef) : ArrayRef :=
  match a with
  | UInt64Array l => UInt64Array (take len (drop off l))
  | Int64Array l => Int64Array (take len (drop off l))
  | Int32Array l => Int32Array (take len (drop off l))
  | Int8Array l => Int8Array (take len (drop off l))
  | Float64Array l => Float64Array (take len (drop off l))
  | StringArray l => StringArray (take len (drop off l))
  | BinaryArray l => BinaryArray (take len (drop off l))
  | BooleanArray l => BooleanArray (take len (drop off l))
  end.

Definition slice_reference (b : RecordBatch) (off len : nat) : RecordBatch :=
  {| rb_schema := rb_schema b; rb_columns := map (slice_array off len) (rb_columns b) |}.

Lemma no_nulls_slice {A} off len (l : list (option A)) : no_nulls l = true -> no_nulls (take len (drop off l)) = true.
Proof.
  unfold no_nulls. rewrite !forallb_forall. intros Hl x Hx. apply Hl. apply base.list_elem_of_In in Hx.
  apply elem_of_take in Hx as (i & Hi & _). rewrite lookup_drop in Hi. apply base.list_elem_of_In.
  by eapply list_elem_of_lookup_2.
Qed.

Lemma slice_array_facts off len a : (off + len <= array_len a)%nat ->
  array_cells (slice_array off len a) = take len (drop off (array_cells a)) /\ array_len (slice_array off len a) = len /\
  data_type (slice_array off len a) = data_type a /\ (array_no_nulls a = true -> array_no_nulls (slice_array off len a) = true).
Proof.
  intros Hl. destruct a; simpl in *; (split_and!; [by rewrite <- firstn_map, <- skipn_map|
    rewrite length_take, length_drop; lia|done|apply no_nulls_slice]).
Qed.

Lemma columns_fit_slice off len n s cols :
  (off + len <= n)%nat -> columns_fit n s cols = true -> columns_fit len s (map (slice_array off len) cols) = true.
Proof.
  intros Hn. revert s; induction cols as [|c cols IH]; intros [|f s] Hf; try done. cbn [columns_fit map] in *.
  apply andb_true_iff in Hf as [Hc Hf]. rewrite IH by done. unfold column_fits in *.
  apply andb_true_iff in Hc as [[Ht Hl]%andb_true_iff Hnull]. apply Nat.eqb_eq in Hl.
  destruct (slice_array_facts off len c ltac:(lia)) as (_ & El & Et & En). rewrite Et, Ht, El, Nat.eqb_refl. simpl.
  apply orb_true_iff in Hnull as [->|Hnull]; [done|]. by rewrite En, orb_true_r.
Qed.

Lemma slice_reference_rows b off len :
  batch_fits (rb_schema b) (rb_columns b) = true -> (off + len <= num_rows b)%nat ->
  rb_schema (slice_reference b off len) = rb_schema b /\ num_rows (slice_reference b off len) = len /\
  batch_fits (rb_schema b) (rb_columns (slice_reference b off len)) = true /\
  batch_rows (slice_reference b off len) = take len (drop off (batch_rows b)).
Proof.
  intros Hf Hn. destruct b as [s [|c cols]]; [done|]. cbn [batch_fits rb_schema rb_columns num_rows] in *.
  set (n := array_len c) in *. pose proof (columns_fit_len _ _ _ Hf) as Hlen.
  assert (num_rows (slice_reference {| rb_schema := s; rb_columns := c :: cols |} off len) = len) as En.
  { cbn. by apply slice_array_facts. }
  split_and!; [done|done| |].
  - cbn [slice_reference rb_schema rb_columns map batch_fits]. destruct (slice_array_facts off len c Hn) as (_ & -> & _).
    by apply (columns_fit_slice off len n s (c :: cols)).
  - unfold batch_rows. rewrite En. cbn [num_rows slice_reference rb_columns]. fold n.
    assert (take len (drop off (map (row_at (c :: cols)) (seq 0 n))) = map (row_at (c :: cols)) (seq off len)) as ->.
    { rewrite skipn_map, firstn_map. f_equal. rewrite skipn_seq, list.take_seq. f_equal; lia. }
    replace (seq off len) with (map (fun i => off + i)%nat (seq 0 len)).
    2:{ clear. revert off. induction len as [|len IH]; intros off; [done|]. cbn [seq map]. rewrite Nat.add_0_r. f_equal.
        rewrite <- seq_shift, map_map, <- (IH (Datatypes.S off)). apply map_ext. intros; lia. }
    rewrite map_map. apply map_ext_in. intros i Hi. apply in_seq in Hi. unfold row_at. rewrite map_map. apply map_ext_in.
    intros a Ha. rewrite List.Forall_forall in Hlen. specialize (Hlen a Ha). rewrite length_array_cells in Hlen.
    destruct (slice_array_facts off len a ltac:(lia)) as (-> & _).
    rewrite nth_firstn. destruct (Nat.ltb_spec i len); [|lia]. by rewrite nth_skipn.
Qed.

Definition slices_reference : SliceKernel := {| slice := slice_reference; slice_rows := slice_reference_rows |}.

Lemma limit_operator_window_witness :
  exists outs, fst (drain (H := limit_operator (slices := slices_reference))
    {| lo_child := {| so_schema := rb_schema two_rows; so_batches := [two_rows; two_rows; two_rows]; so_batch_size := 2 |};
       lo_remaining := 2; lo_skip := 3 |}) = Ret outs /\
    batches_rows outs = [[CInt 20; CNull]; [CInt 10; CInt 1]].
Proof.
  apply (limit_operator_window (slices := slices_reference) _ [two_rows; two_rows; two_rows] 2 3);
    [apply scan_yields|repeat constructor|lia|lia].
Defined.

(** ** Grouping *)

(** [GROUP BY] never gives a result.  With any keys and any aggregates, as
    soon as the input has a batch the operator fails: it declares its key
    columns as integers and builds them as strings, which [try_new]
    rejects. *)
Theorem group_by_fails {libs : Libs} {nulls : NullSlots} keys aggs batches out :
  keys <> [] -> batches <> [] -> aggregate_batches keys aggs (out_schema keys aggs) batches <> Ret out.
Proof.
  intros Hk Hb He. destruct keys as [|k ks]; [done|]. destruct batches as [|b bs]; [done|].
  unfold aggregate_batches in He. apply bind_Ret in He as (groups & _ & He). cbv zeta in He.
  rewrite try_new_unfit in He; [done|]. reflexivity.
Qed.

Lemma group_by_fails_witness :
  aggregate_batches (libs := libs_reference) (nulls := nulls_zero) [EColumn None "v"] [{| ag_func := "count"; ag_arg := Some EStar; ag_alias := "n" |}]
    (out_schema [EColumn None "v"] [{| ag_func := "count"; ag_arg := Some EStar; ag_alias := "n" |}]) [two_rows]
  <> Ret two_rows.
Proof. apply (group_by_fails (libs := libs_reference) (nulls := nulls_zero)); discriminate. Defined.
