(* ===== verification/Sort.v ===== *)
(** * The sort operator

    [crates/infralens-query/src/executor/sort.rs], whose definitions are in
    [Executor]: what [ORDER BY] gives.  The laws of the three Arrow kernels
    it calls are an interface, with a reference instance at the end. *)

From Stdlib Require Import ZArith Lia String.
From stdpp Require Import base tactics list numbers option strings gmap sorting.
From S2P Require Import Prelude Text Float64 Codec Model Arrow Ast Plan Eval Executor.

Local Open Scope nat_scope.

(** ** Comparisons *)

(** A three-way comparison that is a total preorder. *)
Record comparison_laws {A} (c : A -> A -> comparison) : Prop := {
  cmp_sym : forall x y, c y x = CompOpp (c x y);
  cmp_lt_trans : forall x y z, c x y = Lt -> c y z = Lt -> c x z = Lt;
  cmp_eq_l : forall x y z, c x y = Eq -> c x z = c y z
}.
Arguments cmp_sym {A c}. Arguments cmp_lt_trans {A c}. Arguments cmp_eq_l {A c}.

Definition not_gt (c : comparison) : Prop := c <> Gt.

#[export] Instance not_gt_dec c : Decision (not_gt c).
Proof. unfold not_gt. apply _. Defined.

Section Comparisons.
Context {A : Type} (c : A -> A -> comparison) (laws : comparison_laws c).

Lemma cmp_refl x : c x x = Eq.
Proof. pose proof (cmp_sym laws x x). by destruct (c x x). Qed.

Lemma cmp_lt_eq x y z : c x y = Lt -> c y z = Eq -> c x z = Lt.
Proof.
  intros E1 E2. assert (c z y = Eq) as E3 by by rewrite (cmp_sym laws y z), E2.
  by rewrite (cmp_sym laws z x), (cmp_eq_l laws z y x E3), (cmp_sym laws x y), E1.
Qed.

Lemma cmp_trans x y z : not_gt (c x y) -> not_gt (c y z) -> not_gt (c x z).
Proof.
  unfold not_gt. intros H1 H2. destruct (c x y) eqn:E1; [by rewrite (cmp_eq_l laws x y z E1)| |done].
  destruct (c y z) eqn:E2; [by rewrite (cmp_lt_eq x y z)|by rewrite (cmp_lt_trans laws x y z)|done].
Qed.

Lemma cmp_total x y : not_gt (c x y) \/ not_gt (c y x).
Proof. unfold not_gt. rewrite (cmp_sym laws x y). destruct (c x y); [by left|by left|by right]. Qed.
End Comparisons.

(** First by [c], then by [d]. *)
Definition then_cmp (a b : comparison) : comparison := match a with Eq => b | _ => a end.

Lemma then_cmp_laws {A} (c d : A -> A -> comparison) :
  comparison_laws c -> comparison_laws d -> comparison_laws (fun x y => then_cmp (c x y) (d x y)).
Proof.
  intros Hc Hd. split.
  - intros x y. rewrite (cmp_sym Hc x y), (cmp_sym Hd x y). by destruct (c x y).
  - intros x y z. unfold then_cmp. destruct (c x y) eqn:E1; intros H1; try done.
    + rewrite (cmp_eq_l Hc x y z E1). destruct (c y z); try done. intros H2. by apply (cmp_lt_trans Hd x y z).
    + destruct (c y z) eqn:E2; try done; intros _.
      * by rewrite (cmp_lt_eq c Hc x y z).
      * by rewrite (cmp_lt_trans Hc x y z).
  - intros x y z. unfold then_cmp. destruct (c x y) eqn:E1; try done. intros E2.
    by rewrite (cmp_eq_l Hc x y z E1), (cmp_eq_l Hd x y z E2).
Qed.

Lemma comparison_laws_on {A B} (f : A -> B) c : comparison_laws c -> comparison_laws (fun x y => c (f x) (f y)).
Proof. intros Hc. split; intros; [apply Hc|by eapply Hc|by apply Hc]. Qed.

Lemma comparison_laws_opp {A} (c : A -> A -> comparison) : comparison_laws c -> comparison_laws (fun x y => CompOpp (c x y)).
Proof.
  intros Hc. split.
  - intros x y. by rewrite (cmp_sym Hc x y).
  - intros x y z H1 H2. rewrite (cmp_sym Hc z x). assert (c z x = Lt) as ->; [|done].
    apply (cmp_lt_trans Hc z y x); [rewrite (cmp_sym Hc y z); by destruct (c y z)|rewrite (cmp_sym Hc x y); by destruct (c x y)].
  - intros x y z E. f_equal. apply (cmp_eq_l Hc). by destruct (c x y).
Qed.

Lemma Z_compare_laws : comparison_laws Z.compare.
Proof.
  split.
  - intros. apply Z.compare_antisym.
  - intros x y z. rewrite !Z.compare_lt_iff. lia.
  - intros x y z E. apply Z.compare_eq in E. by subst.
Qed.

Lemma string_compare_cons a s b t :
  String.compare (String a s) (String b t) = then_cmp (Ascii.compare a b) (String.compare s t).
Proof. cbn; by destruct (Ascii.compare a b). Qed.

Lemma ascii_compare_laws : comparison_laws Ascii.compare.
Proof.
  split; unfold Ascii.compare.
  - intros. apply N.compare_antisym.
  - intros x y z. rewrite !N.compare_lt_iff. lia.
  - intros x y z E. apply N.compare_eq in E. by rewrite E.
Qed.

Lemma string_compare_laws : comparison_laws String.compare.
Proof.
  split.
  - intros. apply String.compare_antisym.
  - intros x; induction x as [|a x IH]; intros [|b y] [|c z]; try done. rewrite !string_compare_cons.
    unfold then_cmp. destruct (Ascii.compare a b) eqn:E1; try done.
    + rewrite (cmp_eq_l ascii_compare_laws a b c E1). destruct (Ascii.compare b c); try done. by apply IH.
    + intros _. destruct (Ascii.compare b c) eqn:E2; try done; intros _.
      * by rewrite (cmp_lt_eq _ ascii_compare_laws a b c).
      * by rewrite (cmp_lt_trans ascii_compare_laws a b c).
  - intros x y z E. apply String.compare_eq_iff in E. by subst.
Qed.

(** ** The order of [ORDER BY] *)

(** Two slots of a sort column: nulls on their side, values by their order,
    turned around for a descending key. *)
Definition slot_cmp (value_cmp : Cell -> Cell -> comparison) (descending nulls_first : bool) (x y : Cell) : comparison :=
  match x, y with
  | CNull, CNull => Eq
  | CNull, _ => if nulls_first then Lt else Gt
  | _, CNull => if nulls_first then Gt else Lt
  | _, _ => if descending then CompOpp (value_cmp x y) else value_cmp x y
  end.

Lemma slot_cmp_laws vc d n : comparison_laws vc -> comparison_laws (slot_cmp vc d n).
Proof.
  intros Hv. assert (comparison_laws (fun x y => if d then CompOpp (vc x y) else vc x y)) as Hd.
  { destruct d; [by apply comparison_laws_opp|by destruct Hv]. }
  split.
  - intros x y. pose proof (cmp_sym Hd x y). destruct x, y, n; done.
  - intros x y z. pose proof (cmp_lt_trans Hd x y z). destruct x, y, z, n; done.
  - intros x y z. pose proof (cmp_eq_l Hd x y z). destruct x, y, z, n; done.
Qed.

(** Rows [i] and [j] of the sort columns, the first column first. *)
Fixpoint columns_cmp (vc : Cell -> Cell -> comparison) (cols : list SortColumn) (i j : nat) : comparison :=
  match cols with
  | [] => Eq
  | c :: cols =>
      let cells := array_cells (sc_values c) in
      then_cmp (slot_cmp vc (sc_descending c) (sc_nulls_first c) (nth i cells CNull) (nth j cells CNull))
               (columns_cmp vc cols i j)
  end.

Lemma columns_cmp_laws vc cols : comparison_laws vc -> comparison_laws (columns_cmp vc cols).
Proof.
  intros Hv. induction cols as [|c cols IH]; [by split|].
  apply (then_cmp_laws (fun i j => slot_cmp vc (sc_descending c) (sc_nulls_first c)
    (nth i (array_cells (sc_values c)) CNull) (nth j (array_cells (sc_values c)) CNull))); [|exact IH].
  by apply (comparison_laws_on (fun i => nth i (array_cells (sc_values c)) CNull)), slot_cmp_laws.
Qed.

(** A batch of the schema, as the operators pass on. *)
Definition has_schema (s : Schema) (b : RecordBatch) : Prop := rb_schema b = s /\ fits b.

(** [concat_batches] puts the rows after each other, [lexsort_to_indices]
    orders the positions (not necessarily stably), [take_record_batch]
    gathers rows.  The order of values is the one of integers and of bytes;
    on the other types it is some total order. *)
Class SortLaws (sorts : SortKernels) := {
  value_cmp : Cell -> Cell -> comparison;
  value_cmp_laws : comparison_laws value_cmp;
  value_cmp_int : forall a b, value_cmp (CInt a) (CInt b) = Z.compare a b;
  value_cmp_str : forall a b, value_cmp (CStr a) (CStr b) = String.compare a b;
  concat_rows : forall s bs, bs <> [] -> Forall (has_schema s) bs ->
    exists b, concat_batches s bs = Some b /\ has_schema s b /\ batch_rows b = batches_rows bs;
  lexsort_sorted : forall cols n, cols <> [] -> Forall (fun c => array_len (sc_values c) = n) cols ->
    exists ixs, lexsort_to_indices cols = Some ixs /\ ixs ≡ₚ seq 0 n /\
      StronglySorted (fun i j => not_gt (columns_cmp value_cmp cols i j)) ixs;
  take_rows : forall s b ixs, has_schema s b -> Forall (fun i => i < num_rows b) ixs ->
    exists b', take_record_batch b ixs = Some b' /\ has_schema s b' /\ batch_rows b' = map (row_at (rb_columns b)) ixs
}.

(** [schema.index_of]. *)
Fixpoint index_of (s : Schema) (name : string) : option nat :=
  match s with
  | [] => None
  | f :: s => if (field_name f =? name)%string then Some 0 else S <$> index_of s name
  end.

(** The position and the direction of a key in the rows. *)
Definition key_position (s : Schema) (key : Expr * bool) : option (nat * bool) :=
  match key with
  | (EColumn _ name, asc) => (fun i => (i, negb asc)) <$> index_of s name
  | _ => None
  end.

(** The order of rows: by the keys that are columns, nulls last. *)
Fixpoint rows_cmp (vc : Cell -> Cell -> comparison) (ps : list (nat * bool)) (r1 r2 : list Cell) : comparison :=
  match ps with
  | [] => Eq
  | (i, desc) :: ps => then_cmp (slot_cmp vc desc false (nth i r1 CNull) (nth i r2 CNull)) (rows_cmp vc ps r1 r2)
  end.

Definition row_le `{SortLaws} (s : Schema) (keys : list (Expr * bool)) (r1 r2 : list Cell) : Prop :=
  not_gt (rows_cmp value_cmp (filter_map (key_position s) keys) r1 r2).

Section SortFacts.
Context {sorts : SortKernels} {laws : SortLaws sorts}.

Lemma column_of_position s cols name : length s = length cols ->
  column_of s cols name = index_of s name ≫= fun i => cols !! i.
Proof.
  revert cols; induction s as [|f s IH]; intros [|c cols] Hl; try done. cbn [column_of index_of].
  destruct (field_name f =? name)%string; [done|]. rewrite IH by (simpl in Hl; lia). by destruct (index_of s name).
Qed.

Lemma columns_fit_length n s cols : columns_fit n s cols = true -> length s = length cols.
Proof.
  revert cols; induction s as [|f s IH]; intros [|c cols] H; try done. cbn in *. apply andb_true_iff in H as [_ H].
  by rewrite (IH cols).
Qed.

Lemma fits_columns b : fits b -> length (rb_schema b) = length (rb_columns b) /\
  Forall (fun c => array_len c = num_rows b) (rb_columns b).
Proof.
  unfold fits. destruct b as [s [|c cols]]; [done|]. cbn [batch_fits rb_schema rb_columns num_rows]. intros H. split.
  - by eapply columns_fit_length.
  - eapply Forall_impl; [by eapply columns_fit_len|]. intros a Ha. cbn in Ha. by rewrite length_array_cells in Ha.
Qed.

(** The sort columns of a batch are the key positions of its rows. *)
Lemma sort_column_position b key : fits b ->
  sort_column b key = key_position (rb_schema b) key ≫= fun '(i, desc) =>
    (fun c => {| sc_values := c; sc_descending := desc; sc_nulls_first := false |}) <$> (rb_columns b !! i).
Proof.
  intros Hf. destruct key as [[] asc]; try done. cbn. unfold column_by_name. rewrite column_of_position by by apply fits_columns.
  by destruct (index_of _ _).
Qed.

Lemma index_of_lt s name i : index_of s name = Some i -> i < length s.
Proof.
  revert i; induction s as [|f s IH]; intros i H; [done|]. cbn in H. destruct (_ =? _)%string; [simplify_eq/=; lia|].
  destruct (index_of s name); simplify_eq/=. specialize (IH _ eq_refl). lia.
Qed.

Lemma columns_rows_cmp vc b keys i j : fits b ->
  columns_cmp vc (filter_map (sort_column b) keys) i j =
  rows_cmp vc (filter_map (key_position (rb_schema b)) keys) (row_at (rb_columns b) i) (row_at (rb_columns b) j).
Proof.
  intros Hf. induction keys as [|k keys IH]; [done|]. cbn [filter_map]. rewrite (sort_column_position b k Hf).
  destruct (key_position (rb_schema b) k) as [[p desc]|] eqn:Ek; [|exact IH]. cbn [mbind option_bind].
  assert (p < length (rb_columns b)) as Hp.
  { destruct k as [[] asc]; try done. cbn in Ek. destruct (index_of _ _) eqn:Ei; simplify_eq/=.
    apply index_of_lt in Ei. by rewrite <- (proj1 (fits_columns b Hf)). }
  destruct (lookup_lt_is_Some_2 _ _ Hp) as [c Hc]. rewrite Hc. cbn [fmap option_fmap option_map columns_cmp rows_cmp sc_values sc_descending sc_nulls_first].
  rewrite IH. f_equal. unfold row_at. f_equal.
  - rewrite (nth_lookup_Some (map _ (rb_columns b)) p CNull (nth i (array_cells c) CNull)); [done|]. by rewrite list_lookup_fmap, Hc.
  - rewrite (nth_lookup_Some (map _ (rb_columns b)) p CNull (nth j (array_cells c) CNull)); [done|]. by rewrite list_lookup_fmap, Hc.
Qed.

Lemma StronglySorted_map {A B} (R : A -> A -> Prop) (Q : B -> B -> Prop) (f : A -> B) l :
  (forall x y, R x y -> Q (f x) (f y)) -> StronglySorted R l -> StronglySorted Q (map f l).
Proof.
  intros HR. induction 1 as [|x l _ IH Hx]; [constructor|]. cbn [map]. constructor; [done|].
  apply Forall_map. eapply Forall_impl; [exact Hx|]. intros y Hy. cbn. by apply HR.
Qed.

Lemma batches_rows_one b : batches_rows [b] = batch_rows b.
Proof. unfold batches_rows. cbn. apply app_nil_r. Qed.

(** What [materialize] makes of the batches of the child. *)
Lemma sort_batches_sorted s keys bs : Forall (has_schema s) bs ->
  exists outs, sort_batches keys bs = Ret outs /\ Forall (has_schema s) outs /\ length outs <= 1 /\
    batches_rows outs ≡ₚ batches_rows bs /\ StronglySorted (row_le s keys) (batches_rows outs) /\
    (filter_map (key_position s) keys = [] -> batches_rows outs = batches_rows bs).
Proof.
  intros Hs. destruct bs as [|b0 bs]; [exists []; split_and!; try done; [cbn; lia|constructor]|].
  assert (rb_schema b0 = s) as E0 by by apply Forall_cons_1 in Hs as [[-> _] _].
  destruct (concat_rows s (b0 :: bs) ltac:(done) Hs) as (whole & Ec & [Ew Hw] & Hr).
  cbn [sort_batches]. rewrite E0, Ec. cbn [arrow_result ok_or mbind outcome_bind].
  pose proof (fun i j => columns_rows_cmp value_cmp whole keys i j Hw) as Hcmp. rewrite Ew in Hcmp.
  destruct (filter_map (sort_column whole) keys) as [|c cols] eqn:Ecols.
  - exists [whole]. rewrite (batches_rows_one whole), Hr. split_and!; [done|by apply List.Forall_cons|cbn; lia|done| |done].
    rewrite <- Hr. unfold batch_rows. apply (StronglySorted_map (fun _ _ => True)).
    + intros i j _. unfold row_le, not_gt. by rewrite <- Hcmp.
    + induction (seq 0 (num_rows whole)); constructor; [done|]. by apply List.Forall_forall.
  - assert (Forall (fun c => array_len (sc_values c) = num_rows whole) (c :: cols)) as Hlen.
    { rewrite <- Ecols. clear - Hw. induction keys as [|k keys IH]; [constructor|]. cbn [filter_map].
      rewrite (sort_column_position whole k Hw). destruct (key_position _ k) as [[p d]|]; [|exact IH]. cbn.
      destruct (rb_columns whole !! p) as [a|] eqn:Ea; [|exact IH]. constructor; [|exact IH]. cbn.
      destruct (fits_columns whole Hw) as [_ Hl]. by eapply Forall_lookup_1 in Hl. }
    destruct (lexsort_sorted (c :: cols) (num_rows whole) ltac:(done) Hlen) as (ixs & El & Hp & Hsort).
    destruct (take_rows s whole ixs) as (out & Et & Ho & Hro); [done| |].
    { rewrite Hp. apply List.Forall_forall. intros i Hi. apply in_seq in Hi. lia. }
    rewrite El. cbn [arrow_result ok_or mbind outcome_bind]. rewrite Et. cbn [arrow_result ok_or mbind outcome_bind].
    exists [out]. rewrite (batches_rows_one out), Hro.
    split_and!; [done|by apply List.Forall_cons|cbn; lia| | |].
    + rewrite Hp, <- Hr. done.
    + apply (StronglySorted_map (fun i j => not_gt (columns_cmp value_cmp (c :: cols) i j))); [|done].
      intros i j. unfold row_le. by rewrite <- Hcmp.
    + intros Hk. exfalso. clear - Ecols Hk Hw Ew. revert Ecols.
      assert (filter_map (sort_column whole) keys = []) as ->; [|done].
      revert Hk. induction keys as [|k keys IH]; [done|]. cbn [filter_map]. rewrite (sort_column_position whole k Hw), Ew.
      by destruct (key_position s k).
Qed.
End SortFacts.

Section SortOperatorFacts.
Context {sorts : SortKernels} {S : Type} `{OperatorLaws S}.

Lemma sort_batches_one keys bs outs : sort_batches keys bs = Ret outs -> length outs <= 1.
Proof.
  destruct bs as [|b bs]; cbn [sort_batches]; [intros [= <-]; cbn; lia|]. intros Hs.
  apply bind_Ret in Hs as (whole & _ & Hs). destruct (filter_map _ keys); [simplify_eq; done|].
  apply bind_Ret in Hs as (ixs & _ & Hs). apply bind_Ret in Hs as (out & _ & Hs). by simplify_eq.
Qed.

#[export] Instance sort_laws : OperatorLaws (SortOperator S).
Proof.
  split. intros [c keys res] b s' Hp. cbn [poll_next sort_operator] in Hp. unfold sort_poll in Hp. cbn [sr_child] in Hp.
  destruct c as [c|].
  - unfold materialize in Hp. cbn [sr_child sr_keys sr_result] in Hp. destruct (fst (drain c)) as [bs| |]; [|done|done].
    destruct (sort_batches keys bs) as [outs| |] eqn:Es; [|done|done]. apply sort_batches_one in Es. unfold sort_pop in Hp.
    cbn [sr_child sr_keys sr_result] in Hp. destruct outs as [|o outs]; [done|]. injection Hp as _ <-. cbn in *. lia.
  - unfold sort_pop in Hp. cbn [sr_child sr_keys sr_result] in Hp. destruct res as [[|o outs]|]; [done| |done].
    injection Hp as _ <-. cbn. lia.
Qed.

Lemma sort_pop_yields keys outs : yields (S := SortOperator S) {| sr_child := None; sr_keys := keys; sr_result := Some outs |} outs.
Proof. induction outs as [|b outs IH]; [by eapply yields_nil|]. by eapply yields_cons; [|exact IH]. Qed.

Lemma sort_yields c keys bs outs : yields c bs -> sort_batches keys bs = Ret outs ->
  yields {| sr_child := Some c; sr_keys := keys; sr_result := None |} outs.
Proof.
  intros Hy Hs. pose proof (sort_pop_yields keys outs) as Hp.
  assert (sort_poll {| sr_child := Some c; sr_keys := keys; sr_result := None |} =
    sort_pop (S := S) {| sr_child := None; sr_keys := keys; sr_result := Some outs |}) as E.
  { unfold sort_poll. cbn [sr_child]. unfold materialize. cbn [sr_keys sr_result]. by rewrite (drain_yields c bs Hy), Hs. }
  inversion Hp as [? s' Hn|? b s' bs' Hn Hr]; subst; [eapply yields_nil|eapply yields_cons; [|exact Hr]]; rewrite <- Hn; exact E.
Qed.
End SortOperatorFacts.

(** C14: [ORDER BY] sorts.  Over any child with batches of one schema the sort
    operator gives one batch at most, whose rows are a permutation of the
    rows of the child, in order of the keys that are columns of the schema:
    ascending or descending as asked for, later keys deciding ties, nulls
    last.  Keys that are no columns are ignored, and with none left the rows
    keep their order. *)
Theorem sort_operator_sorted {sorts : SortKernels} {laws : SortLaws sorts} {S} `{OperatorLaws S} (c : S) keys s bs :
  yields c bs -> Forall (has_schema s) bs ->
  exists outs, fst (drain {| sr_child := Some c; sr_keys := keys; sr_result := None |}) = Ret outs /\
    length outs <= 1 /\ batches_rows outs ≡ₚ batches_rows bs /\
    StronglySorted (row_le s keys) (batches_rows outs) /\
    (filter_map (key_position s) keys = [] -> batches_rows outs = batches_rows bs).
Proof.
  intros Hy Hs. destruct (sort_batches_sorted s keys bs Hs) as (outs & Es & _ & Hl & Hp & Hso & Hk).
  exists outs. split_and!; try done. apply drain_yields. by apply (sort_yields c keys bs).
Qed.

(** ** Reference kernels *)

(** Integers and strings in their order, the rest by type only. *)
Definition cell_code (c : Cell) : Z * (Z * string) :=
  match c with
  | CNull => (0%Z, (0%Z, "")) | CInt z => (1%Z, (z, "")) | CFloat _ => (2%Z, (0%Z, "")) | CStr s => (3%Z, (0%Z, s))
  | CBin _ => (4%Z, (0%Z, "")) | CBool b => (5%Z, (if b then 1%Z else 0%Z, ""))
  end%string.

Definition value_cmp_reference (a b : Cell) : comparison :=
  then_cmp (Z.compare (fst (cell_code a)) (fst (cell_code b)))
    (then_cmp (Z.compare (fst (snd (cell_code a))) (fst (snd (cell_code b))))
              (String.compare (snd (snd (cell_code a))) (snd (snd (cell_code b))))).

Lemma value_cmp_reference_laws : comparison_laws value_cmp_reference.
Proof.
  unfold value_cmp_reference. apply then_cmp_laws; [|apply then_cmp_laws].
  - apply (comparison_laws_on (fun a => fst (cell_code a))), Z_compare_laws.
  - apply (comparison_laws_on (fun a => fst (snd (cell_code a)))), Z_compare_laws.
  - apply (comparison_laws_on (fun a => snd (snd (cell_code a)))), string_compare_laws.
Qed.

(** One array after another of the same type. *)
Definition append_array (a b : ArrayRef) : ArrayRef :=
  match a, b with
  | UInt64Array l, UInt64Array r => UInt64Array (l ++ r)
  | Int64Array l, Int64Array r => Int64Array (l ++ r)
  | Int32Array l, Int32Array r => Int32Array (l ++ r)
  | Int8Array l, Int8Array r => Int8Array (l ++ r)
  | Float64Array l, Float64Array r => Float64Array (l ++ r)
  | StringArray l, StringArray r => StringArray (l ++ r)
  | BinaryArray l, BinaryArray r => BinaryArray (l ++ r)
  | BooleanArray l, BooleanArray r => BooleanArray (l ++ r)
  | _, _ => a
  end.

Definition append_batch (a b : RecordBatch) : RecordBatch :=
  {| rb_schema := rb_schema a; rb_columns := zip_with append_array (rb_columns a) (rb_columns b) |}.

Definition concat_reference (s : Schema) (bs : list RecordBatch) : option RecordBatch :=
  match bs with [] => None | b :: bs => Some (fold_left append_batch bs b) end.

Lemma append_array_facts a b : data_type a = data_type b ->
  array_cells (append_array a b) = array_cells a ++ array_cells b /\
  array_len (append_array a b) = array_len a + array_len b /\ data_type (append_array a b) = data_type a /\
  (array_no_nulls a = true -> array_no_nulls b = true -> array_no_nulls (append_array a b) = true).
Proof.
  intros Ht. destruct a, b; try done; cbn; (split_and!; [by rewrite map_app|by rewrite length_app|done|]);
    unfold no_nulls; rewrite forallb_app; by intros -> ->.
Qed.

Lemma columns_fit_append n m s cs ds : columns_fit n s cs = true -> columns_fit m s ds = true ->
  columns_fit (n + m) s (zip_with append_array cs ds) = true /\
  forall i, row_at (zip_with append_array cs ds) i = if i <? n then row_at cs i else row_at ds (i - n).
Proof.
  revert cs ds; induction s as [|f s IH]; intros [|c cs] [|d ds] Hc Hd; try done.
  { split; [done|]. intros i. by destruct (i <? n). }
  cbn [columns_fit] in Hc, Hd. apply andb_true_iff in Hc as [Hc Hcs]. apply andb_true_iff in Hd as [Hd Hds].
  destruct (IH cs ds Hcs Hds) as [Hf Hr]. unfold column_fits in Hc, Hd.
  apply andb_true_iff in Hc as [[Hct%bool_decide_eq_true_1 Hcl%Nat.eqb_eq]%andb_true_iff Hcn].
  apply andb_true_iff in Hd as [[Hdt%bool_decide_eq_true_1 Hdl%Nat.eqb_eq]%andb_true_iff Hdn].
  destruct (append_array_facts c d ltac:(congruence)) as (Ha & Hl & Ht & Hnn).
  cbn [zip_with columns_fit]. split.
  - apply andb_true_iff. split; [|exact Hf]. unfold column_fits. rewrite Ht, Hl, Hct, Hcl, Hdl, Nat.eqb_refl, bool_decide_eq_true_2 by done. cbn.
    destruct (field_nullable f); [done|]. cbn in *. by apply Hnn.
  - intros i. specialize (Hr i). unfold row_at in *. cbn [map]. rewrite Hr, Ha.
    destruct (Nat.ltb_spec i n); f_equal.
    + apply app_nth1. rewrite length_array_cells. lia.
    + rewrite app_nth2; rewrite length_array_cells; [by rewrite Hcl|lia].
Qed.

Lemma append_batch_rows s a b : has_schema s a -> has_schema s b ->
  has_schema s (append_batch a b) /\ batch_rows (append_batch a b) = batch_rows a ++ batch_rows b.
Proof.
  intros [Ea Ha] [Eb Hb]. unfold fits in Ha, Hb. rewrite Ea in Ha. rewrite Eb in Hb. destruct a as [sa [|c cs]], b as [sb [|d ds]]; try done.
  cbn [rb_schema rb_columns batch_fits] in *. subst.
  destruct (columns_fit_append _ _ s (c :: cs) (d :: ds) Ha Hb) as [Hf Hr].
  assert (array_len (append_array c d) = array_len c + array_len d) as Hl.
  { apply append_array_facts. destruct s as [|f s]; [done|]. cbn in Ha, Hb. unfold column_fits in *.
    apply andb_true_iff in Ha as [[[Hct%bool_decide_eq_true_1 _]%andb_true_iff _]%andb_true_iff _].
    apply andb_true_iff in Hb as [[[Hdt%bool_decide_eq_true_1 _]%andb_true_iff _]%andb_true_iff _]. congruence. }
  split.
  - split; [done|]. unfold fits, append_batch. cbn [rb_schema rb_columns zip_with batch_fits]. by rewrite Hl.
  - unfold batch_rows, append_batch. cbn [rb_columns num_rows zip_with]. rewrite Hl, seq_app, map_app. f_equal.
    + apply map_ext_in. intros i Hi%in_seq. cbn [zip_with] in Hr. rewrite Hr. by destruct (Nat.ltb_spec i (array_len c)); [|lia].
    + rewrite Nat.add_0_l, <- (Nat.add_0_r (array_len c)) at 1. rewrite <- fmap_add_seq, map_map. apply map_ext_in.
      intros i Hi. cbn [zip_with] in Hr. rewrite Hr. destruct (Nat.ltb_spec (array_len c + i) (array_len c)); [lia|]. do 2 f_equal. lia.
Qed.

Lemma concat_reference_rows s bs : bs <> [] -> Forall (has_schema s) bs ->
  exists b, concat_reference s bs = Some b /\ has_schema s b /\ batch_rows b = batches_rows bs.
Proof.
  destruct bs as [|b bs]; [done|]. intros _ Hs. apply Forall_cons_1 in Hs as [Hb Hs]. cbn [concat_reference].
  eexists. split; [done|]. change (batches_rows (b :: bs)) with (batch_rows b ++ batches_rows bs).
  revert b Hb. induction Hs as [|d bs Hd _ IH]; intros b Hb; cbn [fold_left].
  - split; [done|]. unfold batches_rows. cbn. by rewrite app_nil_r.
  - destruct (append_batch_rows s b d Hb Hd) as [Hbd Hr]. destruct (IH _ Hbd) as [Hf ->]. split; [done|].
    rewrite Hr. unfold batches_rows. cbn. by rewrite app_assoc.
Qed.

(** The slots of an array at some positions. *)
Definition pick_array (ixs : list nat) (a : ArrayRef) : ArrayRef :=
  match a with
  | UInt64Array l => UInt64Array (map (fun i => nth i l None) ixs)
  | Int64Array l => Int64Array (map (fun i => nth i l None) ixs)
  | Int32Array l => Int32Array (map (fun i => nth i l None) ixs)
  | Int8Array l => Int8Array (map (fun i => nth i l None) ixs)
  | Float64Array l => Float64Array (map (fun i => nth i l None) ixs)
  | StringArray l => StringArray (map (fun i => nth i l None) ixs)
  | BinaryArray l => BinaryArray (map (fun i => nth i l None) ixs)
  | BooleanArray l => BooleanArray (map (fun i => nth i l None) ixs)
  end.

Definition pick_batch (b : RecordBatch) (ixs : list nat) : option RecordBatch :=
  Some {| rb_schema := rb_schema b; rb_columns := map (pick_array ixs) (rb_columns b) |}.

Lemma nth_cells {A} (f : A -> Cell) l i : nth i (map (cell f) l) CNull = cell f (nth i l None).
Proof. apply (map_nth (cell f) l None). Qed.

Lemma pick_no_nulls {A} (l : list (option A)) ixs :
  Forall (fun i => i < length l) ixs -> no_nulls l = true -> no_nulls (map (fun i => nth i l None) ixs) = true.
Proof.
  unfold no_nulls. rewrite !forallb_forall. intros Hi Hl x Hx. apply in_map_iff in Hx as (i & <- & Hin).
  apply Hl, nth_In. rewrite List.Forall_forall in Hi. by apply Hi.
Qed.

Lemma pick_array_facts ixs a : Forall (fun i => i < array_len a) ixs ->
  array_cells (pick_array ixs a) = map (fun i => nth i (array_cells a) CNull) ixs /\
  array_len (pick_array ixs a) = length ixs /\ data_type (pick_array ixs a) = data_type a /\
  (array_no_nulls a = true -> array_no_nulls (pick_array ixs a) = true).
Proof.
  intros Hi. destruct a; cbn in *; (split_and!; [|by rewrite length_map|done|by apply pick_no_nulls]);
    rewrite map_map; apply map_ext; intros i; by rewrite nth_cells.
Qed.

Lemma columns_fit_pick ixs n s cols : Forall (fun i => i < n) ixs -> columns_fit n s cols = true ->
  columns_fit (length ixs) s (map (pick_array ixs) cols) = true.
Proof.
  intros Hi. revert s; induction cols as [|c cols IH]; intros [|f s] H; try done. cbn [columns_fit map] in *.
  apply andb_true_iff in H as [Hc H]. rewrite (IH s H), andb_true_r. unfold column_fits in *.
  apply andb_true_iff in Hc as [[Ht%bool_decide_eq_true_1 Hl%Nat.eqb_eq]%andb_true_iff Hn].
  destruct (pick_array_facts ixs c) as (_ & Hpl & Hpt & Hpn); [by rewrite Hl|].
  rewrite Hpt, Ht, Hpl, Nat.eqb_refl, bool_decide_eq_true_2 by done. cbn. destruct (field_nullable f); [done|]. by apply Hpn.
Qed.

Lemma pick_batch_rows s b ixs : has_schema s b -> Forall (fun i => i < num_rows b) ixs ->
  exists b', pick_batch b ixs = Some b' /\ has_schema s b' /\ batch_rows b' = map (row_at (rb_columns b)) ixs.
Proof.
  intros [Es Hf] Hi. destruct (fits_columns b Hf) as [_ Hl]. unfold fits in Hf. destruct b as [sb [|c cols]]; [done|].
  cbn [rb_schema rb_columns num_rows] in *. subst sb. eexists. split; [done|].
  assert (array_len (pick_array ixs c) = length ixs) as En by by apply pick_array_facts.
  split; [split; [done|]|].
  - unfold fits. cbn [rb_schema rb_columns map batch_fits]. rewrite En.
    by apply (columns_fit_pick ixs (array_len c) s (c :: cols)).
  - unfold batch_rows. cbn [rb_columns num_rows map]. rewrite En.
    apply nth_ext with (d := []) (d' := []); [by rewrite !length_map, length_seq|]. intros k Hk. rewrite length_map, length_seq in Hk.
    rewrite (nth_indep _ [] (row_at (pick_array ixs c :: map (pick_array ixs) cols) 0)) by by rewrite length_map, length_seq.
    rewrite (map_nth (row_at _)), seq_nth by done. rewrite (nth_indep _ [] (row_at (c :: cols) 0)) by by rewrite length_map.
    rewrite (map_nth (row_at (c :: cols))). cbn [Nat.add]. unfold row_at.
    change (pick_array ixs c :: map (pick_array ixs) cols) with (map (pick_array ixs) (c :: cols)). rewrite map_map. apply map_ext_in.
    intros a Ha. rewrite List.Forall_forall in Hl. specialize (Hl a Ha). cbn in Hl.
    destruct (pick_array_facts ixs a) as (-> & _); [by rewrite Hl|].
    rewrite (nth_indep _ CNull (nth 0 (array_cells a) CNull)) by by rewrite length_map.
    by rewrite (map_nth (fun i => nth i (array_cells a) CNull)).
Qed.

Definition columns_le (cols : list SortColumn) (i j : nat) : Prop := not_gt (columns_cmp value_cmp_reference cols i j).

#[export] Instance columns_le_dec cols i j : Decision (columns_le cols i j).
Proof. unfold columns_le. apply _. Defined.

#[export] Instance columns_le_trans cols : Transitive (columns_le cols).
Proof. intros i j k. apply cmp_trans, columns_cmp_laws, value_cmp_reference_laws. Qed.

#[export] Instance columns_le_total cols : Total (columns_le cols).
Proof. intros i j. apply cmp_total, columns_cmp_laws, value_cmp_reference_laws. Qed.

Definition lexsort_reference (cols : list SortColumn) : option (list nat) :=
  match cols with
  | [] => None
  | c :: _ => Some (merge_sort (columns_le cols) (seq 0 (array_len (sc_values c))))
  end.

Definition sorts_reference : SortKernels :=
  {| concat_batches := concat_reference; lexsort_to_indices := lexsort_reference; take_record_batch := pick_batch |}.

Lemma lexsort_reference_sorted cols n : cols <> [] -> Forall (fun c => array_len (sc_values c) = n) cols ->
  exists ixs, lexsort_reference cols = Some ixs /\ ixs ≡ₚ seq 0 n /\
    StronglySorted (fun i j => not_gt (columns_cmp value_cmp_reference cols i j)) ixs.
Proof.
  destruct cols as [|c cols]; [done|]. intros _ Hn. apply Forall_cons_1 in Hn as [Hn _]. cbn [lexsort_reference]. rewrite Hn.
  eexists. split; [done|]. split; [apply merge_sort_Permutation|]. apply (StronglySorted_merge_sort (columns_le (c :: cols)) _).
Qed.

#[export] Instance sort_laws_reference : SortLaws sorts_reference := {
  value_cmp := value_cmp_reference;
  value_cmp_laws := value_cmp_reference_laws;
  value_cmp_int := fun a b => match Z.compare a b as c return then_cmp c Eq = c with Eq => eq_refl | Lt => eq_refl | Gt => eq_refl end;
  value_cmp_str := fun a b => eq_refl;
  concat_rows := concat_reference_rows;
  lexsort_sorted := lexsort_reference_sorted;
  take_rows := pick_batch_rows
}.

Lemma sort_operator_sorted_witness :
  exists outs, fst (drain (H := sort_operator (H0 := sorts_reference))
    {| sr_child := Some {| so_schema := rb_schema two_rows; so_batches := [two_rows; two_rows]; so_batch_size := 2 |};
       sr_keys := [(EColumn None "v", true); (EColumn None "timestamp_ns", false)]; sr_result := None |}) = Ret outs /\
    StronglySorted (@row_le sorts_reference sort_laws_reference (rb_schema two_rows) [(EColumn None "v", true); (EColumn None "timestamp_ns", false)]) (batches_rows outs) /\
    batches_rows outs ≡ₚ [[CInt 10; CInt 1]; [CInt 20; CNull]; [CInt 10; CInt 1]; [CInt 20; CNull]].
Proof.
  destruct (sort_operator_sorted (laws := sort_laws_reference)
    {| so_schema := rb_schema two_rows; so_batches := [two_rows; two_rows]; so_batch_size := 2 |}
    [(EColumn None "v", true); (EColumn None "timestamp_ns", false)] (rb_schema two_rows) [two_rows; two_rows])
    as (outs & Ho & _ & Hp & Hs & _).
  - apply scan_yields.
  - repeat (apply List.Forall_cons; [split; reflexivity|]). apply List.Forall_nil.
  - exists outs. split; [exact Ho|]. split; [exact Hs|exact Hp].
Defined.
