(* ===== verification/Query.v ===== *)
(** * Queries from end to end

    [crates/infralens-query/src/lib.rs]: what [execute] gives for a
    statement over one table, through the parser, the planner, the optimizer
    and the operators, in terms of the rows of the files of the table. *)

From Stdlib Require Import ZArith Lia.
From stdpp Require Import base tactics list numbers option strings gmap sorting.
From S2P Require Import Prelude Text Float64 Codec Model Arrow Fs Wal ZoneMap SSTable Partition Compaction Engine EngineSafety Ast Lexer Parser Plan Eval Executor Sort.

(** ** The files of a table *)

(** Each path reads as some batches. *)
Definition reads {libs : Libs} (w : Fs) (n : nat) (paths : list path) (files : list (list RecordBatch)) : Prop :=
  Forall2 (fun p bs => read_parquet p n w = (Ret (map Ret bs), w)) paths files.

(** What the clock shows for the [i]-th batch of a scan with a predicate that
    was folded at planning. *)
Definition scan_clock (now : QueryClock) (p : Expr) (i : nat) : Clock := planned p (at_plan now p) (at_scan now i).

(** The rows a [WHERE] clause selects: all of them, or those whose mask is
    true, where the clause evaluates to a mask on each batch. *)
Inductive selects {kernels : Kernels} (now : QueryClock) : option Expr -> list RecordBatch -> list (list (list Cell)) -> Prop :=
| selects_all bs : selects now None bs (map batch_rows bs)
| selects_where p bs masks :
    length masks = length bs ->
    (forall i b m, bs !! i = Some b -> masks !! i = Some m -> eval_filter (scan_clock now p i) b p = Ret m /\ length m = num_rows b) ->
    selects now (Some p) bs (zip_with keep masks (map batch_rows bs)).

Section Load.
Context {libs : EngineLibs} {kernels : Kernels} {slices : SliceKernel} {sorts : SortKernels}.
Variable now : QueryClock.

(** Where the predicate evaluates on every batch, a scan that has read [i]
    batches collects the filtered batches that are not empty. *)
Inductive loaded (i : nat) : option Expr -> list RecordBatch -> list RecordBatch -> Prop :=
| loaded_all bs : loaded i None bs bs
| loaded_where p bs outs : length outs = length bs ->
    (forall j b out, bs !! j = Some b -> outs !! j = Some out -> apply_predicate (at_scan now (i + j)) b p = Ret out) ->
    loaded i (Some p) bs (List.filter (fun b => (0 <? num_rows b)%nat) outs).

Lemma loaded_app i o bs1 bs2 outs : loaded i o (bs1 ++ bs2) outs ->
  exists outs1 outs2, outs = outs1 ++ outs2 /\ loaded i o bs1 outs1 /\ loaded (i + length bs1) o bs2 outs2.
Proof.
  inversion 1 as [bs|p bs os Hl Ho]; subst; [exists bs1, bs2; by split_and!; constructor|].
  rewrite length_app in Hl.
  exists (List.filter (fun b => (0 <? num_rows b)%nat) (take (length bs1) os)), (List.filter (fun b => (0 <? num_rows b)%nat) (drop (length bs1) os)).
  split_and!; [by rewrite <- List.filter_app, take_drop|constructor|constructor].
  - rewrite length_take. lia.
  - intros j b out Hb Hout. apply lookup_take_Some in Hout as [Hout _]. apply (Ho j); [by apply lookup_app_l_Some|done].
  - rewrite length_drop. lia.
  - intros j b out Hb Hout. rewrite lookup_drop in Hout. rewrite <- Nat.add_assoc. apply Ho; [|done].
    by rewrite lookup_app_r, Nat.add_comm, Nat.add_sub by lia.
Qed.

Lemma collect_loaded i op bs outs all : loaded i (sc_predicate op) bs outs ->
  collect_batches now i op (map Ret bs) all = Ret (all ++ outs).
Proof.
  remember (sc_predicate op) as o eqn:Eo. intros Hl. destruct Hl as [bs|p bs os Hl Ho].
  - revert i all. induction bs as [|b bs IH]; intros i all; cbn [map collect_batches]; [by rewrite app_nil_r|].
    cbn [map_err mbind outcome_bind]. rewrite <- Eo, IH. by rewrite <- app_assoc.
  - revert i os Hl Ho all. induction bs as [|b bs IH]; intros i [|o os] Hl Ho all; cbn [map collect_batches List.filter length] in *; try lia; [by rewrite app_nil_r|].
    pose proof (Ho 0%nat b o eq_refl eq_refl) as Hb. rewrite Nat.add_0_r in Hb.
    cbn [map_err mbind outcome_bind]. rewrite <- Eo, Hb. cbn [mbind outcome_bind].
    rewrite (IH (S i) os); [destruct (0 <? num_rows o)%nat; [by rewrite <- app_assoc|done]|lia|].
    intros j b' o' Hb' Ho'. rewrite Nat.add_succ_comm. by apply (Ho (S j)).
Qed.

Lemma load_files_loaded op n w paths files i all outs : reads w n paths files -> loaded i (sc_predicate op) (concat files) outs ->
  load_files now i op n paths all w = (Ret (all ++ outs), w).
Proof.
  intros Hr. revert i all outs. induction Hr as [|p bs paths files Hp _ IH]; intros i all outs Hl.
  - assert (outs = []) as -> by (inversion Hl as [|? ? os Ho _]; subst; [done|by destruct os]). by rewrite app_nil_r.
  - cbn [concat] in Hl. apply loaded_app in Hl as (o1 & o2 & -> & H1 & H2). cbn [load_files].
    erewrite st_bind_Ret; [|unfold execution_error; by rewrite Hp].
    rewrite (collect_loaded i op bs o1 all H1). unfold st_lift. erewrite st_bind_Ret by done.
    rewrite length_map, (IH _ (all ++ o1) o2 H2). by rewrite app_assoc.
Qed.
End Load.

Section Selecting.
Context {libs : EngineLibs} {kernels : Kernels} (now : QueryClock).

Lemma eval_filter_fold i b p m : eval_filter (scan_clock now p i) b p = Ret m -> eval_filter (at_scan now i) b (fold_expr (at_plan now p) p) = Ret m.
Proof.
  unfold eval_filter. intros H. apply bind_Ret in H as (arr & Ea & H). by rewrite (fold_expr_eval b (at_plan now p) (at_scan now i) p arr Ea).
Qed.

Definition folded (p : Expr) : Expr := fold_expr (at_plan now p) p.

(** The groups of rows left by the scan: with a predicate, empty ones are
    dropped. *)
Definition groups_left (o : option Expr) (groups : list (list (list Cell))) : list (list (list Cell)) :=
  match o with
  | None => groups
  | Some _ => List.filter (fun g => match g with [] => false | _ => true end) groups
  end.

Lemma concat_nonempty {A} (ls : list (list A)) : concat (List.filter (fun g => match g with [] => false | _ => true end) ls) = concat ls.
Proof. induction ls as [|[|x l] ls IH]; cbn; [done|done|by rewrite IH]. Qed.

Lemma predicate_outs p s bs masks f : Forall (has_schema s) bs -> length masks = length bs ->
  (forall i b m, bs !! i = Some b -> masks !! i = Some m -> eval_filter (f i) b p = Ret m /\ length m = num_rows b) ->
  exists outs, length outs = length bs /\
    (forall i b out, bs !! i = Some b -> outs !! i = Some out -> apply_predicate (f i) b p = Ret out) /\
    Forall (has_schema s) outs /\ map batch_rows outs = zip_with keep masks (map batch_rows bs).
Proof.
  revert masks f. induction bs as [|b bs IH]; intros [|m masks] f Hs Hl Hm; try done; [by exists []|].
  apply Forall_cons_1 in Hs as [[Es Hf] Hs]. injection Hl as Hl.
  destruct (IH masks (fun i => f (S i)) Hs Hl) as (outs & Hlo & Ho & Hsc & Hr); [intros i; apply (Hm (S i))|].
  destruct (Hm 0%nat b m eq_refl eq_refl) as [He Hlm]. destruct (kfilter_spec b m Hf Hlm) as (out & Ek & Eo & Hfo & Hrows).
  exists (out :: outs). split_and!.
  - cbn. by rewrite Hlo.
  - intros [|i] b' o' Hb' Ho'; [|by apply Ho]. simplify_eq/=. unfold apply_predicate. rewrite He. cbn. by rewrite Ek.
  - constructor; [split; [congruence|done]|done].
  - cbn [map zip_with]. rewrite Hr. f_equal. exact Hrows.
Qed.

Lemma selects_loaded o s bs groups : Forall (has_schema s) bs -> selects now o bs groups ->
  exists outs, loaded now 0 (folded <$> o) bs outs /\ Forall (has_schema s) outs /\ map batch_rows outs = groups_left o groups.
Proof.
  intros Hs Hsel. destruct Hsel as [bs|p bs masks Hl Hm]; [exists bs; by split_and!; [constructor| |]|].
  destruct (predicate_outs (folded p) s bs masks (at_scan now) Hs Hl) as (outs & Hlo & Ho & Hsc & Hr).
  { intros i b m Hb Hi. destruct (Hm i b m Hb Hi) as [He Hn]. by split; [apply eval_filter_fold|]. }
  eexists. split; [by constructor; [|intros j b out Hb Hout; apply Ho]|]. split.
  - apply List.Forall_forall. intros b Hb. apply filter_In in Hb as [Hb _]. rewrite List.Forall_forall in Hsc. by apply Hsc.
  - cbn [groups_left]. rewrite <- Hr. clear. induction outs as [|b outs IH]; [done|]. cbn [map List.filter].
    pose proof (length_batch_rows b) as Hl. destruct (Nat.ltb_spec 0 (num_rows b)); destruct (batch_rows b) as [|r rs] eqn:Eb; cbn [length] in Hl; try lia; [|done].
    cbn [map]. by rewrite Eb, IH.
Qed.

Lemma groups_left_rows o groups : concat (groups_left o groups) = concat groups.
Proof. destruct o; [apply concat_nonempty|done]. Qed.
End Selecting.

(** ** The limit of the scan *)

(** The same on groups of rows. *)
Fixpoint retain_groups {A} (limit total : Z) (groups : list (list A)) : list (list A) :=
  match groups with
  | [] => []
  | g :: groups =>
      if limit <=? total then retain_groups limit total groups
      else g :: retain_groups limit (total + Z.of_nat (length g)) groups
  end.

Lemma retain_limit_groups n t bs : map batch_rows (retain_limit n t bs) = retain_groups n t (map batch_rows bs).
Proof.
  revert t; induction bs as [|b bs IH]; intros t; [done|]. cbn [map retain_limit retain_groups]. rewrite length_batch_rows.
  destruct (n <=? t); [done|]. cbn [map]. by rewrite IH.
Qed.

Lemma retain_groups_full {A} n total (gs : list (list A)) : n <= total -> retain_groups n total gs = [].
Proof. intros Hn. induction gs as [|g gs IH]; [done|]. cbn [retain_groups]. by destruct (Z.leb_spec n total); [|lia]. Qed.

(** The first [n] rows survive the limit of the scan. *)
Lemma retain_groups_rows {A} n total (gs : list (list A)) : 0 <= total ->
  take (Z.to_nat (n - total)) (concat (retain_groups n total gs)) = take (Z.to_nat (n - total)) (concat gs).
Proof.
  revert total; induction gs as [|g gs IH]; intros total Ht; [done|]. cbn [retain_groups concat].
  destruct (Z.leb_spec n total); [replace (Z.to_nat (n - total)) with O by lia; done|]. cbn [concat].
  rewrite !take_app. f_equal. replace (Z.to_nat (n - total) - length g)%nat with (Z.to_nat (n - (total + Z.of_nat (length g)))) by lia.
  apply IH. lia.
Qed.

Lemma retain_groups_first {A} n (g : list A) gs : 0 < n <= Z.of_nat (length g) -> retain_groups n 0 (g :: gs) = [g].
Proof. intros Hn. cbn [retain_groups]. destruct (Z.leb_spec n 0); [lia|]. by rewrite retain_groups_full by lia. Qed.

Lemma retain_limit_schema n t s bs : Forall (has_schema s) bs -> Forall (has_schema s) (retain_limit n t bs).
Proof.
  intros Hs. revert t. induction Hs as [|b bs Hb _ IH]; intros t; [constructor|]. cbn [retain_limit]. by destruct (n <=? t); [|constructor].
Qed.

(** ** The plan of a statement over one table *)

(** No join, aggregate, [GROUP BY] or [HAVING]. *)
Definition plain_select (sel : SelectStatement) : bool :=
  match sel_joins sel, extract_aggregates (sel_projections sel), sel_group_by sel, sel_having sel with
  | [], [], [], None => true
  | _, _, _, _ => false
  end.

(** Its scan after all rewrites. *)
Definition scan_of_select (c : Catalog) (now : QueryClock) (sel : SelectStatement) : ScanOp :=
  prune_scan c {| sc_table := tr_name (sel_from sel); sc_predicate := folded now <$> sel_filter sel;
    sc_projection := match filter_map projected_column (sel_projections sel) with [] => None | cols => Some cols end;
    sc_partition_filter := []; sc_limit := sel_limit sel |}.

(** The operators above it. *)
Definition projected_plan (sel : SelectStatement) (plan : LogicalPlan) : LogicalPlan :=
  match filter_map projected_column (sel_projections sel) with [] => plan | cols => Project cols plan end.

Definition ordered_plan (sel : SelectStatement) (plan : LogicalPlan) : LogicalPlan :=
  match sel_order_by sel with [] => plan | obs => Sort (map (fun o => (ob_expr o, ob_asc o)) obs) plan end.

Definition limited_plan (sel : SelectStatement) (plan : LogicalPlan) : LogicalPlan :=
  match sel_limit sel with Some n => Limit n (default 0 (sel_offset sel)) plan | None => plan end.

Definition above_scan (sel : SelectStatement) (plan : LogicalPlan) : LogicalPlan :=
  limited_plan sel (ordered_plan sel (projected_plan sel plan)).

Lemma optimize_plain c now sel : plain_select sel = true ->
  optimize c (at_plan now) (plan_select sel) = above_scan sel (Scan (scan_of_select c now sel)).
Proof.
  unfold plain_select. intros Hp. unfold optimize, plan_select, above_scan, limited_plan, ordered_plan, projected_plan, scan_of_select.
  destruct (sel_joins sel); [|done]. destruct (extract_aggregates _); [|done]. destruct (sel_group_by sel); [|done].
  destruct (sel_having sel); [done|].
  destruct (sel_filter sel), (filter_map projected_column (sel_projections sel)), (sel_order_by sel), (sel_limit sel); reflexivity.
Qed.

Lemma prune_scan_fields c op : sc_table (prune_scan c op) = sc_table op /\ sc_predicate (prune_scan c op) = sc_predicate op /\
  sc_limit (prune_scan c op) = sc_limit op.
Proof. unfold prune_scan. destruct (sc_predicate op) as [p|] eqn:Ep; [destruct (extract_time_range p) as [[]|]|]; by rewrite ?Ep. Qed.

Lemma scan_of_select_fields c now sel : sc_table (scan_of_select c now sel) = tr_name (sel_from sel) /\
  sc_predicate (scan_of_select c now sel) = folded now <$> sel_filter sel /\ sc_limit (scan_of_select c now sel) = sel_limit sel.
Proof. apply (prune_scan_fields c). Qed.

(** ** Running it *)

(** A boxed operator that yields some batches. *)
Inductive gives : DynOp -> list RecordBatch -> Prop :=
| gives_intro T (o : PhysicalOperator T) s bs : OperatorLaws T -> yields s bs -> gives (Dyn T o s) bs.

Definition order_keys (sel : SelectStatement) : list (Expr * bool) := map (fun o => (ob_expr o, ob_asc o)) (sel_order_by sel).

Section Running.
Context {libs : EngineLibs} {kernels : Kernels} {slices : SliceKernel} {sorts : SortKernels} {laws : SortLaws sorts}.
Variable now : QueryClock.

Lemma build_scan op n e w sig files outs :
  signal_for_table (sc_table op) = Ret sig -> reads w n (sstable_paths_for_signal e sig (sc_partition_filter op)) files ->
  loaded now 0 (sc_predicate op) (concat files) outs ->
  exists d, build_logical now (Scan op) n e w = (Ret d, w) /\
    gives d (match sc_limit op with Some l => retain_limit l 0 outs | None => outs end).
Proof.
  intros Hsig Hr Hl. cbn [build_logical].
  assert (exists sch, infralens_storage_schema_for (sc_table op) = Ret sch) as [sch Esch].
  { unfold signal_for_table in Hsig. unfold infralens_storage_schema_for. repeat destruct (_ =? _)%string; eauto. done. }
  set (kept := match sc_limit op with Some l => _ | None => _ end).
  exists (Dyn ScanOperator _ {| so_schema := sch; so_batches := kept; so_batch_size := n |}). split.
  - unfold scan_new, load_batches. rewrite Esch, Hsig.
    erewrite st_bind_Ret; [reflexivity|]. erewrite st_bind_Ret by done. erewrite st_bind_Ret; [reflexivity|].
    erewrite st_bind_Ret by done. erewrite st_bind_Ret by by eapply load_files_loaded. done.
  - constructor; [apply _|]. apply scan_yields.
Qed.

Lemma build_sort plan n e w d bs keys s :
  build_logical now plan n e w = (Ret d, w) -> gives d bs -> Forall (has_schema s) bs ->
  exists d' outs, build_logical now (Sort keys plan) n e w = (Ret d', w) /\ gives d' outs /\ Forall (has_schema s) outs /\
    batches_rows outs ≡ₚ batches_rows bs /\ StronglySorted (row_le s keys) (batches_rows outs).
Proof.
  intros Hb Hg Hs. destruct Hg as [T o st bs Ho Hy]. destruct (sort_batches_sorted s keys bs Hs) as (outs & Es & Hsc & _ & Hp & Hso & _).
  eexists _, outs. split_and!; [cbn [build_logical]; by erewrite st_bind_Ret by exact Hb| |done|done|done].
  constructor; [apply _|]. by apply (sort_yields st keys bs).
Qed.

Lemma build_limit plan n e w d bs s k off :
  build_logical now plan n e w = (Ret d, w) -> gives d bs -> Forall (has_schema s) bs -> 0 <= k -> 0 <= off ->
  exists d' outs, build_logical now (Limit k off plan) n e w = (Ret d', w) /\ gives d' outs /\
    batches_rows outs = take (Z.to_nat k) (drop (Z.to_nat off) (batches_rows bs)).
Proof.
  intros Hb Hg Hs Hk Hoff. destruct Hg as [T o st bs Ho Hy].
  destruct (limit_yields st bs k off Hy) as (outs & Hyo & Hr); [by eapply Forall_impl; [exact Hs|intros ? []]|done|done|].
  eexists _, outs. split_and!; [cbn [build_logical]; by erewrite st_bind_Ret by exact Hb| |done].
  constructor; [apply _|done].
Qed.

Lemma execute_gives sql ast e c w d bs :
  parse_query sql = Ret ast -> build_logical now (optimize c (at_plan now) (plan_statement ast)) (Z.to_nat 8192) e w = (Ret d, w) -> gives d bs ->
  execute now sql e c w = (Ret bs, w).
Proof.
  intros Hp Hb Hg. unfold execute. rewrite Hp. erewrite st_bind_Ret by done. cbv zeta.
  unfold build, to_physical. cbn [pp_logical pp_batch_size]. erewrite st_bind_Ret by exact Hb.
  destruct Hg as [T o st bs Ho Hy]. unfold st_lift. by rewrite (drain_yields st bs Hy).
Qed.
End Running.

(** ** What a statement over one table gives *)

(** The rows that pass the scan. *)
Definition scanned (sel : SelectStatement) (groups : list (list (list Cell))) : list (list Cell) :=
  let left := groups_left (sel_filter sel) groups in
  concat (match sel_limit sel with Some n => retain_groups n 0 left | None => left end).

(** [ORDER BY]: the same rows, or a sorted permutation of them. *)
Definition ordered_rows {sorts : SortKernels} {laws : SortLaws sorts} (s : Schema) (sel : SelectStatement) (rows out : list (list Cell)) : Prop :=
  match sel_order_by sel with
  | [] => out = rows
  | _ => out ≡ₚ rows /\ StronglySorted (row_le s (order_keys sel)) out
  end.

(** [LIMIT] and [OFFSET]; an offset without a limit has no effect. *)
Definition window {A} (sel : SelectStatement) (rows : list A) : list A :=
  match sel_limit sel with
  | Some n => take (Z.to_nat n) (drop (Z.to_nat (default 0 (sel_offset sel))) rows)
  | None => rows
  end.

(** The table of a statement: its files, the batches in them, all of its
    schema, and the rows its [WHERE] clause selects. *)
Definition selection {libs : EngineLibs} {kernels : Kernels} (now : QueryClock) (sel : SelectStatement) (e : Engine) (w : Fs) (s : Schema)
    (groups : list (list (list Cell))) : Prop :=
  (exists sig files, signal_for_table (tr_name (sel_from sel)) = Ret sig /\
     reads w (Z.to_nat 8192) (sstable_paths_for_signal e sig []) files /\
     Forall (has_schema s) (concat files) /\ selects now (sel_filter sel) (concat files) groups) /\
  infralens_storage_schema_for (tr_name (sel_from sel)) = Ret s /\
  (forall n, sel_limit sel = Some n -> 0 <= n) /\ 0 <= default 0 (sel_offset sel).

Section Statement.
Context {libs : EngineLibs} {kernels : Kernels} {slices : SliceKernel} {sorts : SortKernels} {laws : SortLaws sorts}.
Variable now : QueryClock.

Lemma table_ts_unsigned table s b : infralens_storage_schema_for table = Ret s -> has_schema s b -> ts_unsigned b = true.
Proof.
  intros Ht [Es Hf]. unfold fits in Hf. rewrite Es in Hf. unfold ts_unsigned, column_by_name. rewrite Es. destruct b as [sb cols]. cbn [rb_columns rb_schema] in *. clear Es.
  unfold infralens_storage_schema_for in Ht. destruct cols as [|c cols]; [done|]. cbn [batch_fits] in Hf.
  assert (forall f s', columns_fit (array_len c) (f :: s') (c :: cols) = true -> data_type c = field_type f) as Hc.
  { intros f s' Hx. cbn [columns_fit] in Hx. unfold column_fits in Hx.
    apply andb_true_iff in Hx as [[[Hx%bool_decide_eq_true_1 _]%andb_true_iff _]%andb_true_iff _]. done. }
  destruct (table =? "logs")%string; [|destruct (table =? "metrics")%string; [|destruct (table =? "traces")%string; [|done]]];
    injection Ht as <-.
  - apply Hc in Hf. cbn in *. by destruct c.
  - apply Hc in Hf. cbn in *. by destruct c.
  - rewrite column_of_position; [done|]. by eapply columns_fit_length.
Qed.

Lemma paths_filtered e sig parts p : In p (sstable_paths_for_signal e sig parts) -> In p (sstable_paths_for_signal e sig []).
Proof.
  unfold sstable_paths_for_signal. destruct (signal_try_from sig); [|done|done]. destruct parts as [|k ks]; [done|].
  rewrite !in_concat. intros (l & Hl & Hp). apply in_map_iff in Hl as (key & <- & _). destruct (en_partitions e !! key) as [pt|] eqn:Ep; [|done].
  eexists. split; [|exact Hp]. apply in_map_iff. exists key. rewrite Ep. split; [done|].
  apply in_map_iff. exists (key, pt). split; [done|]. apply base.list_elem_of_In. by apply elem_of_map_to_list.
Qed.

(** The files a filtered scan reads are among the files of the table. *)
Lemma reads_among w n paths files sub : reads w n paths files -> (forall p, In p sub -> In p paths) ->
  exists subfiles, reads w n sub subfiles /\ forall b, In b (concat subfiles) -> In b (concat files).
Proof.
  intros Hr. induction sub as [|p sub IH]; intros Hs; [exists []; split; [constructor|done]|].
  destruct IH as (subfiles & H1 & H2); [intros; apply Hs; by right|].
  assert (In p paths) as Hp by (apply Hs; by left). apply base.list_elem_of_In, list_elem_of_lookup in Hp as [i Hi].
  destruct (Forall2_lookup_l _ _ _ _ _ Hr Hi) as (bs & Hbs & Hread). exists (bs :: subfiles). split; [by constructor|].
  intros b Hb. cbn [concat] in Hb. apply in_app_iff in Hb as [Hb|Hb]; [|by apply H2].
  apply in_concat. exists bs. split; [|done]. apply base.list_elem_of_In. by eapply list_elem_of_lookup_2.
Qed.

(** Pruning loses no rows: a predicate with a time range evaluates on no
    batch, so where [WHERE] has a result the table has no batches or all
    partitions are read. *)
Lemma scan_reads c sel e w s groups : selection now sel e w s groups ->
  exists sig files outs, signal_for_table (tr_name (sel_from sel)) = Ret sig /\
    reads w (Z.to_nat 8192) (sstable_paths_for_signal e sig (sc_partition_filter (scan_of_select c now sel))) files /\
    loaded now 0 (folded now <$> sel_filter sel) (concat files) outs /\ Forall (has_schema s) outs /\
    map batch_rows outs = groups_left (sel_filter sel) groups.
Proof.
  intros ((sig & files & Ht & Hr & Hs & Hsel) & Hsf & _). destruct (selects_loaded now (sel_filter sel) s _ groups Hs Hsel) as (outs & Hl & Hso & Hg).
  exists sig. unfold scan_of_select, prune_scan. cbn [sc_predicate]. destruct (sel_filter sel) as [p|] eqn:Ef; [|by exists files, outs].
  cbn [fmap option_fmap option_map] in *. destruct (extract_time_range (folded now p)) as [[t0 t1]|] eqn:Et; [|by exists files, outs].
  cbn [sc_partition_filter with_partitions].
  destruct (reads_among w _ _ files (sstable_paths_for_signal e sig
    (overlapping_partitions c (tr_name (sel_from sel)) t0 t1)) Hr) as (sub & Hsr & Hsub); [intros q; apply paths_filtered|].
  assert (concat files = []) as E.
  { destruct (concat files) as [|b bs] eqn:Ec; [done|]. exfalso. inversion Hsel as [|? ? [|m masks] Hlen Hm]; subst; [done|].
    destruct (Hm 0%nat b m eq_refl eq_refl) as [He _]. apply eval_filter_fold in He. unfold eval_filter in He.
    apply bind_Ret in He as (arr & Ha & _). apply Forall_cons_1 in Hs as [Hb _].
    by eapply (time_range_unevaluable _ b), Ha; [eapply table_ts_unsigned|]. }
  rewrite E in *. exists sub, outs. split_and!; try done.
  assert (concat sub = []) as ->; [|done]. destruct (concat sub) as [|b bs]; [done|]. destruct (Hsub b). by left.
Qed.

Lemma build_projected sel plan n e w : build_logical now (projected_plan sel plan) n e w = build_logical now plan n e w.
Proof. unfold projected_plan. by destruct (filter_map _ _). Qed.

Lemma build_ordered sel plan n e w d bs s :
  build_logical now plan n e w = (Ret d, w) -> gives d bs -> Forall (has_schema s) bs ->
  exists d' outs, build_logical now (ordered_plan sel plan) n e w = (Ret d', w) /\ gives d' outs /\ Forall (has_schema s) outs /\
    ordered_rows s sel (batches_rows bs) (batches_rows outs).
Proof.
  intros Hb Hg Hs. unfold ordered_plan, ordered_rows, order_keys. destruct (sel_order_by sel) as [|o obs]; [by exists d, bs|].
  by apply (build_sort now plan n e w d bs).
Qed.

Lemma build_limited sel plan n e w d bs s :
  build_logical now plan n e w = (Ret d, w) -> gives d bs -> Forall (has_schema s) bs ->
  (forall n, sel_limit sel = Some n -> 0 <= n) -> 0 <= default 0 (sel_offset sel) ->
  exists d' outs, build_logical now (limited_plan sel plan) n e w = (Ret d', w) /\ gives d' outs /\
    batches_rows outs = window sel (batches_rows bs).
Proof.
  intros Hb Hg Hs Hl Ho. unfold limited_plan, window. destruct (sel_limit sel) as [k|]; [|by exists d, bs].
  by apply (build_limit now plan n e w d bs s k); [| | |apply Hl|].
Qed.

Lemma build_selection c sel e w s groups : selection now sel e w s groups ->
  exists d bs, build_logical now (Scan (scan_of_select c now sel)) (Z.to_nat 8192) e w = (Ret d, w) /\ gives d bs /\
    Forall (has_schema s) bs /\ batches_rows bs = scanned sel groups.
Proof.
  intros Hsel. destruct (scan_reads c sel e w s groups Hsel) as (sig & files & loads & Ht & Hr & Hl & Hs & Hg).
  destruct (scan_of_select_fields c now sel) as (F1 & F2 & F3).
  destruct (build_scan now (scan_of_select c now sel) (Z.to_nat 8192) e w sig files loads) as (d & Hb & Hgv); [by rewrite F1|done|by rewrite F2|].
  rewrite F3 in Hgv. eexists d, _. split_and!; [done|exact Hgv| |].
  - destruct (sel_limit sel); [by apply retain_limit_schema|done].
  - unfold scanned, batches_rows. destruct (sel_limit sel); [by rewrite retain_limit_groups, Hg|by rewrite Hg].
Qed.

(** The exact result of a statement without joins and aggregates. *)
Lemma select_result c sel sql e w s groups :
  parse_query sql = Ret (Select sel) -> plain_select sel = true -> selection now sel e w s groups ->
  exists outs ordered, execute now sql e c w = (Ret outs, w) /\
    ordered_rows s sel (scanned sel groups) ordered /\ batches_rows outs = window sel ordered.
Proof.
  intros Hp Hpl Hsel. destruct (build_selection c sel e w s groups Hsel) as (d & bs & Hb & Hg & Hs & Hr).
  destruct Hsel as (_ & _ & Hlim & Hoff). rewrite <- (build_projected sel) in Hb.
  destruct (build_ordered sel _ _ e w d bs s Hb Hg Hs) as (d1 & bs1 & Hb1 & Hg1 & Hs1 & Ho).
  destruct (build_limited sel _ _ e w d1 bs1 s Hb1 Hg1 Hs1 Hlim Hoff) as (d2 & outs & Hb2 & Hg2 & Hr2).
  exists outs, (batches_rows bs1). rewrite Hr in Ho. split; [|done]. apply (execute_gives now sql (Select sel) e c w d2 outs Hp); [|done].
  cbn [plan_statement]. by rewrite optimize_plain.
Qed.
End Statement.

(** C3: a query over one table gives the rows it describes.  For the text of
    a statement without joins, aggregates and [HAVING], where the files of
    the table read as batches of its schema and the [WHERE] clause evaluates
    on every batch (a time range never does, so these statements are not
    pruned), [execute] succeeds and leaves the disk as it is.  Without
    [LIMIT] the rows are those the clause selects with the readings of the
    clock at planning and at the scan, in the order of the files, or sorted
    by the keys of [ORDER BY] that are columns (the others are ignored, as is
    an [OFFSET]); with [LIMIT n] and neither order nor offset they are the
    first [n] of them.  Folding, pushing the predicate into the scan and the
    batches of the files do not show. *)
Theorem select_rows {libs : EngineLibs} {kernels : Kernels} {slices : SliceKernel} {sorts : SortKernels} {laws : SortLaws sorts}
    now c sel sql e w s groups :
  parse_query sql = Ret (Select sel) -> plain_select sel = true -> selection now sel e w s groups ->
  exists outs, execute now sql e c w = (Ret outs, w) /\
    (sel_limit sel = None -> ordered_rows s sel (concat groups) (batches_rows outs)) /\
    (forall n, sel_limit sel = Some n -> sel_order_by sel = [] -> default 0 (sel_offset sel) = 0 ->
       batches_rows outs = take (Z.to_nat n) (concat groups)).
Proof.
  intros Hp Hpl Hsel. destruct (select_result now c sel sql e w s groups Hp Hpl Hsel) as (outs & ordered & He & Ho & Hr).
  unfold window, scanned in *. exists outs. split; [done|]. split.
  - intros El. rewrite El in *. rewrite groups_left_rows in Ho. by rewrite Hr.
  - intros n El Eo E0. unfold ordered_rows in Ho. rewrite El, Eo, E0 in *. subst ordered. rewrite Hr. change (Z.to_nat 0) with O. rewrite drop_0.
    pose proof (retain_groups_rows n 0 (groups_left (sel_filter sel) groups) ltac:(lia)) as Hrg.
    rewrite Z.sub_0_r in Hrg. by rewrite Hrg, groups_left_rows.
Qed.

(** C36: [LIMIT] is applied before [ORDER BY] and [OFFSET].  The planner puts
    the limit on the scan too: where the first batch with selected rows has
    as many as the limit, the result is taken from that batch alone,
    whatever the order and the offset ask for, and the rows of all other
    batches are lost. *)
Theorem limit_truncates_scan {libs : EngineLibs} {kernels : Kernels} {slices : SliceKernel} {sorts : SortKernels} {laws : SortLaws sorts}
    now c sel sql e w s groups n g rest :
  parse_query sql = Ret (Select sel) -> plain_select sel = true -> selection now sel e w s groups ->
  sel_limit sel = Some n -> groups_left (sel_filter sel) groups = g :: rest -> 0 < n <= Z.of_nat (length g) ->
  exists outs ordered, execute now sql e c w = (Ret outs, w) /\ ordered_rows s sel g ordered /\ batches_rows outs = window sel ordered.
Proof.
  intros Hp Hpl Hsel El Eg Hn. destruct (select_result now c sel sql e w s groups Hp Hpl Hsel) as (outs & ordered & He & Ho & Hr).
  exists outs, ordered. split_and!; [done| |done]. unfold scanned in Ho.
  rewrite El, Eg, (retain_groups_first n g rest Hn) in Ho. cbn [concat] in Ho. by rewrite app_nil_r in Ho.
Qed.

(** ** Projections *)

Definition with_projections (sel : SelectStatement) (ps : list Projection) : SelectStatement :=
  {| sel_projections := ps; sel_from := sel_from sel; sel_joins := sel_joins sel; sel_filter := sel_filter sel;
     sel_group_by := sel_group_by sel; sel_having := sel_having sel; sel_order_by := sel_order_by sel;
     sel_limit := sel_limit sel; sel_offset := sel_offset sel |}.

Section Projections.
Context {libs : EngineLibs} {kernels : Kernels} {slices : SliceKernel} {sorts : SortKernels} (now : QueryClock).

(** A scan does not look at its projection. *)
Lemma collect_projection i op cols rs all :
  collect_batches now i (with_projection op cols) rs all = collect_batches now i op rs all.
Proof.
  revert i all; induction rs as [|r rs IH]; intros i all; [done|]. cbn [collect_batches with_projection sc_predicate].
  destruct r as [b| |]; [|done|done]. cbn [map_err mbind outcome_bind]. destruct (sc_predicate op) as [p|]; [|apply IH].
  destruct (apply_predicate _ b p); [|done|done]. apply IH.
Qed.

Lemma load_projection i op cols n paths all w :
  load_files now i (with_projection op cols) n paths all w = load_files now i op n paths all w.
Proof.
  revert i all w; induction paths as [|p paths IH]; intros i all w; [done|]. cbn [load_files]. unfold mbind, st_bind, st_lift.
  destruct (execution_error (read_parquet p n) w) as [[rs| |] w']; [|done|done]. rewrite collect_projection.
  destruct (collect_batches now i op rs all); [apply IH|done|done].
Qed.

Lemma build_scan_projection op cols n e w :
  build_logical now (Scan (with_projection op cols)) n e w = build_logical now (Scan op) n e w.
Proof.
  cbn [build_logical]. unfold scan_new, load_batches, mbind, st_bind, st_lift. cbn [sc_table with_projection sc_partition_filter sc_limit].
  destruct (infralens_storage_schema_for (sc_table op)); [|done|done]. destruct (signal_for_table (sc_table op)); [|done|done].
  by rewrite load_projection.
Qed.

Lemma build_ordered_ext sel sel' p p' n e w : sel_order_by sel = sel_order_by sel' ->
  build_logical now p n e w = build_logical now p' n e w ->
  build_logical now (ordered_plan sel p) n e w = build_logical now (ordered_plan sel' p') n e w.
Proof.
  intros Eo E. unfold ordered_plan. rewrite <- Eo. destruct (sel_order_by sel); [done|]. cbn [build_logical]. unfold mbind, st_bind. by rewrite E.
Qed.

Lemma build_limited_ext sel sel' p p' n e w : sel_limit sel = sel_limit sel' -> sel_offset sel = sel_offset sel' ->
  build_logical now p n e w = build_logical now p' n e w ->
  build_logical now (limited_plan sel p) n e w = build_logical now (limited_plan sel' p') n e w.
Proof.
  intros El Eo E. unfold limited_plan. rewrite <- El, <- Eo. destruct (sel_limit sel); [|done]. cbn [build_logical]. unfold mbind, st_bind. by rewrite E.
Qed.

Lemma scan_of_select_projection c sel ps : exists cols,
  scan_of_select c now (with_projections sel ps) = with_projection (scan_of_select c now sel) cols.
Proof.
  exists (match filter_map projected_column ps with [] => None | cols => Some cols end).
  unfold scan_of_select, prune_scan. cbn [sc_predicate with_projections sel_filter sel_from sel_limit].
  destruct (folded now <$> sel_filter sel) as [p|]; [destruct (extract_time_range p) as [[]|]|]; reflexivity.
Qed.
End Projections.

(** C37: the select list is ignored.  Two statements without joins and
    aggregates that differ only in their select lists give the same batches,
    with all the columns of the table: the scan does not use the projection
    pushed into it, and the plan node has no operator. *)
Theorem projection_ignored {libs : EngineLibs} {kernels : Kernels} {slices : SliceKernel} {sorts : SortKernels}
    now c sel ps sql sql' e w :
  parse_query sql = Ret (Select sel) -> parse_query sql' = Ret (Select (with_projections sel ps)) ->
  plain_select sel = true -> plain_select (with_projections sel ps) = true ->
  execute now sql' e c w = execute now sql e c w.
Proof.
  intros Hp Hp' Hs Hs'. unfold execute. rewrite Hp, Hp'. unfold st_lift, mbind, st_bind. cbv zeta.
  unfold build, to_physical. cbn [pp_logical pp_batch_size plan_statement]. rewrite !optimize_plain by done.
  assert (build_logical now (above_scan (with_projections sel ps) (Scan (scan_of_select c now (with_projections sel ps)))) (Z.to_nat 8192) e w =
    build_logical now (above_scan sel (Scan (scan_of_select c now sel))) (Z.to_nat 8192) e w) as ->; [|done].
  apply build_limited_ext; [done|done|]. apply build_ordered_ext; [done|]. rewrite !build_projected.
  destruct (scan_of_select_projection now c sel ps) as [cols ->]. apply build_scan_projection.
Qed.

(** ** A table of three log records in two batches *)

Definition log_batch (rs : list LogRecord) : RecordBatch := batch_of log_schema (@log_columns libs_reference rs).

Definition log_row (ts : Z) : list Cell := nth 0 (batch_rows (log_batch [log_at ts])) [].

Definition query_meta : SSTableMeta := {| sm_seq := 1; sm_signal_type := Log; sm_dir := "l"; sm_zone_map := zm_new |}.

Definition query_batches : list RecordBatch := [log_batch [log_at 7; log_at 8]; log_batch [log_at 3]].

Definition query_disk : Fs :=
  {| fs_files := {[ meta_parquet_path query_meta := codec_encode query_batches ]}; fs_dirs := ∅; fs_room := 0; fs_faults := [] |}.

Definition query_engine : Engine :=
  set_partitions (fun _ => {[ 0 := {| p_key := 0; p_dir := "p"; p_logs := {| sp_dir := "l"; sp_sstables := [query_meta]; sp_next_seq := 2 |};
     p_metrics := {| sp_dir := "m"; sp_sstables := []; sp_next_seq := 1 |};
     p_spans := {| sp_dir := "s"; sp_sstables := []; sp_next_seq := 1 |} |} ]}) (opened 64).

Lemma query_reads : @reads libs_reference query_disk (Z.to_nat 8192) (sstable_paths_for_signal query_engine 0 []) [query_batches].
Proof.
  assert (sstable_paths_for_signal query_engine 0 [] = [meta_parquet_path query_meta]) as -> by (vm_compute; reflexivity).
  constructor; [|constructor]. unfold read_parquet. erewrite st_bind_Ret.
  2:{ apply fs_read_lookup; [done|]. unfold query_disk. cbn [fs_files]. apply lookup_singleton_eq. }
  cbn [decode_parquet libs_parquet libs_reference parquet_reference]. unfold decode_reference. by rewrite codec_roundtrip.
Qed.

(** A clock that moves on from planning to batch to batch. *)
Definition clock_ticks : QueryClock :=
  {| at_plan := fun _ _ => 1000; at_scan := fun i _ => 1001 + Z.of_nat i; at_filter := fun _ i _ => 2000 - Z.of_nat i |}.

(** A statement with its table, for the witnesses. *)
Lemma query_selection sel groups :
  tr_name (sel_from sel) = "logs"%string -> @selects kernels_reference clock_ticks (sel_filter sel) query_batches groups ->
  (forall n, sel_limit sel = Some n -> 0 <= n) -> 0 <= default 0 (sel_offset sel) ->
  @selection engine_reference kernels_reference clock_ticks sel query_engine query_disk log_schema groups.
Proof.
  intros Et Hs Hl Ho. split_and!; [|by rewrite Et|done|done]. exists 0, [query_batches]. rewrite Et. split_and!; [done|exact query_reads| |exact Hs].
  cbn [concat]. repeat (apply List.Forall_cons; [split; reflexivity|]). apply List.Forall_nil.
Qed.

(** SELECT * FROM logs WHERE body IS NULL ORDER BY timestamp_ns, with or
    without a limit. *)
Definition sorted_select (limit : option Z) : SelectStatement :=
  {| sel_projections := [PStar]; sel_from := {| tr_name := "logs"; tr_alias := None |}; sel_joins := [];
     sel_filter := Some (EIsNull (EColumn None "body")); sel_group_by := []; sel_having := None;
     sel_order_by := [{| ob_expr := EColumn None "timestamp_ns"; ob_asc := true |}]; sel_limit := limit; sel_offset := None |}.

Definition query_groups : list (list (list Cell)) := [[log_row 7; log_row 8]; [log_row 3]].

Lemma sorted_selection limit : (forall n, limit = Some n -> 0 <= n) ->
  @selection engine_reference kernels_reference clock_ticks (sorted_select limit) query_engine query_disk log_schema query_groups.
Proof.
  intros Hl. apply query_selection; [done| |done|done].
  apply (@selects_where kernels_reference clock_ticks (EIsNull (EColumn None "body")) query_batches [[Some true; Some true]; [Some true]]); [done|].
  intros [|[|i]] b m Hb Hm; simplify_eq/=; split; reflexivity.
Qed.

Lemma select_rows_witness :
  exists outs, @execute engine_reference kernels_reference slices_reference sorts_reference clock_ticks
      "SELECT * FROM logs WHERE body IS NULL ORDER BY timestamp_ns" query_engine catalog_new query_disk = (Ret outs, query_disk) /\
    batches_rows outs ≡ₚ [log_row 7; log_row 8; log_row 3] /\
    StronglySorted (@row_le sorts_reference sort_laws_reference log_schema [(EColumn None "timestamp_ns", true)]) (batches_rows outs).
Proof.
  destruct (@select_rows engine_reference kernels_reference slices_reference sorts_reference sort_laws_reference clock_ticks catalog_new
    (sorted_select None) "SELECT * FROM logs WHERE body IS NULL ORDER BY timestamp_ns" query_engine query_disk log_schema query_groups)
    as (outs & He & H1 & _).
  - vm_compute. reflexivity.
  - reflexivity.
  - apply sorted_selection. discriminate.
  - exists outs. split; [exact He|exact (H1 eq_refl)].
Defined.

Lemma limit_truncates_scan_witness :
  exists outs ordered, @execute engine_reference kernels_reference slices_reference sorts_reference clock_ticks
      "SELECT * FROM logs WHERE body IS NULL ORDER BY timestamp_ns LIMIT 1" query_engine catalog_new query_disk = (Ret outs, query_disk) /\
    ordered ≡ₚ [log_row 7; log_row 8] /\ batches_rows outs = take 1 ordered.
Proof.
  destruct (@limit_truncates_scan engine_reference kernels_reference slices_reference sorts_reference sort_laws_reference clock_ticks catalog_new
    (sorted_select (Some 1)) "SELECT * FROM logs WHERE body IS NULL ORDER BY timestamp_ns LIMIT 1" query_engine query_disk log_schema query_groups
    1 [log_row 7; log_row 8] [[log_row 3]]) as (outs & ordered & He & Ho & Hr).
  - vm_compute. reflexivity.
  - reflexivity.
  - apply sorted_selection. intros n Hn. injection Hn as <-. discriminate.
  - reflexivity.
  - reflexivity.
  - split; [reflexivity|discriminate].
  - exists outs, ordered. split; [exact He|]. split; [exact (proj1 Ho)|exact Hr].
Defined.

Lemma projection_ignored_witness :
  @execute engine_reference kernels_reference slices_reference sorts_reference clock_ticks
      "SELECT severity_text FROM logs WHERE body IS NULL ORDER BY timestamp_ns" query_engine catalog_new query_disk =
  @execute engine_reference kernels_reference slices_reference sorts_reference clock_ticks
      "SELECT * FROM logs WHERE body IS NULL ORDER BY timestamp_ns" query_engine catalog_new query_disk.
Proof.
  apply (@projection_ignored engine_reference kernels_reference slices_reference sorts_reference clock_ticks catalog_new
    (sorted_select None) [PExpr (EColumn None "severity_text") None]).
  - vm_compute. reflexivity.
  - vm_compute. reflexivity.
  - reflexivity.
  - reflexivity.
Defined.
