(* ===== verification/Typing.v ===== *)
(** * Types of expressions

    A static type for the expressions of [crates/infralens-query/src/ast.rs],
    read off the cases [eval.rs] supports, and what it says about
    evaluation.  The code has no such check: ill-typed queries fail when they
    reach the first batch. *)

From Stdlib Require Import ZArith Lia.
From stdpp Require Import base tactics list numbers option strings gmap.
From S2P Require Import Prelude Text Float64 Codec Model Arrow Ast Plan Eval Executor Sort.

(** ** Types *)

Definition comparable (t : DataType) : bool :=
  match t with UInt64 | Int64 | Float64 | Utf8 => true | _ => false end.
Definition numeric (t : DataType) : bool := match t with UInt64 | Int64 | Float64 => true | _ => false end.
Definition integral (t : DataType) : bool := match t with UInt64 | Int64 => true | _ => false end.
Definition signed (t : DataType) : bool := match t with Int64 | Float64 => true | _ => false end.

Definition when {A} (b : bool) (a : A) : option A := if b then Some a else None.

Definition literal_type (l : Literal) : DataType :=
  match l with
  | LInt _ | LIntervalNs _ => Int64 | LFloat _ => Float64 | LStr _ => Utf8 | LBool _ | LNull => Boolean
  end.

Definition binop_type (op : BinOp) (a b : DataType) : option DataType :=
  match op with
  | OpAnd | OpOr => when (bool_decide (a = Boolean) && bool_decide (b = Boolean)) Boolean
  | OpAdd | OpSub | OpMul | OpDiv => when (bool_decide (a = b) && signed a) a
  | OpMod => None
  | _ => when (bool_decide (a = b) && comparable a) Boolean
  end.

(** The functions by name; further arguments are not looked at. *)
Definition function_type (name : string) (args : list (option DataType)) : option DataType :=
  if (name =? "now")%string then Some Int64
  else if (name =? "time_bucket")%string then
    match args with Some w :: Some ts :: _ => when (integral w && bool_decide (ts = UInt64)) UInt64 | _ => None end
  else if (name =? "rate")%string then
    match args with Some _ :: Some w :: _ => when (integral w) Float64 | _ => None end
  else if (name =? "delta")%string then
    match args with Some v :: Some w :: _ => when (numeric v && integral w) Float64 | _ => None end
  else if (name =? "histogram_quantile")%string then
    match args with
    | [Some q; Some v] => when (signed q && numeric v) Float64
    | Some q :: Some v :: Some b :: _ => when (signed q && numeric v && integral b) Float64
    | _ => None
    end
  else None.

Definition column_type (s : Schema) (name : string) : option DataType :=
  i ← index_of s name; field_type <$> (s !! i).

Fixpoint type_of (s : Schema) (e : Expr) : option DataType :=
  match e with
  | EColumn _ name => column_type s name
  | ELiteral l => Some (literal_type l)
  | EStar => None
  | EBinOp op l r => a ← type_of s l; b ← type_of s r; binop_type op a b
  | EUnaryOp Neg e => a ← type_of s e; when (signed a) a
  | EUnaryOp Not e => a ← type_of s e; when (bool_decide (a = Boolean)) Boolean
  | EIsNull e | EIsNotNull e => _ ← type_of s e; Some Boolean
  | EBetween e low high =>
      a ← type_of s e; l ← type_of s low; h ← type_of s high;
      when (bool_decide (a = l) && bool_decide (a = h) && comparable a) Boolean
  | EIn e items =>
      a ← type_of s e;
      when (forallb (fun o => bool_decide (o = Some a) && comparable a) (map (type_of s) items)) Boolean
  | ELike e _ _ => a ← type_of s e; when (bool_decide (a = Utf8)) Boolean
  | EFunction name args => function_type name (map (type_of s) args)
  | ETimeBucket _ e => a ← type_of s e; when (bool_decide (a = UInt64)) UInt64
  | ERate e _ => _ ← type_of s e; Some Float64
  | EDelta e _ | EHistogramQuantile _ e _ => a ← type_of s e; when (numeric a) Float64
  | ENow | EInterval _ => Some Int64
  end.

(** Expressions without a quantile, whose sort panics on a NaN. *)
Fixpoint no_quantile (e : Expr) : bool :=
  match e with
  | EBinOp _ l r => no_quantile l && no_quantile r
  | EUnaryOp _ e | EIsNull e | EIsNotNull e | ELike e _ _ | ETimeBucket _ e | ERate e _ | EDelta e _ => no_quantile e
  | EBetween e l h => no_quantile e && no_quantile l && no_quantile h
  | EIn e items => no_quantile e && forallb no_quantile items
  | EFunction name args => negb (name =? "histogram_quantile")%string && forallb no_quantile args
  | EHistogramQuantile _ _ _ => false
  | _ => true
  end.

(** A width or a window that is written as a number or an interval. *)
Definition constant_ns (e : Expr) : option Z :=
  match e with ELiteral (LInt n) | ELiteral (LIntervalNs n) | EInterval n => Some n | _ => None end.

Definition constant_with (p : Z -> bool) (e : Expr) : bool := match constant_ns e with Some n => p n | None => false end.

(** A window [rate] accepts. *)
Definition rate_window (window_ns : Z) : bool := negb (f64_le (f64_div (f64_of_Z window_ns) f64_1e9) f64_zero).

(** Expressions that fail on no value: no arithmetic (it can overflow), no
    quantiles, buckets of a constant positive width, rates over a constant
    window that is not empty. *)
Fixpoint total_expr (e : Expr) : bool :=
  match e with
  | EBinOp (OpAdd | OpSub | OpMul | OpDiv | OpMod) _ _ => false
  | EBinOp _ l r => total_expr l && total_expr r
  | EUnaryOp _ e | EIsNull e | EIsNotNull e | ELike e _ _ | EDelta e _ => total_expr e
  | EBetween e l h => total_expr e && total_expr l && total_expr h
  | EIn e items => total_expr e && forallb total_expr items
  | EFunction name args =>
      if (name =? "now")%string then true
      else if (name =? "time_bucket")%string then
        match args with width :: ts :: _ => constant_with (Z.ltb 0) width && total_expr ts | _ => false end
      else if (name =? "rate")%string then
        match args with value :: window :: _ => constant_with rate_window window && total_expr value | _ => false end
      else if (name =? "delta")%string then
        match args with value :: window :: _ => total_expr value && total_expr window | _ => false end
      else false
  | ETimeBucket w e => (0 <? w) && total_expr e
  | ERate e w => rate_window w && total_expr e
  | EHistogramQuantile _ _ _ => false
  | _ => true
  end.

(** ** Kernels and shapes *)

(** Comparisons and arithmetic keep the length of their operands, arithmetic
    their type, and a comparison of arrays of one type and length succeeds. *)
Class KernelShapes (kernels : Kernels) := {
  kcmp_total : forall op l r, is_cmp op = true -> data_type l = data_type r -> comparable (data_type l) = true ->
    array_len l = array_len r -> exists m, kcmp op l r = Some m;
  kcmp_length : forall op l r m, kcmp op l r = Some m -> array_len l = array_len r -> length m = array_len l;
  karith_shape : forall op l r a, karith op l r = Some a -> data_type l = data_type r -> array_len l = array_len r ->
    data_type a = data_type l /\ array_len a = array_len l
}.

(** What a result has: a type and a number of slots. *)
Definition shaped (t : DataType) (n : nat) (a : ArrayRef) : Prop := data_type a = t /\ array_len a = n.

Ltac inv_bind :=
  repeat match goal with
  | H : mbind _ _ = Ret _ |- _ => apply bind_Ret in H as (? & ? & H)
  | H : fmap _ _ = Ret _ |- _ => apply fmap_Ret in H as (? & ? & H)
  end.

Section Shapes.
Context {kernels : Kernels} {shapes : KernelShapes kernels}.

Lemma compare_shape l r op m : compare_arrays l r op = Ret m -> array_len l = array_len r ->
  data_type l = data_type r /\ comparable (data_type l) = true /\ length m = array_len l.
Proof.
  unfold compare_arrays. intros H Hl. destruct (is_cmp op); [|done].
  destruct l, r; try done; (split_and!; [done|done|]); destruct (kcmp _ _ _) eqn:E; simplify_eq/=; by apply kcmp_length in E.
Qed.

Lemma compare_total l r op : is_cmp op = true -> data_type l = data_type r -> comparable (data_type l) = true ->
  array_len l = array_len r -> exists m, compare_arrays l r op = Ret m.
Proof.
  intros Ho Ht Hc Hl. destruct (kcmp_total op l r Ho Ht Hc Hl) as [m Hm]. exists m. unfold compare_arrays. rewrite Ho.
  destruct l, r; try done; by rewrite Hm.
Qed.

Lemma arith_shape l r op a : arithmetic_arrays l r op = Ret a -> array_len l = array_len r ->
  binop_type op (data_type l) (data_type r) = Some (data_type a) /\ array_len a = array_len l.
Proof.
  unfold arithmetic_arrays. intros H Hl.
  assert (forall l' r', data_type l' = data_type r' -> array_len l' = array_len r' -> arrow_result (karith op l' r') = Ret a ->
    data_type a = data_type l' /\ array_len a = array_len l') as Hk.
  { intros l' r' Ht Hl' Ha. destruct (karith op l' r') eqn:E; simplify_eq/=. by eapply karith_shape in E. }
  destruct op; try done; destruct l, r; try done; apply Hk in H as [Ht Ha]; try done; rewrite Ht; by split.
Qed.

Lemma length_validity a : length (validity a) = array_len a.
Proof. unfold validity. by rewrite length_map, length_array_cells. Qed.

Lemma column_shape b name a : fits b -> column_by_name b name = Some a ->
  column_type (rb_schema b) name = Some (data_type a) /\ array_len a = num_rows b.
Proof.
  intros Hf Ha. destruct (fits_columns b Hf) as [Hl Hn]. unfold column_by_name in Ha. rewrite column_of_position in Ha by done.
  unfold column_type. destruct (index_of (rb_schema b) name) as [i|] eqn:Ei; [|done]. cbn in Ha |- *.
  split; [|by eapply Forall_lookup_1 in Hn].
  assert (forall n s cols j c, columns_fit n s cols = true -> cols !! j = Some c -> exists f, s !! j = Some f /\ data_type c = field_type f) as Hc.
  { intros n s; induction s as [|f s IH]; intros [|c0 cols] [|j] c Hc Hj; try done; cbn [columns_fit] in Hc; apply andb_true_iff in Hc as [Hc Hcs].
    - simplify_eq/=. exists f. split; [done|]. unfold column_fits in Hc.
      by apply andb_true_iff in Hc as [[Hc%bool_decide_eq_true_1 _]%andb_true_iff _].
    - by apply (IH cols). }
  unfold fits in Hf. destruct b as [sc [|c0 cols]]; [done|]. cbn [rb_schema rb_columns batch_fits] in *.
  destruct (Hc _ _ _ _ _ Hf Ha) as (f & Hfi & ->). by rewrite Hfi.
Qed.

(** ** Functions *)

Lemma scalar_i64_type a v : scalar_i64 a = Ret v -> integral (data_type a) = true.
Proof. by destruct a. Qed.

Lemma scalar_f64_type a v : scalar_f64 a = Ret v -> signed (data_type a) = true.
Proof. by destruct a. Qed.

Lemma time_bucket_shape w ts a : time_bucket w ts = Ret a -> data_type ts = UInt64 /\ shaped UInt64 (array_len ts) a.
Proof.
  unfold time_bucket. destruct (w <=? 0); [done|]. destruct ts; try done. intros [= <-]. split; [done|]. split; [done|].
  cbn. unfold ivalues. by rewrite length_map, length_values.
Qed.

Lemma rate_shape v w a : rate v w = Ret a -> shaped Float64 (array_len v) a.
Proof. unfold rate. destruct (f64_le _ _); [done|]. intros [= <-]. split; [done|]. cbn. apply length_replicate. Qed.

Lemma to_f64_slice_shape v l : to_f64_slice v = Ret l -> numeric (data_type v) = true /\ length l = array_len v.
Proof. destruct v; try done; intros [= <-]; (split; [done|]); cbn; unfold ivalues, fvalues; by rewrite ?length_map, length_values. Qed.

Lemma delta_shape v w a : (0 < array_len v)%nat -> delta v w = Ret a -> numeric (data_type v) = true /\ shaped Float64 (array_len v) a.
Proof.
  unfold delta. intros Hv H. inv_bind. destruct (to_f64_slice_shape v _ H0) as [Hn Hl]. split; [done|].
  destruct x as [|y ys]; [cbn in Hl; lia|]. simplify_eq. split; [done|]. cbn. apply length_replicate.
Qed.

Lemma quantile_shape q v b a : (0 < array_len v)%nat -> histogram_quantile q v b = Ret a ->
  numeric (data_type v) = true /\ shaped Float64 (array_len v) a.
Proof.
  unfold histogram_quantile. intros Hv H. destruct (negb _); [done|]. inv_bind. destruct (to_f64_slice_shape v _ H0) as [Hn Hl].
  split; [done|]. destruct x as [|y ys]; [cbn in Hl; lia|]. destruct (_ && _); [done|]. simplify_eq. split; [done|]. cbn. apply length_replicate.
Qed.
End Shapes.

(** ** Soundness *)

Section Soundness.
Context {kernels : Kernels} {shapes : KernelShapes kernels} (b : RecordBatch).
Hypothesis Hfit : fits b.
Hypothesis Hrows : (0 < num_rows b)%nat.

(** The expression evaluates only to arrays of its type, as long as the
    batch. *)
Definition well_shaped (e : Expr) : Prop :=
  forall now arr, eval_expr now b e = Ret arr -> type_of (rb_schema b) e = Some (data_type arr) /\ array_len arr = num_rows b.

Lemma literal_shape l n : data_type (eval_literal l n) = literal_type l /\ array_len (eval_literal l n) = n.
Proof. destruct l; (split; [done|apply length_replicate]). Qed.

Lemma binop_shape op l r : well_shaped l -> well_shaped r -> well_shaped (EBinOp op l r).
Proof.
  intros Hl Hr now arr H. cbn [eval_expr] in H. unfold eval_binop in H. inv_bind. destruct (Hl _ _ H0) as [Tl Ll]. destruct (Hr _ _ H1) as [Tr Lr].
  cbn [type_of]. rewrite Tl, Tr. cbn [mbind option_bind].
  assert (forall k : list (option bool) -> list (option bool) -> option (list (option bool)),
    (forall p q, length p = length q -> exists m, k p q = Some m /\ length m = length p) ->
    forall m1 m2 p q, as_bool x m1 = Ret p -> as_bool x0 m2 = Ret q -> BooleanArray <$> arrow_result (k p q) = Ret arr ->
    when (bool_decide (data_type x = Boolean) && bool_decide (data_type x0 = Boolean)) Boolean = Some (data_type arr) /\ array_len arr = num_rows b) as Hbool.
  { intros k Hk m1 m2 p q Hp Hq Ha. destruct x, x0; try done. simplify_eq/=. destruct (Hk p q) as (m & Em & Hm); [congruence|].
    rewrite Em in Ha. simplify_eq/=. split; [done|]. lia. }
  assert (forall c, BooleanArray <$> compare_arrays x x0 c = Ret arr -> when (bool_decide (data_type x = data_type x0) && comparable (data_type x)) Boolean = Some (data_type arr) /\ array_len arr = num_rows b) as Hcmp.
  { intros c Hc. inv_bind. subst arr. apply compare_shape in H2 as (-> & -> & Hm); [|congruence]. rewrite bool_decide_eq_true_2 by done.
    split; [done|]. cbn. congruence. }
  destruct op; try (by apply (Hcmp _ H)); try (apply arith_shape in H as [Ht Ha]; [split; [exact Ht|congruence]|congruence]); inv_bind.
  - eapply (Hbool kand); [|done|done|by rewrite H4, <- H]. intros p q Hpq. eexists. rewrite kand_spec by done. split; [done|]. rewrite length_zip_with. lia.
  - eapply (Hbool kor); [|done|done|by rewrite H4, <- H]. intros p q Hpq. eexists. rewrite kor_spec by done. split; [done|]. rewrite length_zip_with. lia.
Qed.

Lemma unary_shape op e : well_shaped e -> well_shaped (EUnaryOp op e).
Proof.
  intros He now arr H. destruct op; cbn [eval_expr type_of] in *; inv_bind; destruct (He _ _ H0) as [-> Hl]; cbn [mbind option_bind].
  - destruct x; try done; injection H as <-; cbn; unfold ivalues, fvalues; by rewrite ?length_map, length_values.
  - destruct x; try done. cbn in H1. simplify_eq. rewrite knot_spec in H2. simplify_eq/=. by rewrite length_map.
Qed.

Lemma between_shape e l h : well_shaped e -> well_shaped l -> well_shaped h -> well_shaped (EBetween e l h).
Proof.
  intros He Hl Hh now arr H. cbn [eval_expr type_of] in *. inv_bind. destruct (He _ _ H0) as [-> L1]. destruct (Hl _ _ H1) as [-> L2].
  destruct (Hh _ _ H2) as [-> L3]. apply compare_shape in H3 as (T1 & C1 & M1); [|congruence]. apply compare_shape in H4 as (T2 & _ & M2); [|congruence].
  rewrite kand_spec in H5 by congruence. simplify_eq/=. rewrite T1 in C1. rewrite <- T2, T1, C1, !bool_decide_eq_true_2 by done.
  split; [done|]. rewrite length_zip_with. lia.
Qed.

Lemma in_shape e items : well_shaped e -> Forall well_shaped items -> well_shaped (EIn e items).
Proof.
  intros He Hi now arr H. cbn [eval_expr] in H. inv_bind. cbn [type_of]. destruct (He _ _ H0) as [-> L1]. cbn [mbind option_bind].
  injection H as <-. assert (length (replicate (array_len x) (Some false)) = num_rows b) as Hm by by rewrite length_replicate.
  revert Hm H1. generalize 1%nat, (replicate (array_len x) (Some false)). induction Hi as [|i items Hi _ IH]; intros k mask Hm H1.
  - simplify_eq. done.
  - inv_bind. destruct (Hi _ _ H) as [Ti Li]. apply compare_shape in H2 as (T & C & M); [|congruence].
    rewrite kor_spec in H3 by congruence. injection H3 as <-.
    destruct (IH (S k) (zip_with (lift2 orb) mask x2)) as [IH1 IH2]; [rewrite length_zip_with; lia|done|]. split; [|done].
    cbn [map forallb]. rewrite Ti, <- T, C, bool_decide_eq_true_2 by done. rewrite C in IH1. exact IH1.
Qed.

Lemma function_shape name args : Forall well_shaped args -> well_shaped (EFunction name args).
Proof.
  intros Ha now arr H. cbn [eval_expr type_of] in *. unfold eval_function, function_type in *.
  destruct (name =? "now")%string; [injection H as <-; split; [done|apply length_replicate]|].
  assert (forall a0 a1 rest, args = a0 :: a1 :: rest -> well_shaped a0 /\ well_shaped a1) as Htwo.
  { intros a0 a1 rest ->. apply Forall_cons_1 in Ha as [H0 Ha]. by apply Forall_cons_1 in Ha as [H1 _]. }
  destruct (name =? "time_bucket")%string.
  { destruct args as [|a0 [|a1 rest]]; try done. destruct (Htwo _ _ _ eq_refl) as [S0 S1]. inv_bind. cbn [map].
    destruct (S0 _ _ H0) as [-> _]. destruct (S1 _ _ H2) as [-> L1]. apply scalar_i64_type in H1 as ->.
    apply time_bucket_shape in H as [-> [-> ->]]. by rewrite L1. }
  destruct (name =? "rate")%string.
  { destruct args as [|a0 [|a1 rest]]; try done. destruct (Htwo _ _ _ eq_refl) as [S0 S1]. inv_bind. cbn [map].
    destruct (S0 _ _ H0) as [-> L0]. destruct (S1 _ _ H1) as [-> _]. apply scalar_i64_type in H2 as ->.
    apply rate_shape in H as [-> ->]. by rewrite L0. }
  destruct (name =? "delta")%string.
  { destruct args as [|a0 [|a1 rest]]; try done. destruct (Htwo _ _ _ eq_refl) as [S0 S1]. inv_bind. cbn [map].
    destruct (S0 _ _ H0) as [-> L0]. destruct (S1 _ _ H1) as [-> _]. apply scalar_i64_type in H2 as ->.
    apply delta_shape in H as [-> [-> ->]]; [by rewrite L0|lia]. }
  destruct (name =? "histogram_quantile")%string; [|done].
  destruct args as [|a0 [|a1 rest]]; try done. destruct (Htwo _ _ _ eq_refl) as [S0 S1]. inv_bind. cbn [map].
  destruct (S0 _ _ H0) as [-> L0]. destruct (S1 _ _ H2) as [-> L1]. apply scalar_f64_type in H1 as ->.
  apply quantile_shape in H as [-> [-> ->]]; [|lia]. destruct rest as [|a2 rest]; cbn [map]; [by rewrite L1|].
  inv_bind. do 2 apply Forall_cons_1 in Ha as [_ Ha]. apply Forall_cons_1 in Ha as [S2 _]. destruct (S2 _ _ H) as [-> _].
  apply scalar_i64_type in H1 as ->. by rewrite L1.
Qed.

Lemma eval_well_shaped e : well_shaped e.
Proof.
  induction e using Expr_ind'; try (by intros now arr H); auto using binop_shape, unary_shape, between_shape, in_shape, function_shape.
  - intros now arr H. cbn [eval_expr type_of] in *. destruct (column_by_name b n) eqn:E; simplify_eq/=. by apply column_shape.
  - intros now arr [= <-]. cbn [type_of]. destruct (literal_shape l (num_rows b)) as [-> ->]. done.
  - intros now arr H. cbn [eval_expr type_of] in *. inv_bind. destruct (IHe _ _ H0) as [-> L]. simplify_eq. cbn. by rewrite length_map, length_validity.
  - intros now arr H. cbn [eval_expr type_of] in *. inv_bind. destruct (IHe _ _ H0) as [-> L]. simplify_eq. cbn. by rewrite length_map, length_validity.
  - intros now arr H. cbn [eval_expr type_of] in *. inv_bind. destruct (IHe _ _ H0) as [-> L]. destruct x; try done. simplify_eq. cbn.
    unfold svalues. by rewrite length_map, length_values.
  - intros now arr H. cbn [eval_expr type_of] in *. inv_bind. destruct (IHe _ _ H0) as [-> L]. apply time_bucket_shape in H as [-> [-> ->]]. by rewrite L.
  - intros now arr H. cbn [eval_expr type_of] in *. inv_bind. destruct (IHe _ _ H0) as [-> L]. apply rate_shape in H as [-> ->]. by rewrite L.
  - intros now arr H. cbn [eval_expr type_of] in *. inv_bind. destruct (IHe _ _ H0) as [-> L]. apply delta_shape in H as [Hn [-> ->]]; [|lia].
    cbn. by rewrite Hn, L.
  - intros now arr H. cbn [eval_expr type_of] in *. inv_bind. destruct (IHe _ _ H0) as [-> L]. apply quantile_shape in H as [Hn [-> ->]]; [|lia].
    cbn. by rewrite Hn, L.
  - intros now arr [= <-]. cbn. by rewrite length_replicate.
  - intros now arr [= <-]. cbn. by rewrite length_replicate.
Qed.

(** *** No panics *)

Definition panic_free (e : Expr) : Prop := no_quantile e = true -> forall now, eval_expr now b e <> Panic.

Lemma compare_panic l r op : compare_arrays l r op <> Panic.
Proof. unfold compare_arrays. destruct (is_cmp op); [|done]. destruct l, r; try done; by destruct (kcmp _ _ _). Qed.

Lemma arith_panic l r op : arithmetic_arrays l r op <> Panic.
Proof. unfold arithmetic_arrays. destruct op; try done; destruct l, r; try done; by destruct (karith _ _ _). Qed.

Lemma scalar_i64_panic now e a : eval_expr now b e = Ret a -> scalar_i64 a <> Panic.
Proof.
  intros He. destruct (eval_well_shaped e now a He) as [_ Hl]. destruct a as [l|l| | | | | |]; try done; destruct l; cbn in Hl; try done; lia.
Qed.

Lemma arrow_panic {A} (o : option A) : arrow_result o <> Panic.
Proof. by destruct o. Qed.

Lemma as_bool_panic a m : as_bool a m <> Panic.
Proof. by destruct a. Qed.

Lemma time_bucket_panic w a : time_bucket w a <> Panic.
Proof. unfold time_bucket. destruct (w <=? 0); [done|]. by destruct a. Qed.

Lemma rate_panic a w : rate a w <> Panic.
Proof. unfold rate. by destruct (f64_le _ _). Qed.

Lemma delta_panic a w : delta a w <> Panic.
Proof. unfold delta. destruct (to_f64_slice a) as [[]| |] eqn:E; try done. by destruct a. Qed.

(** A step that panics, in a chain of steps. *)
Ltac inv_panic :=
  repeat match goal with
  | H : fmap _ _ = Panic |- _ => apply fmap_Panic in H
  | H : mbind _ _ = Panic |- _ => apply bind_Panic in H as [H|(? & ? & H)]
  | H : _ && _ = true |- _ => apply andb_true_iff in H as [? H]
  end.

Ltac no_panic :=
  first [done|by eapply compare_panic|by eapply arith_panic|by eapply scalar_i64_panic|by eapply arrow_panic|by eapply as_bool_panic
        |by eapply time_bucket_panic|by eapply rate_panic|by eapply delta_panic].

Lemma eval_panic_free e : panic_free e.
Proof.
  induction e using Expr_ind'; intros Hq now Hp; cbn [eval_expr no_quantile] in *; try done.
  - by destruct (column_by_name b n).
  - apply andb_true_iff in Hq as [Q1 Q2]. unfold eval_binop in Hp. inv_panic; [by eapply IHe1|by eapply IHe2|].
    destruct op; inv_panic; no_panic.
  - destruct op; inv_panic; try (by eapply IHe); try no_panic. by destruct x.
  - inv_panic; [by eapply IHe|done].
  - inv_panic; [by eapply IHe|done].
  - apply andb_true_iff in Hq as [[Q1 Q2]%andb_true_iff Q3]. inv_panic; [by eapply IHe1|by eapply IHe2|by eapply IHe3|no_panic|no_panic|no_panic].
  - apply andb_true_iff in Hq as [Q1 Q2]. inv_panic; [by eapply IHe| |done]. revert Hp. generalize 1%nat, (replicate (array_len x) (Some false)).
    induction H as [|i items Hi _ IH]; intros k mask Hp; [done|]. cbn [forallb] in Q2. apply andb_true_iff in Q2 as [Qi Q2].
    inv_panic; [by eapply Hi|no_panic|no_panic|by eapply IH].
  - inv_panic; [by eapply IHe|by destruct x].
  - apply andb_true_iff in Hq as [Qn Qa]. unfold eval_function in Hp. destruct (n =? "now")%string; [done|].
    destruct args as [|a0 [|a1 rest]]; [by repeat destruct (_ =? _)%string|by repeat destruct (_ =? _)%string|].
    apply Forall_cons_1 in H as [H0 H]. apply Forall_cons_1 in H as [H1 _]. cbn [forallb] in Qa. apply andb_true_iff in Qa as [Q0 [Q1 _]%andb_true_iff].
    destruct (n =? "time_bucket")%string; [inv_panic; [by eapply H0|no_panic|by eapply H1|no_panic]|].
    destruct (n =? "rate")%string; [inv_panic; [by eapply H0|by eapply H1|no_panic|no_panic]|].
    destruct (n =? "delta")%string; [inv_panic; [by eapply H0|by eapply H1|no_panic|no_panic]|].
    by destruct (n =? "histogram_quantile")%string.
  - inv_panic; [by eapply IHe|no_panic].
  - inv_panic; [by eapply IHe|no_panic].
  - inv_panic; [by eapply IHe|no_panic].
Qed.

(** *** Progress *)

Lemma when_Some {A} c (a r : A) : when c a = Some r -> c = true /\ r = a.
Proof. destruct c; [|done]. by intros [= <-]. Qed.

(** Well-typed expressions of this kind have a value. *)
Definition evaluates (e : Expr) : Prop :=
  forall t, type_of (rb_schema b) e = Some t -> total_expr e = true -> forall now, exists arr, eval_expr now b e = Ret arr /\ shaped t (num_rows b) arr.

Lemma evaluates_intro e : (forall t, type_of (rb_schema b) e = Some t -> total_expr e = true -> forall now, exists arr, eval_expr now b e = Ret arr) -> evaluates e.
Proof.
  intros H t Ht Hc now. destruct (H t Ht Hc now) as [arr Ha]. exists arr. split; [done|]. destruct (eval_well_shaped e now arr Ha) as [Ht' Hl].
  split; [congruence|done].
Qed.

Ltac typed_bind :=
  repeat match goal with
  | H : mbind _ _ = Some _ |- _ => apply bind_Some in H as (? & ? & H)
  | H : when _ _ = Some _ |- _ => apply when_Some in H as [H ->]
  | H : _ && _ = true |- _ => apply andb_true_iff in H as [? H]
  | H : bool_decide _ = true |- _ => apply bool_decide_eq_true_1 in H
  end.

Lemma binop_evaluates op l r : evaluates l -> evaluates r -> evaluates (EBinOp op l r).
Proof.
  intros Hl Hr. apply evaluates_intro. intros t Ht Hc now. cbn [type_of] in Ht. apply bind_Some in Ht as (a & Ta & Ht). apply bind_Some in Ht as (c & Tc & Ht).
  assert (total_expr l && total_expr r = true) as [Tl Tr]%andb_true_iff by by destruct op.
  destruct (Hl a Ta Tl (below now 0)) as (x & Ex & Tx & Lx). destruct (Hr c Tc Tr (below now 1)) as (y & Ey & Ty & Ly).
  cbn [eval_expr]. unfold eval_binop. rewrite Ex, Ey. cbn [mbind outcome_bind].
  assert (forall cmp, is_cmp cmp = true -> when (bool_decide (a = c) && comparable a) Boolean = Some t ->
    exists arr, BooleanArray <$> compare_arrays x y cmp = Ret arr) as Hcmp.
  { intros cmp Hi Hw. typed_bind. subst c. destruct (compare_total x y cmp Hi) as [m ->]; [congruence|congruence|congruence|]. by eexists. }
  destruct op; try done; try (by apply Hcmp); cbn [binop_type] in Ht; typed_bind; subst a c; destruct x as [| | | | | | |p]; try done; destruct y as [| | | | | | |q]; try done; cbn in *.
  - rewrite kand_spec by congruence. by eexists.
  - rewrite kor_spec by congruence. by eexists.
Qed.

Lemma in_evaluates e items : evaluates e -> Forall evaluates items -> evaluates (EIn e items).
Proof.
  intros He Hi. apply evaluates_intro. intros t Ht Hc now. cbn [type_of total_expr] in *. typed_bind. destruct (He x H H0 (below now 0)) as (v & Ev & Tv & Lv).
  cbn [eval_expr]. rewrite Ev. cbn [mbind outcome_bind].
  assert (length (replicate (array_len v) (Some false)) = num_rows b) as Hm by by rewrite length_replicate.
  revert Hm. generalize 1%nat, (replicate (array_len v) (Some false)). induction Hi as [|i items Hi _ IH]; intros k mask Hm; [by eexists|].
  cbn [map forallb] in *. apply andb_true_iff in Ht as [[Hti%bool_decide_eq_true_1 Hcx]%andb_true_iff Ht]. apply andb_true_iff in Hc as [Hci Hc].
  destruct (Hi x Hti Hci (below now k)) as (y & Ey & Ty & Ly). rewrite Ey. cbn [mbind outcome_bind].
  destruct (compare_total v y OpEq eq_refl) as [m Em]; [congruence|congruence|congruence|]. rewrite Em. cbn [mbind outcome_bind].
  apply compare_shape in Em as (_ & _ & Lm); [|congruence]. rewrite kor_spec by congruence. cbn [arrow_result ok_or mbind outcome_bind].
  apply IH; [done|done|]. rewrite length_zip_with. lia.
Qed.

Lemma between_evaluates e l h : evaluates e -> evaluates l -> evaluates h -> evaluates (EBetween e l h).
Proof.
  intros He Hl Hh. apply evaluates_intro. intros t Ht Hc now. cbn [type_of total_expr] in *. apply andb_true_iff in Hc as [[C1 C2]%andb_true_iff C3].
  apply bind_Some in Ht as (a & T1 & Ht). apply bind_Some in Ht as (a2 & T2 & Ht). apply bind_Some in Ht as (a3 & T3 & Ht).
  apply when_Some in Ht as [[[<-%bool_decide_eq_true_1 <-%bool_decide_eq_true_1]%andb_true_iff Ca]%andb_true_iff _].
  destruct (He a T1 C1 (below now 0)) as (x & Ex & Tx & Lx). destruct (Hl a T2 C2 (below now 1)) as (y & Ey & Ty & Ly). destruct (Hh a T3 C3 (below now 2)) as (z & Ez & Tz & Lz).
  cbn [eval_expr]. rewrite Ex, Ey, Ez. cbn [mbind outcome_bind].
  destruct (compare_total x y OpGtEq eq_refl) as [m1 E1]; [congruence|congruence|congruence|].
  destruct (compare_total x z OpLtEq eq_refl) as [m2 E2]; [congruence|congruence|congruence|]. rewrite E1, E2. cbn [mbind outcome_bind].
  apply compare_shape in E1 as (_ & _ & L1); [|congruence]. apply compare_shape in E2 as (_ & _ & L2); [|congruence].
  rewrite kand_spec by congruence. by eexists.
Qed.

Lemma column_evaluates t n : evaluates (EColumn t n).
Proof.
  apply evaluates_intro. intros ty Ht _ now. cbn [type_of eval_expr] in *. unfold column_type in Ht. unfold column_by_name.
  destruct (fits_columns b Hfit) as [Hl _]. rewrite column_of_position by done. apply bind_Some in Ht as (i & Ei & _). rewrite Ei. cbn.
  apply index_of_lt in Ei. rewrite Hl in Ei. destruct (lookup_lt_is_Some_2 _ _ Ei) as [c ->]. by eexists.
Qed.

Lemma time_bucket_total w a : (0 <? w) = true -> data_type a = UInt64 -> exists arr, time_bucket w a = Ret arr.
Proof. intros Hw Ha. unfold time_bucket. apply Z.ltb_lt in Hw. destruct (Z.leb_spec w 0); [lia|]. destruct a; try done. by eexists. Qed.

Lemma rate_total w a : rate_window w = true -> exists arr, rate a w = Ret arr.
Proof. unfold rate_window, rate. destruct (f64_le _ _); [done|]. by eexists. Qed.

Lemma delta_total a w : numeric (data_type a) = true -> exists arr, delta a w = Ret arr.
Proof.
  intros Ha. unfold delta. destruct (to_f64_slice a) as [l| |] eqn:E; [|by destruct a; simplify_eq/=|by destruct a].
  cbn [mbind outcome_bind]. destruct l; by eexists.
Qed.

Lemma scalar_i64_total a : integral (data_type a) = true -> array_len a = num_rows b -> exists v, scalar_i64 a = Ret v.
Proof. intros Ha Hl. destruct a as [l|l| | | | | |]; try done; destruct l; cbn in Hl; try lia; by eexists. Qed.

(** A constant is what its first slot reads. *)
Lemma constant_evaluates now p e : constant_with p e = true ->
  exists n arr, p n = true /\ eval_expr now b e = Ret arr /\ scalar_i64 arr = Ret n.
Proof.
  unfold constant_with. destruct (constant_ns e) as [n|] eqn:E; [|done]. intros Hp. exists n, (eval_literal (LInt n) (num_rows b)).
  split; [done|]. split.
  - destruct e; try done; [destruct l|]; simplify_eq/=; done.
  - cbn [eval_literal]. by destruct (num_rows b); [lia|].
Qed.

Lemma function_evaluates name args : Forall evaluates args -> evaluates (EFunction name args).
Proof.
  intros Ha. apply evaluates_intro. intros t Ht Hc now. cbn [type_of total_expr eval_expr] in *. unfold eval_function, function_type in *.
  destruct (name =? "now")%string; [by eexists|].
  destruct args as [|a0 [|a1 rest]]; [by repeat destruct (_ =? _)%string|by repeat destruct (_ =? _)%string|].
  apply Forall_cons_1 in Ha as [E0 Ha]. apply Forall_cons_1 in Ha as [E1 _]. cbn [map] in Ht.
  destruct (type_of (rb_schema b) a0) as [t0|] eqn:T0; [|by repeat destruct (_ =? _)%string].
  destruct (type_of (rb_schema b) a1) as [t1|] eqn:T1; [|by repeat destruct (_ =? _)%string].
  destruct (name =? "time_bucket")%string; [|destruct (name =? "rate")%string; [|destruct (name =? "delta")%string; [|done]]];
    apply andb_true_iff in Hc as [H0 H1]; typed_bind.
  - destruct (constant_evaluates (below now 0) _ a0 H0) as (n & w & Hn & -> & Ew). cbn [mbind outcome_bind]. rewrite Ew.
    destruct (E1 _ T1 H1 (below now 1)) as (ts & -> & Hts & _). apply time_bucket_total; congruence.
  - destruct (E0 _ T0 H1 (below now 0)) as (v & -> & _). destruct (constant_evaluates (below now 1) _ a1 H0) as (n & w & Hn & -> & Ew).
    cbn [mbind outcome_bind]. rewrite Ew. by apply rate_total.
  - destruct (E0 _ T0 H0 (below now 0)) as (v & -> & Tv & _). destruct (E1 _ T1 H1 (below now 1)) as (w & -> & Tw & Lw).
    cbn [mbind outcome_bind]. destruct (scalar_i64_total w) as [n ->]; [congruence|done|]. apply delta_total. congruence.
Qed.

Lemma eval_evaluates e : evaluates e.
Proof.
  induction e using Expr_ind'; auto using binop_evaluates, in_evaluates, between_evaluates, column_evaluates, function_evaluates;
    apply evaluates_intro; intros t Ht Hc now; cbn [type_of total_expr eval_expr] in *; try done; try (by eexists).
  - destruct op; typed_bind; destruct (IHe _ H Hc (below now 0)) as (a & -> & Ta & La); cbn [mbind outcome_bind].
    + destruct a; cbn in Ta; subst x; try done; by eexists.
    + subst x. destruct a; try done. cbn [as_bool mbind outcome_bind]. rewrite knot_spec. by eexists.
  - typed_bind. destruct (IHe _ H Hc (below now 0)) as (a & -> & _). by eexists.
  - typed_bind. destruct (IHe _ H Hc (below now 0)) as (a & -> & _). by eexists.
  - typed_bind. destruct (IHe _ H Hc (below now 0)) as (a & -> & Ta & _). subst x. destruct a; try done. by eexists.
  - apply andb_true_iff in Hc as [Hw Hc]. typed_bind. destruct (IHe _ H Hc (below now 0)) as (a & -> & Ta & _). subst x. by apply time_bucket_total.
  - apply andb_true_iff in Hc as [Hw Hc]. typed_bind. destruct (IHe _ H Hc (below now 0)) as (a & -> & _). by apply rate_total.
  - typed_bind. destruct (IHe _ H Hc (below now 0)) as (a & -> & Ta & La). apply delta_total. by rewrite Ta.
Qed.
End Soundness.

(** C8: expressions have the types and shapes their schema gives.  On a batch
    with rows that fits its schema, whatever an expression evaluates to has
    the static type of the expression and one slot per row, so an ill-typed
    expression never has a value; without quantiles evaluation never panics;
    and a well-typed expression always has a value if it has no arithmetic
    and no quantiles, its calls of time_bucket have a constant positive width
    and its calls of rate a constant window of positive length.  What the
    clock shows and what a null slot holds do not matter. *)
Theorem eval_type_sound {kernels : Kernels} {shapes : KernelShapes kernels} now b e :
  fits b -> (0 < num_rows b)%nat ->
  (forall arr, eval_expr now b e = Ret arr -> type_of (rb_schema b) e = Some (data_type arr) /\ array_len arr = num_rows b) /\
  (no_quantile e = true -> eval_expr now b e <> Panic) /\
  (forall t, type_of (rb_schema b) e = Some t -> total_expr e = true ->
     exists arr, eval_expr now b e = Ret arr /\ data_type arr = t /\ array_len arr = num_rows b).
Proof.
  intros Hf Hr. split_and!; [by apply eval_well_shaped|intros; by apply eval_panic_free|]. intros t Ht Hc. by apply eval_evaluates.
Qed.

(** ** The reference kernels have these shapes *)

Lemma arith_all_length f l r m : arith_all f l r = Some m -> length l = length r -> length m = length l.
Proof.
  revert r m; induction l as [|[a|] l IH]; intros [|[c|] r] m H Hl; try done; cbn in H, Hl; try (by simplify_eq);
    repeat (apply bind_Some in H as (? & ? & H)); simplify_eq/=; f_equal; eapply IH; [done|lia|done|lia|done|lia|done|lia].
Qed.

Lemma kernels_reference_shapes : KernelShapes kernels_reference.
Proof.
  split.
  - intros op l r _ Ht Hc Hl. destruct l, r; try done; by eexists.
  - intros op l r m H Hl. destruct l, r; try done; cbn in *; simplify_eq/=; rewrite length_zip_with; lia.
  - intros op l r a H Ht Hl. destruct l, r; try done. cbn in H. apply fmap_Some in H as (m & Hm & ->). split; [done|]. by eapply arith_all_length.
Qed.

(** Timestamps in buckets, and a filter that does not type. *)
Lemma eval_type_sound_witness :
  (exists arr, eval_expr (kernels := kernels_reference) (fun _ => 0) two_rows
       (EFunction "time_bucket" [EInterval 15; EColumn None "timestamp_ns"]) = Ret arr /\
     data_type arr = UInt64 /\ array_len arr = 2%nat) /\
  (exists arr, eval_expr (kernels := kernels_reference) (fun _ => 0) two_rows
       (EFunction "rate" [EColumn None "v"; EInterval 60000000000]) = Ret arr /\
     data_type arr = Float64 /\ array_len arr = 2%nat) /\
  (forall arr, eval_expr (kernels := kernels_reference) (fun _ => 0) two_rows (ELike (EColumn None "v") "x%" false) <> Ret arr).
Proof.
  pose proof (fun e => @eval_type_sound kernels_reference kernels_reference_shapes (fun _ => 0) two_rows e eq_refl (proj1 (Nat.ltb_lt 0 2) eq_refl)) as H.
  split; [|split].
  - apply (H (EFunction "time_bucket" [EInterval 15; EColumn None "timestamp_ns"])); reflexivity.
  - apply (H (EFunction "rate" [EColumn None "v"; EInterval 60000000000])); [reflexivity|vm_compute; reflexivity].
  - intros arr E. apply H in E as [E _]. discriminate E.
Defined.

(** A bucket of no width types and fails. *)
Example time_bucket_zero : type_of (rb_schema two_rows) (EFunction "time_bucket" [ELiteral (LInt 0); EColumn None "timestamp_ns"]) = Some UInt64 /\
  eval_expr (kernels := kernels_reference) (fun _ => 0) two_rows (EFunction "time_bucket" [ELiteral (LInt 0); EColumn None "timestamp_ns"]) =
  exec_error "time_bucket width must be > 0" [].
Proof. split; reflexivity. Qed.

(** On a batch without rows some results have a slot too many, and the width
    of a bucket cannot be read. *)
Definition no_rows : RecordBatch :=
  {| rb_schema := [F "timestamp_ns" UInt64 false]; rb_columns := [UInt64Array []] |}.

Example delta_no_rows : eval_expr (kernels := kernels_reference) (fun _ => 0) no_rows (EDelta (EColumn None "timestamp_ns") 1) = Ret (Float64Array [Some f64_zero]).
Proof. reflexivity. Qed.

Example time_bucket_no_rows : eval_expr (kernels := kernels_reference) (fun _ => 0) no_rows
  (EFunction "time_bucket" [ELiteral (LInt 5); EColumn None "timestamp_ns"]) = Panic.
Proof. reflexivity. Qed.
