(* ===== verification/Like.v ===== *)
(** * LIKE patterns

    [glob_to_regex] and [simple_like_match] of
    [crates/infralens-query/src/functions/eval.rs], whose definitions are in
    [Eval], against the meaning of [LIKE] in SQL. *)

From Stdlib Require Import ZArith Lia Ascii String.
From stdpp Require Import base tactics list numbers option strings gmap.
From S2P Require Import Prelude Text Float64 Codec Model Arrow Ast Plan Eval.

Local Open Scope string_scope.
Local Open Scope list_scope.
Local Open Scope nat_scope.

(** ** The meaning of a pattern *)

(** A percent sign stands for any text, any other character for itself. *)
Inductive Matches : string -> string -> Prop :=
| m_end : Matches "" ""
| m_char c p s : c <> "%"%char -> Matches p s -> Matches (String c p) (String c s)
| m_any p a s : Matches p s -> Matches (String "%" p) (a +:+ s).

(** Patterns of text and percent signs: no underscore, and no point, which
    the code could take for its own wildcard. *)
Fixpoint plain_pattern (p : string) : bool :=
  match p with
  | "" => true
  | String c p => negb (c =? "_")%char && negb (c =? ".")%char && plain_pattern p
  end.

Definition has_percent (p : string) : bool := existsb (fun c => (c =? "%")%char) (String.list_ascii_of_string p).

Fixpoint ends_percent (p : string) : bool :=
  match p with
  | "" => false
  | String c "" => (c =? "%")%char
  | String _ p => ends_percent p
  end.

(** ** Searching *)

Lemma find_str_nil p : find_str p "" = if starts_with p "" then Some 0 else None.
Proof. reflexivity. Qed.

Lemma find_str_cons p c s :
  find_str p (String c s) = if starts_with p (String c s) then Some 0 else S <$> find_str p s.
Proof. reflexivity. Qed.

Lemma starts_with_app p s : starts_with p (p +:+ s) = true.
Proof. unfold starts_with. by rewrite strip_prefix_app. Qed.

Lemma starts_with_split p s : starts_with p s = true -> exists u, s = p +:+ u.
Proof. unfold starts_with. destruct (strip_prefix p s) as [u|] eqn:E; [|done]. intros _. exists u. by apply strip_prefix_Some. Qed.

Lemma sdrop_app p u : sdrop (String.length p) (p +:+ u) = u.
Proof. induction p; [by destruct u|done]. Qed.

Lemma sdrop_0 s : sdrop 0 s = s.
Proof. by destruct s. Qed.

(** The place of an occurrence. *)
Lemma find_str_Some p s n : find_str p s = Some n ->
  exists a u, s = a +:+ p +:+ u /\ String.length a = n /\ sdrop (n + String.length p) s = u.
Proof.
  revert n; induction s as [|c s IH]; intros n H.
  - rewrite find_str_nil in H. destruct p; [|done]. injection H as <-. by exists "", "".
  - rewrite find_str_cons in H. destruct (starts_with p (String c s)) eqn:E.
    + injection H as <-. apply starts_with_split in E as [u E]. exists "", u. rewrite E. split_and!; [done|done|]. apply sdrop_app.
    + destruct (find_str p s) as [m|]; [|done]. injection H as <-. destruct (IH m eq_refl) as (a & u & E' & <- & Hd).
      exists (String c a), u. split_and!; [by rewrite E'|done|exact Hd].
Qed.

Lemma find_str_le p a u : exists n, find_str p (a +:+ p +:+ u) = Some n /\ n <= String.length a.
Proof.
  induction a as [|c a IH].
  - exists 0. split; [|done]. change ("" +:+ p +:+ u) with (p +:+ u). destruct (p +:+ u) eqn:E; [rewrite find_str_nil|rewrite find_str_cons];
      rewrite <- E, starts_with_app; done.
  - change (String c a +:+ p +:+ u) with (String c (a +:+ p +:+ u)). rewrite find_str_cons. destruct (starts_with _ _); [exists 0; split; [done|cbn; lia]|].
    destruct IH as (n & -> & Hn). exists (S n). split; [done|]. cbn. lia.
Qed.

Lemma app_suffix x y z w : x +:+ y = z +:+ w -> String.length x <= String.length z -> exists b, y = b +:+ w.
Proof.
  revert z; induction x as [|c x IH]; intros z E Hl; [by exists z|]. destruct z as [|d z]; [cbn in Hl; lia|].
  injection E as -> E. apply (IH z E). cbn in Hl. lia.
Qed.

(** The first occurrence leaves at least as much as any other. *)
Lemma find_str_first p a u : exists n b, find_str p (a +:+ p +:+ u) = Some n /\ sdrop (n + String.length p) (a +:+ p +:+ u) = b +:+ u.
Proof.
  destruct (find_str_le p a u) as (n & Hn & Hle). exists n. destruct (find_str_Some _ _ _ Hn) as (a' & u' & E & Hl & Hd).
  rewrite Hd. destruct (app_suffix (a' +:+ p) u' (a +:+ p) u) as [b ->]; [by rewrite !string_app_assoc| |by exists b].
  rewrite !string_length_app. lia.
Qed.

(** ** Segments *)

(** The text between the percent signs. *)
Fixpoint segments (p : string) : list string :=
  match p with
  | "" => [""]
  | String c p =>
      if (c =? "%")%char then "" :: segments p
      else match segments p with x :: xs => String c x :: xs | [] => [] end
  end.

Fixpoint sjoin (sep : string) (l : list string) : string :=
  match l with
  | [] => ""
  | [x] => x
  | x :: l => x +:+ sep +:+ sjoin sep l
  end.

(** Texts without a point. *)
Fixpoint pointless (s : string) : bool :=
  match s with "" => true | String c s => negb (c =? ".")%char && pointless s end.

Lemma segments_cons p : exists x xs, segments p = x :: xs.
Proof. induction p as [|c p (x & xs & IH)]; [by eexists _, _|]. cbn. rewrite IH. destruct (c =? "%")%char; by eexists _, _. Qed.

Lemma sjoin_cons sep x y l : sjoin sep (x :: y :: l) = x +:+ sep +:+ sjoin sep (y :: l).
Proof. reflexivity. Qed.

Lemma sjoin_push sep c x l : sjoin sep (String c x :: l) = String c (sjoin sep (x :: l)).
Proof. by destruct l. Qed.

Lemma glob_segments p : plain_pattern p = true -> glob_to_regex p = sjoin wild (segments p) /\ Forall (fun x => pointless x = true) (segments p).
Proof.
  induction p as [|c p IH]; intros Hp; [by repeat constructor|]. cbn [plain_pattern] in Hp.
  apply andb_true_iff in Hp as [[Hu%negb_true_iff Hd%negb_true_iff]%andb_true_iff Hp]. destruct (IH Hp) as [IH1 IH2]. clear IH.
  destruct (segments_cons p) as (x & xs & E). cbn [segments]. rewrite E in *. destruct (Ascii.eqb_spec c "%") as [->|Hc].
  - split; [|by constructor]. cbn [glob_to_regex]. rewrite IH1. done.
  - split.
    + rewrite sjoin_push, <- IH1. destruct (Ascii.eqb_spec c "_") as [->|Hn]; [done|]. cbn [glob_to_regex].
      destruct c as [[] [] [] [] [] [] [] []]; try done; by exfalso.
    + apply Forall_cons_1 in IH2 as [Hx Hxs]. constructor; [|done]. cbn. by rewrite Hd.
Qed.

Lemma find_wild_none x : pointless x = true -> find_str wild x = None.
Proof.
  induction x as [|c x IH]; intros Hx; [done|]. cbn [pointless] in Hx. apply andb_true_iff in Hx as [Hc%negb_true_iff Hx].
  rewrite find_str_cons, (IH Hx). unfold starts_with, wild. cbn [strip_prefix]. rewrite Ascii.eqb_sym, Hc. done.
Qed.

Lemma find_wild_app x r : pointless x = true -> find_str wild (x +:+ wild +:+ r) = Some (String.length x).
Proof.
  induction x as [|c x IH]; intros Hx; [done|]. cbn [pointless] in Hx. apply andb_true_iff in Hx as [Hc%negb_true_iff Hx].
  change (String c x +:+ wild +:+ r) with (String c (x +:+ wild +:+ r)). rewrite find_str_cons, (IH Hx).
  unfold starts_with, wild. cbn [strip_prefix]. rewrite Ascii.eqb_sym, Hc. done.
Qed.

Lemma stake_app x r : stake (String.length x) (x +:+ r) = x.
Proof. induction x as [|c x IH]; [by destruct r|]. cbn. by f_equal. Qed.

Lemma split_segments fuel x xs : Forall (fun x => pointless x = true) (x :: xs) -> length xs <= fuel ->
  split_str fuel wild (sjoin wild (x :: xs)) = x :: xs.
Proof.
  revert fuel x; induction xs as [|y xs IH]; intros fuel x Hf Hl; apply Forall_cons_1 in Hf as [Hx Hf].
  - cbn [sjoin]. destruct fuel; cbn [split_str]; by rewrite ?(find_wild_none x Hx).
  - destruct fuel as [|fuel]; [cbn in Hl; lia|]. rewrite sjoin_cons. cbn [split_str]. rewrite find_wild_app by done. rewrite stake_app. f_equal.
    assert (forall k, sdrop (String.length x + k) (x +:+ wild +:+ sjoin wild (y :: xs)) = sdrop k (wild +:+ sjoin wild (y :: xs))) as E.
    { intros k. clear. induction x as [|c x IH]; [done|]. exact IH. }
    rewrite E, sdrop_app. apply IH; [done|cbn in Hl; lia].
Qed.

Lemma sjoin_length x xs : length xs <= String.length (sjoin wild (x :: xs)).
Proof.
  revert x; induction xs as [|y xs IH]; intros x; [cbn; lia|]. rewrite sjoin_cons. specialize (IH y).
  rewrite !string_length_app. change (String.length wild) with 2. cbn [length]. lia.
Qed.

Lemma starts_wild x y l : pointless x = true -> starts_with wild (sjoin wild (x :: y :: l)) = (x =? "")%string.
Proof.
  intros Hx. rewrite sjoin_cons. destruct x as [|c x]; [done|]. cbn in Hx. apply andb_true_iff in Hx as [Hc%negb_true_iff _].
  unfold starts_with, wild. cbn [strip_prefix]. change (String c x +:+ ?r) with (String c (x +:+ r)). cbn [strip_prefix]. by rewrite Ascii.eqb_sym, Hc.
Qed.

(** The end of a text. *)
Lemma srev_app a b acc : srev (a +:+ b) acc = srev b (srev a acc).
Proof. revert acc; induction a as [|c a IH]; intros acc; [done|]. apply IH. Qed.

Lemma string_snoc x : x <> "" -> exists y c, x = y +:+ String c "".
Proof.
  induction x as [|c x IH]; [done|]. intros _. destruct x as [|d x]; [by exists "", c|]. destruct IH as (y & e & E); [done|].
  exists (String c y), e. by rewrite E.
Qed.

Lemma pointless_app a b : pointless (a +:+ b) = pointless a && pointless b.
Proof. induction a as [|c a IH]; [done|]. cbn. by rewrite IH, andb_assoc. Qed.

Lemma ends_wild_text t x : pointless x = true -> x <> "" -> ends_with wild (t +:+ wild +:+ x) = false.
Proof.
  intros Hx Hne. destruct (string_snoc x Hne) as (y & c & ->). unfold ends_with. rewrite !srev_app. cbn [srev].
  unfold starts_with. change (srev wild "") with "*.". cbn [strip_prefix]. destruct (Ascii.eqb "*" c); [|done].
  destruct (decide (y = "")) as [->|Hy]; [done|]. destruct (string_snoc y Hy) as (y' & d & ->). rewrite srev_app. cbn [srev strip_prefix].
  rewrite !pointless_app in Hx. apply andb_true_iff in Hx as [[_ Hd]%andb_true_iff _]. cbn in Hd. rewrite andb_true_r in Hd.
  apply negb_true_iff in Hd. by rewrite Ascii.eqb_sym, Hd.
Qed.

Lemma ends_wild x y l : Forall (fun x => pointless x = true) (x :: y :: l) ->
  ends_with wild (sjoin wild (x :: y :: l)) = (List.last (y :: l) "" =? "")%string.
Proof.
  intros Hf. assert (exists t, sjoin wild (x :: y :: l) = t +:+ wild +:+ List.last (y :: l) "") as (t & ->).
  { clear Hf. revert x y; induction l as [|z l IH]; intros x y; [by exists x|]. rewrite sjoin_cons. destruct (IH y z) as (t & ->).
    exists (x +:+ wild +:+ t). by rewrite !string_app_assoc. }
  assert (pointless (List.last (y :: l) "") = true) as Hp.
  { apply Forall_cons_1 in Hf as [_ Hf]. revert y Hf. induction l as [|z l IH]; intros y Hf; apply Forall_cons_1 in Hf as [Hy Hf]; [done|]. by apply (IH z). }
  destruct (String.eqb_spec (List.last (y :: l) "") "") as [->|Hne]; [|by apply ends_wild_text].
  unfold ends_with. rewrite !srev_app. done.
Qed.

(** ** Patterns by their segments *)

Fixpoint in_order (segs : list string) (s : string) : Prop :=
  match segs with
  | [] => False
  | [x] => s = x
  | x :: segs => exists a u, s = x +:+ a +:+ u /\ in_order segs u
  end.

Lemma in_order_cons x y l s : in_order (x :: y :: l) s <-> exists a u, s = x +:+ a +:+ u /\ in_order (y :: l) u.
Proof. reflexivity. Qed.

Lemma in_order_push c x l s : in_order (String c x :: l) s <-> exists s', s = String c s' /\ in_order (x :: l) s'.
Proof.
  destruct l as [|y l]; [cbn; split; [intros ->; by exists x|intros (s' & -> & ->); done]|]. rewrite in_order_cons. split.
  - intros (a & u & -> & H). exists (x +:+ a +:+ u). split; [done|]. apply in_order_cons. by exists a, u.
  - intros (s' & -> & H). apply in_order_cons in H as (a & u & -> & H). by exists a, u.
Qed.

Lemma matches_in_order p s : Matches p s <-> in_order (segments p) s.
Proof.
  revert s; induction p as [|c p IH]; intros s; cbn [segments].
  - cbn. split; [by inversion 1|intros ->; constructor].
  - destruct (segments_cons p) as (x & xs & E). rewrite E in *. destruct (Ascii.eqb_spec c "%") as [->|Hc].
    + rewrite in_order_cons. split.
      * inversion 1; subst; [done|]. exists a, s0. split; [done|]. by apply IH.
      * intros (a & u & -> & H). change ("" +:+ a +:+ u) with (a +:+ u). constructor. by apply IH.
    + rewrite in_order_push. split.
      * inversion 1; subst; [|done]. eexists. split; [done|]. by apply IH.
      * intros (s' & -> & H). constructor; [done|]. by apply IH.
Qed.

Lemma segments_one p x : segments p = [x] -> p = x /\ ends_percent p = false.
Proof.
  revert x; induction p as [|c p IH]; intros x Hx; [by injection Hx as <-|]. cbn [segments] in Hx. destruct (segments_cons p) as (y & l & E).
  rewrite E in Hx. destruct (c =? "%")%char eqn:Hc; [done|]. injection Hx as <- ->. destruct (IH y E) as [-> He]. split; [done|].
  by destruct y.
Qed.

Lemma segments_flags p : (has_percent p = match segments p with [_] => false | _ => true end) /\
  (forall x y l, segments p = x :: y :: l -> (List.last (y :: l) "" =? "")%string = ends_percent p).
Proof.
  induction p as [|c p [IH1 IH2]]; [done|]. destruct (segments_cons p) as (x & xs & E). cbn [segments]. rewrite E in *.
  change (has_percent (String c p)) with ((c =? "%")%char || has_percent p). destruct (Ascii.eqb_spec c "%") as [->|Hc].
  - split; [done|]. intros x' y' l' [= <- <- <-]. destruct xs as [|z xs].
    + destruct (segments_one p x E) as [-> He]. destruct x as [|d x]; [done|]. exact (eq_sym He).
    + destruct p as [|d p]; [done|]. exact (IH2 x z xs eq_refl).
  - split; [by rewrite IH1; destruct xs|]. intros x' y' l' [= <- ->]. destruct p as [|d p]; [done|]. by apply (IH2 x y' l').
Qed.

(** ** The loop over the parts *)

Lemma like_parts_nonempty anc first x l s : x <> "" -> like_parts anc first (x :: l) s =
  match find_str x s with
  | Some pos => if first && anc && negb (pos =? 0) then None else like_parts anc false l (sdrop (pos + String.length x) s)
  | None => None
  end.
Proof. by destruct x. Qed.

Lemma like_parts_sound anc x l t r : like_parts anc false (x :: l) t = Some r -> List.last (x :: l) "" = "" \/ r = "" ->
  exists a u, t = a +:+ u /\ in_order (x :: l) u.
Proof.
  revert x t; induction l as [|y l IH]; intros x t H He.
  - destruct (decide (x = "")) as [->|Hx]; [exists t, ""; by rewrite string_app_nil_r|].
    rewrite like_parts_nonempty in H by done. destruct (find_str x t) as [n|] eqn:Ef; [|done]. cbn in H. injection H as <-.
    destruct (find_str_Some x t n Ef) as (a & u & -> & _ & Hd). destruct He as [?|He]; [done|]. rewrite Hd in He. subst u.
    exists a, x. by rewrite string_app_nil_r.
  - destruct (decide (x = "")) as [->|Hx].
    + change (like_parts anc false (y :: l) t = Some r) in H. destruct (IH y t H He) as (a & u & -> & Hu).
      exists "", (a +:+ u). split; [done|]. apply in_order_cons. by exists a, u.
    + rewrite like_parts_nonempty in H by done. destruct (find_str x t) as [n|] eqn:Ef; [|done]. cbn [andb] in H.
      destruct (find_str_Some x t n Ef) as (a & u & -> & _ & Hd). rewrite Hd in H. destruct (IH y u H He) as (a' & u' & -> & Hu).
      exists a, (x +:+ a' +:+ u'). split; [done|]. apply in_order_cons. by exists a', u'.
Qed.

Lemma like_parts_complete anc x l a u : in_order (x :: l) u -> List.last (x :: l) "" = "" ->
  exists r, like_parts anc false (x :: l) (a +:+ u) = Some r.
Proof.
  revert x a u; induction l as [|y l IH]; intros x a u Hu Hl; [cbn in Hl; subst x; by eexists|].
  apply in_order_cons in Hu as (a' & u' & -> & Hu). destruct (decide (x = "")) as [->|Hx].
  - change ("" +:+ a' +:+ u') with (a' +:+ u'). rewrite <- string_app_assoc. by apply (IH y (a +:+ a') u').
  - rewrite like_parts_nonempty by done. destruct (find_str_first x a (a' +:+ u')) as (n & b & -> & ->). cbn [andb].
    rewrite <- string_app_assoc. by apply (IH y (b +:+ a') u').
Qed.

Lemma find_str_start x u : find_str x (x +:+ u) = Some 0.
Proof. destruct (find_str_le x "" u) as (n & Hn & Hl). cbn in Hl. by replace 0 with n by lia. Qed.

(** The first part, anchored exactly when it is not empty. *)
Lemma like_first x y l s r : like_parts (negb (x =? "")%string) true (x :: y :: l) s = Some r <->
  exists t, s = x +:+ t /\ like_parts (negb (x =? "")%string) false (y :: l) t = Some r.
Proof.
  destruct (String.eqb_spec x "") as [->|Hx]; [split; [by exists s|by intros (t & -> & H)]|]. cbn [negb].
  rewrite like_parts_nonempty by done. split.
  - destruct (find_str x s) as [[|n]|] eqn:Ef; [|done|done]. cbn. intros H.
    destruct (find_str_Some x s 0 Ef) as (a & u & -> & Ha & Hd). destruct a; [|done]. exists u. by rewrite <- Hd.
  - intros (t & -> & H). rewrite find_str_start. cbn [andb negb Nat.eqb Nat.add]. by rewrite sdrop_app.
Qed.

(** C15: [LIKE] only accepts what the pattern describes, and all of it where
    the pattern ends in a percent sign or has none.  For patterns of text
    and percent signs, a text the code accepts matches the pattern; a
    pattern that ends in other text can miss matches, since the code takes
    the first occurrence of its last part. *)
Theorem like_sound_complete s p : plain_pattern p = true ->
  (like s p = true -> Matches p s) /\
  (ends_percent p = true \/ has_percent p = false -> Matches p s -> like s p = true).
Proof.
  intros Hp. rewrite matches_in_order. destruct (glob_segments p Hp) as [Eg Hpl]. destruct (segments_flags p) as [Hone Hend].
  unfold like, simple_like_match. rewrite Eg. destruct (segments_cons p) as (x & xs & E). rewrite E in *. clear E.
  destruct xs as [|y l].
  - cbn [sjoin in_order]. apply Forall_cons_1 in Hpl as [Hx _]. rewrite (find_wild_none x Hx). by split; [apply String.eqb_eq|intros _; apply String.eqb_eq].
  - rewrite <- (Hend x y l eq_refl). rewrite (starts_wild x y l) by by apply Forall_cons_1 in Hpl as [? _]. rewrite (ends_wild x y l Hpl).
    rewrite (split_segments _ x (y :: l) Hpl) by apply sjoin_length. rewrite (sjoin_cons wild).
    rewrite find_wild_app by by apply Forall_cons_1 in Hpl as [? _]. split.
    + destruct (like_parts _ true (x :: y :: l) s) as [r|] eqn:Er; [|done]. intros Hr. apply like_first in Er as (t & -> & Ht).
      destruct (like_parts_sound _ y l t r Ht) as (a & u & -> & Hu); [|apply in_order_cons; by exists a, u].
      apply orb_true_iff in Hr as [Hr%String.eqb_eq|Hr%Nat.eqb_eq]; [by left|right; by destruct r].
    + rewrite Hone. intros [He|He] Hm; [|done]. apply in_order_cons in Hm as (a & u & -> & Hu).
      destruct (like_parts_complete (negb (x =? "")%string) y l a u Hu) as (r & Hr); [by apply String.eqb_eq|].
      rewrite (proj2 (like_first x y l (x +:+ a +:+ u) r)) by by exists (a +:+ u). by rewrite He.
Qed.

Lemma like_sound_complete_witness :
  Matches "err%time%" "error: timeout" /\ like "error: timeout" "err%time%" = true /\ ~ Matches "err%x" "error".
Proof.
  assert (Matches "err%time%" "error: timeout") as H.
  { apply (like_sound_complete "error: timeout" "err%time%"); reflexivity. }
  split; [exact H|]. split.
  - apply (like_sound_complete "error: timeout" "err%time%" eq_refl); [left; reflexivity|exact H].
  - intros Hm. apply matches_in_order in Hm as (a & u & E & Hu). cbn in Hu. subst u. injection E as E.
    destruct a as [|? [|? [|? a]]]; discriminate E.
Defined.
