(* ===== verification/FlushQuery.v ===== *)
(** * From a flush to a query

    The composition of the write side of the store with the query engine:
    what [flush_worker] ([Engine]) leaves on the disk is what [execute]
    ([Query]) reads. *)

From Stdlib Require Import ZArith Lia Permutation.
From stdpp Require Import base tactics list numbers option strings gmap sorting.
From S2P Require Import Prelude Text Float64 Codec Model Arrow Fs Wal MemTable ZoneMap Bloom SSTable Partition Compaction Engine EngineSafety Ast Lexer Parser Plan Eval Executor Sort Query.

Local Open Scope string_scope.
Local Open Scope list_scope.
Local Open Scope Z_scope.

(** ** Files that stay *)

(** A table never has the name of a filter, a zone map or a log. *)
Lemma parquet_name_differs d n d' n' : parquet_path d n <> bloom_path d' n' /\ parquet_path d n <> zonemap_path d' n'.
Proof.
  unfold parquet_path, bloom_path, zonemap_path.
  split; intros [= _ E]; apply (f_equal rsplit_dot) in E;
    rewrite (rsplit_ext (pad6 n) "parquet" eq_refl) in E;
    rewrite ?(rsplit_ext (pad6 n') "bloom" eq_refl), ?(rsplit_ext (pad6 n') "zonemap" eq_refl) in E; discriminate E.
Qed.

Lemma parquet_not_wal d n sp : parquet_path d n <> sp_wal_path sp.
Proof. intros [= _ E]. apply (f_equal rsplit_dot) in E. by rewrite (rsplit_ext (pad6 n) "parquet" eq_refl) in E. Qed.

Lemma zonemap_not_wal d n sp : zonemap_path d n <> sp_wal_path sp.
Proof. intros [= _ E]. apply (f_equal rsplit_dot) in E. by rewrite (rsplit_ext (pad6 n) "zonemap" eq_refl) in E. Qed.

Section Files.
Context {libs : EngineLibs}.

Lemma read_zone_map q w zm : healthy w -> read_from_file q w = (Ret zm, w) -> exists zb, fs_files w !! q = Some zb /\ deserialize zb = Some zm.
Proof.
  intros Hh. unfold read_from_file, fs_read, mbind, st_bind. rewrite syscall_healthy by done. destruct (fs_files w !! q) as [zb|]; [|done].
  unfold st_lift, ok_or. destruct (deserialize zb) eqn:E; [|done]. intros [= <-]. eauto.
Qed.

Lemma read_parquet_same p n w w' r : healthy w -> healthy w' -> fs_files w' !! p = fs_files w !! p ->
  read_parquet p n w = (r, w) -> read_parquet p n w' = (r, w').
Proof.
  intros Hh Hh' Ef. unfold read_parquet, fs_read, mbind, st_bind. rewrite !syscall_healthy by done. rewrite Ef.
  destruct (fs_files w !! p) as [bs|]; [|congruence]. unfold st_lift. destruct (ok_or _ _); unfold mret, st_ret; congruence.
Qed.

Lemma reads_same n w w' paths files : healthy w -> healthy w' -> (forall p, In p paths -> fs_files w' !! p = fs_files w !! p) ->
  reads w n paths files -> reads w' n paths files.
Proof.
  intros Hh Hh' Hf Hr. induction Hr as [|p bs paths files Hp _ IH]; [constructor|]. constructor.
  - apply (read_parquet_same p n w); [done|done|apply Hf; by left|done].
  - apply IH. intros q Hq. apply Hf. by right.
Qed.

Lemma reads_perm n w paths paths' files : paths ≡ₚ paths' -> reads w n paths files -> exists files', reads w n paths' files' /\ files ≡ₚ files'.
Proof.
  intros Hp. revert files. induction Hp as [|p l l' _ IH|p q l|l1 l2 l3 _ IH1 _ IH2]; intros files Hr.
  - by exists files.
  - inversion Hr as [|? bs ? fs Hb Hr']; subst. destruct (IH fs Hr') as (fs' & Hr2 & Hp2). exists (bs :: fs'). split; [by constructor|by constructor].
  - inversion Hr as [|? b1 ? fs H1 Hr']; subst. inversion Hr' as [|? b2 ? fs' H2 Hr2]; subst. exists (b2 :: b1 :: fs').
    split; [by repeat constructor|constructor].
  - destruct (IH1 files Hr) as (f1 & R1 & P1). destruct (IH2 f1 R1) as (f2 & R2 & P2). exists f2. split; [done|by transitivity f1].
Qed.

(** The checkpoint touches only the log. *)
Lemma checkpoint_file_ok p w : healthy w ->
  exists w', checkpoint_file p w = (Ret tt, w') /\ healthy w' /\ forall q, q <> p -> fs_files w' !! q = fs_files w !! q.
Proof.
  intros Hh. unfold checkpoint_file. erewrite (st_bind_Ret _ _ w w w) by done.
  destruct (exists_file p w); [|by exists w]. unfold st_try, mbind, st_bind, open_wal. rewrite syscall_healthy by done.
  unfold checkpoint_handle, run_wal. destruct (checkpoint _) as [[f wal'] r]. eexists. split; [done|].
  split; [exact Hh|]. intros q Hq. cbn [put_view fs_files]. by rewrite !lookup_insert_ne.
Qed.
End Files.

Section FlushStep.
Context {libs : EngineLibs}.

Lemma flush_signal_empty {A} `{!Bincode A} sig (write : list A -> string -> Z -> io SSTableMeta) m s :
  drain_signal m (signal_u8 sig) = [] -> flush_signal sig write m s = (Ret tt, s).
Proof. unfold flush_signal. by intros ->. Qed.

(** The rows a file gives at every batch size. *)
Definition holds_rows (w : Fs) (q : path) (s : Schema) (rows : list (list Cell)) : Prop :=
  forall n, (0 < n)%nat -> exists out, read_parquet q n w = (Ret (map Ret out), w) /\ Forall (has_schema s) out /\ batches_rows out = rows.

(** A flush of the log rows of [m]: one more table, under the next number,
    with those rows; the other tables and the other directories stay. *)
Record flushed_logs (m : MemTable) (w : Fs) (p : Partition) (w' : Fs) (p' : Partition) (meta : SSTableMeta) : Prop := {
  fl_healthy : healthy w';
  fl_logs : p_logs p' = add_sstable meta (snd (next_seq (p_logs p)));
  fl_dir : sm_dir meta = sp_dir (p_logs p);
  fl_seq : sm_seq meta = sp_next_seq (p_logs p);
  fl_rows : holds_rows w' (meta_parquet_path meta) log_schema (batch_rows (batch_of log_schema (log_columns (decoded_logs m))));
  fl_tables : forall d q, parquet_path d q <> meta_parquet_path meta -> fs_files w' !! parquet_path d q = fs_files w !! parquet_path d q;
  fl_others : forall q, fst q <> sp_dir (p_logs p) -> fs_files w' !! q = fs_files w !! q;
  fl_zone : exists zb, fs_files w' !! meta_zonemap_path meta = Some zb /\ deserialize zb = Some (sm_zone_map meta);
  fl_zones : forall d name, is_zonemap name = true -> (d, name) <> meta_zonemap_path meta -> fs_files w' !! (d, name) = fs_files w !! (d, name)
}.

Lemma flushed_path m w p w' p' meta : flushed_logs m w p w' p' meta ->
  meta_parquet_path meta = parquet_path (sp_dir (p_logs p)) (sp_next_seq (p_logs p)).
Proof. intros H. unfold meta_parquet_path. by rewrite (fl_dir _ _ _ _ _ _ H), (fl_seq _ _ _ _ _ _ H). Qed.

(** A table with log rows only: one new SSTable and a checkpoint. *)
Lemma flush_immutable_logs m w p :
  drain_signal m (signal_u8 Log) <> [] -> drain_signal m (signal_u8 Metric) = [] -> drain_signal m (signal_u8 Span) = [] ->
  accepts_logs w p (decoded_logs m) -> healthy w ->
  exists w' p' meta, flush_immutable m (w, p) = (Ret tt, (w', p')) /\ flushed_logs m w p w' p' meta.
Proof.
  intros Hl Hm Hs Ha Hh. destruct (flush_logs_written m w p Hl Ha) as (w1 & p1 & meta & Ef & Hst & Hdir & Hseq & Hr & Hh1 & Ho).
  destruct (checkpoint_file_ok (sp_wal_path (p_logs p1)) w1 Hh1) as (w2 & Ec & Hh2 & Hc).
  assert (meta_parquet_path meta = parquet_path (sp_dir (p_logs p)) (sp_next_seq (p_logs p))) as Hpath by (unfold meta_parquet_path; by rewrite Hdir, Hseq).
  assert (meta_zonemap_path meta = zonemap_path (sp_dir (p_logs p)) (sp_next_seq (p_logs p))) as Hzp by (unfold meta_zonemap_path; by rewrite Hdir, Hseq).
  destruct Hr as (_ & Hread & Hz & _). exists w2, p1, meta. split; [|split; try done].
  - unfold flush_immutable. rewrite (st_bind_Ret _ _ _ _ _ Ef). unfold flush_signal_metrics, flush_signal_spans.
    rewrite (st_bind_Ret _ _ _ _ _ (flush_signal_empty Metric _ m (w1, p1) Hm)).
    rewrite (st_bind_Ret _ _ _ _ _ (flush_signal_empty Span _ m (w1, p1) Hs)).
    rewrite (st_bind_Ret _ _ (w1, p1) (w1, p1) (w1, p1)) by done. cbv beta iota. by apply on_fs_Ret.
  - intros n Hn. destruct (Hread n Hn) as (out & Er & Hrows & Hfit). exists out. split_and!; [| |done].
    + apply (read_parquet_same _ _ w1); [done|done| |done]. apply Hc. rewrite Hpath. apply parquet_not_wal.
    + eapply Forall_impl; [exact Hfit|]. intros b [E1 E2]. cbn [batch_of rb_schema] in *. split; [done|]. unfold fits. by rewrite E1.
  - intros d q Hq. rewrite Hc by apply parquet_not_wal. rewrite Hpath in Hq. apply Ho; [done|apply parquet_name_differs|apply parquet_name_differs].
  - intros q Hq. rewrite Hc by (rewrite Hst; intros ->; by apply Hq). apply Ho; by intros ->.
  - destruct (read_zone_map _ _ _ Hh1 Hz) as (zb & Ef' & Hd). exists zb. split; [|done]. rewrite Hc; [done|]. rewrite Hzp. apply zonemap_not_wal.
  - intros d name Hn Hne. rewrite Hc by (by intros [= _ ->]). rewrite Hzp in Hne. apply Ho; [| |done].
    + intros [= _ ->]. by rewrite (other_extension _ "parquet") in Hn.
    + intros [= _ ->]. by rewrite (other_extension _ "bloom") in Hn.
Qed.

Lemma flush_step_logs w e req q m p :
  en_queue e = req :: q -> en_heap e !! fr_imm req = Some m -> en_partitions e !! fr_partition req = Some p ->
  drain_signal m (signal_u8 Log) <> [] -> drain_signal m (signal_u8 Metric) = [] -> drain_signal m (signal_u8 Span) = [] ->
  accepts_logs w p (decoded_logs m) -> healthy w ->
  exists w' p' meta, flush_step (w, e) = (Ret tt, (w', set_partitions (<[fr_partition req := p']>) (set_queue (fun _ => q) e))) /\
    flushed_logs m w p w' p' meta.
Proof.
  intros Eq Em Ep Hl Hm Hs Ha Hh. destruct (flush_immutable_logs m w p Hl Hm Hs Ha Hh) as (w' & p' & meta & Ef & H).
  exists w', p', meta. split; [|done].
  unfold flush_step. rewrite (st_bind_Ret _ _ (w, e) e (w, e)) by done. rewrite Eq.
  rewrite (st_bind_Ret _ _ (w, e) tt (w, set_queue (fun _ => q) e)) by done. rewrite Em.
  unfold st_try, on_partition, mbind, st_bind. cbn [set_queue en_partitions]. by rewrite Ep, Ef.
Qed.

(** The files of the logs of some partitions. *)
Definition log_tables (p : Partition) : list path := map meta_parquet_path (sp_sstables (p_logs p)).

Definition log_paths (ps : gmap Z Partition) : list path := concat (map (fun kp => log_tables kp.2) (map_to_list ps)).

Lemma paths_of_logs e : sstable_paths_for_signal e 0 [] = log_paths (en_partitions e).
Proof.
  unfold sstable_paths_for_signal, log_paths. cbn. rewrite map_map. f_equal. apply map_ext_in. intros [k pt] Hin.
  apply base.list_elem_of_In, elem_of_map_to_list in Hin. cbn. by rewrite Hin.
Qed.

Lemma log_paths_insert key p ps : log_paths (<[key := p]> ps) ≡ₚ log_tables p ++ log_paths (delete key ps).
Proof. unfold log_paths. rewrite <- insert_delete_eq, map_to_list_insert by apply lookup_delete_eq. cbn [map concat snd]. reflexivity. Qed.

Lemma log_paths_lookup key p ps : ps !! key = Some p -> log_paths ps ≡ₚ log_tables p ++ log_paths (delete key ps).
Proof. intros Hp. rewrite <- log_paths_insert. by rewrite insert_id. Qed.

(** The paths of the logs after a table was added. *)
Lemma paths_added e key p p' meta :
  en_partitions e !! key = Some p -> p_logs p' = add_sstable meta (snd (next_seq (p_logs p))) ->
  log_paths (<[key := p']> (en_partitions e)) ≡ₚ log_paths (en_partitions e) ++ [meta_parquet_path meta].
Proof.
  intros Ep Hs. rewrite log_paths_insert, (log_paths_lookup key p _ Ep). unfold log_tables at 1. rewrite Hs. cbn.
  rewrite map_app. rewrite <- !app_assoc. apply Permutation_app_head, Permutation_app_comm.
Qed.
End FlushStep.

Definition all_logs : SelectStatement :=
  {| sel_projections := [PStar]; sel_from := {| tr_name := "logs"; tr_alias := None |}; sel_joins := []; sel_filter := None;
     sel_group_by := []; sel_having := None; sel_order_by := []; sel_limit := None; sel_offset := None |}.

Lemma paths_are_parquet e sig parts q : In q (sstable_paths_for_signal e sig parts) -> exists d n, q = parquet_path d n.
Proof.
  unfold sstable_paths_for_signal. destruct (signal_try_from sig); [|done|done]. rewrite in_concat. intros (l & Hl & Hq).
  apply in_map_iff in Hl as (k & <- & _). destruct (en_partitions e !! k); [|done]. apply in_map_iff in Hq as (m & <- & _). by eexists _, _.
Qed.

Lemma batches_rows_perm fs fs' : fs ≡ₚ fs' -> batches_rows (concat fs) ≡ₚ batches_rows (concat fs').
Proof.
  intros Hp. unfold batches_rows. rewrite <- !flat_map_concat_map. apply Permutation_flat_map.
  induction Hp as [|f l l' _ IH|f g l|l1 l2 l3 _ IH1 _ IH2]; cbn [concat]; [done|by rewrite IH| |by rewrite IH1].
  rewrite !app_assoc. apply Permutation_app_tail, Permutation_app_comm.
Qed.

(** The text SELECT * FROM logs gives the rows of the files of the logs. *)
Lemma query_all_logs {libs : EngineLibs} {kernels : Kernels} {slices : SliceKernel} {sorts : SortKernels} {laws : SortLaws sorts} now c e w files :
  reads w (Z.to_nat 8192) (sstable_paths_for_signal e 0 []) files -> Forall (has_schema log_schema) (concat files) ->
  exists outs, execute now "SELECT * FROM logs" e c w = (Ret outs, w) /\ batches_rows outs = batches_rows (concat files).
Proof.
  intros Hr Hs. destruct (select_result now c all_logs "SELECT * FROM logs" e w log_schema (map batch_rows (concat files))) as (outs & ordered & Hx & Ho & Hw).
  - vm_compute. reflexivity.
  - done.
  - split_and!; [|done|done|done]. exists 0, files. split_and!; [done|done|done|constructor].
  - exists outs. split; [done|]. cbn in Ho. subst ordered. by rewrite Hw.
Qed.

(** The arrivals [ws] are the encodings of the log records [rs], at least one,
    each of which decodes to itself, and of nothing else. *)
Record logs_only {libs : EngineLibs} (ws : list arrival) (enc : LogRecord -> list Z) (rs : list LogRecord) : Prop := {
  lo_bound : zlen ws < two64;
  lo_logs : arrivals_of (signal_u8 Log) ws = map (fun r => (lr_timestamp_ns r, enc r)) rs;
  lo_metrics : arrivals_of (signal_u8 Metric) ws = [];
  lo_spans : arrivals_of (signal_u8 Span) ws = [];
  lo_decode : forall r, In r rs -> deserialize (enc r) = Some r;
  lo_some : rs <> []
}.

(** What is flushed is found by a query.  Where the head of the flush
    queue is a table filled with the encodings of log records that decode to
    themselves, the disk takes the new files under a name not yet used and
    the files of the logs read as batches of their schema, one turn of the
    flush worker succeeds, and then the text SELECT * FROM logs gives the
    rows there were and the rows of the flushed records, each once. *)
Theorem flushed_logs_queried {libs : EngineLibs} {kernels : Kernels} {slices : SliceKernel} {sorts : SortKernels} {laws : SortLaws sorts}
    now c n ws (enc : LogRecord -> list Z) rs w e req q p old :
  en_queue e = req :: q -> en_heap e !! fr_imm req = Some (insert_all (MemTable.new n) ws) ->
  en_partitions e !! fr_partition req = Some p -> healthy w ->
  logs_only ws enc rs -> accepts_logs w p (sort_by_key lr_timestamp_ns rs) ->
  reads w (Z.to_nat 8192) (sstable_paths_for_signal e 0 []) old -> Forall (has_schema log_schema) (concat old) ->
  ~ In (parquet_path (sp_dir (p_logs p)) (sp_next_seq (p_logs p))) (sstable_paths_for_signal e 0 []) ->
  exists w' e' outs, flush_step (w, e) = (Ret tt, (w', e')) /\
    execute now "SELECT * FROM logs" e' c w' = (Ret outs, w') /\
    batches_rows outs ≡ₚ batches_rows (concat old) ++ batch_rows (batch_of log_schema (log_columns (sort_by_key lr_timestamp_ns rs))).
Proof.
  intros Eq Em Ep Hh [Hb Ha Hma Hsa Hd Hne] Hacc Hr Hs Hnew. destruct (decoded_of_arrivals n ws enc rs Hb Ha Hd) as [E Hnn].
  assert (forall sig, arrivals_of sig ws = [] -> drain_signal (insert_all (MemTable.new n) ws) sig = []) as Hempty.
  { intros sig Hsig. destruct (insert_all_spec n ws Hb) as (_ & _ & Hi). specialize (Hi sig). rewrite Hsig in Hi. by eapply map_eq_nil. }
  rewrite <- E in Hacc |- *.
  destruct (flush_step_logs w e req q _ p Eq Em Ep (Hnn Hne) (Hempty _ Hma) (Hempty _ Hsa) Hacc Hh) as (w' & p' & meta & Ef & Hfl).
  pose proof (flushed_path _ _ _ _ _ _ Hfl) as Hpath. destruct Hfl as [Hh' Hst _ _ Hread Hkeep _ _ _].
  destruct (Hread (Z.to_nat 8192) ltac:(lia)) as (out & Hout & Hsch & Hrows).
  set (e' := set_partitions _ _) in Ef.
  assert (sstable_paths_for_signal e' 0 [] ≡ₚ sstable_paths_for_signal e 0 [] ++ [meta_parquet_path meta]) as Hperm.
  { rewrite !paths_of_logs. by apply (paths_added e _ p). }
  assert (reads w' (Z.to_nat 8192) (sstable_paths_for_signal e 0 [] ++ [meta_parquet_path meta]) (old ++ [out])) as Hr'.
  { apply Forall2_app; [|by constructor]. apply (reads_same _ w); [done|done| |done]. intros x Hx.
    destruct (paths_are_parquet e 0 [] x Hx) as (d & k & ->). apply Hkeep. rewrite Hpath. intros Ex. apply Hnew. by rewrite <- Ex. }
  destruct (reads_perm _ w' _ (sstable_paths_for_signal e' 0 []) _ (symmetry Hperm) Hr') as (files & Hf & Hfp).
  destruct (query_all_logs now c e' w' files Hf) as (outs & Hx & Hw).
  - apply List.Forall_forall. intros b Hb'. apply in_concat in Hb' as (f & Hf1 & Hf2). apply (Permutation_in f (symmetry Hfp)) in Hf1.
    apply in_app_iff in Hf1 as [Hf1|[<-|[]]]; [|by eapply List.Forall_forall in Hsch].
    rewrite List.Forall_forall in Hs. apply Hs, in_concat. eauto.
  - exists w', e', outs. split_and!; [done|done|]. rewrite Hw.
    rewrite <- (batches_rows_perm _ _ Hfp), concat_app. cbn [concat]. rewrite app_nil_r. unfold batches_rows in *. rewrite map_app, concat_app.
    by rewrite Hrows.
Qed.

(** ** Two records, flushed and queried *)

Definition encode_log (r : LogRecord) : list Z := codec_encode (log_encode r).

Definition flush_arrivals : list arrival := [(7, 0, encode_log (log_at 7)); (3, 0, encode_log (log_at 3))].

Definition flush_engine : Engine :=
  set_queue (fun _ => [{| fr_imm := 0; fr_partition := 0 |}])
    (set_heap (fun _ => [insert_all (MemTable.new 64) flush_arrivals]) (set_partitions (fun _ => {[ 0 := test_partition ]}) (opened 64))).

Lemma flushed_logs_queried_witness :
  exists w' e' outs, @flush_step engine_reference (log_disk [log_at 3; log_at 7], flush_engine) = (Ret tt, (w', e')) /\
    @execute engine_reference kernels_reference slices_reference sorts_reference clock_ticks "SELECT * FROM logs" e' catalog_new w' = (Ret outs, w') /\
    batches_rows outs ≡ₚ [log_row 3; log_row 7].
Proof.
  apply (@flushed_logs_queried engine_reference kernels_reference slices_reference sorts_reference sort_laws_reference clock_ticks catalog_new
    64 flush_arrivals encode_log [log_at 7; log_at 3] (log_disk [log_at 3; log_at 7]) flush_engine
    {| fr_imm := 0; fr_partition := 0 |} [] test_partition []).
  - reflexivity.
  - reflexivity.
  - reflexivity.
  - reflexivity.
  - split; try reflexivity; [|discriminate]. intros r [<-|[<-|[]]]; apply log_at_roundtrips.
  - apply log_disk_accepts. vm_compute. reflexivity.
  - apply List.Forall2_nil.
  - apply List.Forall_nil.
  - intros [].
Defined.
