(* ===== verification/Store.v ===== *)
(** * The log store as a bag

    What the storage engine ([Engine]) promises its clients, for batches of
    logs: an abstract store that holds a bag of accepted records and a bag of
    stored ones, moves records from the first to the second and answers
    queries from the second; and the refinement of it by the engine with its
    MemTables, flush queue, logs, partitions, files and compactions. *)

From Stdlib Require Import ZArith Lia Permutation.
From stdpp Require Import base tactics list numbers option strings gmap sorting.
From S2P Require Import Prelude Text BTree Float64 Codec Model Wal MemTable Fs Hash ZoneMap Bloom Arrow SSTable Partition Compaction Engine EngineSafety Durability Ast Lexer Parser Plan Eval Executor Sort Query FlushQuery.

Local Open Scope string_scope.
Local Open Scope list_scope.
Local Open Scope Z_scope.

(** ** The abstract store *)

(** What a client does, or the workers do on their own. *)
Inductive label : Type :=
| LAccept (rs : list LogRecord)
| LSeal
| LFlush
| LCompact.

(** Records held in memory, and records a query finds. *)
Inductive bag_step : label -> list LogRecord * list LogRecord -> list LogRecord * list LogRecord -> Prop :=
| bag_accept rs held held' stored : held' ≡ₚ rs ++ held -> bag_step (LAccept rs) (held, stored) (held', stored)
| bag_seal held held' stored : held' ≡ₚ held -> bag_step LSeal (held, stored) (held', stored)
| bag_flush rs held held' stored stored' : held ≡ₚ rs ++ held' -> stored' ≡ₚ stored ++ rs -> bag_step LFlush (held, stored) (held', stored')
| bag_compact held stored : bag_step LCompact (held, stored) (held, stored).

Inductive bag_run : list LogRecord * list LogRecord -> list label -> list LogRecord * list LogRecord -> Prop :=
| bag_nil s : bag_run s [] s
| bag_snoc s ls s1 l s2 : bag_run s ls s1 -> bag_step l s1 s2 -> bag_run s (ls ++ [l]) s2.

(** The records a client was told are accepted. *)
Definition accepted (ls : list label) : list LogRecord :=
  concat (map (fun l => match l with LAccept rs => rs | _ => [] end) ls).

Lemma accepted_labels_app ls ls' : accepted (ls ++ ls') = accepted ls ++ accepted ls'.
Proof. unfold accepted. by rewrite map_app, concat_app. Qed.

(** No record is lost, made up or duplicated. *)
Lemma bag_run_conserves ls s s' : bag_run s ls s' -> s'.1 ++ s'.2 ≡ₚ accepted ls ++ s.1 ++ s.2.
Proof.
  induction 1 as [s|s ls s1 l s2 _ IH Hs]; [done|]. rewrite accepted_labels_app, <- app_assoc.
  transitivity (accepted [l] ++ s1.1 ++ s1.2).
  - destruct Hs as [rs h h' st E|h h' st E|rs h h' st st' E1 E2|h st]; cbn [fst snd]; unfold accepted; cbn [map concat]; rewrite ?app_nil_r; cbn [app].
    + by rewrite E, app_assoc.
    + by rewrite E.
    + rewrite E1, E2, (Permutation_app_comm rs h'), <- app_assoc. apply Permutation_app_head, Permutation_app_comm.
    + done.
  - rewrite IH, !app_assoc. apply Permutation_app_tail, Permutation_app_tail, Permutation_app_comm.
Qed.

(** ** The rows of log records *)

Section Rows.
Context {libs : EngineLibs}.

(** The row of one record in a table of logs. *)
Definition log_cells (r : LogRecord) : list Cell := row_at (log_columns [r]) 0.

Lemma log_rows rs : batch_rows (batch_of log_schema (log_columns rs)) = map log_cells rs.
Proof.
  unfold batch_rows. cbn [batch_of rb_columns num_rows log_columns array_len]. rewrite length_map.
  apply list_eq. intros i. change (@fmap list list_fmap) with @map. rewrite !list_lookup_fmap.
  destruct (decide (i < length rs)%nat) as [Hi|Hi].
  - rewrite lookup_seq_lt by done. destruct (lookup_lt_is_Some_2 rs i Hi) as [r Hr]. rewrite Hr. cbn [fmap option_fmap option_map]. f_equal.
    unfold log_cells, row_at, log_columns. cbn [map array_cells nth]. rewrite !map_map.
    assert (forall (f : LogRecord -> Cell), nth i (map f rs) CNull = f r) as Hn.
    { intros f. apply nth_lookup_Some. by rewrite list_lookup_fmap, Hr. }
    by rewrite !Hn.
  - rewrite lookup_seq_ge by lia. by rewrite (lookup_ge_None_2 rs) by lia.
Qed.
End Rows.

(** ** The records in memory *)

Section Held.
Context {libs : EngineLibs}.

(** The records of the table at a location. *)
Definition logs_at (h : list MemTable) (l : nat) : list LogRecord :=
  match h !! l with Some m => decoded_logs m | None => [] end.

(** The tables that are active or queued. *)
Definition locations (e : Engine) : list nat := map snd (map_to_list (en_memtables e)) ++ map fr_imm (en_queue e).

Definition held (e : Engine) : list LogRecord := concat (map (logs_at (en_heap e)) (locations e)).

Lemma in_locations e l : In l (locations e) <-> (exists k, en_memtables e !! k = Some l) \/ (exists q, In q (en_queue e) /\ fr_imm q = l).
Proof.
  unfold locations. rewrite in_app_iff, !in_map_iff. split; (intros [H|H]; [left|right]).
  - destruct H as ([k l'] & <- & Hin). apply base.list_elem_of_In, elem_of_map_to_list in Hin. eauto.
  - naive_solver.
  - destruct H as (k & Hk). exists (k, l). split; [done|]. by apply base.list_elem_of_In, elem_of_map_to_list.
  - naive_solver.
Qed.

(** A change of the heap that spares the tables in use. *)
Lemma held_heap f e : (forall l, In l (locations e) -> logs_at (f (en_heap e)) l = logs_at (en_heap e) l) -> held (set_heap f e) = held e.
Proof. intros H. unfold held. f_equal. by apply map_ext_in. Qed.

Lemma held_alloc b m e : en_inv b e -> held (set_heap (fun h => h ++ [m]) e) = held e.
Proof.
  intros Hi. apply held_heap. intros l Hl. unfold logs_at. assert (is_Some (en_heap e !! l)) as [m' Hm].
  { apply in_locations in Hl as [(k & Hk)|(q & Hq & <-)]; [destruct (ei_active _ _ Hi _ _ Hk) as (m' & E & _)|destruct (ei_queued _ _ Hi _ Hq) as (m' & E & _)]; eauto. }
  by rewrite lookup_app, Hm.
Qed.

Lemma held_insert key l e : held (set_memtables (<[key := l]>) e) ≡ₚ logs_at (en_heap e) l ++ held (set_memtables (delete key) e).
Proof.
  unfold held, locations. cbn [set_memtables en_memtables en_heap en_queue]. rewrite <- insert_delete_eq, map_to_list_insert by apply lookup_delete_eq.
  done.
Qed.

Lemma held_lookup key l e : en_memtables e !! key = Some l -> held e ≡ₚ logs_at (en_heap e) l ++ held (set_memtables (delete key) e).
Proof.
  intros Hk. rewrite <- held_insert. unfold held, locations. cbn [set_memtables en_memtables en_heap en_queue]. by rewrite insert_id.
Qed.

Lemma held_absent key e : en_memtables e !! key = None -> held (set_memtables (delete key) e) = held e.
Proof. intros Hk. unfold held, locations. cbn [set_memtables en_memtables en_heap en_queue]. by rewrite delete_id. Qed.

Lemma held_enqueue req e : held (set_queue (fun q => q ++ [req]) e) ≡ₚ logs_at (en_heap e) (fr_imm req) ++ held e.
Proof.
  unfold held, locations. cbn [set_queue en_memtables en_heap en_queue]. rewrite !map_app, !concat_app. cbn [map concat].
  rewrite app_nil_r, app_assoc. apply Permutation_app_comm.
Qed.

Lemma held_dequeue req q e : en_queue e = req :: q -> held e ≡ₚ logs_at (en_heap e) (fr_imm req) ++ held (set_queue (fun _ => q) e).
Proof.
  intros Eq. unfold held, locations. cbn [set_queue en_memtables en_heap en_queue]. rewrite Eq, !map_app, !concat_app. cbn [map concat].
  by rewrite Permutation_app_swap_app.
Qed.

Lemma held_update b key l m m' rs e : en_inv b e -> en_memtables e !! key = Some l -> en_heap e !! l = Some m ->
  decoded_logs m' ≡ₚ rs ++ decoded_logs m -> held (set_heap (<[l := m']>) e) ≡ₚ rs ++ held e.
Proof.
  intros Hi Hk Hl Hd. rewrite (held_lookup key l e Hk), (held_lookup key l (set_heap _ e) Hk).
  assert (l < length (en_heap e))%nat as Hlt by (by eapply lookup_lt_Some).
  unfold logs_at at 1 2. cbn [set_heap en_heap]. rewrite list_lookup_insert_eq, Hl, Hd, <- app_assoc by done.
  apply Permutation_app_head, Permutation_app_head. change (set_memtables (delete key) (set_heap (<[l := m']>) e)) with (set_heap (<[l := m']>) (set_memtables (delete key) e)).
  rewrite held_heap; [done|]. intros l' Hl'. unfold logs_at. cbn [set_memtables en_heap]. rewrite list_lookup_insert_ne; [done|]. intros <-.
  apply in_locations in Hl' as [(k & Hk')|(q & Hq & Eq)].
  - cbn [set_memtables en_memtables] in Hk'. apply lookup_delete_Some in Hk' as [Hne Hk']. by apply Hne, (ei_inj _ _ Hi key k l).
  - by apply (ei_sep _ _ Hi key l q).
Qed.

(** ** Tables of logs *)

(** A table of log rows that has issued at most [n] sequence numbers. *)
Definition log_table (n : Z) (m : MemTable) : Prop :=
  mt_inv m /\ 0 <= mt_sequence m <= n /\ Forall (fun kv => rk_signal_type (fst kv) = signal_u8 Log) (mt_inner m).

Lemma log_table_new n k : 0 <= n -> log_table n (MemTable.new k).
Proof. intros Hn. split_and!; [apply mt_inv_new|done|done|constructor]. Qed.

Lemma log_table_mono n n' m : log_table n m -> n <= n' -> log_table n' m.
Proof. intros (H1 & H2 & H3) Hn. split_and!; [done|lia|lia|done]. Qed.

Lemma insert_fresh m ts sig d : mt_inv m ->
  mt_inner (MemTable.insert m ts sig d) ≡ₚ ({| rk_timestamp_ns := ts; rk_signal_type := sig; rk_sequence := mt_sequence m |}, d) :: mt_inner m.
Proof.
  intros [Hwf Hseq]. cbn [MemTable.insert mt_inner]. apply bt_insert_fresh; [done|].
  destruct (bt_get _ (mt_inner m)) eqn:E; [|done]. apply bt_get_in in E; [|done].
  rewrite List.Forall_forall in Hseq. specialize (Hseq _ E). simpl in Hseq. lia.
Qed.

Lemma log_table_insert n m ts d : log_table n m -> n + 1 < two64 ->
  log_table (n + 1) (MemTable.insert m ts (signal_u8 Log) d).
Proof.
  intros (Hi & Hs & Hf) Hn. split_and!.
  - apply insert_inv; [done|lia|lia].
  - cbn. apply wrap_u64_range.
  - cbn. rewrite wrap_u64_small by int_lia. lia.
  - rewrite insert_fresh by done. by constructor.
Qed.

(** All rows of a table of logs are decoded. *)
Lemma log_table_drain n m : log_table n m -> drain_signal m (signal_u8 Log) = mt_inner m /\
  drain_signal m (signal_u8 Metric) = [] /\ drain_signal m (signal_u8 Span) = [].
Proof.
  intros (_ & _ & Hf). unfold drain_signal. induction Hf as [|[k d] l Hk _ IH]; [done|]. cbn [List.filter fst] in *. rewrite Hk.
  change (signal_u8 Log =? signal_u8 Log) with true. change (signal_u8 Log =? signal_u8 Metric) with false. change (signal_u8 Log =? signal_u8 Span) with false.
  destruct IH as (-> & -> & ->). done.
Qed.

Lemma decoded_insert n m ts d r : log_table n m -> n + 1 < two64 -> deserialize d = Some r ->
  decoded_logs (MemTable.insert m ts (signal_u8 Log) d) ≡ₚ r :: decoded_logs m.
Proof.
  intros Ht Hn Hd. unfold decoded_logs. rewrite (proj1 (log_table_drain _ _ (log_table_insert n m ts d Ht Hn))), (proj1 (log_table_drain _ _ Ht)).
  rewrite (filter_map_perm _ _ _ (insert_fresh m ts _ d (proj1 Ht))). cbn [filter_map snd]. by rewrite Hd.
Qed.
End Held.

(** ** The invariant of the memory *)

Section Memory.
Context {libs : EngineLibs} (b : Z).

(** The engine holds the records [rs], all in tables of logs that have
    issued at most [n] numbers, the queued ones not empty. *)
Record mem_inv (n : Z) (rs : list LogRecord) (e : Engine) : Prop := {
  mi_inv : en_inv b e;
  mi_nonneg : 0 <= n;
  mi_tables : forall l m, en_heap e !! l = Some m -> log_table n m;
  mi_queued : forall q m, In q (en_queue e) -> en_heap e !! fr_imm q = Some m -> mt_inner m <> [];
  mi_held : held e ≡ₚ rs
}.

(** The same with a table taken out of the active ones and not yet queued. *)
Record mem_out (n : Z) (rs : list LogRecord) (key : Z) (l : nat) (e : Engine) : Prop := {
  mo_detached : detached b key l e;
  mo_nonneg : 0 <= n;
  mo_tables : forall l m, en_heap e !! l = Some m -> log_table n m;
  mo_queued : forall q m, In q (en_queue e) -> en_heap e !! fr_imm q = Some m -> mt_inner m <> [];
  mo_filled : forall m, en_heap e !! l = Some m -> mt_inner m <> [];
  mo_held : logs_at (en_heap e) l ++ held e ≡ₚ rs
}.

Lemma mem_inv_perm n rs rs' e : mem_inv n rs e -> rs ≡ₚ rs' -> mem_inv n rs' e.
Proof. intros [] Hp. split; try done. by rewrite <- Hp. Qed.

Lemma mem_inv_mono n n' rs e : mem_inv n rs e -> n <= n' -> mem_inv n' rs e.
Proof. intros [] Hn. split; try done; [lia|]. intros l m Hl. by eapply log_table_mono; [eauto|]. Qed.

Lemma mem_inv_partition n rs key p e : mem_inv n rs e -> mem_inv n rs (set_partitions (<[key := p]>) e).
Proof. intros []. split; try done. by apply en_inv_partition. Qed.

Lemma mem_inv_wals n rs f e : mem_inv n rs e -> mem_inv n rs (set_wals f e).
Proof. intros []. split; try done. by apply en_inv_wals. Qed.

Lemma mem_inv_closed n rs c e : mem_inv n rs e -> mem_inv n rs (set_closed c e).
Proof. intros []. split; try done. by apply en_inv_closed. Qed.

Lemma mem_out_partition n rs key l k p e : k = key -> mem_out n rs key l e -> mem_out n rs key l (set_partitions (<[k := p]>) e).
Proof. intros -> []. split; try done. by apply detached_partition. Qed.

(** The heap grows by an empty table. *)
Lemma tables_alloc n k e : 0 <= n -> (forall l m, en_heap e !! l = Some m -> log_table n m) ->
  forall l m, (en_heap e ++ [MemTable.new k]) !! l = Some m -> log_table n m.
Proof.
  intros Hn H l m Hl. apply lookup_app_Some in Hl as [Hl|[_ Hl]]; [by eapply H|]. apply list_lookup_singleton_Some in Hl as [_ <-]. by apply log_table_new.
Qed.

Lemma queued_alloc k e : en_inv b e -> (forall q m, In q (en_queue e) -> en_heap e !! fr_imm q = Some m -> mt_inner m <> []) ->
  forall q m, In q (en_queue e) -> (en_heap e ++ [MemTable.new k]) !! fr_imm q = Some m -> mt_inner m <> [].
Proof.
  intros Hi H q m Hq Hl. destruct (ei_queued _ _ Hi _ Hq) as (m' & E & _). rewrite (lookup_app_l_Some _ _ _ _ E) in Hl. simplify_eq. by eapply H.
Qed.

Lemma logs_at_alloc h k : logs_at (h ++ [MemTable.new k]) (length h) = [].
Proof. unfold logs_at. by rewrite list_lookup_middle. Qed.

Lemma get_memtable_mem n rs key :
  hoare (mem_inv n rs) (get_or_create_memtable key) (fun l e => mem_inv n rs e /\ en_memtables e !! key = Some l) (fun _ => True).
Proof.
  intros w e r w' e' H E. pose proof (get_memtable_inv b key w e r w' e' (mi_inv _ _ _ H) E) as Ha.
  unfold get_or_create_memtable, mbind, st_bind, get_engine, modify_engine, st_modify, mret, st_ret in E. simpl in E.
  destruct (en_memtables e !! key) as [l|] eqn:Ek; simplify_eq/=; [by destruct Ha|]. destruct Ha as [Ha Hl]. split; [|done].
  set (k := memtable_size_bytes (en_config e)) in *. pose proof (mi_inv _ _ _ H) as Hi. split; [done|apply H| | |].
  - exact (tables_alloc n k e (mi_nonneg _ _ _ H) (mi_tables _ _ _ H)).
  - exact (queued_alloc k e Hi (mi_queued _ _ _ H)).
  - rewrite held_insert. cbn [set_heap en_heap]. rewrite logs_at_alloc. cbn [app].
    rewrite held_absent by done. rewrite (held_alloc b) by done. apply H.
Qed.

Lemma update_table_mem n rs key l r d :
  n + 1 < two64 -> deserialize d = Some r -> for_timestamp (lr_timestamp_ns r) b = Ret key ->
  hoare (fun e => mem_inv n rs e /\ en_memtables e !! key = Some l)
    (update_table l (fun m => Ret (MemTable.insert m (lr_timestamp_ns r) (signal_u8 Log) d)))
    (fun _ e => mem_inv (n + 1) (r :: rs) e /\ en_memtables e !! key = Some l /\ forall m, en_heap e !! l = Some m -> mt_inner m <> [])
    (fun _ => True).
Proof.
  intros Hn Hd Hkey w e x w' e' [H Hk] E. pose proof (mi_inv _ _ _ H) as Hi. destruct (ei_active _ _ Hi _ _ Hk) as (m & Hl & Hok).
  unfold update_table in E. rewrite Hl in E. injection E as <- <- <-. assert (l < length (en_heap e))%nat as Hlt by (by eapply lookup_lt_Some).
  pose proof (mi_tables _ _ _ H _ _ Hl) as Ht. split_and!; [|done|].
  - split.
    + apply (en_inv_update b key l m); [done|done|done|]. intros _. by apply table_ok_insert.
    + pose proof (mi_nonneg _ _ _ H). lia.
    + intros l' m' Hl'. cbn [set_heap en_heap] in Hl'. destruct (decide (l = l')) as [->|Hne].
      * rewrite list_lookup_insert_eq in Hl' by done. simplify_eq. by apply log_table_insert.
      * rewrite list_lookup_insert_ne in Hl' by done. eapply log_table_mono; [by eapply H|lia].
    + intros q m' Hq Hl'. cbn [set_heap en_heap en_queue] in *. rewrite list_lookup_insert_ne in Hl'; [by eapply H|].
      intros E. by apply (ei_sep _ _ Hi key l q).
    + rewrite (held_update b key l m _ [r]); [|done|done|done|by eapply decoded_insert]. cbn [app]. by rewrite (mi_held _ _ _ H).
  - intros m' Hm'. cbn [set_heap en_heap] in Hm'. rewrite list_lookup_insert_eq in Hm' by done. apply (inj Some) in Hm' as <-.
    intros Em. pose proof (insert_fresh m (lr_timestamp_ns r) (signal_u8 Log) d (proj1 Ht)) as Hp. cbn [signal_u8] in Em, Hp. rewrite Em in Hp. by apply Permutation_nil_cons in Hp.
Qed.

(** Freezing takes the table out; the request is queued where there is room. *)
Lemma freeze_out n rs key l m k e : mem_inv n rs e -> en_memtables e !! key = Some l -> en_heap e !! l = Some m ->
  (forall m, en_heap e !! l = Some m -> mt_inner m <> []) ->
  mem_out n rs key l (set_memtables (<[key := length (en_heap e)]>) (set_heap (fun h => h ++ [MemTable.new k]) e)).
Proof.
  intros H Hk Hl Hne. pose proof (mi_inv _ _ _ H) as Hi. split.
  - by apply (freeze_detaches b key l m).
  - apply H.
  - exact (tables_alloc n k e (mi_nonneg _ _ _ H) (mi_tables _ _ _ H)).
  - exact (queued_alloc k e Hi (mi_queued _ _ _ H)).
  - intros m' Hm'. cbn [set_memtables set_heap en_heap] in Hm'. rewrite (lookup_app_l_Some _ _ _ _ Hl) in Hm'. simplify_eq. by apply Hne.
  - rewrite held_insert. cbn [set_memtables set_heap en_heap]. rewrite logs_at_alloc. cbn [app].
    change (set_memtables (delete key) (set_heap (fun h => h ++ [MemTable.new k]) e)) with (set_heap (fun h => h ++ [MemTable.new k]) (set_memtables (delete key) e)).
    rewrite (held_alloc b) by (by apply en_inv_deactivate). unfold logs_at. rewrite (lookup_app_l_Some _ _ _ _ Hl).
    rewrite <- (mi_held _ _ _ H), (held_lookup key l e Hk). unfold logs_at. by rewrite Hl.
Qed.

Lemma enqueue_out n rs key l e : mem_out n rs key l e -> (length (en_queue e) < FLUSH_QUEUE)%nat -> is_Some (en_partitions e !! key) ->
  mem_inv n rs (set_queue (fun q => q ++ [{| fr_imm := l; fr_partition := key |}]) e).
Proof.
  intros H Hlen Hp. destruct (mo_detached _ _ _ _ _ H) as (Hi & (m & Hl & Hm) & Hna & Hnq). split.
  - by apply (en_inv_enqueue b key l m).
  - apply H.
  - apply H.
  - intros q m' Hq Hm'. apply in_app_or in Hq as [Hq|[<-|[]]]; [by eapply H|]. by eapply (mo_filled _ _ _ _ _ H).
  - rewrite held_enqueue. apply H.
Qed.

Lemma try_send_mem n rs key l :
  hoare (fun e => mem_out n rs key l e /\ is_Some (en_partitions e !! key)) (try_send {| fr_imm := l; fr_partition := key |})
    (fun _ e => (length (en_queue e) < FLUSH_QUEUE)%nat -> mem_inv n rs e) (fun _ => True).
Proof.
  unfold try_send. apply hoare_modify. intros e [H Hp]. cbn [set_queue en_queue].
  destruct (Nat.ltb_spec (length (en_queue e)) FLUSH_QUEUE) as [Hlt|Hge]; [|lia]. intros _. pose proof (enqueue_out n rs key l e H Hlt Hp) as Hi.
  unfold set_queue in *. apply Nat.ltb_lt in Hlt. by rewrite Hlt.
Qed.

Lemma maybe_freeze_mem n rs key l :
  hoare (fun e => mem_inv n rs e /\ en_memtables e !! key = Some l /\ forall m, en_heap e !! l = Some m -> mt_inner m <> [])
    (maybe_freeze key l) (fun _ e => (length (en_queue e) < FLUSH_QUEUE)%nat -> mem_inv n rs e) (fun _ => True).
Proof.
  intros w e r w' e' (H & Hk & Hne). revert w r w' e'. unfold maybe_freeze. set (P := fun e1 => e1 = e).
  assert (hoare P (maybe_freeze key l) (fun _ e => (length (en_queue e) < FLUSH_QUEUE)%nat -> mem_inv n rs e) (fun _ => True)) as Hh; [|intros; by eapply Hh].
  unfold maybe_freeze. eapply hoare_bind; [apply (hoare_get P (fun e0 e1 => e0 = e /\ e1 = e)); by intros ? ->|]. intros e0. cbv beta.
  destruct (ei_active _ _ (mi_inv _ _ _ H) _ _ Hk) as (m & Hl & _).
  destruct (en_heap e0 !! l) as [m0|] eqn:El; [|by apply hoare_lift]. destruct (is_full m0); cbn [negb]; [|apply hoare_ret; by intros ? [_ ->] _].
  set (k := memtable_size_bytes (en_config e0)).
  eapply hoare_bind; [apply (hoare_modify _ _ (fun _ e1 => e0 = e /\ e1 = set_heap (fun h => h ++ [MemTable.new k]) e)); by intros ? [-> ->]|].
  intros ?. eapply hoare_bind.
  { apply (hoare_modify _ _ (fun _ => mem_out n rs key l)). intros ? [-> ->]. by apply (freeze_out n rs key l m). }
  intros ?. eapply hoare_bind.
  { apply (hoare_weaken_exn _ _ _ (mem_out n rs key l)); [|done]. apply get_partition_inv. intros. by apply mem_out_partition. }
  intros p. eapply hoare_conseq; [apply try_send_mem| |auto]. intros e1 [Ho Hp]. split; [done|]. by eexists.
Qed.

(** Writing one record, where the queue did not fill up. *)
Lemma write_record_mem n rs r t :
  n + 1 < two64 -> (forall d, serialize r = Some d -> deserialize d = Some r) ->
  hoare (mem_inv n rs) (write_record (lr_timestamp_ns r) t (serialize r) (fun m => MemTable.write_log m r))
    (fun _ e => (length (en_queue e) < FLUSH_QUEUE)%nat -> mem_inv (n + 1) (r :: rs) e) (fun _ => True).
Proof.
  intros Hn Hd. unfold write_record. eapply hoare_bind; [apply (hoare_get _ (fun e0 e => mem_inv n rs e /\ e0 = e)); auto|]. intros e0.
  eapply hoare_bind; [apply (hoare_lift _ _ (fun key e => mem_inv n rs e /\ for_timestamp (lr_timestamp_ns r) b = Ret key)); [done|]|].
  { intros key e Hk [H ->]. by rewrite (ei_bucket _ _ (mi_inv _ _ _ H)) in Hk. }
  intros key. apply hoare_pure. intros Hk.
  eapply hoare_bind; [apply get_memtable_mem|]. intros l. set (A := fun e => mem_inv n rs e /\ en_memtables e !! key = Some l).
  destruct (serialize r) as [d|] eqn:Es; [|by eapply hoare_bind; [apply (hoare_lift _ A (fun _ _ => False)); [done|done]|intros d w e x w' e' []]].
  eapply hoare_bind; [apply (hoare_lift _ A (fun d' e => A e /\ d' = d)); [done|by intros d' e [= ->] He]|]. intros d'.
  eapply hoare_bind; [apply (hoare_weaken_exn _ _ (fun _ e => A e /\ d' = d) (fun e => A e /\ d' = d)); [|done]; apply get_wal_inv|].
  { intros e p [[HA ?] ?]. split; [split; [by apply mem_inv_partition|done]|done]. }
  { intros e f [[HA ?] ?]. split; [split; [by apply mem_inv_wals|done]|done]. }
  intros ?. eapply hoare_bind; [apply (hoare_weaken_exn _ _ (fun _ e => A e /\ d' = d) (fun e => A e /\ d' = d)); [|done]; apply wal_append_inv|].
  { intros e f [[HA ?] ?]. split; [split; [by apply mem_inv_wals|done]|done]. }
  intros ?. eapply hoare_bind; [|intros ?; apply maybe_freeze_mem].
  intros w e x w' e' [HA _] Eu. apply (update_table_mem n rs key l r d Hn (Hd _ eq_refl) Hk w e x w' e' HA).
  unfold update_table, write_log in *. by rewrite Es in Eu.
Qed.

(** The queue does not shrink during a write. *)
Lemma write_record_queue k ts t enc put :
  let P := fun e : Engine => (k <= length (en_queue e))%nat in hoare P (write_record ts t enc put) (fun _ => P) (fun _ => True).
Proof.
  intros P. assert (forall e p key, P e -> P (set_partitions (<[key := p]>) e)) as HP by done. assert (forall e f, P e -> P (set_wals f e)) as HW by done.
  unfold write_record. eapply hoare_bind; [apply (hoare_get P (fun _ => P)); auto|]. intros e0.
  eapply hoare_bind; [apply (hoare_lift _ P (fun _ => P)); auto|]. intros key. eapply (hoare_bind _ _ (fun _ => P)).
  { unfold get_or_create_memtable. eapply hoare_bind; [apply (hoare_get P (fun _ => P)); auto|]. intros e1. destruct (en_memtables e1 !! key); [by apply hoare_ret|].
    eapply hoare_bind; [by apply (hoare_modify _ P (fun _ => P))|]. intros ?. eapply hoare_bind; [by apply (hoare_modify _ P (fun _ => P))|]. intros ?. by apply hoare_ret. }
  intros l. eapply hoare_bind; [apply (hoare_lift _ P (fun _ => P)); auto|]. intros d.
  eapply hoare_bind; [apply (hoare_weaken_exn _ _ (fun _ => P) P); [by apply get_wal_inv|done]|]. intros ?.
  eapply hoare_bind; [apply (hoare_weaken_exn _ _ (fun _ => P) P); [by apply wal_append_inv|done]|]. intros ?.
  eapply (hoare_bind _ _ (fun _ => P)).
  { intros w e r w' e' H E. unfold update_table in E. destruct (en_heap e !! l) as [m|]; [|by simplify_eq]. destruct (put m); by simplify_eq. }
  intros ?. unfold maybe_freeze. eapply hoare_bind; [apply (hoare_get P (fun _ => P)); auto|]. intros e1. destruct (en_heap e1 !! l) as [m|]; [|by apply hoare_lift].
  destruct (negb (is_full m)); [by apply hoare_ret|]. eapply hoare_bind; [by apply (hoare_modify _ P (fun _ => P))|]. intros ?.
  eapply hoare_bind; [by apply (hoare_modify _ P (fun _ => P))|]. intros ?.
  eapply hoare_bind; [apply (hoare_weaken_exn _ _ _ P); [by apply get_partition_inv|done]|]. intros p. unfold try_send. apply hoare_modify.
  intros e [H _]. unfold P in *. cbn [set_queue en_queue]. destruct (_ <? _)%nat; rewrite ?length_app; lia.
Qed.

(** A record that is stored as it is: its timestamp fits, and its encoding
    decodes to it. *)
Definition storable (r : LogRecord) : Prop := is_u64 (lr_timestamp_ns r) /\ forall d, serialize r = Some d -> deserialize d = Some r.

Lemma write_logs_mem rs n hs w e w' e' :
  Forall storable rs -> n + zlen rs < two64 -> mem_inv n hs e -> engine_write_logs rs (w, e) = (Ret tt, (w', e')) ->
  (length (en_queue e') < FLUSH_QUEUE)%nat -> mem_inv (n + zlen rs) (rs ++ hs) e'.
Proof.
  intros Hs. revert n hs w e. induction Hs as [|r rs [_ Hr] _ IH]; intros n hs w e Hn H E Hq.
  - injection E as <- <-. by rewrite Z.add_0_r.
  - unfold engine_write_logs in *. cbn [st_iter] in E. apply st_bind_inv in E as ([] & [w1 e1] & E1 & E). rewrite zlen_cons in *. pose proof (zlen_nonneg rs).
    assert (length (en_queue e1) <= length (en_queue e'))%nat as Hmono.
    { refine (hoare_iter _ rs (fun e => (length (en_queue e1) <= length (en_queue e))%nat) (fun _ => True) _ w1 e1 _ w' e' _ E); [|done].
      intros r'. apply write_record_queue. }
    pose proof (write_record_mem n hs r ENTRY_LOG ltac:(lia) Hr w e (Ret tt) w1 e1 H E1 ltac:(lia)) as H1.
    apply (IH (n + 1) (r :: hs)) in E; [|lia|done|done]. replace (n + (1 + zlen rs)) with (n + 1 + zlen rs) by lia.
    eapply mem_inv_perm; [exact E|]. cbn [app]. symmetry. apply Permutation_middle.
Qed.

(** A table handed to the worker by [flush_all]. *)
Lemma send_mem n rs key l :
  hoare (fun e => mem_out n rs key l e /\ is_Some (en_partitions e !! key) /\ (length (en_queue e) < FLUSH_QUEUE)%nat)
    (send {| fr_imm := l; fr_partition := key |}) (fun _ => mem_inv n rs) (fun _ => True).
Proof.
  intros w e r w' e' (H & Hp & Hq) E. unfold send in E. rewrite (st_bind_Ret _ _ (w, e) e (w, e)) in E by done.
  rewrite (proj2 (Nat.ltb_lt _ _) Hq) in E. rewrite (st_bind_Ret _ _ (w, e) tt (w, e)) in E by done. injection E as <- <- <-. by apply enqueue_out.
Qed.

Lemma deactivate_out n rs key l m e : mem_inv n rs e -> en_memtables e !! key = Some l -> en_heap e !! l = Some m -> mt_inner m <> [] ->
  mem_out n rs key l (set_memtables (delete key) e).
Proof.
  intros H Hk Hl Hne. pose proof (mi_inv _ _ _ H) as Hi. split; try apply H.
  - split_and!; [by apply en_inv_deactivate|by apply (ei_active _ _ Hi)| |].
    + intros k Hk'. cbn [set_memtables en_memtables] in Hk'. apply lookup_delete_Some in Hk' as [Hn Hk']. by apply Hn, (ei_inj _ _ Hi key k l).
    + intros q Hq. by apply (ei_sep _ _ Hi key).
  - intros m' Hm'. cbn [set_memtables en_heap] in Hm'. by simplify_eq.
  - cbn [set_memtables en_heap]. rewrite <- (held_lookup key l e Hk). apply H.
Qed.

Lemma deactivate_empty n rs key l m e : mem_inv n rs e -> en_memtables e !! key = Some l -> en_heap e !! l = Some m -> mt_inner m = [] ->
  mem_inv n rs (set_memtables (delete key) e).
Proof.
  intros H Hk Hl Hm. split; try apply H; [by apply en_inv_deactivate, H|]. rewrite <- (mi_held _ _ _ H), (held_lookup key l e Hk).
  unfold logs_at. rewrite Hl. unfold decoded_logs, drain_signal. by rewrite Hm.
Qed.

Lemma flush_key_mem n rs j key :
  hoare (fun e => mem_inv n rs e /\ (length (en_queue e) + S j <= FLUSH_QUEUE)%nat) (flush_key key)
    (fun _ e => mem_inv n rs e /\ (length (en_queue e) + j <= FLUSH_QUEUE)%nat) (fun _ => True).
Proof.
  intros w e r w' e' [H Hq] E. unfold flush_key in E. rewrite (st_bind_Ret _ _ (w, e) e (w, e)) in E by done.
  destruct (en_memtables e !! key) as [l|] eqn:Ek; [|injection E as <- _ <-; split; [done|lia]].
  rewrite (st_bind_Ret _ _ (w, e) tt (w, set_memtables (delete key) e)) in E by done.
  destruct (ei_active _ _ (mi_inv _ _ _ H) _ _ Ek) as (m & Hl & _). rewrite Hl in E. unfold is_empty in E.
  destruct (mt_inner m) as [|kv inner] eqn:Em; [injection E as <- _ <-; split; [by eapply deactivate_empty|cbn; lia]|].
  assert (mem_out n rs key l (set_memtables (delete key) e)) as Ho by (by eapply deactivate_out; rewrite ?Em).
  set (Q := fun e1 => mem_out n rs key l e1 /\ length (en_queue e1) = length (en_queue e)).
  assert (hoare Q (_ ← get_or_create_partition key; send {| fr_imm := l; fr_partition := key |})
    (fun _ e => mem_inv n rs e /\ (length (en_queue e) + j <= FLUSH_QUEUE)%nat) (fun _ => True)) as Hh; [|by apply (Hh _ _ _ _ _ (conj Ho eq_refl) E)].
  eapply hoare_bind.
  { apply (hoare_weaken_exn _ _ _ Q); [|done]. apply (get_partition_inv key Q). intros e1 p [H1 H2]. split; [by apply mem_out_partition|done]. }
  intros p w1 e1 r1 w2 e2 [[H1 H2] Hp] E1. assert (is_Some (en_partitions e1 !! key)) as Hs by (rewrite Hp; eauto).
  assert (length (en_queue e1) < FLUSH_QUEUE)%nat as Hlt by lia.
  pose proof (send_mem n rs key l w1 e1 r1 w2 e2 (conj H1 (conj Hs Hlt)) E1) as Hm.
  unfold send in E1. rewrite (st_bind_Ret _ _ (w1, e1) e1 (w1, e1)) in E1 by done.
  rewrite (proj2 (Nat.ltb_lt _ _)) in E1 by lia. rewrite (st_bind_Ret _ _ (w1, e1) tt (w1, e1)) in E1 by done. injection E1 as <- <- <-.
  split; [done|]. cbn [set_queue en_queue]. rewrite length_app. cbn. lia.
Qed.

Lemma flush_keys_mem n rs keys :
  hoare (fun e => mem_inv n rs e /\ (length (en_queue e) + length keys <= FLUSH_QUEUE)%nat) (st_iter flush_key keys) (fun _ => mem_inv n rs) (fun _ => True).
Proof.
  induction keys as [|key keys IH]; cbn [st_iter length]; [apply hoare_ret; by intros e []|].
  eapply hoare_bind; [apply (flush_key_mem n rs (length keys) key)|]. intros ?. exact IH.
Qed.

(** The worker takes the first table. *)
Lemma dequeue_mem n rs req q m e : mem_inv n rs e -> en_queue e = req :: q -> en_heap e !! fr_imm req = Some m ->
  exists rs', rs ≡ₚ decoded_logs m ++ rs' /\ mem_inv n rs' (set_queue (fun _ => q) e).
Proof.
  intros H Eq Hl. exists (held (set_queue (fun _ => q) e)). split.
  - rewrite <- (mi_held _ _ _ H), (held_dequeue req q e Eq). unfold logs_at. by rewrite Hl.
  - split; try apply H; [by eapply en_inv_dequeue; [apply H|]| |done]. intros x m' Hx Hm'. cbn [set_queue en_queue en_heap] in *.
    eapply (mi_queued _ _ _ H x); [|done]. rewrite Eq. by right.
Qed.
End Memory.

(** ** The invariant of the disk *)

(** A file that has not changed holds the same rows. *)
Lemma holds_rows_same {libs : EngineLibs} w w' q s rows : healthy w -> healthy w' -> fs_files w' !! q = fs_files w !! q ->
  holds_rows w q s rows -> holds_rows w' q s rows.
Proof. intros Hh Hh' Ef H n Hn. destruct (H n Hn) as (out & Hr & Ho). exists out. split; [by apply (read_parquet_same q n w)|done]. Qed.

Section Disk.
Context {libs : EngineLibs} (base : string) (hours : Z).
Hypothesis Hhours : 0 < hours.

(** The directory of the logs of a partition. *)
Definition log_dir (key : Z) : string := fst (log_path base key).

Lemma log_dir_inj k k' : bucket_key hours k -> bucket_key hours k' -> log_dir k = log_dir k' -> k = k'.
Proof. intros Hk Hk' E. apply (bucket_path_inj base hours Hhours); [done|done|]. unfold log_dir in E. unfold log_path in *. by f_equal. Qed.

(** The log part of the partition [k]: its tables are in its directory,
    under numbers already given out, of which there are at most [n]. *)
Record part_ok (n k : Z) (sp : SignalPartition) : Prop := {
  po_dir : sp_dir sp = log_dir k;
  po_seq : 0 < sp_next_seq sp <= n + 1;
  po_tables : Forall (fun t => sm_dir t = log_dir k /\ 0 <= sm_seq t < sp_next_seq sp) (sp_sstables sp)
}.

(** The zone map files of the partition [k] are those of its tables, which
    have distinct numbers. *)
Record zones_ok (w : Fs) (k : Z) (sp : SignalPartition) : Prop := {
  zo_files : forall t, In t (sp_sstables sp) -> exists zb, fs_files w !! meta_zonemap_path t = Some zb /\ deserialize zb = Some (sm_zone_map t);
  zo_only : forall name bs, is_zonemap name = true -> fs_files w !! (log_dir k, name) = Some bs ->
    exists t, In t (sp_sstables sp) /\ (log_dir k, name) = meta_zonemap_path t;
  zo_nodup : List.NoDup (map sm_seq (sp_sstables sp))
}.

Record disk_inv (n : Z) (stored : list LogRecord) (s : Fs * Engine) : Prop := {
  di_healthy : healthy (fst s);
  di_bucket : en_bucket_ns (snd s) = hours * 3600 * 1000000000;
  di_base : data_dir (en_config (snd s)) = base;
  di_active : forall k l, en_memtables (snd s) !! k = Some l -> bucket_key hours k;
  di_keys : forall k p, en_partitions (snd s) !! k = Some p -> bucket_key hours k;
  di_parts : forall k p, en_partitions (snd s) !! k = Some p -> part_ok n k (p_logs p);
  di_zones : forall k p, en_partitions (snd s) !! k = Some p -> zones_ok (fst s) k (p_logs p);
  di_wals : forall k q wal, en_wals (snd s) !! k = Some (q, wal) -> q = log_path base k /\ is_Some (en_partitions (snd s) !! k);
  di_fresh : forall k name, bucket_key hours k -> en_partitions (snd s) !! k = None -> fs_files (fst s) !! (log_dir k, name) = None;
  di_rows : exists rows : path -> list (list Cell),
    (forall q, In q (log_paths (en_partitions (snd s))) -> holds_rows (fst s) q log_schema (rows q)) /\
    concat (map rows (log_paths (en_partitions (snd s)))) ≡ₚ map log_cells stored
}.

Lemma part_ok_mono n n' k sp : part_ok n k sp -> n <= n' -> part_ok n' k sp.
Proof. intros [] Hn. split; [done|lia|done]. Qed.

(** Only the log of a partition changes. *)
Lemma zones_same n w w' k sp : part_ok n k sp -> (forall name, name <> "wal.log" -> fs_files w' !! (log_dir k, name) = fs_files w !! (log_dir k, name)) ->
  zones_ok w k sp -> zones_ok w' k sp.
Proof.
  intros [_ _ Ht] Hf [H1 H2 H3]. split; [| |done].
  - intros t Hin. destruct (H1 t Hin) as (zb & Ez & Hd). exists zb. split; [|done]. rewrite <- Ez. rewrite List.Forall_forall in Ht. destruct (Ht _ Hin) as [Hdir _].
    unfold meta_zonemap_path, zonemap_path. rewrite Hdir. apply Hf. intros E.
    apply (zonemap_not_wal (log_dir k) (sm_seq t) {| sp_dir := log_dir k; sp_sstables := []; sp_next_seq := 0 |}). unfold zonemap_path, sp_wal_path. by rewrite E.
  - intros name bs Hn Hb. apply (H2 name bs Hn). rewrite <- Hf; [done|]. by intros ->.
Qed.

Lemma disk_inv_mono n n' stored s : disk_inv n stored s -> n <= n' -> disk_inv n' stored s.
Proof. intros [] Hn. split; try done. intros k p Hk. by eapply part_ok_mono; [eauto|]. Qed.

(** A listed file is a table of the directory of its partition. *)
Lemma in_log_paths n stored s q : disk_inv n stored s -> In q (log_paths (en_partitions (snd s))) ->
  exists k p t, en_partitions (snd s) !! k = Some p /\ In t (sp_sstables (p_logs p)) /\ q = parquet_path (log_dir k) (sm_seq t) /\ 0 <= sm_seq t < sp_next_seq (p_logs p).
Proof.
  intros H Hq. unfold log_paths in Hq. apply in_concat in Hq as (l & Hl & Hq). apply in_map_iff in Hl as ([k p] & <- & Hkp).
  apply base.list_elem_of_In, elem_of_map_to_list in Hkp. unfold log_tables in Hq. cbn [snd] in Hq. apply in_map_iff in Hq as (t & <- & Ht).
  pose proof (po_tables _ _ _ (di_parts _ _ _ H _ _ Hkp)) as Hf. rewrite List.Forall_forall in Hf. destruct (Hf _ Ht) as [Hd Hs].
  exists k, p, t. unfold meta_parquet_path. by rewrite Hd.
Qed.

(** Changes of the tables in memory, and of files that are no tables and lie
    in the directories of open partitions. *)
Lemma disk_inv_same n stored w e w' e' : disk_inv n stored (w, e) -> healthy w' ->
  en_partitions e' = en_partitions e -> en_bucket_ns e' = en_bucket_ns e -> en_config e' = en_config e ->
  (forall k l, en_memtables e' !! k = Some l -> bucket_key hours k) ->
  (forall k q wal, en_wals e' !! k = Some (q, wal) -> q = log_path base k /\ is_Some (en_partitions e !! k)) ->
  (forall q, fs_files w' !! q = fs_files w !! q \/ exists k, is_Some (en_partitions e !! k) /\ q = log_path base k) ->
  disk_inv n stored (w', e').
Proof.
  intros H Hh' Ep Eb Ec Ha Hw Hf. split; cbn [fst snd]; rewrite ?Ep, ?Eb, ?Ec; try apply H; try done.
  - intros k p Hp. apply (zones_same n w); [by apply (di_parts _ _ _ H)| |by apply (di_zones _ _ _ H)].
    intros name Hn. destruct (Hf (log_dir k, name)) as [->|(k' & _ & E)]; [done|]. by injection E.
  - intros k name Hk Hn. destruct (Hf (log_dir k, name)) as [->|(k' & [p Hp] & E)]; [by apply (di_fresh _ _ _ H)|].
    exfalso. assert (k = k') as <- by (apply log_dir_inj; [done|by apply (di_keys _ _ _ H _ p)|unfold log_dir; by rewrite <- E]). cbn [snd] in *. congruence.
  - destruct (di_rows _ _ _ H) as (rows & Hr & Hp). exists rows. split; [|done]. intros q Hq. cbn [fst snd] in *.
    apply (holds_rows_same w); [apply H|done| |by apply Hr]. destruct (Hf q) as [->|(k & _ & ->)]; [done|].
    destruct (in_log_paths _ _ _ _ H Hq) as (k' & p & t & _ & _ & E & _). exfalso.
    by apply (parquet_not_wal (log_dir k') (sm_seq t) {| sp_dir := log_dir k; sp_sstables := []; sp_next_seq := 0 |}).
Qed.

(** Opening a partition whose directory has no files. *)
Lemma p_open_fresh key w p w' : healthy w -> (forall name, fs_files w !! (log_dir key, name) = None) -> p_open base key w = (Ret p, w') ->
  healthy w' /\ fs_files w' = fs_files w /\ p_logs p = {| sp_dir := log_dir key; sp_sstables := []; sp_next_seq := 1 |}.
Proof.
  intros Hh Hf E. pose proof (p_open_log _ _ _ _ _ E) as [Hfiles _]. destruct (p_open_ok base key w Hh) as (p0 & w0 & E0 & Hm). rewrite E in E0. injection E0 as <- <-.
  split_and!; [apply Hm|done|]. unfold p_open in E. apply st_bind_inv in E as (? & w1 & E1 & E). apply st_bind_inv in E as (logs & w2 & E2 & E).
  apply st_bind_inv in E as (ms & w3 & _ & E). apply st_bind_inv in E as (ss & w4 & _ & E). injection E as <- _. cbn [p_logs].
  pose proof (create_dir_kept _ _ _ _ E1) as Hk. unfold create_dir_all in E1. rewrite syscall_healthy in E1 by done. injection E1 as _ E1.
  assert (healthy w1) as Hh1 by (rewrite <- E1; done). change (join (join (join base "partitions") (dir_name key)) "logs") with (log_dir key) in E2.
  rewrite sp_open_healthy in E2 by done. injection E2 as <- _. assert (dir_entries (log_dir key) w1 = []) as ->; [|done].
  destruct (dir_entries (log_dir key) w1) as [|name names] eqn:En; [done|]. assert (In name (dir_entries (log_dir key) w1)) as Hin by (rewrite En; by left).
  apply dir_entries_in in Hin. rewrite Hk, Hf in Hin. by destruct Hin.
Qed.

Lemma disk_inv_open n stored w e key p w' : 0 <= n -> disk_inv n stored (w, e) -> bucket_key hours key -> en_partitions e !! key = None ->
  healthy w' -> fs_files w' = fs_files w -> p_logs p = {| sp_dir := log_dir key; sp_sstables := []; sp_next_seq := 1 |} ->
  disk_inv n stored (w', set_partitions (<[key := p]>) e).
Proof.
  intros Hn H Hk Hnone Hh' Hf Hp.
  assert (log_paths (<[key := p]> (en_partitions e)) ≡ₚ log_paths (en_partitions e)) as Hperm.
  { rewrite log_paths_insert, delete_id by done. unfold log_tables. by rewrite Hp. }
  split; cbn [fst snd set_partitions en_partitions en_bucket_ns en_config en_memtables en_wals]; try apply H; [done|..].
  - intros k p' Hk'. apply lookup_insert_Some in Hk' as [[<- _]|[_ Hk']]; [done|by apply (di_keys _ _ _ H _ p')].
  - intros k p' Hk'. apply lookup_insert_Some in Hk' as [[<- <-]|[_ Hk']]; [|by apply (di_parts _ _ _ H)].
    rewrite Hp. split; cbn [sp_dir sp_next_seq sp_sstables]; [done|lia|constructor].
  - intros k p' Hk'. apply lookup_insert_Some in Hk' as [[<- <-]|[_ Hk']].
    + rewrite Hp. split; cbn [sp_sstables]; [done| |constructor]. intros name bs _. rewrite Hf. by rewrite (di_fresh _ _ _ H).
    + apply (zones_same n w); [by apply (di_parts _ _ _ H)|by rewrite Hf|by apply (di_zones _ _ _ H)].
  - intros k q wal Hw. destruct (di_wals _ _ _ H _ _ _ Hw) as [-> Hs]. split; [done|]. destruct (decide (k = key)) as [->|Hne]; [rewrite lookup_insert_eq; eauto|by rewrite lookup_insert_ne].
  - intros k name Hbk Hn'. apply lookup_insert_None in Hn' as [Hn' _]. rewrite Hf. by apply (di_fresh _ _ _ H).
  - destruct (di_rows _ _ _ H) as (rows & Hr & Hrp). exists rows. split; [|by rewrite Hperm]. intros q Hq. apply (holds_rows_same w); [apply H|done|by rewrite Hf|].
    apply Hr. cbn [snd]. by rewrite <- Hperm.
Qed.

(** ** The operations and the disk *)

Lemma get_memtable_disk n stored key w e l s' : bucket_key hours key -> disk_inv n stored (w, e) -> get_or_create_memtable key (w, e) = (Ret l, s') -> disk_inv n stored s'.
Proof.
  intros Hk H E. unfold get_or_create_memtable in E. rewrite (st_bind_Ret _ _ (w, e) e (w, e)) in E by done.
  destruct (en_memtables e !! key); [by injection E as _ <-|]. do 2 erewrite st_bind_Ret in E by reflexivity. injection E as _ <-.
  apply (disk_inv_same n stored w e); try done; [apply H| |by apply (di_wals _ _ _ H)|by left].
  intros k l' Hl'. cbn [set_memtables en_memtables] in Hl'. apply lookup_insert_Some in Hl' as [[<- _]|[_ Hl']]; [done|by apply (di_active _ _ _ H _ l')].
Qed.

Lemma get_partition_disk n stored key w e p w' e' : 0 <= n -> bucket_key hours key -> disk_inv n stored (w, e) ->
  get_or_create_partition key (w, e) = (Ret p, (w', e')) ->
  disk_inv n stored (w', e') /\ en_partitions e' !! key = Some p /\ en_wals e' = en_wals e /\ en_queue e' = en_queue e.
Proof.
  intros Hn Hk H E. unfold get_or_create_partition in E. rewrite (st_bind_Ret _ _ (w, e) e (w, e)) in E by done.
  destruct (en_partitions e !! key) as [p0|] eqn:Ep; [by injection E as <- <- <-|]. apply st_bind_inv in E as (p1 & s1 & E1 & E).
  unfold or_panic, on_fs, st_on in E1. cbn [fst snd] in E1. pose proof (di_base _ _ _ H) as Hb. cbn [snd] in Hb. rewrite Hb in E1.
  destruct (p_open base key w) as [[p2|?|] w1] eqn:Eo; [|done|done]. injection E1 as <- <-. erewrite st_bind_Ret in E by reflexivity. injection E as <- <- <-. cbn [fst snd].
  destruct (p_open_fresh key w p2 w1) as (Hh1 & Hf & Hp); [apply H| |done|]. { intros name. by apply (di_fresh _ _ _ H). }
  split_and!; [by apply (disk_inv_open n stored w)|apply lookup_insert_eq|done|done].
Qed.

Lemma get_wal_disk n stored key w e s' : 0 <= n -> bucket_key hours key -> disk_inv n stored (w, e) -> get_or_create_wal key (w, e) = (Ret tt, s') -> disk_inv n stored s'.
Proof.
  intros Hn Hk H E. unfold get_or_create_wal in E. rewrite (st_bind_Ret _ _ (w, e) e (w, e)) in E by done.
  destruct (en_wals e !! key); [by injection E as <-|]. apply st_bind_inv in E as (p & [w1 e1] & E1 & E).
  destruct (get_partition_disk n stored key w e p w1 e1 Hn Hk H E1) as (H1 & Hp & _ & _).
  apply st_bind_inv in E as (wal & s2 & E2 & E). unfold or_panic, on_fs, st_on in E2. cbn [fst snd] in E2.
  assert (sp_wal_path (p_logs p) = log_path base key) as Hpath.
  { unfold sp_wal_path. by rewrite (po_dir _ _ _ (di_parts _ _ _ H1 _ _ Hp)). }
  rewrite Hpath in *. unfold open_wal in E2. rewrite syscall_healthy in E2 by apply H1. injection E2 as <- <-. injection E as <-. cbn [fst snd].
  apply (disk_inv_same n stored w1 e1); try done; [apply H1|apply H1| |].
  - intros k q wal' Hw. cbn [set_wals en_wals] in Hw. apply lookup_insert_Some in Hw as [[<- [= <- _]]|[_ Hw]]; [by rewrite Hp|by apply (di_wals _ _ _ H1) in Hw].
  - intros q. destruct (decide (q = log_path base key)) as [->|Hne]; [right; exists key; by rewrite Hp|left; cbn; by rewrite lookup_insert_ne].
Qed.

Lemma wal_append_disk n stored key t d w e s' : disk_inv n stored (w, e) -> wal_append key t d (w, e) = (Ret tt, s') -> disk_inv n stored s'.
Proof.
  intros H E. unfold wal_append in E. destruct (en_wals e !! key) as [[p wal]|] eqn:Ew; [|done]. destruct (di_wals _ _ _ H _ _ _ Ew) as [-> Hp].
  unfold run_wal in E. destruct (append _ t d) as [[f' wal'] [off| |]]; [|done|done]. injection E as <-.
  apply (disk_inv_same n stored w e); try done; [apply H|apply H| |].
  - intros k q wal0 Hw. cbn [set_wals en_wals] in Hw. apply lookup_insert_Some in Hw as [[<- [= <- _]]|[_ Hw]]; [done|by apply (di_wals _ _ _ H) in Hw].
  - intros q. destruct (decide (q = log_path base key)) as [->|Hne]; [right; by exists key|left; cbn; by rewrite lookup_insert_ne].
Qed.

(** Changes of the heap, the queue and the flag. *)
Lemma disk_inv_memory n stored w e e' : disk_inv n stored (w, e) -> en_partitions e' = en_partitions e -> en_bucket_ns e' = en_bucket_ns e ->
  en_config e' = en_config e -> en_wals e' = en_wals e -> (forall k l, en_memtables e' !! k = Some l -> bucket_key hours k) -> disk_inv n stored (w, e').
Proof. intros H Ep Eb Ec Ew Ha. apply (disk_inv_same n stored w e); try done; [apply H|rewrite Ew; apply H|by left]. Qed.

Lemma maybe_freeze_disk n stored key l w e s' : 0 <= n -> bucket_key hours key -> disk_inv n stored (w, e) -> maybe_freeze key l (w, e) = (Ret tt, s') -> disk_inv n stored s'.
Proof.
  intros Hn Hk H E. unfold maybe_freeze in E. rewrite (st_bind_Ret _ _ (w, e) e (w, e)) in E by done.
  destruct (en_heap e !! l) as [m|]; [|done]. destruct (is_full m); cbn [negb] in E; [|by injection E as <-].
  do 2 erewrite st_bind_Ret in E by reflexivity. apply st_bind_inv in E as (p & [w3 e3] & E3 & E). injection E as <-. cbn [fst snd] in *.
  eapply get_partition_disk in E3 as (H3 & _); [|done|done|].
  - apply (disk_inv_memory n stored w3 e3); try done. apply H3.
  - apply (disk_inv_memory n stored w e); try done. intros k l' Hl'. cbn [set_memtables en_memtables] in Hl'.
    apply lookup_insert_Some in Hl' as [[<- _]|[_ Hl']]; [done|by apply (di_active _ _ _ H _ l')].
Qed.

Lemma write_record_disk n stored ts t enc put w e s' : 0 <= n -> is_u64 ts -> disk_inv n stored (w, e) -> write_record ts t enc put (w, e) = (Ret tt, s') -> disk_inv n stored s'.
Proof.
  intros Hn Ht H E. unfold write_record in E. rewrite (st_bind_Ret _ _ (w, e) e (w, e)) in E by done.
  apply st_bind_inv in E as (key & s1 & E1 & E). pose proof (di_bucket _ _ _ H) as Hbk. cbn [snd] in Hbk.
  rewrite Hbk, for_timestamp_spec in E1 by lia. injection E1 as <- <-. set (key := _ * _) in E. assert (bucket_key hours key) as Hk by by exists ts.
  apply st_bind_inv in E as (l & [w2 e2] & E2 & E). eapply get_memtable_disk in E2; [|done|exact H].
  apply st_bind_inv in E as (d & s3 & E3 & E). destruct enc as [d'|]; [|done]. injection E3 as -> <-.
  apply st_bind_inv in E as ([] & [w4 e4] & E4 & E). eapply get_wal_disk in E4; [|done|done|exact E2].
  apply st_bind_inv in E as ([] & [w5 e5] & E5 & E). eapply wal_append_disk in E5; [|exact E4].
  apply st_bind_inv in E as ([] & [w6 e6] & E6 & E). eapply maybe_freeze_disk in E; [exact E|done|done|].
  unfold update_table in E6. destruct (en_heap e5 !! l) as [m|]; [|done]. destruct (put m) as [m'| |]; [|done|done].
  injection E6 as <- <-. apply (disk_inv_memory n stored w5 e5); try done. apply E5.
Qed.

Lemma write_logs_disk n stored rs w e s' : 0 <= n -> Forall storable rs -> disk_inv n stored (w, e) -> engine_write_logs rs (w, e) = (Ret tt, s') -> disk_inv n stored s'.
Proof.
  intros Hn Hs. revert w e. induction Hs as [|r rs [Hr _] _ IH]; intros w e H E; [by injection E as <-|].
  unfold engine_write_logs in E. cbn [st_iter] in E. apply st_bind_inv in E as ([] & [w1 e1] & E1 & E). apply (IH w1 e1); [|exact E].
  by eapply write_record_disk.
Qed.

Lemma flush_key_disk n stored j key w e w' e' : 0 <= n -> bucket_key hours key -> disk_inv n stored (w, e) -> (length (en_queue e) + S j <= FLUSH_QUEUE)%nat ->
  flush_key key (w, e) = (Ret tt, (w', e')) -> disk_inv n stored (w', e') /\ (length (en_queue e') + j <= FLUSH_QUEUE)%nat.
Proof.
  intros Hn Hk H Hq E. unfold flush_key in E. rewrite (st_bind_Ret _ _ (w, e) e (w, e)) in E by done.
  destruct (en_memtables e !! key) as [l|]; [|injection E as <- <-; split; [done|lia]]. erewrite st_bind_Ret in E by reflexivity.
  assert (disk_inv n stored (w, set_memtables (delete key) e)) as H1.
  { apply (disk_inv_memory n stored w e); try done. intros k l' Hl'. cbn [set_memtables en_memtables] in Hl'. apply lookup_delete_Some in Hl' as [_ Hl']. by apply (di_active _ _ _ H _ l'). }
  destruct (en_heap e !! l) as [m|]; [|done]. destruct (is_empty m); [injection E as <- <-; split; [done|cbn; lia]|].
  apply st_bind_inv in E as (p & [w2 e2] & E2 & E). destruct (get_partition_disk n stored key _ _ p w2 e2 Hn Hk H1 E2) as (H2 & _ & _ & Eq). cbn [set_memtables en_queue] in Eq.
  unfold send in E. rewrite (st_bind_Ret _ _ (w2, e2) e2 (w2, e2)) in E by done. rewrite (proj2 (Nat.ltb_lt _ _)) in E by (rewrite Eq; lia).
  rewrite (st_bind_Ret _ _ (w2, e2) tt (w2, e2)) in E by done. injection E as <- <-. cbn [fst snd]. split.
  - apply (disk_inv_memory n stored w2 e2); try done. apply H2.
  - cbn [set_queue en_queue]. rewrite length_app, Eq. cbn. lia.
Qed.

Lemma flush_keys_disk n stored keys w e w' e' : 0 <= n -> Forall (bucket_key hours) keys -> disk_inv n stored (w, e) -> (length (en_queue e) + length keys <= FLUSH_QUEUE)%nat ->
  st_iter flush_key keys (w, e) = (Ret tt, (w', e')) -> disk_inv n stored (w', e').
Proof.
  intros Hn Hs. revert w e. induction Hs as [|key keys Hk _ IH]; intros w e H Hq E; [by injection E as <- <-|]. cbn [st_iter length] in *.
  apply st_bind_inv in E as ([] & [w1 e1] & E1 & E). destruct (flush_key_disk n stored (length keys) key w e w1 e1 Hn Hk H Hq E1) as [H1 Hq1]. by apply (IH w1 e1).
Qed.

(** ** Tables that come and go *)

Lemma in_paths ps q : In q (log_paths ps) <-> exists k p, ps !! k = Some p /\ In q (log_tables p).
Proof.
  unfold log_paths. rewrite in_concat. split.
  - intros (l & Hl & Hq). apply in_map_iff in Hl as ([k p] & <- & Hkp). apply base.list_elem_of_In, elem_of_map_to_list in Hkp. eauto.
  - intros (k & p & Hk & Hq). exists (log_tables p). split; [|done]. apply in_map_iff. exists (k, p). split; [done|].
    by apply base.list_elem_of_In, elem_of_map_to_list.
Qed.

Lemma table_dir n k p q : part_ok n k (p_logs p) -> In q (log_tables p) -> fst q = log_dir k.
Proof.
  intros [_ _ Ht] Hq. unfold log_tables in Hq. apply in_map_iff in Hq as (t & <- & Hin). rewrite List.Forall_forall in Ht. by destruct (Ht _ Hin).
Qed.

(** The log part of one partition changes, on the disk and in the engine;
    its new tables hold the rows of the old ones and of the records [rs]. *)
Lemma disk_inv_replace n n' stored rs w e w' e' key p p' :
  disk_inv n stored (w, e) -> n <= n' -> en_partitions e !! key = Some p -> en_partitions e' = <[key := p']> (en_partitions e) ->
  en_bucket_ns e' = en_bucket_ns e -> en_config e' = en_config e -> en_memtables e' = en_memtables e -> en_wals e' = en_wals e ->
  healthy w' -> part_ok n' key (p_logs p') -> zones_ok w' key (p_logs p') -> (forall q, fst q <> log_dir key -> fs_files w' !! q = fs_files w !! q) ->
  (forall rows, (forall q, In q (log_tables p) -> holds_rows w q log_schema (rows q)) ->
     exists rows' : path -> list (list Cell), (forall q, In q (log_tables p') -> holds_rows w' q log_schema (rows' q)) /\
       concat (map rows' (log_tables p')) ≡ₚ concat (map rows (log_tables p)) ++ map log_cells rs) ->
  disk_inv n' (stored ++ rs) (w', e').
Proof.
  intros H Hn Hp Ep Eb Ec Em Ew Hh' Hok Hz Hf Hrows. pose proof (di_keys _ _ _ H _ _ Hp) as Hkey.
  split; cbn [fst snd]; rewrite ?Ep, ?Eb, ?Ec, ?Em, ?Ew; try apply H; [done|..].
  - intros k p0 Hk. apply lookup_insert_Some in Hk as [[<- _]|[_ Hk]]; [done|by apply (di_keys _ _ _ H _ p0)].
  - intros k p0 Hk. apply lookup_insert_Some in Hk as [[<- <-]|[_ Hk]]; [done|]. eapply part_ok_mono; [by apply (di_parts _ _ _ H)|done].
  - intros k p0 Hk. apply lookup_insert_Some in Hk as [[<- <-]|[Hne Hk]]; [done|]. apply (zones_same n w); [by apply (di_parts _ _ _ H)| |by apply (di_zones _ _ _ H)].
    intros name _. apply Hf. cbn [fst]. intros E. by apply Hne, log_dir_inj; [|apply (di_keys _ _ _ H _ _ Hk)|].
  - intros k q wal Hw. destruct (di_wals _ _ _ H _ _ _ Hw) as [-> Hs]. split; [done|]. destruct (decide (k = key)) as [->|Hne]; [rewrite lookup_insert_eq; eauto|by rewrite lookup_insert_ne].
  - intros k name Hk Hno. apply lookup_insert_None in Hno as [Hno Hne]. rewrite Hf; [by apply (di_fresh _ _ _ H)|]. intros E. by apply Hne, log_dir_inj.
  - destruct (di_rows _ _ _ H) as (rows & Hr & Hperm). cbn [fst snd] in *. destruct (Hrows rows) as (rows' & Hr' & Hperm').
    { intros q Hq. apply Hr, in_paths. eauto. }
    assert (forall q, In q (log_paths (delete key (en_partitions e))) -> fst q <> log_dir key /\ holds_rows w q log_schema (rows q)) as Hrest.
    { intros q Hq. apply in_paths in Hq as (k & p0 & Hk & Hq). apply lookup_delete_Some in Hk as [Hne Hk]. split; [|apply Hr, in_paths; eauto].
      rewrite (table_dir n k p0 q); [|by apply (di_parts _ _ _ H)|done]. intros E. by apply Hne, log_dir_inj; [|apply (di_keys _ _ _ H _ _ Hk)|]. }
    set (all := fun q : path => if decide (fst q = log_dir key) then rows' q else rows q). exists all.
    assert (map all (log_tables p') = map rows' (log_tables p')) as E1.
    { apply map_ext_in. intros q Hq. unfold all. by rewrite decide_True by (by eapply table_dir). }
    assert (map all (log_paths (delete key (en_partitions e))) = map rows (log_paths (delete key (en_partitions e)))) as E2.
    { apply map_ext_in. intros q Hq. unfold all. by rewrite decide_False by (by apply Hrest). }
    split.
    + intros q Hq. rewrite log_paths_insert in Hq. unfold all. apply in_app_or in Hq as [Hq|Hq].
      * rewrite decide_True by (by eapply table_dir). by apply Hr'.
      * destruct (Hrest q Hq) as [Hd Hh]. rewrite decide_False by done. apply (holds_rows_same w); [apply H|done|by apply Hf|done].
    + rewrite log_paths_insert, map_app, concat_app, E1, E2, Hperm'. rewrite map_app, <- Hperm, (log_paths_lookup key p _ Hp), map_app, concat_app.
      rewrite <- !app_assoc. apply Permutation_app_head, Permutation_app_comm.
Qed.

(** A number not yet given out names no table. *)
Lemma next_table_fresh n k p : part_ok n k (p_logs p) -> n + 1 < two64 -> ~ In (parquet_path (log_dir k) (sp_next_seq (p_logs p))) (log_tables p).
Proof.
  intros [_ Hs Ht] Hn Hin. unfold log_tables in Hin. apply in_map_iff in Hin as (t & E & Hin). rewrite List.Forall_forall in Ht. destruct (Ht _ Hin) as [_ Hr].
  destruct (table_names_distinct t (log_dir k) (sp_next_seq (p_logs p)) (meta_parquet_path t)) as [Hne _]; [int_lia|int_lia|lia| |by apply Hne].
  unfold table_paths. cbn [map concat]. rewrite app_nil_r. by left.
Qed.

(** The zone map files after a flush, and after a merge. *)
Lemma zones_flushed n m w k p w' p' meta : part_ok n k (p_logs p) -> n + 1 < two64 -> zones_ok w k (p_logs p) -> flushed_logs m w p w' p' meta ->
  zones_ok w' k (p_logs p').
Proof.
  intros [Hd Hs Ht] Hn [H1 H2 H3] [_ Hlogs Hdir Hseq _ _ _ Hz Hzs]. rewrite List.Forall_forall in Ht. rewrite Hlogs. split; cbn [add_sstable next_seq snd sp_sstables].
  - intros t Hin. apply in_app_or in Hin as [Hin|[<-|[]]]; [|done]. destruct (H1 t Hin) as (zb & Ez & Hdz). exists zb. split; [|done]. rewrite <- Ez.
    destruct (Ht _ Hin) as [Htd Hts]. apply Hzs; [apply zonemap_name; int_lia|]. fold (meta_zonemap_path t).
    destruct (table_names_distinct t (sm_dir meta) (sm_seq meta) (meta_zonemap_path t)) as (_ & _ & Hne); [rewrite Hseq; int_lia|int_lia|rewrite Hseq; lia| |done].
    unfold table_paths. cbn [map concat]. rewrite app_nil_r. by do 2 right; left.
  - intros name bs Hname Hb. destruct (decide ((log_dir k, name) = meta_zonemap_path meta)) as [E|Hne]; [exists meta; split; [apply in_app_iff; right; by left|done]|].
    rewrite Hzs in Hb by done. destruct (H2 name bs Hname Hb) as (t & Hin & E). exists t. split; [apply in_app_iff; by left|done].
  - rewrite map_app. cbn [map]. rewrite Permutation_app_comm. cbn [app]. constructor; [|done]. rewrite Hseq, in_map_iff. intros (t & E & Hin). destruct (Ht _ Hin) as [_ Hts]. lia.
Qed.

Lemma zones_merged w k sp w' m q : sm_dir m = log_dir k -> zones_ok w k sp ->
  (exists zb, fs_files w' !! meta_zonemap_path m = Some zb /\ deserialize zb = Some (sm_zone_map m)) ->
  (forall p, p ∈ table_paths (sp_sstables sp) -> fs_files w' !! p = None) ->
  (forall p, p ∉ table_paths (sp_sstables sp) -> p ∉ table_paths [m] -> fs_files w' !! p = fs_files w !! p) ->
  zones_ok w' k {| sp_dir := log_dir k; sp_sstables := [m]; sp_next_seq := q |}.
Proof.
  intros Hd [H1 H2 H3] Hz Hgone Hkept. split; cbn [sp_sstables map].
  - by intros t [<-|[]].
  - intros name bs Hname Hb. exists m. split; [by left|]. destruct (decide ((log_dir k, name) ∈ table_paths (sp_sstables sp))) as [Hin|Hnin]; [by rewrite Hgone in Hb|].
    destruct (decide ((log_dir k, name) ∈ table_paths [m])) as [Hin|Hnin'].
    + unfold table_paths in Hin. cbn [map concat] in Hin. rewrite app_nil_r in Hin. apply base.list_elem_of_In in Hin as [E|[E|[E|[]]]]; [| |done].
      * injection E as _ E. rewrite <- E in Hname. by rewrite (other_extension _ "parquet") in Hname.
      * injection E as _ E. rewrite <- E in Hname. by rewrite (other_extension _ "bloom") in Hname.
    + rewrite Hkept in Hb by done. exfalso. destruct (H2 name bs Hname Hb) as (t & Hin & E). apply Hnin. rewrite E. apply base.list_elem_of_In, in_concat.
      eexists. split; [apply in_map_iff; exists t; by split|]. by do 2 right; left.
  - constructor; [by intros []|constructor].
Qed.

Lemma flush_disk n stored w e req q m p w' p' meta :
  disk_inv n stored (w, e) -> n + 2 < two64 -> en_partitions e !! fr_partition req = Some p -> flushed_logs m w p w' p' meta ->
  disk_inv (n + 1) (stored ++ decoded_logs m) (w', set_partitions (<[fr_partition req := p']>) (set_queue (fun _ => q) e)).
Proof.
  intros H Hn Hp Hfl. pose proof (flushed_path _ _ _ _ _ _ Hfl) as Hpath. pose proof (di_parts _ _ _ H _ _ Hp) as Hok.
  pose proof (zones_flushed n m w _ p w' p' meta Hok ltac:(lia) (di_zones _ _ _ H _ _ Hp) Hfl) as Hz.
  destruct Hfl as [Hh' Hlogs Hdir Hseq Hread Htab Hoth _ _]. pose proof Hok as [Hd Hs Ht]. rewrite Hd in *.
  apply (disk_inv_replace n (n + 1) stored (decoded_logs m) w e w' _ (fr_partition req) p p'); try done; [lia| |].
  - rewrite Hlogs. split; cbn [add_sstable next_seq snd sp_dir sp_next_seq sp_sstables]; rewrite ?wrap_u64_small by int_lia; [done|lia|].
    apply Forall_app. split; [|constructor; [|constructor]; rewrite Hdir, Hseq; split; [done|lia]].
    eapply Forall_impl; [exact Ht|]. cbn beta. intros t [? ?]. split; [done|lia].
  - intros rows Hrows. pose proof (next_table_fresh n _ p Hok ltac:(lia)) as Hnew. rewrite <- Hpath in Hnew.
    assert (log_tables p' = log_tables p ++ [meta_parquet_path meta]) as Et by (unfold log_tables; rewrite Hlogs; cbn; by rewrite map_app).
    exists (fun x => if decide (x = meta_parquet_path meta) then map log_cells (decoded_logs m) else rows x). rewrite Et. split.
    + intros x Hx. apply in_app_or in Hx as [Hx|[<-|[]]]; [|rewrite decide_True by done; by rewrite <- log_rows].
      rewrite decide_False by (by intros ->). apply (holds_rows_same w); [apply H|done| |by apply Hrows].
      pose proof Hx as Hx'. unfold log_tables in Hx'. apply in_map_iff in Hx' as (t & <- & _). apply Htab. intros E. apply Hnew. by rewrite <- E.
    + rewrite map_app, concat_app. cbn [map concat]. rewrite app_nil_r, decide_True by done. apply Permutation_app_tail.
      erewrite map_ext_in; [done|]. intros x Hx. cbn beta. by rewrite decide_False by (by intros ->).
Qed.

(** The rows of the inputs of a merge. *)
Lemma merge_rows w ts bss rows : healthy w -> Forall2 (table_holds w log_schema) ts bss ->
  (forall q, In q (map meta_parquet_path ts) -> holds_rows w q log_schema (rows q)) ->
  concat (map batches_rows bss) = concat (map rows (map meta_parquet_path ts)).
Proof.
  intros Hh H. induction H as [|t bs ts bss (bytes & Hf & Hd & _) _ IH]; intros Hr; [done|]. cbn [map concat]. rewrite IH by (intros q Hq; apply Hr; by right). f_equal.
  destruct (Hr (meta_parquet_path t) (or_introl eq_refl) COMPACT_BATCH) as (out & Eo & _ & <-); [unfold COMPACT_BATCH; lia|].
  unfold read_parquet in Eo. rewrite (st_bind_Ret _ _ _ _ _ (fs_read_lookup _ _ _ Hh Hf)) in Eo. rewrite Hd in Eo. unfold st_lift, ok_or, mbind, st_bind, mret, st_ret in Eo. injection Eo as Eo.
  f_equal. clear -Eo. revert out Eo. induction bs as [|b0 bs IHb]; intros [|o out] Eo; try done. cbn [map] in Eo. injection Eo as -> Eo. f_equal. by apply IHb.
Qed.

Lemma compact_signals_cons sig sigs trigger ops w p :
  compact_signals (sig :: sigs) trigger ops (w, p) =
  if trigger <=? sstable_count (signal_partition p sig) then
    (r ← st_try (on_signal sig (compact_signal sig)); compact_signals sigs trigger (match r with Ret true => ops + 1 | _ => ops end)) (w, p)
  else compact_signals sigs trigger ops (w, p).
Proof. cbn [compact_signals]. rewrite (st_bind_Ret _ _ (w, p) (w, p) (w, p)) by done. by destruct (_ <=? _). Qed.

(** One turn of the compaction worker on a partition where only the logs
    have enough tables. *)
Lemma compact_partition_logs trigger w p bss : mergeable w (p_logs p) log_schema bss ->
  sstable_count (p_metrics p) < trigger -> sstable_count (p_spans p) < trigger ->
  exists ops w' sp', compact_partition trigger (w, p) = (Ret ops, (w', set_signal Log sp' p)) /\
    (compact_signal Log (w, p_logs p) = (Ret true, (w', sp')) \/ (w', sp') = (w, p_logs p)).
Proof.
  intros Hm H1 H2.
  assert (forall w1 p1 ops, p_metrics p1 = p_metrics p -> p_spans p1 = p_spans p -> compact_signals [Metric; Span] trigger ops (w1, p1) = (Ret ops, (w1, p1))) as Hrest.
  { intros w1 p1 ops Em Es. rewrite !compact_signals_cons. cbn [signal_partition]. by rewrite Em, Es, (proj2 (Z.leb_gt _ _) H1), (proj2 (Z.leb_gt _ _) H2). }
  unfold compact_partition. rewrite compact_signals_cons. cbn [signal_partition]. destruct (trigger <=? sstable_count (p_logs p)).
  - destruct (compact_signal_merges Log w (p_logs p) log_schema bss Hm) as (w' & pb & E & _).
    set (sp' := {| sp_dir := _ |}) in E. exists 1, w', sp'. split; [|left; exact E].
    rewrite (st_bind_Ret _ _ (w, p) (Ret true) (w', set_signal Log sp' p)); [by apply Hrest|].
    unfold st_try, on_signal, st_on. cbn [fst snd signal_partition]. by rewrite E.
  - exists 0, w, (p_logs p). split; [|by right]. rewrite Hrest by done. by destruct p.
Qed.

Lemma compact_disk n stored w e key p bss w' sp' :
  disk_inv n stored (w, e) -> n + 2 < two64 -> en_partitions e !! key = Some p -> mergeable w (p_logs p) log_schema bss ->
  compact_signal Log (w, p_logs p) = (Ret true, (w', sp')) ->
  disk_inv (n + 1) stored (w', set_partitions (<[key := set_signal Log sp' p]>) e).
Proof.
  intros H Hn Hp Hm E. destruct (compact_signal_merges Log w (p_logs p) log_schema bss Hm) as (w1 & pb & E1 & Hh' & Hpb & Hfile & Hzone & Hgone & Hkept).
  rewrite E in E1. injection E1 as <- ->. pose proof (di_parts _ _ _ H _ _ Hp) as Hok. pose proof Hok as [Hd Hs Ht].
  set (m := merged_meta Log (p_logs p) (concat bss)) in *. rewrite <- (app_nil_r stored).
  apply (disk_inv_replace n (n + 1) stored [] w e w' _ key p (set_signal Log {| sp_dir := sp_dir (p_logs p); sp_sstables := [m]; sp_next_seq := sp_next_seq (p_logs p) + 1 |} p)); try done; [lia| | | |].
  - split; cbn [set_signal p_logs sp_dir sp_next_seq sp_sstables]; [done|lia|]. constructor; [|constructor]. cbn. split; [done|lia].
  - cbn [set_signal p_logs]. rewrite Hd. by apply (zones_merged w key (p_logs p)); [|apply (di_zones _ _ _ H)|..].
  - intros q Hq. apply Hkept.
    + intros Hin. apply Hq. unfold table_paths in Hin. apply base.list_elem_of_In, in_concat in Hin as (l & Hl & Hin). apply in_map_iff in Hl as (t & <- & Hl).
      rewrite List.Forall_forall in Ht. destruct (Ht _ Hl) as [Htd _]. by repeat (destruct Hin as [<-|Hin]; [done|]).
    + intros Hin. apply Hq. unfold table_paths in Hin. cbn [map concat] in Hin. rewrite app_nil_r in Hin. apply base.list_elem_of_In in Hin.
      repeat (destruct Hin as [<-|Hin]; [exact Hd|]). done.
  - intros rows Hrows. exists (fun _ => concat (map rows (log_tables p))).
    change (log_tables (set_signal Log _ p)) with [meta_parquet_path m]. split; [|cbn [map concat]; by rewrite !app_nil_r].
    intros q [<-|[]] k Hk. destruct (parquet_roundtrip log_schema (concat bss) pb k Hk Hpb) as (out & Ed & Hout & Er); [by apply (mergeable_fits w (p_logs p))|].
    exists out. split_and!.
    + unfold read_parquet. rewrite (st_bind_Ret _ _ _ _ _ (fs_read_lookup _ _ _ Hh' Hfile)), Ed. unfold st_lift, ok_or, mbind, st_bind, mret, st_ret. by rewrite map_map.
    + eapply Forall_impl; [exact Hout|]. cbn beta. intros b0 [E1 E2]. split; [done|]. unfold Executor.fits. by rewrite E1.
    + rewrite Er, batches_rows_concat. apply (merge_rows w); [apply H|apply Hm|done].
Qed.
End Disk.

(** ** Runs of the engine as a log store *)

(** A batch that is acknowledged while the flush queue has room; a shutdown
    or [flush_all] the queue has room for; a turn of the flush worker on a
    table the disk takes; a turn of the compaction worker on a partition
    whose log tables can be merged and whose other signals have too few. *)
Inductive store_step {libs : EngineLibs} : Fs * Engine -> label -> Fs * Engine -> Prop :=
| store_accept rs s s' : Forall storable rs -> write_batch (Logs rs) s = (Ret tt, s') -> (length (en_queue (snd s')) < FLUSH_QUEUE)%nat ->
    store_step s (LAccept rs) s'
| store_seal s s' : (length (en_queue (snd s)) + size (en_memtables (snd s)) <= FLUSH_QUEUE)%nat -> flush_all s = (Ret tt, s') -> store_step s LSeal s'
| store_close s s' : (length (en_queue (snd s)) + size (en_memtables (snd s)) <= FLUSH_QUEUE)%nat -> close s = (Ret tt, s') -> store_step s LSeal s'
| store_flush w e req q m p s' : en_queue e = req :: q -> en_heap e !! fr_imm req = Some m -> en_partitions e !! fr_partition req = Some p ->
    accepts_logs w p (decoded_logs m) -> flush_step (w, e) = (Ret tt, s') -> store_step (w, e) LFlush s'
| store_compact w e key p bss ops s' : en_partitions e !! key = Some p -> mergeable w (p_logs p) log_schema bss ->
    sstable_count (p_metrics p) < l0_compaction_trigger (en_config e) -> sstable_count (p_spans p) < l0_compaction_trigger (en_config e) ->
    on_partition key (compact_partition (l0_compaction_trigger (en_config e))) (w, e) = (Ret ops, s') -> store_step (w, e) LCompact s'.

Inductive store_run {libs : EngineLibs} : Fs * Engine -> list label -> Fs * Engine -> Prop :=
| run_nil s : store_run s [] s
| run_snoc s ls s1 l s2 : store_run s ls s1 -> store_step s1 l s2 -> store_run s (ls ++ [l]) s2.

(** The numbers a run can use up. *)
Definition weight (ls : list label) : Z := zsum (map (fun l => match l with LAccept rs => zlen rs | _ => 1 end) ls).

Lemma weight_nonneg ls : 0 <= weight ls.
Proof. apply zsum_nonneg, List.Forall_map, List.Forall_forall. intros [rs| | |] _; [apply zlen_nonneg|lia..]. Qed.

Lemma weight_snoc ls l : weight (ls ++ [l]) = weight ls + weight [l].
Proof. unfold weight. by rewrite map_app, zsum_app. Qed.

Section Simulation.
Context {libs : EngineLibs} (base : string) (hours : Z).
Hypothesis Hhours : 0 < hours.

Let b : Z := hours * 3600 * 1000000000.

(** The engine holds [bag.1] in memory and [bag.2] on the disk. *)
Definition store_inv (n : Z) (bag : list LogRecord * list LogRecord) (s : Fs * Engine) : Prop :=
  mem_inv b n bag.1 (snd s) /\ disk_inv base hours n bag.2 s.

Lemma store_inv_closed n bag w e c : store_inv n bag (w, e) -> store_inv n bag (w, set_closed c e).
Proof. intros [Hm Hd]. split; [by apply mem_inv_closed|]. apply (disk_inv_memory _ _ Hhours n _ w e); try done. apply Hd. Qed.

Lemma seal_simulates n bag w e s' : store_inv n bag (w, e) -> (length (en_queue e) + size (en_memtables e) <= FLUSH_QUEUE)%nat ->
  flush_all (w, e) = (Ret tt, s') -> store_inv n bag s'.
Proof.
  intros [Hm Hd] Hq E. destruct s' as [w' e']. unfold flush_all in E. rewrite (st_bind_Ret _ _ (w, e) e (w, e)) in E by done.
  assert (length (en_queue e) + length (map fst (map_to_list (en_memtables e))) <= FLUSH_QUEUE)%nat as Hq' by (by rewrite length_map, length_map_to_list).
  split; cbn [fst snd].
  - exact (flush_keys_mem b n bag.1 _ w e (Ret tt) w' e' (conj Hm Hq') E).
  - apply (flush_keys_disk base hours Hhours n bag.2 (map fst (map_to_list (en_memtables e))) w e w' e'); try done; [apply Hm|].
    apply List.Forall_forall. intros k Hk. apply in_map_iff in Hk as ([k' l] & <- & Hk). apply base.list_elem_of_In, elem_of_map_to_list in Hk. by apply (di_active _ _ _ _ _ Hd k' l).
Qed.

Lemma flush_simulates n bag w e req q m p s' : store_inv n bag (w, e) -> n + 2 < two64 -> en_queue e = req :: q -> en_heap e !! fr_imm req = Some m ->
  en_partitions e !! fr_partition req = Some p -> accepts_logs w p (decoded_logs m) -> flush_step (w, e) = (Ret tt, s') ->
  exists bag', bag_step LFlush bag bag' /\ store_inv (n + 1) bag' s'.
Proof.
  intros [Hm Hd] Hn Eq El Ep Ha E. destruct bag as [h st]. cbn [fst snd] in *. destruct (dequeue_mem b n h req q m e Hm Eq El) as (h' & Hp & Hm').
  destruct (log_table_drain n m) as (D1 & D2 & D3); [by apply (mi_tables _ _ _ _ Hm _ _ El)|].
  destruct (flush_step_logs w e req q m p Eq El Ep) as (w' & p' & meta & Ef & Hfl); [|done|done|done|apply Hd|].
  { rewrite D1. apply (mi_queued _ _ _ _ Hm req m); [rewrite Eq; by left|done]. }
  rewrite Ef in E. injection E as <-. exists (h', st ++ decoded_logs m). split; [by apply (bag_flush (decoded_logs m))|]. split; cbn [fst snd].
  - apply mem_inv_partition. eapply mem_inv_mono; [exact Hm'|lia].
  - by apply (flush_disk base hours Hhours n st w e req q m p w' p' meta).
Qed.

Lemma compact_simulates n bag w e key p bss ops s' : store_inv n bag (w, e) -> n + 2 < two64 -> en_partitions e !! key = Some p ->
  mergeable w (p_logs p) log_schema bss -> sstable_count (p_metrics p) < l0_compaction_trigger (en_config e) -> sstable_count (p_spans p) < l0_compaction_trigger (en_config e) ->
  on_partition key (compact_partition (l0_compaction_trigger (en_config e))) (w, e) = (Ret ops, s') -> store_inv (n + 1) bag s'.
Proof.
  intros [Hm Hd] Hn Ep Hmg H1 H2 E. unfold on_partition in E. rewrite Ep in E.
  destruct (compact_partition_logs _ w p bss Hmg H1 H2) as (ops' & w' & sp' & Ec & Hor). rewrite Ec in E. injection E as _ <-. split; cbn [fst snd].
  - apply mem_inv_partition. eapply mem_inv_mono; [exact Hm|lia].
  - destruct Hor as [Hc|[= -> ->]]; [by apply (compact_disk base hours Hhours n bag.2 w e key p bss)|].
    apply (disk_inv_memory _ _ Hhours (n + 1) _ w e); try done; [eapply disk_inv_mono; [exact Hd|lia]| |apply Hd].
    cbn [set_partitions en_partitions]. destruct p. by apply insert_id.
Qed.

(** Every step of the engine is a step of the abstract store. *)
Lemma step_simulates n bag s l s' : store_inv n bag s -> store_step s l s' -> n + weight [l] + 1 < two64 ->
  exists bag', bag_step l bag bag' /\ store_inv (n + weight [l]) bag' s'.
Proof.
  intros H Hs Hn. unfold weight in *. cbn [map zsum fold_right] in *. rewrite ?Z.add_0_r in *.
  destruct Hs as [rs s s' Hrs E Hq|s s' Hq E|s s' Hq E|w e req q m p s' Eq El Ep Ha E|w e key p bss ops s' Ep Hm H1 H2 E].
  - destruct s as [w e], s' as [w' e'], H as [Hm Hd]. destruct bag as [h st]. cbn [fst snd] in *. unfold write_batch in E.
    rewrite (st_bind_Ret _ _ (w, e) e (w, e)) in E by done. destruct (en_closed e); [done|]. rewrite ?Z.add_0_r in *. pose proof (zlen_nonneg rs).
    exists (rs ++ h, st). split; [by apply bag_accept|]. split; cbn [fst snd].
    + eapply write_logs_mem; [done|lia|done|exact E|done].
    + eapply disk_inv_mono; [eapply (write_logs_disk base hours Hhours); [apply (mi_nonneg _ _ _ _ Hm)|exact Hrs|exact Hd|exact E]|lia].
  - destruct s as [w e], bag as [h st]. exists (h, st). split; [by apply bag_seal|]. apply (seal_simulates n (h, st)) in E; [|done|done].
    destruct E as [Em Ed]. split; [eapply mem_inv_mono; [exact Em|lia]|eapply disk_inv_mono; [exact Ed|lia]].
  - destruct s as [w e], bag as [h st]. exists (h, st). split; [by apply bag_seal|]. unfold close in E. erewrite st_bind_Ret in E by reflexivity.
    apply (seal_simulates n (h, st)) in E; [|by apply store_inv_closed|done].
    destruct E as [Em Ed]. split; [eapply mem_inv_mono; [exact Em|lia]|eapply disk_inv_mono; [exact Ed|lia]].
  - eapply flush_simulates; eauto; lia.
  - destruct bag as [h st]. exists (h, st). split; [constructor|]. eapply compact_simulates; eauto; lia.
Qed.

Lemma run_simulates bag s ls s' : store_inv 0 bag s -> store_run s ls s' -> weight ls + 1 < two64 ->
  exists bag', bag_run bag ls bag' /\ store_inv (weight ls) bag' s'.
Proof.
  intros H Hr. induction Hr as [s|s ls s1 l s2 _ IH Hs]; intros Hw; [exists bag; by split; [constructor|]|].
  rewrite weight_snoc in *. pose proof (weight_nonneg [l]). destruct (IH H ltac:(lia)) as (bag1 & Hb1 & H1).
  destruct (step_simulates (weight ls) bag1 s1 l s2 H1 Hs) as (bag2 & Hb2 & H2); [lia|]. exists bag2. split; [by eapply bag_snoc|done].
Qed.
End Simulation.

(** What a query finds. *)
Lemma paths_query {libs : EngineLibs} {kernels : Kernels} {slices : SliceKernel} {sorts : SortKernels} {laws : SortLaws sorts} now c w e rows :
  (forall q, In q (log_paths (en_partitions e)) -> holds_rows w q log_schema (rows q)) ->
  exists outs, execute now "SELECT * FROM logs" e c w = (Ret outs, w) /\ batches_rows outs = concat (map rows (log_paths (en_partitions e))).
Proof.
  intros Hr. rewrite <- paths_of_logs in *.
  assert (exists files, reads w (Z.to_nat 8192) (sstable_paths_for_signal e 0 []) files /\ Forall (has_schema log_schema) (concat files) /\
    batches_rows (concat files) = concat (map rows (sstable_paths_for_signal e 0 []))) as (files & Hf & Hs & Hrows).
  { induction (sstable_paths_for_signal e 0 []) as [|q paths IH]; [exists []; by repeat split; constructor|].
    destruct IH as (files & Hf & Hs & Hrs); [intros x Hx; apply Hr; by right|]. destruct (Hr q (or_introl eq_refl) (Z.to_nat 8192) ltac:(lia)) as (out & Ho & Hso & Hro).
    exists (out :: files). split_and!; [by constructor|cbn [concat]; apply Forall_app; by split|]. cbn [concat map]. unfold batches_rows in *. by rewrite map_app, concat_app, Hro, Hrs. }
  destruct (query_all_logs now c e w files Hf Hs) as (outs & Hx & Ho). exists outs. split; [done|]. by rewrite Ho, Hrows.
Qed.

Lemma disk_query {libs : EngineLibs} {kernels : Kernels} {slices : SliceKernel} {sorts : SortKernels} {laws : SortLaws sorts}
    now c base hours n stored w e : disk_inv base hours n stored (w, e) ->
  exists outs, execute now "SELECT * FROM logs" e c w = (Ret outs, w) /\ batches_rows outs ≡ₚ map log_cells stored.
Proof.
  intros H. destruct (di_rows _ _ _ _ _ H) as (rows & Hr & Hp). destruct (paths_query now c w e rows Hr) as (outs & Hx & Ho).
  exists outs. split; [done|]. by rewrite Ho.
Qed.

(** An engine just opened over a disk without log files. *)
Lemma open_store_inv {libs : EngineLibs} config w0 e w1 :
  engine_open config w0 = (Ret e, w1) -> 0 < partition_hours config -> partition_hours config * 3600 * 1000000000 < two64 -> healthy w0 ->
  (forall k name, fs_files w0 !! (log_dir (data_dir config) k, name) = None) ->
  store_inv (data_dir config) (partition_hours config) 0 ([], []) (w1, e).
Proof.
  intros Ho Hh Hb Hw Hf. pose proof (engine_open_inv config w0 e w1 Ho) as Hi. unfold bucket_of in Hi.
  assert (wrap_u64 (wrap_u64 (partition_hours config * 3600) * 1000000000) = partition_hours config * 3600 * 1000000000) as Eb.
  { rewrite (wrap_u64_small (partition_hours config * 3600)) by int_lia. by rewrite wrap_u64_small by int_lia. }
  rewrite Eb in Hi. unfold engine_open in Ho. apply st_bind_inv in Ho as (? & w2 & Hc & Ho). injection Ho as <- <-.
  pose proof (create_dir_kept _ _ _ _ Hc) as Hk. unfold create_dir_all in Hc. rewrite syscall_healthy in Hc by done. injection Hc as _ <-. split.
  - by split.
  - split; cbn [fst snd en_bucket_ns en_config en_memtables en_partitions en_wals]; try done. exists (fun _ => []). unfold log_paths. by rewrite map_to_list_empty.
Qed.

(** ** Restarting *)

Section Restart.
Context {libs : EngineLibs} (base : string) (hours : Z).
Hypothesis Hhours : 0 < hours.

(** The scan of a directory finds the tables of its partition. *)
Lemma scan_finds n k sp w : part_ok base n k sp -> n + 1 < two64 -> zones_ok base w k sp ->
  map sm_seq (filter_map (entry_meta (log_dir base k) (fs_files w)) (dir_entries (log_dir base k) w)) ≡ₚ map sm_seq (sp_sstables sp).
Proof.
  intros [_ Hs Ht] Hn [H1 H2 H3]. rewrite List.Forall_forall in Ht. set (d := log_dir base k) in *.
  assert (forall name m, entry_meta d (fs_files w) name = Some m -> exists t, In t (sp_sstables sp) /\ sm_seq m = sm_seq t /\ name = (pad6 (sm_seq t) ++ ".zonemap")%string) as Hentry.
  { intros name m. unfold entry_meta. destruct (is_zonemap name) eqn:Hz; [|done]. destruct (fs_files w !! (d, name)) as [bs|] eqn:Eb; [|done]. cbn.
    destruct (deserialize bs); [|done]. intros [= <-]. destruct (H2 name bs Hz Eb) as (t & Hin & E). injection E as _ ->. exists t. split_and!; [done| |done].
    apply zonemap_name. destruct (Ht _ Hin). int_lia. }
  apply NoDup_Permutation; [| |].
  - apply NoDup_ListNoDup. rewrite filter_map_fmap. apply NoDup_filter_map; [apply dir_entries_nodup|]. intros n1 n2 y _ _ E1 E2.
    destruct (entry_meta d (fs_files w) n1) as [m1|] eqn:F1; [|done]. destruct (entry_meta d (fs_files w) n2) as [m2|] eqn:F2; [|done]. cbn in E1, E2. injection E1 as E1. injection E2 as E2.
    destruct (Hentry _ _ F1) as (t1 & _ & S1 & ->), (Hentry _ _ F2) as (t2 & _ & S2 & ->). by rewrite <- S1, <- S2, E1, E2.
  - by apply NoDup_ListNoDup.
  - intros q. rewrite !base.list_elem_of_In, !in_map_iff. split.
    + intros (m & <- & Hm). apply in_filter_map in Hm as (name & _ & Hm). destruct (Hentry _ _ Hm) as (t & Hin & -> & _). eauto.
    + intros (t & <- & Hin). destruct (H1 t Hin) as (zb & Ez & Hd), (Ht _ Hin) as [Hdir Hts]. destruct (zonemap_name (sm_seq t)) as [Hz Hst]; [int_lia|].
      unfold meta_zonemap_path, zonemap_path in Ez. rewrite Hdir in Ez. fold d in Ez.
      eexists {| sm_seq := sm_seq t |}. split; [done|]. apply in_filter_map. exists (pad6 (sm_seq t) ++ ".zonemap")%string. split; [apply dir_entries_in; eauto|].
      unfold entry_meta. rewrite Hz, Ez. cbn. rewrite Hd. cbn. by rewrite Hst.
Qed.

Lemma p_open_finds n k p w p' w' : part_ok base n k (p_logs p) -> n + 1 < two64 -> healthy w -> zones_ok base w k (p_logs p) ->
  p_open base k w = (Ret p', w') -> log_tables p' ≡ₚ log_tables p.
Proof.
  intros Hok Hn Hh Hz E. unfold p_open in E. apply st_bind_inv in E as (? & w1 & E1 & E). apply st_bind_inv in E as (logs & w2 & E2 & E).
  apply st_bind_inv in E as (ms & w3 & _ & E). apply st_bind_inv in E as (ss & w4 & _ & E). injection E as <- _.
  pose proof (create_dir_kept _ _ _ _ E1) as Hk. unfold create_dir_all in E1. rewrite syscall_healthy in E1 by done. injection E1 as _ E1.
  assert (healthy w1) as Hh1 by (rewrite <- E1; done). change (join (join (join base "partitions") (dir_name k)) "logs") with (log_dir base k) in E2.
  rewrite sp_open_healthy in E2 by done. injection E2 as <- _. unfold log_tables. cbn [p_logs sp_sstables].
  assert (zones_ok base w1 k (p_logs p)) as Hz1 by (eapply zones_same; [exact Hok|by intros; rewrite Hk|done]).
  destruct (sort_by_key_spec sm_seq (filter_map (entry_meta (log_dir base k) (fs_files w1)) (dir_entries (log_dir base k) w1))) as [_ Hperm].
  rewrite (Permutation_map meta_parquet_path Hperm). pose proof (scan_finds n k (p_logs p) w1 Hok Hn Hz1) as Hs.
  apply (Permutation_map (parquet_path (log_dir base k))) in Hs. rewrite !map_map in Hs.
  assert (forall ts, (forall t, In t ts -> sm_dir t = log_dir base k) -> map meta_parquet_path ts = map (fun t => parquet_path (log_dir base k) (sm_seq t)) ts) as Hd.
  { intros ts Hts. apply map_ext_in. intros t Hin. unfold meta_parquet_path. by rewrite Hts. }
  rewrite !Hd; [done| |].
  - intros t Hin. pose proof (po_tables _ _ _ _ Hok) as Ht. rewrite List.Forall_forall in Ht. by apply Ht.
  - intros t Hin. apply in_filter_map in Hin as (name & _ & Hin). unfold entry_meta in Hin. destruct (is_zonemap name); [|done].
    destruct (fs_files w1 !! (log_dir base k, name)); [|done]. cbn in Hin. destruct (deserialize l); [|done]. by injection Hin as <-.
Qed.

(** Opening partitions again, as the first write into each does. *)
Definition reopen (keys : list Z) : eio unit := st_iter (fun k => _ ← get_or_create_partition k; mret tt) keys.

Definition tables_of (e : Engine) (k : Z) : list path := match en_partitions e !! k with Some p => log_tables p | None => [] end.

Lemma reopen_finds n stored w e keys : disk_inv base hours n stored (w, e) -> n + 1 < two64 -> List.NoDup keys -> (forall k, In k keys -> is_Some (en_partitions e !! k)) ->
  forall w1 e1, healthy w1 -> fs_files w1 = fs_files w -> data_dir (en_config e1) = base -> (forall k, In k keys -> en_partitions e1 !! k = None) ->
  exists w2 e2, reopen keys (w1, e1) = (Ret tt, (w2, e2)) /\ healthy w2 /\ fs_files w2 = fs_files w /\
    log_paths (en_partitions e2) ≡ₚ concat (map (tables_of e) keys) ++ log_paths (en_partitions e1).
Proof.
  intros H Hn. induction 1 as [|k keys Hk _ IH]; intros Hkeys w1 e1 Hh Hf Hb Hnone; [by exists w1, e1|].
  destruct (Hkeys k (or_introl eq_refl)) as [p Hp]. destruct (p_open_ok base k w1 Hh) as (p' & w1' & Eo & Hh' & Hf' & _).
  assert (log_tables p' ≡ₚ tables_of e k) as Ht.
  { unfold tables_of. rewrite Hp. eapply p_open_finds; [by apply (di_parts _ _ _ _ _ H)|done|exact Hh| |exact Eo].
    eapply zones_same; [by apply (di_parts _ _ _ _ _ H)|by intros; rewrite Hf|by apply (di_zones _ _ _ _ _ H)]. }
  destruct (IH ltac:(intros; apply Hkeys; by right) w1' (set_partitions (<[k := p']>) e1)) as (w2 & e2 & E2 & Hh2 & Hf2 & Hp2); [done|congruence|done| |].
  { intros k' Hin. cbn [set_partitions en_partitions]. rewrite lookup_insert_ne by congruence. apply Hnone. by right. }
  exists w2, e2. split_and!; [|done|done|].
  - unfold reopen in *. cbn [st_iter]. rewrite (st_bind_Ret _ _ (w1, e1) tt (w1', set_partitions (<[k := p']>) e1)); [done|].
    rewrite (st_bind_Ret _ _ (w1, e1) p' (w1', set_partitions (<[k := p']>) e1)); [done|].
    unfold get_or_create_partition. rewrite (st_bind_Ret _ _ (w1, e1) e1 (w1, e1)) by done. rewrite (Hnone k) by (by left).
    rewrite (st_bind_Ret _ _ (w1, e1) p' (w1', e1)); [done|]. unfold or_panic. rewrite Hb. by rewrite (on_fs_Ret _ _ _ _ _ Eo).
  - rewrite Hp2. cbn [set_partitions en_partitions map concat]. rewrite log_paths_insert, delete_id by (apply Hnone; by left).
    rewrite Ht. rewrite <- app_assoc. apply Permutation_app_swap_app.
Qed.

(** All partitions. *)
Lemma tables_of_all e : concat (map (tables_of e) (map fst (map_to_list (en_partitions e)))) = log_paths (en_partitions e).
Proof.
  unfold log_paths. rewrite map_map. f_equal. apply map_ext_in. intros [k p] Hin. apply base.list_elem_of_In, elem_of_map_to_list in Hin.
  unfold tables_of. cbn. by rewrite Hin.
Qed.
End Restart.

(** A run of the engine and the run of the abstract store it implements. *)
Lemma store_run_refines {libs : EngineLibs} {kernels : Kernels} {slices : SliceKernel} {sorts : SortKernels} {laws : SortLaws sorts}
    now c config w0 e w1 ls s :
  engine_open config w0 = (Ret e, w1) -> 0 < partition_hours config -> partition_hours config * 3600 * 1000000000 < two64 -> healthy w0 ->
  (forall k name, fs_files w0 !! (log_dir (data_dir config) k, name) = None) ->
  store_run (w1, e) ls s -> weight ls + 1 < two64 ->
  exists h st outs, bag_run ([], []) ls (h, st) /\ held (snd s) ≡ₚ h /\ h ++ st ≡ₚ accepted ls /\
    execute now "SELECT * FROM logs" (snd s) c (fst s) = (Ret outs, fst s) /\ batches_rows outs ≡ₚ map log_cells st /\
    (en_memtables (snd s) = ∅ -> en_queue (snd s) = [] -> batches_rows outs ≡ₚ map log_cells (accepted ls)).
Proof.
  intros Ho Hh Hb Hw Hf Hr Hn. pose proof (open_store_inv config w0 e w1 Ho Hh Hb Hw Hf) as Hi.
  destruct (run_simulates _ _ Hh _ _ _ _ Hi Hr Hn) as ([h st] & Hbag & Hm & Hd). destruct s as [w2 e2]. cbn [fst snd] in *.
  destruct (disk_query now c _ _ _ _ _ _ Hd) as (outs & Hx & Hrows). pose proof (mi_held _ _ _ _ Hm) as Hheld.
  pose proof (bag_run_conserves _ _ _ Hbag) as Hc. cbn [fst snd app] in Hc. rewrite app_nil_r in Hc.
  exists h, st, outs. split_and!; try done. intros Em Eq. unfold held, locations in Hheld. rewrite Em, Eq, map_to_list_empty in Hheld.
  apply Permutation_nil in Hheld. subst h. by rewrite Hrows, <- Hc.
Qed.

(** C2: the engine is a bag of logs.  Open it on a healthy disk without log
    files, with partitions of a positive number of hours, and run it in any
    order of the steps of [store_step]: acknowledged batches of log records
    that bincode reads back (records without bodies and attributes), after
    which the flush queue still has room; [flush_all] or [close] while the
    queue has room for every active table; turns of the flush worker on
    tables whose files the disk takes; and merges by the compaction worker
    that succeed; fewer than 2^64 records and steps in all.  The run is a run
    of the abstract store, which only adds accepted records to the
    held ones and moves held ones to the stored ones: the tables in memory
    hold the first, and the text SELECT * FROM logs gives one row for each of
    the second; together they are the accepted records, each once, and once
    nothing is active or queued the query gives all of them. *)
Theorem log_store_refines {libs : EngineLibs} {kernels : Kernels} {slices : SliceKernel} {sorts : SortKernels} {laws : SortLaws sorts}
    now c config w0 e w1 ls s :
  engine_open config w0 = (Ret e, w1) -> 0 < partition_hours config -> partition_hours config * 3600 * 1000000000 < two64 -> healthy w0 ->
  (forall k name, fs_files w0 !! (log_dir (data_dir config) k, name) = None) ->
  store_run (w1, e) ls s -> weight ls + 1 < two64 ->
  exists h st outs, bag_run ([], []) ls (h, st) /\ held (snd s) ≡ₚ h /\ h ++ st ≡ₚ accepted ls /\
    execute now "SELECT * FROM logs" (snd s) c (fst s) = (Ret outs, fst s) /\ batches_rows outs ≡ₚ map log_cells st /\
    (en_memtables (snd s) = ∅ -> en_queue (snd s) = [] -> batches_rows outs ≡ₚ map log_cells (accepted ls)).
Proof. apply store_run_refines. Qed.

(** C35: a restart hides what was flushed until its hour is written again.
    After any run of the log store (the steps of [store_step], with their
    conditions), open the engine again on the disk it left: the text SELECT * FROM logs gives no rows, whatever is stored,
    since opening reads no directory and a query lists opened partitions
    only.  The tables are not lost: once the partitions have been opened
    again, as the first write into each of them does, the query gives the
    rows it gave before the restart; the records that were in memory are not
    among them, for no log is replayed. *)
Theorem restart_hides_stored {libs : EngineLibs} {kernels : Kernels} {slices : SliceKernel} {sorts : SortKernels} {laws : SortLaws sorts}
    now c config w0 e w1 ls s :
  engine_open config w0 = (Ret e, w1) -> 0 < partition_hours config -> partition_hours config * 3600 * 1000000000 < two64 -> healthy w0 ->
  (forall k name, fs_files w0 !! (log_dir (data_dir config) k, name) = None) ->
  store_run (w1, e) ls s -> weight ls + 1 < two64 ->
  exists before w2 e2 none w3 e3 after, execute now "SELECT * FROM logs" (snd s) c (fst s) = (Ret before, fst s) /\
    engine_open config (fst s) = (Ret e2, w2) /\ execute now "SELECT * FROM logs" e2 c w2 = (Ret none, w2) /\ batches_rows none = [] /\
    reopen (map fst (map_to_list (en_partitions (snd s)))) (w2, e2) = (Ret tt, (w3, e3)) /\
    execute now "SELECT * FROM logs" e3 c w3 = (Ret after, w3) /\ batches_rows after ≡ₚ batches_rows before.
Proof.
  intros Ho Hh Hb Hw Hf Hr Hn. pose proof (open_store_inv config w0 e w1 Ho Hh Hb Hw Hf) as Hi.
  destruct (run_simulates _ _ Hh _ _ _ _ Hi Hr Hn) as ([h st] & _ & _ & Hd). destruct s as [w e']. cbn [fst snd] in *.
  destruct (di_rows _ _ _ _ _ Hd) as (rows & Hrows & _). cbn [fst snd] in Hrows. destruct (paths_query now c w e' rows Hrows) as (before & Hx & Hbefore).
  pose proof (di_healthy _ _ _ _ _ Hd) as Hhw. cbn [fst] in Hhw.
  assert (exists e2 w2, engine_open config w = (Ret e2, w2) /\ healthy w2 /\ fs_files w2 = fs_files w /\ en_partitions e2 = ∅ /\ en_config e2 = config)
    as (e2 & w2 & Eo & Hh2 & Hf2 & Hp2 & Hc2).
  { unfold engine_open, create_dir_all. eexists _, _. split; [erewrite st_bind_Ret; [reflexivity|by rewrite syscall_healthy]|done]. }
  destruct (query_all_logs now c e2 w2 []) as (outs & Hx2 & Ho2).
  { rewrite paths_of_logs, Hp2. unfold log_paths. rewrite map_to_list_empty. constructor. }
  { constructor. }
  destruct (reopen_finds _ _ (weight ls) st w e' (map fst (map_to_list (en_partitions e'))) Hd Hn) with (w1 := w2) (e1 := e2) as (w3 & e3 & Er & Hh3 & Hf3 & Hp3); [| |done|done|by rewrite Hc2| |].
  { apply NoDup_ListNoDup, NoDup_fst_map_to_list. }
  { intros k Hk. apply in_map_iff in Hk as ([k' p] & <- & Hk). apply base.list_elem_of_In, elem_of_map_to_list in Hk. eauto. }
  { intros k _. by rewrite Hp2. }
  rewrite tables_of_all, Hp2 in Hp3. unfold log_paths at 3 in Hp3. rewrite map_to_list_empty in Hp3. cbn [map concat] in Hp3. rewrite app_nil_r in Hp3.
  destruct (paths_query now c w3 e3 rows) as (after & Hx3 & Ho3).
  { intros q Hq. rewrite Hp3 in Hq. apply (holds_rows_same w); [done|done|by rewrite Hf3|by apply Hrows]. }
  exists before, w2, e2, outs, w3, e3, after. split_and!; [done|done|done|by rewrite Ho2|done|done|]. by rewrite Ho3, Hbefore, Hp3.
Qed.

(** ** Two records, written, sealed, flushed and queried *)

Definition store_room : nat := fs_room (log_disk [log_at 5; log_at 7]).

Definition store_written (n : nat) : Fs * Engine := snd (@write_batch engine_reference two_logs (opened_disk n, opened 100000)).
Definition store_sealed (n : nat) : Fs * Engine := snd (@flush_all engine_reference (store_written n)).

Definition store_table : MemTable := insert_all (MemTable.new 100000) [(5, 0, encode_log (log_at 5)); (7, 0, encode_log (log_at 7))].
Definition store_partition : Partition :=
  {| p_key := 0; p_dir := "d/partitions/0"; p_logs := {| sp_dir := "d/partitions/0/logs"; sp_sstables := []; sp_next_seq := 1 |};
     p_metrics := {| sp_dir := "d/partitions/0/metrics"; sp_sstables := []; sp_next_seq := 1 |};
     p_spans := {| sp_dir := "d/partitions/0/spans"; sp_sstables := []; sp_next_seq := 1 |} |}.

Lemma store_runs n :
  @write_batch engine_reference two_logs (opened_disk n, opened 100000) = (Ret tt, store_written n) /\
  length (en_queue (snd (store_written n))) = 0%nat /\ size (en_memtables (snd (store_written n))) = 1%nat /\
  @flush_all engine_reference (store_written n) = (Ret tt, store_sealed n) /\
  en_queue (snd (store_sealed n)) = [{| fr_imm := 0; fr_partition := 0 |}] /\ en_memtables (snd (store_sealed n)) = ∅ /\
  en_heap (snd (store_sealed n)) = [store_table] /\ en_partitions (snd (store_sealed n)) !! 0 = Some store_partition /\
  fs_room (fst (store_sealed n)) = n /\ fs_faults (fst (store_sealed n)) = [] /\
  bool_decide ("d/partitions/0/logs"%string ∈ fs_dirs (fst (store_sealed n))) = true.
Proof. vm_compute. by repeat split. Qed.

Lemma store_table_decoded : @decoded_logs engine_reference store_table = [log_at 5; log_at 7].
Proof.
  destruct (@decoded_of_arrivals engine_reference 100000 [(5, 0, encode_log (log_at 5)); (7, 0, encode_log (log_at 7))] encode_log [log_at 5; log_at 7]) as [E _];
    [reflexivity|reflexivity| |exact E]. intros r [<-|[<-|[]]]; apply log_at_roundtrips.
Qed.

Definition store_labels : list label := [LAccept [log_at 5; log_at 7]; LSeal; LFlush].

Lemma store_flushes :
  exists s, @store_run engine_reference (opened_disk store_room, opened 100000) store_labels s /\ en_memtables (snd s) = ∅ /\ en_queue (snd s) = [] /\
    map fst (map_to_list (en_partitions (snd s))) <> [].
Proof.
  destruct (store_runs store_room) as (E1 & Q1 & M1 & E2 & Q2 & M2 & H2 & P2 & R2 & F2 & D2). set (s2 := store_sealed store_room) in *. destruct s2 as [w2 e2]. cbn [fst snd] in *.
  assert (@accepts_logs engine_reference w2 store_partition (@decoded_logs engine_reference store_table)) as Ha.
  { rewrite store_table_decoded. destruct (log_disk_accepts [log_at 5; log_at 7]) as (_ & _ & Hb & Hroom); [vm_compute; reflexivity|].
    split_and!; [done|by apply bool_decide_eq_true in D2|exact Hb|]. rewrite R2. exact Hroom. }
  destruct (@flush_step_logs engine_reference w2 e2 {| fr_imm := 0; fr_partition := 0 |} [] store_table store_partition) as (w' & p' & meta & Ef & _);
    [done|by rewrite H2|done|vm_compute; discriminate|vm_compute; reflexivity|vm_compute; reflexivity|done|done|].
  eexists. split.
  - apply (@run_snoc engine_reference _ [LAccept [log_at 5; log_at 7]; LSeal] (w2, e2)).
    + apply (@run_snoc engine_reference _ [LAccept [log_at 5; log_at 7]] (store_written store_room)).
      * apply (@run_snoc engine_reference _ [] (opened_disk store_room, opened 100000)); [apply run_nil|]. apply store_accept; [|exact E1|rewrite Q1; unfold FLUSH_QUEUE; lia].
        repeat constructor; try (intros d [= <-]; apply log_at_roundtrips); done.
      * apply store_seal; [rewrite Q1, M1; unfold FLUSH_QUEUE; lia|exact E2].
    + eapply (@store_flush engine_reference w2 e2 {| fr_imm := 0; fr_partition := 0 |} [] store_table store_partition); [done|by rewrite H2|done|exact Ha|exact Ef].
  - cbn [snd set_partitions set_queue en_memtables en_queue en_partitions]. split_and!; [done|done|]. intros E. apply map_eq_nil, map_to_list_empty_iff in E.
    by apply insert_non_empty in E.
Qed.

Lemma log_store_refines_witness :
  exists s outs, @store_run engine_reference (opened_disk store_room, opened 100000) store_labels s /\
    @execute engine_reference kernels_reference slices_reference sorts_reference clock_ticks "SELECT * FROM logs" (snd s) catalog_new (fst s) = (Ret outs, fst s) /\
    batches_rows outs ≡ₚ [log_row 5; log_row 7].
Proof.
  destruct store_flushes as (s & Hr & Hm & Hq & _).
  destruct (@log_store_refines engine_reference kernels_reference slices_reference sorts_reference sort_laws_reference clock_ticks catalog_new
    (test_config 100000) (empty_disk store_room) (opened 100000) (opened_disk store_room) store_labels s)
    as (h & st & outs & _ & _ & _ & H3 & _ & H4).
  - reflexivity.
  - reflexivity.
  - reflexivity.
  - reflexivity.
  - intros k name. reflexivity.
  - exact Hr.
  - reflexivity.
  - exists s, outs. split; [exact Hr|]. split; [exact H3|]. exact (H4 Hm Hq).
Defined.

Lemma restart_hides_stored_witness :
  exists s before w2 e2 none w3 e3 after, @store_run engine_reference (opened_disk store_room, opened 100000) store_labels s /\
    batches_rows before ≡ₚ [log_row 5; log_row 7] /\
    engine_open (test_config 100000) (fst s) = (Ret e2, w2) /\
    @execute engine_reference kernels_reference slices_reference sorts_reference clock_ticks "SELECT * FROM logs" e2 catalog_new w2 = (Ret none, w2) /\ batches_rows none = [] /\
    @reopen engine_reference (map fst (map_to_list (en_partitions (snd s)))) (w2, e2) = (Ret tt, (w3, e3)) /\
    @execute engine_reference kernels_reference slices_reference sorts_reference clock_ticks "SELECT * FROM logs" e3 catalog_new w3 = (Ret after, w3) /\
    batches_rows after ≡ₚ batches_rows before.
Proof.
  destruct store_flushes as (s & Hr & Hm & Hq & _).
  destruct (@store_run_refines engine_reference kernels_reference slices_reference sorts_reference sort_laws_reference clock_ticks catalog_new
    (test_config 100000) (empty_disk store_room) (opened 100000) (opened_disk store_room) store_labels s)
    as (h & st & outs & _ & _ & _ & H3 & _ & H4); try reflexivity; [exact Hr|].
  destruct (@restart_hides_stored engine_reference kernels_reference slices_reference sorts_reference sort_laws_reference clock_ticks catalog_new
    (test_config 100000) (empty_disk store_room) (opened 100000) (opened_disk store_room) store_labels s)
    as (before & w2 & e2 & none & w3 & e3 & after & Hb & H); try reflexivity; [exact Hr|].
  rewrite H3 in Hb. injection Hb as <-. exists s, outs, w2, e2, none, w3, e3, after. split; [exact Hr|]. split; [exact (H4 Hm Hq)|exact H].
Defined.
