(* ===== verification/Otlp.v ===== *)
(** * OTLP messages

    The protobuf messages of [proto/opentelemetry/proto], as the structs the
    build generates from them: a message field is an [option], a repeated
    field a list, an enumeration its [i32], a [oneof] an [option] of its
    alternatives.  [bytes] are lists of bytes and the [fixed64] times are
    [u64]s.  The names follow the imports of the normaliser. *)

From Stdlib Require Import ZArith Lia.
From stdpp Require Import base tactics list numbers option strings gmap.
From S2P Require Import Prelude Text Float64 Model.

(** ** Common *)

(** [KeyValue], over the type of its value. *)
Record keyed (V : Type) := { kv_key : string; kv_value : option V }.
Arguments kv_key {V} _.
Arguments kv_value {V} _.
Arguments Build_keyed {V} _ _.

(** [AnyValue]: the [oneof] with its absent case. *)
Inductive ProtoAnyValue : Type :=
| NoValue
| StringValue (s : string)
| BoolValue (b : bool)
| IntValue (i : Z)
| DoubleValue (d : f64)
| ArrayValue (values : list ProtoAnyValue)
| KvlistValue (values : list (keyed ProtoAnyValue))
| BytesValue (bs : list Z).

Abbreviation KeyValue := (keyed ProtoAnyValue).

Record ProtoScope := {
  ps_name : string;
  ps_version : string;
  ps_attributes : list KeyValue;
  ps_dropped_attributes_count : Z
}.

Record Resource := { res_attributes : list KeyValue; res_dropped_attributes_count : Z }.

(** ** Logs *)

Record ProtoLog := {
  pl_time_unix_nano : Z;
  pl_observed_time_unix_nano : Z;
  pl_severity_number : Z;
  pl_severity_text : string;
  pl_body : option ProtoAnyValue;
  pl_attributes : list KeyValue;
  pl_dropped_attributes_count : Z;
  pl_flags : Z;
  pl_trace_id : list Z;
  pl_span_id : list Z
}.

Record ScopeLogs := {
  sc_scope : option ProtoScope;
  sc_log_records : list ProtoLog;
  sc_schema_url : string
}.

Record ResourceLogs := {
  rl_resource : option Resource;
  rl_scope_logs : list ScopeLogs;
  rl_schema_url : string
}.

(** ** Metrics *)

(** The [oneof] of a number data point or an exemplar. *)
Inductive NumberValue := AsDouble (d : f64) | AsInt (i : Z).

Record Exemplar := {
  ex_filtered_attributes : list KeyValue;
  ex_time_unix_nano : Z;
  ex_value : option NumberValue;
  ex_span_id : list Z;
  ex_trace_id : list Z
}.

Record NumberDataPoint := {
  nd_attributes : list KeyValue;
  nd_start_time_unix_nano : Z;
  nd_time_unix_nano : Z;
  nd_value : option NumberValue;
  nd_exemplars : list Exemplar;
  nd_flags : Z
}.

Record HistogramDataPoint := {
  hp_attributes : list KeyValue;
  hp_start_time_unix_nano : Z;
  hp_time_unix_nano : Z;
  hp_count : Z;
  hp_sum : option f64;
  hp_bucket_counts : list Z;
  hp_explicit_bounds : list f64;
  hp_exemplars : list Exemplar;
  hp_flags : Z;
  hp_min : option f64;
  hp_max : option f64
}.

Record Buckets := { bk_offset : Z; bk_bucket_counts : list Z }.

Record ExponentialHistogramDataPoint := {
  eh_attributes : list KeyValue;
  eh_start_time_unix_nano : Z;
  eh_time_unix_nano : Z;
  eh_count : Z;
  eh_sum : option f64;
  eh_scale : Z;
  eh_zero_count : Z;
  eh_positive : option Buckets;
  eh_negative : option Buckets;
  eh_flags : Z;
  eh_exemplars : list Exemplar;
  eh_min : option f64;
  eh_max : option f64
}.

Record ValueAtQuantile := { vq_quantile : f64; vq_value : f64 }.

Record SummaryDataPoint := {
  sd_attributes : list KeyValue;
  sd_start_time_unix_nano : Z;
  sd_time_unix_nano : Z;
  sd_count : Z;
  sd_sum : f64;
  sd_quantile_values : list ValueAtQuantile;
  sd_flags : Z
}.

(** [metric::Data], with the messages of its alternatives in place. *)
Inductive MetricData :=
| DGauge (data_points : list NumberDataPoint)
| DSum (data_points : list NumberDataPoint) (aggregation_temporality : Z) (is_monotonic : bool)
| DHistogram (data_points : list HistogramDataPoint) (aggregation_temporality : Z)
| DExponentialHistogram (data_points : list ExponentialHistogramDataPoint) (aggregation_temporality : Z)
| DSummary (data_points : list SummaryDataPoint).

Record ProtoMetric := {
  pm_name : string;
  pm_description : string;
  pm_unit : string;
  pm_data : option MetricData
}.

Record ScopeMetrics := {
  sm_scope : option ProtoScope;
  sm_metrics : list ProtoMetric;
  sm_schema_url : string
}.

Record ResourceMetrics := {
  rm_resource : option Resource;
  rm_scope_metrics : list ScopeMetrics;
  rm_schema_url : string
}.

(** ** Traces *)

Record ProtoEvent := {
  pe_time_unix_nano : Z;
  pe_name : string;
  pe_attributes : list KeyValue;
  pe_dropped_attributes_count : Z
}.

Record ProtoLink := {
  pk_trace_id : list Z;
  pk_span_id : list Z;
  pk_trace_state : string;
  pk_attributes : list KeyValue;
  pk_dropped_attributes_count : Z;
  pk_flags : Z
}.

Record Status := { st_message : string; st_code : Z }.

Record ProtoSpan := {
  sp_trace_id : list Z;
  sp_span_id : list Z;
  sp_trace_state : string;
  sp_parent_span_id : list Z;
  sp_name : string;
  sp_kind : Z;
  sp_start_time_unix_nano : Z;
  sp_end_time_unix_nano : Z;
  sp_attributes : list KeyValue;
  sp_dropped_attributes_count : Z;
  sp_events : list ProtoEvent;
  sp_dropped_events_count : Z;
  sp_links : list ProtoLink;
  sp_dropped_links_count : Z;
  sp_status : option Status;
  sp_flags : Z
}.

Record ScopeSpans := {
  ss_scope : option ProtoScope;
  ss_spans : list ProtoSpan;
  ss_schema_url : string
}.

Record ResourceSpans := {
  rs_resource : option Resource;
  rs_scope_spans : list ScopeSpans;
  rs_schema_url : string
}.

(** ** Induction on attribute values *)

Definition kv_all (P : ProtoAnyValue -> Prop) (kv : KeyValue) : Prop :=
  match kv_value kv with Some v => P v | None => True end.

Section ProtoAnyValueInd.
Variable P : ProtoAnyValue -> Prop.
Hypothesis H_none : P NoValue.
Hypothesis H_string : forall s, P (StringValue s).
Hypothesis H_bool : forall b, P (BoolValue b).
Hypothesis H_int : forall i, P (IntValue i).
Hypothesis H_double : forall d, P (DoubleValue d).
Hypothesis H_array : forall vs, Forall P vs -> P (ArrayValue vs).
Hypothesis H_kvlist : forall kvs, Forall (kv_all P) kvs -> P (KvlistValue kvs).
Hypothesis H_bytes : forall bs, P (BytesValue bs).

Fixpoint ProtoAnyValue_ind' (v : ProtoAnyValue) : P v :=
  match v with
  | NoValue => H_none
  | StringValue s => H_string s
  | BoolValue b => H_bool b
  | IntValue i => H_int i
  | DoubleValue d => H_double d
  | ArrayValue vs => H_array vs
      ((fix go l : Forall P l :=
          match l with
          | [] => List.Forall_nil _
          | x :: l => List.Forall_cons _ _ _ (ProtoAnyValue_ind' x) (go l)
          end) vs)
  | KvlistValue kvs => H_kvlist kvs
      ((fix go l : Forall (kv_all P) l :=
          match l with
          | [] => List.Forall_nil _
          | kv :: l => List.Forall_cons _ _ _
              (match kv_value kv as o return (match o with Some v => P v | None => True end) with
               | Some x => ProtoAnyValue_ind' x
               | None => I
               end) (go l)
          end) kvs)
  | BytesValue bs => H_bytes bs
  end.
End ProtoAnyValueInd.

(** ** Collecting into a [HashMap]: a later key replaces an earlier one. *)

Definition collect_map {V} (l : list (string * V)) : gmap string V :=
  fold_left (fun m kv => <[fst kv := snd kv]> m) l ∅.

(** The last value given to a key. *)
Fixpoint last_value {V} (k : string) (l : list (string * V)) : option V :=
  match l with
  | [] => None
  | (k', v) :: l => match last_value k l with
                    | Some w => Some w
                    | None => if (k' =? k)%string then Some v else None
                    end
  end.

Lemma collect_map_lookup {V} (l : list (string * V)) k : collect_map l !! k = last_value k l.
Proof.
  unfold collect_map.
  enough (forall m : gmap string V, fold_left (fun m kv => <[fst kv := snd kv]> m) l m !! k =
    match last_value k l with Some v => Some v | None => m !! k end) as ->
    by (by destruct (last_value k l)).
  induction l as [|[k' v] l IH]; intros m; [done|]. simpl. rewrite IH.
  destruct (last_value k l); [done|].
  destruct (String.eqb_spec k' k) as [->|Hne]; [by rewrite lookup_insert_eq|by rewrite lookup_insert_ne].
Qed.
