(* ===== verification/Normalizer.v ===== *)
(** * The OTLP normaliser

    [crates/infralens-ingest/src/normalizer.rs]: protobuf messages into the
    records of the data model.  The loops that push into [out] are
    [flat_map]s over the messages, in their order. *)

From Stdlib Require Import ZArith Lia.
From stdpp Require Import base tactics list numbers option strings gmap.
From S2P Require Import Prelude Text Float64 Model Otlp.

(** ** Values and attributes *)

(** [convert_any_value]. *)
Fixpoint convert_any_value (proto : ProtoAnyValue) : AnyValue :=
  match proto with
  | StringValue s => AVString s
  | BoolValue b => AVBool b
  | IntValue i => AVInt i
  | DoubleValue d => AVDouble d
  | BytesValue b => AVBytes b
  | ArrayValue values => AVArray (map convert_any_value values)
  | KvlistValue values =>
      AVMap (collect_map (map (fun kv =>
        (kv_key kv, match kv_value kv with Some v => convert_any_value v | None => AVString "" end)) values))
  | NoValue => AVString ""
  end.

(** [convert_attrs]: a pair without a value is left out. *)
Definition convert_attrs (kvs : list KeyValue) : attrs :=
  collect_map (filter_map (fun kv => (fun v => (kv_key kv, convert_any_value v)) <$> kv_value kv) kvs).

(** [convert_scope]. *)
Definition convert_scope (scope : option ProtoScope) : InstrumentationScope :=
  match scope with
  | Some s => {| scope_name := ps_name s; scope_version := ps_version s;
                 scope_attributes := convert_attrs (ps_attributes s) |}
  | None => scope_default
  end.

(** [rl.resource.as_ref().map(|r| convert_attrs(&r.attributes)).unwrap_or_default()]. *)
Definition resource_attrs (r : option Resource) : attrs :=
  match r with Some r => convert_attrs (res_attributes r) | None => ∅ end.

(** [bytes_to_array16], [bytes_to_array8]. *)
Definition bytes_to_array16 (b : list Z) : option (list Z) := if (length b =? 16)%nat then Some b else None.
Definition bytes_to_array8 (b : list Z) : option (list Z) := if (length b =? 8)%nat then Some b else None.

(** ** Logs *)

(** [normalise_logs]. *)
Definition normalise_logs (resource_logs : list ResourceLogs) : list LogRecord :=
  flat_map (fun rl =>
    let resource_attrs := resource_attrs (rl_resource rl) in
    flat_map (fun sl =>
      let scope := convert_scope (sc_scope sl) in
      map (fun proto_rec =>
        {| lr_timestamp_ns := pl_time_unix_nano proto_rec;
           lr_observed_timestamp_ns := pl_observed_time_unix_nano proto_rec;
           lr_trace_id := bytes_to_array16 (pl_trace_id proto_rec);
           lr_span_id := bytes_to_array8 (pl_span_id proto_rec);
           lr_severity_number := pl_severity_number proto_rec;
           lr_severity_text := pl_severity_text proto_rec;
           lr_body := convert_any_value <$> pl_body proto_rec;
           lr_attributes := convert_attrs (pl_attributes proto_rec);
           lr_resource_attributes := resource_attrs;
           lr_scope := scope;
           lr_schema_url := sc_schema_url sl |}) (sc_log_records sl)) (rl_scope_logs rl)) resource_logs.

(** ** Metrics *)

(** The two [match]es on [dp.value]. *)
Definition value_double (v : option NumberValue) : option f64 :=
  match v with Some (AsDouble d) => Some d | _ => None end.
Definition value_int (v : option NumberValue) : option Z :=
  match v with Some (AsInt i) => Some i | _ => None end.

(** The point a gauge or a sum pushes. *)
Definition number_point (m : ProtoMetric) (t : MetricType) (resource_attrs : attrs) (scope : InstrumentationScope)
    (schema_url : string) (dp : NumberDataPoint) : MetricPoint :=
  {| mp_timestamp_ns := nd_time_unix_nano dp;
     mp_start_timestamp_ns := nd_start_time_unix_nano dp;
     mp_name := pm_name m;
     mp_description := pm_description m;
     mp_unit := pm_unit m;
     mp_metric_type := t;
     mp_value_double := value_double (nd_value dp);
     mp_value_int := value_int (nd_value dp);
     mp_histogram := None;
     mp_attributes := convert_attrs (nd_attributes dp);
     mp_resource_attributes := resource_attrs;
     mp_scope := scope;
     mp_schema_url := schema_url |}.

(** The point a histogram pushes. *)
Definition histogram_point (m : ProtoMetric) (temporality : Z) (resource_attrs : attrs) (scope : InstrumentationScope)
    (schema_url : string) (dp : HistogramDataPoint) : MetricPoint :=
  {| mp_timestamp_ns := hp_time_unix_nano dp;
     mp_start_timestamp_ns := hp_start_time_unix_nano dp;
     mp_name := pm_name m;
     mp_description := pm_description m;
     mp_unit := pm_unit m;
     mp_metric_type := Histogram temporality;
     mp_value_double := None;
     mp_value_int := None;
     mp_histogram := Some {| hd_count := hp_count dp; hd_sum := hp_sum dp; hd_min := hp_min dp; hd_max := hp_max dp;
                             hd_explicit_bounds := hp_explicit_bounds dp; hd_bucket_counts := hp_bucket_counts dp |};
     mp_attributes := convert_attrs (hp_attributes dp);
     mp_resource_attributes := resource_attrs;
     mp_scope := scope;
     mp_schema_url := schema_url |}.

(** [normalise_metric]: exponential histograms and summaries give nothing. *)
Definition normalise_metric (m : ProtoMetric) (resource_attrs : attrs) (scope : InstrumentationScope)
    (schema_url : string) : list MetricPoint :=
  match pm_data m with
  | Some (DGauge dps) => map (number_point m Gauge resource_attrs scope schema_url) dps
  | Some (DSum dps temporality is_monotonic) =>
      map (number_point m (Sum is_monotonic temporality) resource_attrs scope schema_url) dps
  | Some (DHistogram dps temporality) => map (histogram_point m temporality resource_attrs scope schema_url) dps
  | _ => []
  end.

(** [normalise_metrics]. *)
Definition normalise_metrics (resource_metrics : list ResourceMetrics) : list MetricPoint :=
  flat_map (fun rm =>
    let resource_attrs := resource_attrs (rm_resource rm) in
    flat_map (fun sm =>
      let scope := convert_scope (sm_scope sm) in
      flat_map (fun metric => normalise_metric metric resource_attrs scope (sm_schema_url sm)) (sm_metrics sm))
      (rm_scope_metrics rm)) resource_metrics.

(** ** Traces *)

Definition convert_event (e : ProtoEvent) : SpanEvent :=
  {| se_timestamp_ns := pe_time_unix_nano e; se_name := pe_name e; se_attributes := convert_attrs (pe_attributes e) |}.

(** A link whose ids do not have their length is left out. *)
Definition convert_link (l : ProtoLink) : option SpanLink :=
  trace_id ← bytes_to_array16 (pk_trace_id l);
  span_id ← bytes_to_array8 (pk_span_id l);
  Some {| sl_trace_id := trace_id; sl_span_id := span_id; sl_trace_state := pk_trace_state l;
          sl_attributes := convert_attrs (pk_attributes l) |}.

(** The body of the loop over the spans: [None] where it continues. *)
Definition normalise_span (resource_attrs : attrs) (scope : InstrumentationScope) (schema_url : string)
    (proto_span : ProtoSpan) : option SpanRecord :=
  trace_id ← bytes_to_array16 (sp_trace_id proto_span);
  span_id ← bytes_to_array8 (sp_span_id proto_span);
  let duration_ns := saturating_sub (sp_end_time_unix_nano proto_span) (sp_start_time_unix_nano proto_span) in
  Some {| sr_trace_id := trace_id;
          sr_span_id := span_id;
          sr_parent_span_id := bytes_to_array8 (sp_parent_span_id proto_span);
          sr_name := sp_name proto_span;
          sr_kind := sp_kind proto_span;
          sr_start_time_ns := sp_start_time_unix_nano proto_span;
          sr_end_time_ns := sp_end_time_unix_nano proto_span;
          sr_duration_ns := duration_ns;
          sr_status_code := match sp_status proto_span with Some s => st_code s | None => 0 end;
          sr_status_message := match sp_status proto_span with Some s => st_message s | None => "" end;
          sr_attributes := convert_attrs (sp_attributes proto_span);
          sr_resource_attributes := resource_attrs;
          sr_scope := scope;
          sr_events := map convert_event (sp_events proto_span);
          sr_links := filter_map convert_link (sp_links proto_span);
          sr_schema_url := schema_url |}.

(** [normalise_spans]. *)
Definition normalise_spans (resource_spans : list ResourceSpans) : list SpanRecord :=
  flat_map (fun rs =>
    let resource_attrs := resource_attrs (rs_resource rs) in
    flat_map (fun ss =>
      let scope := convert_scope (ss_scope ss) in
      filter_map (normalise_span resource_attrs scope (ss_schema_url ss)) (ss_spans ss)) (rs_scope_spans rs))
    resource_spans.

(** ** Facts *)

Lemma map_flat_map {A B C} (f : B -> C) (g : A -> list B) l :
  map f (flat_map g l) = flat_map (fun x => map f (g x)) l.
Proof. induction l as [|x l IH]; simpl; [done|]. by rewrite map_app, IH. Qed.

Lemma flat_map_over_map {A B C} (f : B -> list C) (g : A -> B) l :
  flat_map f (map g l) = flat_map (fun a => f (g a)) l.
Proof. induction l as [|x l IH]; simpl; [done|]. by rewrite IH. Qed.

Lemma flat_map_ext_on {A B} (f g : A -> list B) l :
  (forall a, In a l -> f a = g a) -> flat_map f l = flat_map g l.
Proof. intros H. rewrite !flat_map_concat_map. f_equal. by apply map_ext_in. Qed.

Lemma filter_flat_map {A B} (p : B -> bool) (g : A -> list B) l :
  List.filter p (flat_map g l) = flat_map (fun x => List.filter p (g x)) l.
Proof. induction l as [|x l IH]; simpl; [done|]. by rewrite List.filter_app, IH. Qed.

Lemma Forall_flat_map {A B} (P : B -> Prop) (g : A -> list B) l :
  Forall P (flat_map g l) <-> Forall (fun x => Forall P (g x)) l.
Proof. induction l as [|x l IH]; simpl; [by split|]. rewrite Forall_app, Forall_cons, IH. done. Qed.

Lemma Forall_filter_map {A B} (P : B -> Prop) (f : A -> option B) l :
  (forall a b, f a = Some b -> P b) -> Forall P (filter_map f l).
Proof.
  intros H. induction l as [|a l IH]; simpl; [constructor|]. destruct (f a) eqn:E; [|done]. constructor; eauto.
Qed.

Lemma map_filter_map {A B C} (f : A -> option B) (p : A -> bool) (g : B -> C) (h : A -> C) l :
  (forall a, p a = false -> f a = None) -> (forall a, p a = true -> g <$> f a = Some (h a)) ->
  map g (filter_map f l) = map h (List.filter p l).
Proof.
  intros H0 H1. induction l as [|a l IH]; simpl; [done|]. destruct (p a) eqn:E.
  - specialize (H1 a E). destruct (f a); [|done]. injection H1 as H1. simpl. by rewrite IH, H1.
  - by rewrite (H0 a E).
Qed.

(** An attribute has the value of the last pair with its key that has one. *)
Lemma convert_attrs_lookup kvs k :
  convert_attrs kvs !! k =
  convert_any_value <$> last_value k (filter_map (fun kv => (fun v => (kv_key kv, v)) <$> kv_value kv) kvs).
Proof.
  unfold convert_attrs. rewrite collect_map_lookup. induction kvs as [|[k' [v|]] kvs IH]; simpl; [done| |done].
  rewrite IH. set (o := last_value k _). clearbody o.
  destruct o; [done|]. by destruct (k' =? k)%string.
Qed.

Lemma bytes_to_array16_Some b a : bytes_to_array16 b = Some a <-> a = b /\ length b = 16%nat.
Proof. unfold bytes_to_array16. destruct (Nat.eqb_spec (length b) 16); naive_solver. Qed.

Lemma bytes_to_array8_Some b a : bytes_to_array8 b = Some a <-> a = b /\ length b = 8%nat.
Proof. unfold bytes_to_array8. destruct (Nat.eqb_spec (length b) 8); naive_solver. Qed.

(** The lengths of ids the data model demands of a span. *)
Record span_ids_ok (r : SpanRecord) : Prop := {
  ids_trace : length (sr_trace_id r) = 16%nat;
  ids_span : length (sr_span_id r) = 8%nat;
  ids_parent : forall p, sr_parent_span_id r = Some p -> length p = 8%nat;
  ids_links : Forall (fun l => length (sl_trace_id l) = 16%nat /\ length (sl_span_id l) = 8%nat) (sr_links r)
}.

Definition span_has_ids (s : ProtoSpan) : bool :=
  (length (sp_trace_id s) =? 16)%nat && (length (sp_span_id s) =? 8)%nat.

Lemma normalise_span_ids ra sc url s r : normalise_span ra sc url s = Some r -> span_ids_ok r.
Proof.
  unfold normalise_span. intros H. apply bind_Some in H as (t & Ht & H). apply bind_Some in H as (i & Hi & H).
  simplify_eq. apply bytes_to_array16_Some in Ht as [-> Ht]. apply bytes_to_array8_Some in Hi as [-> Hi].
  split; cbn [sr_trace_id sr_span_id sr_parent_span_id sr_links]; [done|done| |].
  - intros p Hp. apply bytes_to_array8_Some in Hp as [-> Hp]. done.
  - apply Forall_filter_map. intros l k E. unfold convert_link in E.
    apply bind_Some in E as (t' & Ht' & E). apply bind_Some in E as (i' & Hi' & E). simplify_eq.
    apply bytes_to_array16_Some in Ht' as [-> Ht']. apply bytes_to_array8_Some in Hi' as [-> Hi']. done.
Qed.

(** The spans of a request, in order. *)
Definition request_spans (rs : list ResourceSpans) : list ProtoSpan :=
  flat_map (fun r => flat_map ss_spans (rs_scope_spans r)) rs.

(** One record per span with ids, with what [g] sees of it. *)
Lemma normalise_spans_map {C} (g : SpanRecord -> C) (h : ProtoSpan -> C) rs :
  (forall ra sc url s, span_has_ids s = true -> g <$> normalise_span ra sc url s = Some (h s)) ->
  map g (normalise_spans rs) = map h (List.filter span_has_ids (request_spans rs)).
Proof.
  intros H. unfold normalise_spans, request_spans.
  rewrite map_flat_map, filter_flat_map, map_flat_map. apply flat_map_ext. intros r.
  rewrite map_flat_map, filter_flat_map, map_flat_map. apply flat_map_ext. intros ss.
  apply map_filter_map; [|auto]. intros s. unfold span_has_ids, normalise_span, bytes_to_array16, bytes_to_array8.
  by destruct (length (sp_trace_id s) =? 16)%nat, (length (sp_span_id s) =? 8)%nat.
Qed.

Lemma normalise_spans_count rs : zlen (normalise_spans rs) = zlen (List.filter span_has_ids (request_spans rs)).
Proof.
  pose proof (normalise_spans_map (fun _ => tt) (fun _ => tt) rs) as H. apply (f_equal length) in H.
  - rewrite !length_map in H. unfold zlen. by rewrite H.
  - intros ra sc url s Hs. unfold span_has_ids in Hs. unfold normalise_span, bytes_to_array16, bytes_to_array8.
    by destruct (length (sp_trace_id s) =? 16)%nat, (length (sp_span_id s) =? 8)%nat.
Qed.

(** The spans of a request are normalised one for one.  Exactly the spans
    with a 16-byte trace id and an 8-byte span id become records, in the
    order of the request, with their ids, name and times; the duration added
    to the start is the later of start and end, so it never underflows; and
    every id a record holds, in its links and its parent too, has its length. *)
Theorem normalise_spans_exact rs :
  map (fun r => (sr_trace_id r, sr_span_id r, sr_name r, sr_start_time_ns r, sr_end_time_ns r, sr_start_time_ns r + sr_duration_ns r))
    (normalise_spans rs) =
  map (fun s => (sp_trace_id s, sp_span_id s, sp_name s, sp_start_time_unix_nano s, sp_end_time_unix_nano s,
                 Z.max (sp_start_time_unix_nano s) (sp_end_time_unix_nano s)))
    (List.filter span_has_ids (request_spans rs)) /\
  Forall span_ids_ok (normalise_spans rs).
Proof.
  split.
  - apply normalise_spans_map. intros ra sc url s Hs. unfold span_has_ids in Hs.
    unfold normalise_span, bytes_to_array16, bytes_to_array8.
    destruct (length (sp_trace_id s) =? 16)%nat, (length (sp_span_id s) =? 8)%nat; try done.
    cbn. do 2 f_equal. int_lia.
  - unfold normalise_spans. apply Forall_flat_map, Forall_true. intros r. apply Forall_flat_map, Forall_true. intros ss.
    apply Forall_filter_map. apply normalise_span_ids.
Qed.

(** The data points of a metric that the model can hold. *)
Definition kept_points (m : ProtoMetric) : Z :=
  match pm_data m with
  | Some (DGauge dps) => zlen dps
  | Some (DSum dps _ _) => zlen dps
  | Some (DHistogram dps _) => zlen dps
  | _ => 0
  end.

Definition request_metrics (rm : list ResourceMetrics) : list ProtoMetric :=
  flat_map (fun r => flat_map sm_metrics (rm_scope_metrics r)) rm.

Lemma zlen_flat_map {A B} (g : A -> list B) l : zlen (flat_map g l) = zsum (map (fun x => zlen (g x)) l).
Proof. induction l as [|x l IH]; simpl; [done|]. by rewrite zlen_app, IH. Qed.

Lemma zsum_flat_map {A} (g : A -> list Z) l : zsum (flat_map g l) = zsum (map (fun x => zsum (g x)) l).
Proof. induction l as [|x l IH]; simpl; [done|]. by rewrite zsum_app, IH. Qed.

(** A request gives one record per point of a gauge, a sum or a histogram;
    those of exponential histograms and summaries vanish. *)
Lemma normalise_metrics_count rm :
  zlen (normalise_metrics rm) = zsum (map kept_points (request_metrics rm)).
Proof.
  unfold normalise_metrics, request_metrics. rewrite zlen_flat_map, map_flat_map, zsum_flat_map. f_equal.
  apply map_ext. intros r. rewrite zlen_flat_map, map_flat_map, zsum_flat_map. f_equal.
  apply map_ext. intros sm. rewrite zlen_flat_map. f_equal. apply map_ext. intros m.
  unfold normalise_metric, kept_points, zlen. destruct (pm_data m) as [[]|]; by rewrite ?length_map.
Qed.

#[export] Hint Rewrite @map_flat_map @filter_flat_map @zlen_flat_map : infra.
