(* ===== verification/Json.v ===== *)
(** * JSON values

    [serde_json::Value] and the accessors the program uses.  An object is the
    list of its members; the parser keeps one member per key, so looking a
    key up is finding it. *)

From Stdlib Require Import ZArith Lia.
From stdpp Require Import base tactics list numbers option strings.
From S2P Require Import Prelude Text Float64.

(** [serde_json::Number]: what does not fit [u64] or a negative [i64] is a
    float. *)
Inductive Number : Type :=
| PosInt (n : Z)
| NegInt (n : Z)
| Float (x : f64).

Inductive Value : Type :=
| JNull
| JBool (b : bool)
| JNumber (n : Number)
| JString (s : string)
| JArray (l : list Value)
| JObject (members : list (string * Value)).

(** [v.get(key).and_then(f)], with [f] inside so that a recursion can go
    through it. *)
Definition get_then {B} (f : Value -> option B) (key : string) (v : Value) : option B :=
  match v with
  | JObject members =>
      (fix go (l : list (string * Value)) : option B :=
         match l with
         | [] => None
         | (k, x) :: l => if (k =? key)%string then f x else go l
         end) members
  | _ => None
  end.

(** [Value::get] with a string: only objects have members. *)
Definition get (v : Value) (key : string) : option Value := get_then Some key v.

(** [Value::as_str], [as_bool], [as_array], [as_i64], [as_u64], [as_f64]. *)
Definition as_str (v : Value) : option string := match v with JString s => Some s | _ => None end.
Definition as_bool (v : Value) : option bool := match v with JBool b => Some b | _ => None end.
Definition as_array (v : Value) : option (list Value) := match v with JArray l => Some l | _ => None end.

Definition as_i64 (v : Value) : option Z :=
  match v with
  | JNumber (PosInt n) => if n <=? i64_max then Some n else None
  | JNumber (NegInt n) => Some n
  | _ => None
  end.

Definition as_u64 (v : Value) : option Z :=
  match v with
  | JNumber (PosInt n) => Some n
  | _ => None
  end.

Definition as_f64 (v : Value) : option f64 :=
  match v with
  | JNumber (PosInt n) => Some (f64_of_Z n)
  | JNumber (NegInt n) => Some (f64_of_Z n)
  | JNumber (Float x) => Some x
  | _ => None
  end.

(** [Value::from] on integers. *)
Definition json_int (z : Z) : Value := JNumber (if z <? 0 then NegInt z else PosInt z).

Lemma get_then_get {B} (f : Value -> option B) key v : get_then f key v = get v key ≫= f.
Proof.
  destruct v as [| | | | |l]; try done. unfold get. simpl.
  induction l as [|[k x] l IH]; simpl; [done|]. by destruct (k =? key)%string.
Qed.

Lemma as_i64_json_int z : is_i64 z -> as_i64 (json_int z) = Some z.
Proof.
  intros H. unfold json_int. destruct (Z.ltb_spec z 0); simpl; [done|].
  destruct (Z.leb_spec z i64_max); [done|int_lia].
Qed.
