(* ===== verification/JsonDecoder.v ===== *)
(** * The OTLP/JSON decoder

    [crates/infralens-ingest/src/json_decoder.rs]: JSON documents into the
    records of the data model.  Decoding an id slices a string and can
    panic, so the decoders return an [outcome] without errors. *)

From Stdlib Require Import ZArith Lia Ascii String.
From stdpp Require Import base tactics list numbers option strings gmap.
From S2P Require Import Prelude Text Float64 Model Otlp Json.

Local Open Scope string_scope.
Local Open Scope list_scope.
Local Open Scope Z_scope.

(** Code that returns or panics. *)
Abbreviation run := (outcome Empty_set).

(** ** Values *)

(** [decode_any_value]. *)
Fixpoint decode_any_value (v : Value) : AnyValue :=
  match get_then as_str "stringValue" v with
  | Some s => AVString s
  | None =>
  match get_then as_bool "boolValue" v with
  | Some b => AVBool b
  | None =>
  match get v "intValue" with
  | Some i =>
      AVInt match as_i64 i with
            | Some n => n
            | None => default 0 (as_str i ≫= parse_i64)
            end
  | None =>
  match get_then as_f64 "doubleValue" v with
  | Some d => AVDouble d
  | None =>
  match get_then (get_then (fun vs => match vs with
                                      | JArray arr => Some (map decode_any_value arr)
                                      | _ => None
                                      end) "values") "arrayValue" v with
  | Some arr => AVArray arr
  | None => AVString ""
  end end end end end.

(** [decode_attrs]: a pair without a string key is left out, one without a
    value has the empty string. *)
Definition decode_attrs (v : Value) : attrs :=
  match as_array v with
  | Some arr =>
      collect_map (filter_map (fun kv =>
        key ← get kv "key" ≫= as_str;
        Some (key, match get kv "value" with Some v => decode_any_value v | None => AVString "" end)) arr)
  | None => ∅
  end.

(** [x.get(key).and_then(Value::as_str).unwrap_or("").to_string()]. *)
Definition str_or_empty (v : Value) (key : string) : string := default "" (get v key ≫= as_str).

(** [x.get("attributes").map(|a| decode_attrs(a)).unwrap_or_default()]. *)
Definition attributes_of (v : Value) : attrs :=
  match get v "attributes" with Some a => decode_attrs a | None => ∅ end.

(** [decode_scope]. *)
Definition decode_scope (scope : option Value) : InstrumentationScope :=
  match scope with
  | Some s => {| scope_name := str_or_empty s "name"; scope_version := str_or_empty s "version";
                 scope_attributes := attributes_of s |}
  | None => scope_default
  end.

(** [decode_u64]. *)
Definition decode_u64 (v : Value) : Z :=
  match as_u64 v with
  | Some n => n
  | None => default 0 (as_str v ≫= parse_u64)
  end.

(** [x.get(key).map(decode_u64).unwrap_or(d)]. *)
Definition u64_or (v : Value) (key : string) (d : Z) : Z :=
  match get v key with Some x => decode_u64 x | None => d end.

(** [x.get(key).and_then(Value::as_i64).unwrap_or(0) as i32]. *)
Definition i32_or_zero (v : Value) (key : string) : Z := wrap_i32 (default 0 (get v key ≫= as_i64)).

(** [.and_then(Value::as_array).into_iter().flatten()]. *)
Definition items (v : Value) (key : string) : list Value := default [] (get v key ≫= as_array).

(** ** Hexadecimal ids *)

(** The characters of [char::is_whitespace], as their UTF-8 bytes. *)
Definition whitespace : list (list Z) :=
  [ [9]; [10]; [11]; [12]; [13]; [32]; [194; 133]; [194; 160]; [225; 154; 128];
    [226; 128; 128]; [226; 128; 129]; [226; 128; 130]; [226; 128; 131]; [226; 128; 132]; [226; 128; 133];
    [226; 128; 134]; [226; 128; 135]; [226; 128; 136]; [226; 128; 137]; [226; 128; 138];
    [226; 128; 168]; [226; 128; 169]; [226; 128; 175]; [226; 129; 159]; [227; 128; 128] ].

Fixpoint strip (pat bs : list Z) : option (list Z) :=
  match pat, bs with
  | [], _ => Some bs
  | p :: pat, b :: bs => if p =? b then strip pat bs else None
  | _ :: _, [] => None
  end.

Fixpoint strip_any (pats : list (list Z)) (bs : list Z) : option (list Z) :=
  match pats with
  | [] => None
  | pat :: pats => match strip pat bs with Some r => Some r | None => strip_any pats bs end
  end.

Fixpoint strip_all (fuel : nat) (pats : list (list Z)) (bs : list Z) : list Z :=
  match fuel with
  | O => bs
  | S fuel => match strip_any pats bs with Some r => strip_all fuel pats r | None => bs end
  end.

(** [str::trim]. *)
Definition trim_utf8 (bs : list Z) : list Z :=
  let bs := strip_all (length bs) whitespace bs in
  rev (strip_all (length bs) (map (@rev Z) whitespace) (rev bs)).

(** [str::is_char_boundary]. *)
Definition is_char_boundary (bs : list Z) (i : nat) : bool :=
  match bs !! i with
  | Some b => negb ((128 <=? b) && (b <=? 191)) || (i =? 0)%nat
  | None => (i =? length bs)%nat
  end.

(** [char::to_digit(16)]. *)
Definition hex_digit (b : Z) : option Z :=
  if (48 <=? b) && (b <=? 57) then Some (b - 48)
  else if (97 <=? b) && (b <=? 102) then Some (b - 87)
  else if (65 <=? b) && (b <=? 70) then Some (b - 55)
  else None.

(** [u8::from_str_radix(s, 16).ok()] on the two bytes of [s]: a leading plus
    is a sign. *)
Definition from_str_radix_16 (a b : Z) : option Z :=
  if a =? 43 then hex_digit b
  else x ← hex_digit a; y ← hex_digit b; Some (16 * x + y).

(** The pairs of bytes from number [i] on: the slice of a pair panics unless
    both its ends are boundaries of characters, and collecting stops at the
    first pair that is no number. *)
Fixpoint hex_loop (bs : list Z) (i : nat) (n : nat) : run (option (list Z)) :=
  match n with
  | O => Ret (Some [])
  | S n =>
      if is_char_boundary bs (2 * i) && is_char_boundary bs (2 * i + 2) then
        match bs !! (2 * i)%nat, bs !! (2 * i + 1)%nat with
        | Some a, Some b =>
            match from_str_radix_16 a b with
            | Some x => r ← hex_loop bs (S i) n; Ret (option_map (cons x) r)
            | None => Ret None
            end
        | _, _ => Panic
        end
      else Panic
  end.

Definition hex_to (n : nat) (s : string) : run (option (list Z)) :=
  let bs := trim_utf8 (bytes_of_string s) in
  if (length bs =? 2 * n)%nat then hex_loop bs 0 n else Ret None.

Definition hex_to_16 (s : string) : run (option (list Z)) := hex_to 16 s.
Definition hex_to_8 (s : string) : run (option (list Z)) := hex_to 8 s.

(** [x.get(key).and_then(Value::as_str).and_then(hex)]. *)
Definition hex_of (hex : string -> run (option (list Z))) (v : Value) (key : string) : run (option (list Z)) :=
  match get v key ≫= as_str with
  | Some s => hex s
  | None => Ret None
  end.

(** [x.get("resource").and_then(|r| r.get("attributes"))...]. *)
Definition resource_attributes_of (v : Value) : attrs :=
  match get v "resource" ≫= (fun r => get r "attributes") with Some a => decode_attrs a | None => ∅ end.

(** A [for] loop that extends [out]. *)
Definition for_each {A B} (l : list A) (f : A -> run (list B)) : run (list B) :=
  @concat B <$> mapM_out f l.

(** ** Logs *)

(** [decode_logs]. *)
Definition decode_log (resource_attrs : attrs) (scope : InstrumentationScope) (schema : string) (rec : Value)
    : run LogRecord :=
  let ts := u64_or rec "timeUnixNano" 0 in
  trace_id ← hex_of hex_to_16 rec "traceId";
  span_id ← hex_of hex_to_8 rec "spanId";
  Ret {| lr_timestamp_ns := ts;
         lr_observed_timestamp_ns := u64_or rec "observedTimeUnixNano" ts;
         lr_trace_id := trace_id;
         lr_span_id := span_id;
         lr_severity_number := i32_or_zero rec "severityNumber";
         lr_severity_text := str_or_empty rec "severityText";
         lr_body := decode_any_value <$> get rec "body";
         lr_attributes := attributes_of rec;
         lr_resource_attributes := resource_attrs;
         lr_scope := scope;
         lr_schema_url := schema |}.

Definition decode_logs (json : Value) : run (list LogRecord) :=
  match get json "resourceLogs" ≫= as_array with
  | None => Ret []
  | Some resource_logs =>
      for_each resource_logs (fun rl =>
        let resource_attrs := resource_attributes_of rl in
        for_each (items rl "scopeLogs") (fun sl =>
          let scope := decode_scope (get sl "scope") in
          let schema := str_or_empty sl "schemaUrl" in
          mapM_out (decode_log resource_attrs scope schema) (items sl "logRecords")))
  end.

(** ** Metrics *)

(** The point a gauge or a sum pushes. *)
Definition decode_point (name description unit : string) (t : MetricType) (resource_attrs : attrs)
    (scope : InstrumentationScope) (schema : string) (dp : Value) : MetricPoint :=
  {| mp_timestamp_ns := u64_or dp "timeUnixNano" 0;
     mp_start_timestamp_ns := u64_or dp "startTimeUnixNano" 0;
     mp_name := name;
     mp_description := description;
     mp_unit := unit;
     mp_metric_type := t;
     mp_value_double := get dp "asDouble" ≫= as_f64;
     mp_value_int := get dp "asInt" ≫= as_i64;
     mp_histogram := None;
     mp_attributes := attributes_of dp;
     mp_resource_attributes := resource_attrs;
     mp_scope := scope;
     mp_schema_url := schema |}.

(** The body of the loop over the metrics: a gauge and a sum. *)
Definition decode_metric (resource_attrs : attrs) (scope : InstrumentationScope) (schema : string) (m : Value)
    : list MetricPoint :=
  let name := str_or_empty m "name" in
  let description := str_or_empty m "description" in
  let unit := str_or_empty m "unit" in
  match get m "gauge" with
  | Some gauge => map (decode_point name description unit Gauge resource_attrs scope schema) (items gauge "dataPoints")
  | None => []
  end ++
  match get m "sum" with
  | Some sum =>
      let is_monotonic := default false (get sum "isMonotonic" ≫= as_bool) in
      let temporality := i32_or_zero sum "aggregationTemporality" in
      map (decode_point name description unit (Sum is_monotonic temporality) resource_attrs scope schema)
        (items sum "dataPoints")
  | None => []
  end.

(** [decode_metrics]. *)
Definition decode_metrics (json : Value) : list MetricPoint :=
  match get json "resourceMetrics" ≫= as_array with
  | None => []
  | Some resource_metrics =>
      flat_map (fun rm =>
        let resource_attrs := resource_attributes_of rm in
        flat_map (fun sm =>
          let scope := decode_scope (get sm "scope") in
          let schema := str_or_empty sm "schemaUrl" in
          flat_map (decode_metric resource_attrs scope schema) (items sm "metrics")) (items rm "scopeMetrics"))
        resource_metrics
  end.

(** ** Spans *)

Definition decode_event (e : Value) : SpanEvent :=
  {| se_timestamp_ns := u64_or e "timeUnixNano" 0; se_name := str_or_empty e "name"; se_attributes := attributes_of e |}.

(** A link without both ids is left out. *)
Definition decode_link (l : Value) : run (option SpanLink) :=
  trace_id ← hex_of hex_to_16 l "traceId";
  match trace_id with
  | None => Ret None
  | Some trace_id =>
      span_id ← hex_of hex_to_8 l "spanId";
      match span_id with
      | None => Ret None
      | Some span_id =>
          Ret (Some {| sl_trace_id := trace_id; sl_span_id := span_id; sl_trace_state := str_or_empty l "traceState";
                       sl_attributes := attributes_of l |})
      end
  end.

(** [span.get("status").and_then(|s| s.get(key))]. *)
Definition status_field (span : Value) (key : string) : option Value := get span "status" ≫= (fun s => get s key).

(** The body of the loop over the spans; [[]] where it continues. *)
Definition decode_span (resource_attrs : attrs) (scope : InstrumentationScope) (schema : string) (span : Value)
    : run (list SpanRecord) :=
  trace_id ← hex_of hex_to_16 span "traceId";
  match trace_id with
  | None => Ret []
  | Some trace_id =>
      span_id ← hex_of hex_to_8 span "spanId";
      match span_id with
      | None => Ret []
      | Some span_id =>
          let start_ns := u64_or span "startTimeUnixNano" 0 in
          let end_ns := u64_or span "endTimeUnixNano" 0 in
          parent ← hex_of hex_to_8 span "parentSpanId";
          links ← mapM_out decode_link (items span "links");
          Ret [{| sr_trace_id := trace_id;
                  sr_span_id := span_id;
                  sr_parent_span_id := parent;
                  sr_name := str_or_empty span "name";
                  sr_kind := i32_or_zero span "kind";
                  sr_start_time_ns := start_ns;
                  sr_end_time_ns := end_ns;
                  sr_duration_ns := saturating_sub end_ns start_ns;
                  sr_status_code := wrap_i32 (default 0 (status_field span "code" ≫= as_i64));
                  sr_status_message := default "" (status_field span "message" ≫= as_str);
                  sr_attributes := attributes_of span;
                  sr_resource_attributes := resource_attrs;
                  sr_scope := scope;
                  sr_events := map decode_event (items span "events");
                  sr_links := filter_map id links;
                  sr_schema_url := schema |}]
      end
  end.

(** [decode_spans]. *)
Definition decode_spans (json : Value) : run (list SpanRecord) :=
  match get json "resourceSpans" ≫= as_array with
  | None => Ret []
  | Some resource_spans =>
      for_each resource_spans (fun rs =>
        let resource_attrs := resource_attributes_of rs in
        for_each (items rs "scopeSpans") (fun ss =>
          let scope := decode_scope (get ss "scope") in
          let schema := str_or_empty ss "schemaUrl" in
          for_each (items ss "spans") (decode_span resource_attrs scope schema)))
  end.

(** ** Ids *)

(** No pattern starts with [b]. *)
Definition starts_none (pats : list (list Z)) (b : Z) : bool :=
  forallb (fun pat => match pat with p :: _ => negb (p =? b) | [] => false end) pats.

Lemma strip_any_none pats b l : starts_none pats b = true -> strip_any pats (b :: l) = None.
Proof.
  unfold starts_none. induction pats as [|[|p pat] pats IH]; simpl; intros H; [done|done|].
  apply andb_true_iff in H as [H1 H2]. apply negb_true_iff in H1. rewrite H1. by apply IH.
Qed.

Lemma strip_all_none fuel pats b l : starts_none pats b = true -> strip_all fuel pats (b :: l) = b :: l.
Proof. intros H. destruct fuel; simpl; [done|]. by rewrite strip_any_none. Qed.

(** Text that neither starts nor ends like white space is not trimmed. *)
Definition not_space (b : Z) : bool := starts_none whitespace b && starts_none (map (@rev Z) whitespace) b.

Lemma trim_utf8_id bs : Forall (fun b => not_space b = true) bs -> trim_utf8 bs = bs.
Proof.
  intros H. unfold trim_utf8. destruct bs as [|b l] eqn:E; [done|]. rewrite <- E in *.
  assert (strip_all (length bs) whitespace bs = bs) as ->.
  { subst bs. apply strip_all_none. inversion H as [|? ? Hb]; subst. by apply andb_true_iff in Hb as [Hb _]. }
  destruct (rev bs) as [|c r] eqn:Er; [apply (f_equal (@length Z)) in Er; rewrite length_rev in Er; by subst|].
  rewrite strip_all_none; [rewrite <- Er; apply rev_involutive|].
  assert (In c bs) as Hc by (apply in_rev; rewrite Er; by left).
  rewrite List.Forall_forall in H. specialize (H c Hc). by apply andb_true_iff in H as [_ H].
Qed.

(** Inside ASCII text every position is a boundary. *)
Lemma ascii_boundary bs i : Forall (fun b => b < 128) bs -> (i <= length bs)%nat -> is_char_boundary bs i = true.
Proof.
  intros Ha Hi. unfold is_char_boundary. destruct (bs !! i) as [b|] eqn:E.
  - apply (Forall_lookup_1 _ _ _ _ Ha) in E. destruct (Z.leb_spec 128 b); [lia|]. done.
  - apply lookup_ge_None in E. apply Nat.eqb_eq. lia.
Qed.

(** What the loop does with pair [i]. *)
Definition pair_whole (bs : list Z) (i : nat) : bool :=
  is_char_boundary bs (2 * i) && is_char_boundary bs (2 * i + 2).

Definition pair_value (bs : list Z) (i : nat) : option Z :=
  a ← bs !! (2 * i)%nat; b ← bs !! (2 * i + 1)%nat; from_str_radix_16 a b.

Lemma hex_loop_step bs i n :
  length bs = (2 * (i + S n))%nat ->
  hex_loop bs i (S n) =
  if pair_whole bs i then
    match pair_value bs i with
    | Some x => r ← hex_loop bs (S i) n; Ret (option_map (cons x) r)
    | None => Ret None
    end
  else Panic.
Proof.
  intros Hl. cbn [hex_loop]. unfold pair_whole, pair_value.
  destruct (lookup_lt_is_Some_2 bs (2 * i)%nat) as [a ->]; [lia|].
  destruct (lookup_lt_is_Some_2 bs (2 * i + 1)%nat) as [b ->]; [lia|]. done.
Qed.

(** The pair that cuts a character, the pairs before it being numbers. *)
Definition cuts (bs : list Z) (lo hi : nat) : Prop :=
  exists i, (lo <= i < hi)%nat /\ pair_whole bs i = false /\
    forall j, (lo <= j < i)%nat -> pair_value bs j <> None.

Lemma hex_loop_panic bs n i : length bs = (2 * (i + n))%nat -> (hex_loop bs i n = Panic <-> cuts bs i (i + n)).
Proof.
  revert i; induction n as [|n IH]; intros i Hl.
  { simpl. split; [done|]. intros (j & ? & _). lia. }
  rewrite hex_loop_step by done. specialize (IH (S i) ltac:(lia)).
  destruct (pair_whole bs i) eqn:Ew; [|split; [|done]]; cycle 1.
  { intros _. exists i. split_and!; [lia|lia|done|lia]. }
  destruct (pair_value bs i) as [x|] eqn:Ev.
  - transitivity (hex_loop bs (S i) n = Panic); [by destruct (hex_loop bs (S i) n)|]. rewrite IH. split.
    + intros (j & Hj & Hw & Hb). exists j. split_and!; [lia|lia|done|]. intros k Hk.
      destruct (Nat.eq_dec k i) as [->|]; [by rewrite Ev|]. apply Hb. lia.
    + intros (j & Hj & Hw & Hb). destruct (Nat.eq_dec j i) as [->|]; [congruence|].
      exists j. split_and!; [lia|lia|done|]. intros k Hk. apply Hb. lia.
  - split; [done|]. intros (j & Hj & Hw & Hb). destruct (Nat.eq_dec j i) as [->|]; [congruence|].
    exfalso. apply (Hb i); [lia|done].
Qed.

Lemma hex_to_panic n s :
  hex_to n s = Panic <->
  length (trim_utf8 (bytes_of_string s)) = (2 * n)%nat /\ cuts (trim_utf8 (bytes_of_string s)) 0 n.
Proof.
  unfold hex_to. destruct (Nat.eqb_spec (length (trim_utf8 (bytes_of_string s))) (2 * n)) as [E|E].
  - rewrite (hex_loop_panic _ n 0) by done. naive_solver.
  - split; [done|]. intros [? _]. done.
Qed.

Lemma ascii_no_cut bs n : Forall (fun b => b < 128) bs -> length bs = (2 * n)%nat -> ~ cuts bs 0 n.
Proof.
  intros Ha Hl (i & Hi & Hw & _). unfold pair_whole in Hw.
  rewrite !ascii_boundary in Hw by (done || lia). done.
Qed.

Lemma strip_suffix pat bs r : strip pat bs = Some r -> exists p, bs = p ++ r.
Proof.
  revert bs; induction pat as [|a pat IH]; intros [|b bs]; simpl; intros H; simplify_eq; try by exists [].
  destruct (a =? b); [|done]. destruct (IH _ H) as [p ->]. by exists (b :: p).
Qed.

Lemma strip_all_suffix fuel pats bs : exists p, bs = p ++ strip_all fuel pats bs.
Proof.
  revert bs; induction fuel as [|fuel IH]; intros bs; simpl; [by exists []|].
  destruct (strip_any pats bs) as [r|] eqn:E; [|by exists []]. destruct (IH r) as [p Hp].
  assert (exists q, bs = q ++ r) as [q ->]; [|exists (q ++ p); by rewrite <- app_assoc, <- Hp].
  clear -E. induction pats as [|pat pats IH]; simpl in E; [done|].
  destruct (strip pat bs) eqn:Es; simplify_eq; eauto using strip_suffix.
Qed.

Lemma trim_utf8_Forall (P : Z -> Prop) bs : Forall P bs -> Forall P (trim_utf8 bs).
Proof.
  intros H. unfold trim_utf8. set (l := strip_all _ _ bs).
  destruct (strip_all_suffix (length bs) whitespace bs) as [p Hp]. fold l in Hp. rewrite Hp in H.
  apply Forall_app in H as [_ H].
  destruct (strip_all_suffix (length l) (map (@rev Z) whitespace) (rev l)) as [q Hq].
  apply Forall_rev. apply Forall_rev in H. rewrite Hq in H. by apply Forall_app in H as [_ H].
Qed.

(** A document with one log record that has a trace id. *)
Definition trace_id_document (s : string) : Value :=
  JObject [("resourceLogs", JArray [JObject [("scopeLogs", JArray [JObject [("logRecords",
    JArray [JObject [("traceId", JString s)]])]])]])].

(** Decoding an id panics exactly when the trimmed text has the length of
    the id and, after pairs that are all numbers, a pair of bytes cuts a
    character; ASCII text never does.  One such id in a log record makes the
    decoder of the whole document panic. *)
Theorem id_decoding_panics n s :
  let bs := trim_utf8 (bytes_of_string s) in
  (hex_to n s = Panic <-> length bs = (2 * n)%nat /\ cuts bs 0 n) /\
  (Forall (fun b => b < 128) (bytes_of_string s) -> hex_to n s <> Panic) /\
  (decode_logs (trace_id_document s) = Panic <-> hex_to_16 s = Panic).
Proof.
  intros bs. split_and!.
  - apply hex_to_panic.
  - intros Ha Hp. apply hex_to_panic in Hp as [Hl Hc]. by apply (ascii_no_cut _ n) in Hc; [|apply trim_utf8_Forall|].
  - unfold decode_logs, trace_id_document, for_each. cbn -[hex_to_16].
    destruct (hex_to_16 s); cbn; naive_solver.
Qed.

(** [aé] and 29 zeros: 32 bytes, and the first pair cuts the [é]. *)
Lemma id_decoding_panics_witness :
  let s := string_of_bytes ([97; 195; 169] ++ repeat 48 29) in
  decode_logs (trace_id_document s) = Panic /\ hex_to 16 (string_of_bytes (repeat 48 32)) <> Panic.
Proof.
  intros s. destruct (id_decoding_panics 16 s) as (_ & _ & H). split; [apply H; vm_compute; reflexivity|].
  apply (id_decoding_panics 16 (string_of_bytes (repeat 48 32))).
  rewrite bytes_of_string_of_bytes; repeat constructor; int_lia.
Defined.
