(* ===== verification/OtlpJson.v ===== *)
(** * The two wire formats agree

    A reference encoder of OTLP requests into JSON, written from the OTLP
    specification the decoder names (lower camel case keys, 64-bit integers
    as decimal strings, ids in hexadecimal), and the theorems that decoding
    its documents gives what the normaliser makes of the protobuf request. *)

From Stdlib Require Import ZArith Lia Ascii String.
From stdpp Require Import base tactics list numbers option strings gmap.
From S2P Require Import Prelude Text Float64 Model Otlp Normalizer Json JsonDecoder.

Local Open Scope string_scope.
Local Open Scope list_scope.
Local Open Scope Z_scope.

(** ** Ids *)

Definition hex_char (d : Z) : Z := if d <? 10 then 48 + d else 87 + d.

Fixpoint hex_bytes (bs : list Z) : list Z :=
  match bs with
  | [] => []
  | b :: bs => hex_char (b / 16) :: hex_char (b mod 16) :: hex_bytes bs
  end.

Definition hex_string (bs : list Z) : string := string_of_bytes (hex_bytes bs).

Definition nibble_ok (d : Z) : bool :=
  bool_decide (hex_digit (hex_char d) = Some d) && negb (hex_char d =? 43) && (0 <=? hex_char d) &&
  (hex_char d <? 128) && not_space (hex_char d).

Lemma nibbles_ok d : 0 <= d < 16 -> nibble_ok d = true.
Proof.
  intros H. assert (forallb (fun n => nibble_ok (Z.of_nat n)) (seq 0 16) = true) as Hall by (vm_compute; reflexivity).
  rewrite forallb_forall in Hall. rewrite <- (Z2Nat.id d) by lia. apply Hall, in_seq. lia.
Qed.

Lemma hex_char_spec d : 0 <= d < 16 ->
  hex_digit (hex_char d) = Some d /\ hex_char d <> 43 /\ 0 <= hex_char d < 128 /\ not_space (hex_char d) = true.
Proof.
  intros H. apply nibbles_ok in H. unfold nibble_ok in H. rewrite !andb_true_iff, negb_true_iff in H.
  destruct H as [[[[H1 H2] H3] H4] H5]. apply bool_decide_eq_true in H1. split_and!; [done|lia..|done].
Qed.

Lemma u8_nibbles b : is_u8 b -> 0 <= b / 16 < 16 /\ 0 <= b mod 16 < 16.
Proof.
  intros H. split; [|apply Z.mod_pos_bound; lia]. split; [apply Z.div_pos|apply Z.div_lt_upper_bound]; int_lia.
Qed.

Lemma length_hex_bytes bs : length (hex_bytes bs) = (2 * length bs)%nat.
Proof. induction bs; simpl; lia. Qed.

Lemma hex_bytes_Forall (P : Z -> Prop) bs :
  (forall d, 0 <= d < 16 -> P (hex_char d)) -> Forall is_u8 bs -> Forall P (hex_bytes bs).
Proof.
  intros HP. induction 1 as [|b bs Hb _ IH]; simpl; [constructor|]. destruct (u8_nibbles b Hb). auto.
Qed.

Lemma hex_bytes_ascii bs : Forall is_u8 bs -> Forall (fun b => b < 128) (hex_bytes bs).
Proof. apply hex_bytes_Forall. intros d Hd. apply hex_char_spec in Hd. lia. Qed.

Lemma hex_bytes_pair bs i b : Forall is_u8 bs -> bs !! i = Some b -> pair_value (hex_bytes bs) i = Some b.
Proof.
  intros H; revert i; induction H as [|c bs Hc _ IH]; intros [|i] E; simplify_eq/=.
  - destruct (u8_nibbles b Hc) as [H1 H2]. unfold pair_value. simpl. unfold from_str_radix_16.
    destruct (hex_char_spec _ H1) as (E1 & N1 & _). destruct (hex_char_spec _ H2) as (E2 & _).
    apply Z.eqb_neq in N1. rewrite N1, E1, E2. simpl. f_equal. pose proof (Z.div_mod b 16). lia.
  - specialize (IH i E). unfold pair_value in *.
    replace (2 * S i)%nat with (S (S (2 * i))) by lia. replace (S (S (2 * i)) + 1)%nat with (S (S (2 * i + 1))) by lia.
    exact IH.
Qed.

Lemma hex_loop_hex bs i n :
  Forall is_u8 bs -> length bs = (i + n)%nat -> hex_loop (hex_bytes bs) i n = Ret (Some (drop i bs)).
Proof.
  intros H; revert i; induction n as [|n IH]; intros i Hl.
  { simpl. by rewrite drop_ge by lia. }
  rewrite hex_loop_step by (rewrite length_hex_bytes; lia). unfold pair_whole.
  rewrite !ascii_boundary by (rewrite ?length_hex_bytes; lia || by apply hex_bytes_ascii).
  destruct (lookup_lt_is_Some_2 bs i) as [b Hb]; [lia|]. rewrite (hex_bytes_pair bs i b H Hb). simpl.
  rewrite IH by lia. simpl. by rewrite (drop_S _ _ _ Hb).
Qed.

(** Ids survive: the decoder reads exactly the ids of the right length. *)
Lemma hex_to_hex n bs :
  Forall is_u8 bs -> hex_to n (hex_string bs) = Ret (if (length bs =? n)%nat then Some bs else None).
Proof.
  intros H. unfold hex_to, hex_string.
  rewrite bytes_of_string_of_bytes by (apply hex_bytes_Forall; [|done]; intros d Hd; apply hex_char_spec in Hd; int_lia).
  rewrite trim_utf8_id by (apply hex_bytes_Forall; [|done]; intros d Hd; by apply hex_char_spec).
  rewrite length_hex_bytes. destruct (Nat.eqb_spec (length bs) n) as [<-|Hne].
  - rewrite Nat.eqb_refl. by rewrite hex_loop_hex.
  - destruct (Nat.eqb_spec (2 * length bs) (2 * n)); [lia|done].
Qed.

(** ** The encoder *)

Section Encoder.
(** The text of a bytes value, which the decoder never reads. *)
Context (base64 : list Z -> string).

Definition json_u64 (z : Z) : Value := JString (show_u64 z).
Definition json_i64 (z : Z) : Value := JString (show_i64 z).
Definition json_f64 (x : f64) : Value := JNumber (Float x).

(** An optional member. *)
Definition member (key : string) (v : option Value) : list (string * Value) :=
  match v with Some v => [(key, v)] | None => [] end.

Fixpoint json_any (v : ProtoAnyValue) : Value :=
  match v with
  | NoValue => JObject []
  | StringValue s => JObject [("stringValue", JString s)]
  | BoolValue b => JObject [("boolValue", JBool b)]
  | IntValue i => JObject [("intValue", json_i64 i)]
  | DoubleValue d => JObject [("doubleValue", json_f64 d)]
  | ArrayValue vs => JObject [("arrayValue", JObject [("values", JArray (map json_any vs))])]
  | KvlistValue kvs =>
      JObject [("kvlistValue", JObject [("values", JArray (map (fun kv =>
        JObject (("key", JString (kv_key kv)) ::
                 match kv_value kv with Some v => [("value", json_any v)] | None => [] end)) kvs))])]
  | BytesValue bs => JObject [("bytesValue", JString (base64 bs))]
  end.

Definition json_attrs (kvs : list KeyValue) : Value :=
  JArray (map (fun kv => JObject (("key", JString (kv_key kv)) :: member "value" (json_any <$> kv_value kv))) kvs).

Definition json_scope (s : ProtoScope) : Value :=
  JObject [("name", JString (ps_name s)); ("version", JString (ps_version s));
           ("attributes", json_attrs (ps_attributes s))].

Definition json_resource (r : Resource) : Value := JObject [("attributes", json_attrs (res_attributes r))].

Definition json_log (r : ProtoLog) : Value :=
  JObject ([("timeUnixNano", json_u64 (pl_time_unix_nano r));
            ("observedTimeUnixNano", json_u64 (pl_observed_time_unix_nano r));
            ("severityNumber", json_int (pl_severity_number r));
            ("severityText", JString (pl_severity_text r));
            ("attributes", json_attrs (pl_attributes r));
            ("flags", json_int (pl_flags r));
            ("traceId", JString (hex_string (pl_trace_id r)));
            ("spanId", JString (hex_string (pl_span_id r)))] ++ member "body" (json_any <$> pl_body r)).

Definition json_scope_logs (sl : ScopeLogs) : Value :=
  JObject ([("logRecords", JArray (map json_log (sc_log_records sl))); ("schemaUrl", JString (sc_schema_url sl))] ++
           member "scope" (json_scope <$> sc_scope sl)).

Definition json_resource_logs (rl : ResourceLogs) : Value :=
  JObject ([("scopeLogs", JArray (map json_scope_logs (rl_scope_logs rl))); ("schemaUrl", JString (rl_schema_url rl))] ++
           member "resource" (json_resource <$> rl_resource rl)).

Definition json_logs (rls : list ResourceLogs) : Value :=
  JObject [("resourceLogs", JArray (map json_resource_logs rls))].

Definition json_event (e : ProtoEvent) : Value :=
  JObject [("timeUnixNano", json_u64 (pe_time_unix_nano e)); ("name", JString (pe_name e));
           ("attributes", json_attrs (pe_attributes e))].

Definition json_link (l : ProtoLink) : Value :=
  JObject [("traceId", JString (hex_string (pk_trace_id l))); ("spanId", JString (hex_string (pk_span_id l)));
           ("traceState", JString (pk_trace_state l)); ("attributes", json_attrs (pk_attributes l));
           ("flags", json_int (pk_flags l))].

Definition json_status (s : Status) : Value :=
  JObject [("message", JString (st_message s)); ("code", json_int (st_code s))].

Definition json_span (s : ProtoSpan) : Value :=
  JObject ([("traceId", JString (hex_string (sp_trace_id s)));
            ("spanId", JString (hex_string (sp_span_id s)));
            ("traceState", JString (sp_trace_state s));
            ("parentSpanId", JString (hex_string (sp_parent_span_id s)));
            ("name", JString (sp_name s));
            ("kind", json_int (sp_kind s));
            ("startTimeUnixNano", json_u64 (sp_start_time_unix_nano s));
            ("endTimeUnixNano", json_u64 (sp_end_time_unix_nano s));
            ("attributes", json_attrs (sp_attributes s));
            ("events", JArray (map json_event (sp_events s)));
            ("links", JArray (map json_link (sp_links s)));
            ("flags", json_int (sp_flags s))] ++ member "status" (json_status <$> sp_status s)).

Definition json_scope_spans (ss : ScopeSpans) : Value :=
  JObject ([("spans", JArray (map json_span (ss_spans ss))); ("schemaUrl", JString (ss_schema_url ss))] ++
           member "scope" (json_scope <$> ss_scope ss)).

Definition json_resource_spans (rs : ResourceSpans) : Value :=
  JObject ([("scopeSpans", JArray (map json_scope_spans (rs_scope_spans rs))); ("schemaUrl", JString (rs_schema_url rs))] ++
           member "resource" (json_resource <$> rs_resource rs)).

Definition json_spans (rss : list ResourceSpans) : Value :=
  JObject [("resourceSpans", JArray (map json_resource_spans rss))].
End Encoder.

(** ** The common part of the two formats

    Values that are not lists of pairs or bytes, integers of their width,
    finite floats (JSON has no others), ids of bytes, and attributes with a
    value. *)

Definition finite (x : f64) : bool :=
  match x with SpecFloat.S754_zero _ | SpecFloat.S754_finite _ _ _ => true | _ => false end.

Definition in_u64 (z : Z) : bool := (0 <=? z) && (z <=? u64_max).
Definition in_i64 (z : Z) : bool := (i64_min <=? z) && (z <=? i64_max).
Definition in_i32 (z : Z) : bool := (-2147483648 <=? z) && (z <? 2147483648).
Definition in_u8 (z : Z) : bool := (0 <=? z) && (z <? 256).

Fixpoint any_common (v : ProtoAnyValue) : bool :=
  match v with
  | NoValue | StringValue _ | BoolValue _ => true
  | IntValue i => in_i64 i
  | DoubleValue d => finite d
  | ArrayValue vs => forallb any_common vs
  | KvlistValue _ | BytesValue _ => false
  end.

Definition opt_all {A} (p : A -> bool) (o : option A) : bool := match o with Some a => p a | None => true end.

Definition kv_common (kv : KeyValue) : bool :=
  match kv_value kv with Some v => any_common v | None => false end.

Definition attrs_common (kvs : list KeyValue) : bool := forallb kv_common kvs.
Definition scope_common (s : option ProtoScope) : bool := opt_all (fun s => attrs_common (ps_attributes s)) s.
Definition resource_common (r : option Resource) : bool := opt_all (fun r => attrs_common (res_attributes r)) r.
Definition bytes_ok (bs : list Z) : bool := forallb in_u8 bs.

Definition log_common (r : ProtoLog) : bool :=
  in_u64 (pl_time_unix_nano r) && in_u64 (pl_observed_time_unix_nano r) && in_i32 (pl_severity_number r) &&
  opt_all any_common (pl_body r) && attrs_common (pl_attributes r) && bytes_ok (pl_trace_id r) && bytes_ok (pl_span_id r).

Definition logs_common (rls : list ResourceLogs) : bool :=
  forallb (fun rl => resource_common (rl_resource rl) &&
    forallb (fun sl => scope_common (sc_scope sl) && forallb log_common (sc_log_records sl)) (rl_scope_logs rl)) rls.

Definition event_common (e : ProtoEvent) : bool := in_u64 (pe_time_unix_nano e) && attrs_common (pe_attributes e).
Definition link_common (l : ProtoLink) : bool :=
  bytes_ok (pk_trace_id l) && bytes_ok (pk_span_id l) && attrs_common (pk_attributes l).

Definition span_common (s : ProtoSpan) : bool :=
  bytes_ok (sp_trace_id s) && bytes_ok (sp_span_id s) && bytes_ok (sp_parent_span_id s) && in_i32 (sp_kind s) &&
  in_u64 (sp_start_time_unix_nano s) && in_u64 (sp_end_time_unix_nano s) && attrs_common (sp_attributes s) &&
  forallb event_common (sp_events s) && forallb link_common (sp_links s) &&
  opt_all (fun st => in_i32 (st_code st)) (sp_status s).

Definition spans_common (rss : list ResourceSpans) : bool :=
  forallb (fun rs => resource_common (rs_resource rs) &&
    forallb (fun ss => scope_common (ss_scope ss) && forallb span_common (ss_spans ss)) (rs_scope_spans rs)) rss.

(** ** Agreement of values *)

Lemma decode_u64_json z : in_u64 z = true -> decode_u64 (json_u64 z) = z.
Proof.
  intros H. apply andb_true_iff in H as [H1 H2]. unfold decode_u64. simpl.
  rewrite parse_show_u64; [done|]. int_lia.
Qed.

Lemma in_i64_spec z : in_i64 z = true -> is_i64 z.
Proof. unfold in_i64. intros H. apply andb_true_iff in H as [H1 H2]. int_lia. Qed.

Lemma in_i32_spec z : in_i32 z = true -> is_i32 z /\ is_i64 z.
Proof. unfold in_i32. intros H. apply andb_true_iff in H as [H1 H2]. int_lia. Qed.

Lemma bytes_ok_spec bs : bytes_ok bs = true -> Forall is_u8 bs.
Proof.
  intros H. apply List.Forall_forall. intros b Hb. unfold bytes_ok in H. rewrite forallb_forall in H.
  specialize (H b Hb). apply andb_true_iff in H as [H1 H2]. int_lia.
Qed.

Lemma i32_json z : in_i32 z = true -> wrap_i32 (default 0 (as_i64 (json_int z))) = z.
Proof. intros H. apply in_i32_spec in H as [H1 H2]. rewrite as_i64_json_int by done. by apply wrap_i32_small. Qed.

Lemma decode_json_any base64 v : any_common v = true -> decode_any_value (json_any base64 v) = convert_any_value v.
Proof.
  induction v as [|s|b|i|d|vs IH|kvs _|bs] using ProtoAnyValue_ind'; intros H; try done.
  - apply in_i64_spec in H. cbn. by rewrite parse_show_signed.
  - cbn. f_equal. rewrite map_map. cbn in H. induction IH as [|v vs Hv _ IHvs]; [done|]. cbn in *.
    apply andb_true_iff in H as [H1 H2]. by rewrite (Hv H1), (IHvs H2).
Qed.

Lemma decode_attrs_json base64 kvs : attrs_common kvs = true -> decode_attrs (json_attrs base64 kvs) = convert_attrs kvs.
Proof.
  intros H. unfold decode_attrs, convert_attrs, json_attrs. cbn [as_array]. f_equal.
  rewrite filter_map_map. induction kvs as [|[k [v|]] kvs IH]; cbn in *; [done| |done].
  apply andb_true_iff in H as [H1 H2]. unfold kv_common in H1. cbn in H1. by rewrite decode_json_any, IH.
Qed.

(** Decoding the text of a list of messages, one by one. *)
Lemma for_each_json {A B} (l : list A) (j : A -> Value) (f : Value -> run (list B)) (g : A -> list B) :
  (forall a, In a l -> f (j a) = Ret (g a)) -> for_each (map j l) f = Ret (flat_map g l).
Proof.
  intros H. unfold for_each.
  assert (mapM_out f (map j l) = Ret (map g l)) as ->; [|simpl; by rewrite flat_map_concat_map].
  induction l as [|a l IH]; simpl; [done|]. rewrite H by (by left). simpl.
  rewrite IH by (intros; apply H; by right). done.
Qed.

Lemma mapM_out_json {A B} (l : list A) (j : A -> Value) (f : Value -> run B) (g : A -> B) :
  (forall a, In a l -> f (j a) = Ret (g a)) -> mapM_out f (map j l) = Ret (map g l).
Proof.
  intros H. induction l as [|a l IH]; simpl; [done|]. rewrite H by (by left). simpl.
  rewrite IH by (intros; apply H; by right). done.
Qed.

(** Reading a member of an encoded object. *)
Section Members.
Context (v : Value) (key : string).

Lemma hex_of_16_json bs :
  get v key = Some (JString (hex_string bs)) -> bytes_ok bs = true -> hex_of hex_to_16 v key = Ret (bytes_to_array16 bs).
Proof. intros E H. unfold hex_of. rewrite E. cbn [mbind option_bind as_str]. by apply hex_to_hex, bytes_ok_spec. Qed.

Lemma hex_of_8_json bs :
  get v key = Some (JString (hex_string bs)) -> bytes_ok bs = true -> hex_of hex_to_8 v key = Ret (bytes_to_array8 bs).
Proof. intros E H. unfold hex_of. rewrite E. cbn [mbind option_bind as_str]. by apply hex_to_hex, bytes_ok_spec. Qed.

Lemma u64_or_json z d : get v key = Some (json_u64 z) -> in_u64 z = true -> u64_or v key d = z.
Proof. intros E H. unfold u64_or. rewrite E. by apply decode_u64_json. Qed.

Lemma i32_or_zero_json z : get v key = Some (json_int z) -> in_i32 z = true -> i32_or_zero v key = z.
Proof. intros E H. unfold i32_or_zero. rewrite E. by apply i32_json. Qed.

Lemma str_or_empty_json s : get v key = Some (JString s) -> str_or_empty v key = s.
Proof. intros E. unfold str_or_empty. by rewrite E. Qed.

Lemma items_json {A} (j : A -> Value) l : get v key = Some (JArray (map j l)) -> items v key = map j l.
Proof. intros E. unfold items. by rewrite E. Qed.
End Members.

Lemma attributes_of_json v base64 kvs :
  get v "attributes" = Some (json_attrs base64 kvs) -> attrs_common kvs = true -> attributes_of v = convert_attrs kvs.
Proof. intros E H. unfold attributes_of. rewrite E. by apply decode_attrs_json. Qed.

Lemma resource_json v base64 r :
  get v "resource" = json_resource base64 <$> r -> resource_common r = true -> resource_attributes_of v = resource_attrs r.
Proof.
  intros E H. unfold resource_attributes_of, resource_attrs. rewrite E. destruct r as [r|]; [|done].
  cbn -[decode_attrs json_attrs]. by apply decode_attrs_json.
Qed.

Lemma scope_json v base64 s :
  get v "scope" = json_scope base64 <$> s -> scope_common s = true -> decode_scope (get v "scope") = convert_scope s.
Proof.
  intros E H. rewrite E. destruct s as [s|]; [|done]. unfold convert_scope. cbn [fmap option_fmap option_map decode_scope].
  erewrite !str_or_empty_json by reflexivity. by erewrite attributes_of_json by done.
Qed.

(** Split the conjunctions of the checks. *)
Ltac split_common :=
  repeat match goal with H : _ && _ = true |- _ => apply andb_true_iff in H as [? ?] end.

(** Replace the decoding of an id, found syntactically, by what it gives. *)
Ltac read_id Q :=
  let H := fresh in
  pose proof Q as H; match type of H with ?t = _ => revert H; generalize t; intros ? -> end;
  cbn [mbind outcome_bind].

Lemma decode_log_json base64 ra sc url r :
  log_common r = true ->
  decode_log ra sc url (json_log base64 r) =
  Ret {| lr_timestamp_ns := pl_time_unix_nano r;
         lr_observed_timestamp_ns := pl_observed_time_unix_nano r;
         lr_trace_id := bytes_to_array16 (pl_trace_id r);
         lr_span_id := bytes_to_array8 (pl_span_id r);
         lr_severity_number := pl_severity_number r;
         lr_severity_text := pl_severity_text r;
         lr_body := convert_any_value <$> pl_body r;
         lr_attributes := convert_attrs (pl_attributes r);
         lr_resource_attributes := ra;
         lr_scope := sc;
         lr_schema_url := url |}.
Proof.
  unfold log_common. intros H. split_common. unfold decode_log.
  read_id (hex_of_16_json (json_log base64 r) "traceId" (pl_trace_id r) eq_refl ltac:(done)).
  read_id (hex_of_8_json (json_log base64 r) "spanId" (pl_span_id r) eq_refl ltac:(done)).
  rewrite (u64_or_json _ "timeUnixNano" (pl_time_unix_nano r)) by done.
  rewrite (u64_or_json _ "observedTimeUnixNano" (pl_observed_time_unix_nano r)) by done.
  rewrite (i32_or_zero_json _ _ (pl_severity_number r)), (str_or_empty_json _ _ (pl_severity_text r)) by done.
  rewrite (attributes_of_json _ base64 (pl_attributes r)) by done. do 2 f_equal.
  assert (get (json_log base64 r) "body" = json_any base64 <$> pl_body r) as -> by (by destruct r as [? ? ? ? []]).
  destruct (pl_body r); [|done]. cbn [fmap option_fmap option_map]. by rewrite decode_json_any.
Qed.

(** C12: the two formats of a log request agree.  For a request of the common
    part (no key-value lists and bytes among the values, finite floats, a
    value for every attribute), written by an encoder that always writes the observed time,
    decoding its JSON document gives, without a panic, exactly the
    records the normaliser makes of the protobuf message: attributes of
    records, scopes and resources, bodies with nested arrays, ids of any
    length, severities and times. *)
Theorem logs_formats_agree base64 rls :
  logs_common rls = true -> decode_logs (json_logs base64 rls) = Ret (normalise_logs rls).
Proof.
  intros H. unfold decode_logs, json_logs, normalise_logs. cbn -[json_resource_logs]. apply for_each_json. intros rl Hrl.
  unfold logs_common in H. rewrite forallb_forall in H. specialize (H rl Hrl). apply andb_true_iff in H as [Hr H].
  rewrite forallb_forall in H.
  rewrite (resource_json _ base64 (rl_resource rl)) by (done || by destruct rl as [[]]).
  rewrite (items_json _ _ (json_scope_logs base64) (rl_scope_logs rl)) by done. apply for_each_json. intros sl Hsl.
  specialize (H sl Hsl). apply andb_true_iff in H as [Hs H]. rewrite forallb_forall in H.
  rewrite (scope_json _ base64 (sc_scope sl)) by (done || by destruct sl as [[]]).
  rewrite (items_json _ _ (json_log base64) (sc_log_records sl)), (str_or_empty_json _ _ (sc_schema_url sl)) by done.
  apply mapM_out_json. intros r Hrr. rewrite decode_log_json by auto. done.
Qed.

(** ** Spans *)

Lemma decode_link_json base64 l :
  link_common l = true -> decode_link (json_link base64 l) = Ret (convert_link l).
Proof.
  unfold link_common. intros H. split_common. unfold decode_link, convert_link.
  read_id (hex_of_16_json (json_link base64 l) "traceId" (pk_trace_id l) eq_refl ltac:(done)).
  destruct (bytes_to_array16 (pk_trace_id l)); [|done]. cbn [mbind option_bind].
  read_id (hex_of_8_json (json_link base64 l) "spanId" (pk_span_id l) eq_refl ltac:(done)).
  destruct (bytes_to_array8 (pk_span_id l)); [|done].
  by rewrite (str_or_empty_json _ _ (pk_trace_state l)), (attributes_of_json _ base64 (pk_attributes l)).
Qed.

Lemma decode_event_json base64 e : event_common e = true -> decode_event (json_event base64 e) = convert_event e.
Proof.
  unfold event_common. intros H. split_common. unfold decode_event, convert_event.
  by rewrite (u64_or_json _ _ (pe_time_unix_nano e)), (str_or_empty_json _ _ (pe_name e)),
    (attributes_of_json _ base64 (pe_attributes e)).
Qed.

Definition to_list {A} (o : option A) : list A := match o with Some a => [a] | None => [] end.

Lemma flat_map_to_list {A B} (f : A -> option B) l : flat_map (fun a => to_list (f a)) l = filter_map f l.
Proof. induction l as [|a l IH]; simpl; [done|]. rewrite IH. by destruct (f a). Qed.

Lemma status_json base64 s :
  opt_all (fun st => in_i32 (st_code st)) (sp_status s) = true ->
  wrap_i32 (default 0 (status_field (json_span base64 s) "code" ≫= as_i64)) =
    match sp_status s with Some st => st_code st | None => 0 end /\
  default "" (status_field (json_span base64 s) "message" ≫= as_str) =
    match sp_status s with Some st => st_message st | None => "" end.
Proof.
  intros H. unfold status_field.
  assert (get (json_span base64 s) "status" = json_status <$> sp_status s) as ->
    by (by destruct s as [? ? ? ? ? ? ? ? ? ? ? ? ? ? []]).
  destruct (sp_status s) as [st|]; [|done]. split; [by apply i32_json|done].
Qed.

Lemma map_ext_common {A B} (p : A -> bool) (f g : A -> B) l :
  forallb p l = true -> (forall a, p a = true -> f a = g a) -> map f l = map g l.
Proof. intros H E. apply map_ext_in. intros a Ha. apply E. rewrite forallb_forall in H. auto. Qed.

Lemma decode_span_json base64 ra sc url s :
  span_common s = true -> decode_span ra sc url (json_span base64 s) = Ret (to_list (normalise_span ra sc url s)).
Proof.
  unfold span_common. intros H. split_common. unfold decode_span, normalise_span.
  read_id (hex_of_16_json (json_span base64 s) "traceId" (sp_trace_id s) eq_refl ltac:(done)).
  destruct (bytes_to_array16 (sp_trace_id s)); [|done]. cbn [mbind option_bind].
  read_id (hex_of_8_json (json_span base64 s) "spanId" (sp_span_id s) eq_refl ltac:(done)).
  destruct (bytes_to_array8 (sp_span_id s)); [|done].
  read_id (hex_of_8_json (json_span base64 s) "parentSpanId" (sp_parent_span_id s) eq_refl ltac:(done)).
  rewrite (items_json _ "links" (json_link base64) (sp_links s)), (items_json _ "events" (json_event base64) (sp_events s)) by done.
  rewrite (mapM_out_json _ _ _ convert_link)
    by (intros k Hk; apply decode_link_json; by eapply forallb_forall in Hk; [|done]).
  cbn [mbind outcome_bind]. destruct (status_json base64 s) as [-> ->]; [done|].
  rewrite (u64_or_json _ "startTimeUnixNano" (sp_start_time_unix_nano s)) by done.
  rewrite (u64_or_json _ "endTimeUnixNano" (sp_end_time_unix_nano s)) by done.
  rewrite (i32_or_zero_json _ _ (sp_kind s)), (str_or_empty_json _ _ (sp_name s)) by done.
  rewrite (attributes_of_json _ base64 (sp_attributes s)) by done.
  rewrite filter_map_map, map_map, (map_ext_common event_common _ convert_event) by (done || apply decode_event_json).
  done.
Qed.

(** C23: the two formats of a trace request agree.  For a request of the
    common part (no key-value lists and bytes among the values, finite floats,
    a value for every attribute), decoding its JSON document gives, without a panic, exactly
    the spans the normaliser makes of the protobuf message: the same spans
    are left out for their ids, and the others have the same parent, times,
    duration, status, attributes, events and links. *)
Theorem spans_formats_agree base64 rss :
  spans_common rss = true -> decode_spans (json_spans base64 rss) = Ret (normalise_spans rss).
Proof.
  intros H. unfold decode_spans, json_spans, normalise_spans. cbn -[json_resource_spans]. apply for_each_json. intros rs Hrs.
  unfold spans_common in H. rewrite forallb_forall in H. specialize (H rs Hrs). apply andb_true_iff in H as [Hr H].
  rewrite forallb_forall in H.
  rewrite (resource_json _ base64 (rs_resource rs)) by (done || by destruct rs as [[]]).
  rewrite (items_json _ _ (json_scope_spans base64) (rs_scope_spans rs)) by done. apply for_each_json. intros ss Hss.
  specialize (H ss Hss). apply andb_true_iff in H as [Hs H]. rewrite forallb_forall in H.
  rewrite (scope_json _ base64 (ss_scope ss)) by (done || by destruct ss as [[]]).
  rewrite (items_json _ _ (json_span base64) (ss_spans ss)), (str_or_empty_json _ _ (ss_schema_url ss)) by done.
  cbv zeta. rewrite <- flat_map_to_list. apply for_each_json. intros s Hin. apply decode_span_json. auto.
Qed.

(** ** Metrics *)

Section MetricEncoder.
Context (base64 : list Z -> string).

Definition json_number_value (v : NumberValue) : string * Value :=
  match v with
  | AsDouble d => ("asDouble", json_f64 d)
  | AsInt i => ("asInt", json_i64 i)
  end.

Definition json_number_point (dp : NumberDataPoint) : Value :=
  JObject ([("attributes", json_attrs base64 (nd_attributes dp));
            ("startTimeUnixNano", json_u64 (nd_start_time_unix_nano dp));
            ("timeUnixNano", json_u64 (nd_time_unix_nano dp));
            ("flags", json_int (nd_flags dp))] ++ to_list (json_number_value <$> nd_value dp)).

Definition json_histogram_point (dp : HistogramDataPoint) : Value :=
  JObject ([("attributes", json_attrs base64 (hp_attributes dp));
            ("startTimeUnixNano", json_u64 (hp_start_time_unix_nano dp));
            ("timeUnixNano", json_u64 (hp_time_unix_nano dp));
            ("count", json_u64 (hp_count dp));
            ("bucketCounts", JArray (map json_u64 (hp_bucket_counts dp)));
            ("explicitBounds", JArray (map json_f64 (hp_explicit_bounds dp)))] ++
           member "sum" (json_f64 <$> hp_sum dp) ++ member "min" (json_f64 <$> hp_min dp) ++
           member "max" (json_f64 <$> hp_max dp)).

Definition json_buckets (b : Buckets) : Value :=
  JObject [("offset", json_int (bk_offset b)); ("bucketCounts", JArray (map json_u64 (bk_bucket_counts b)))].

Definition json_exponential_point (dp : ExponentialHistogramDataPoint) : Value :=
  JObject ([("attributes", json_attrs base64 (eh_attributes dp));
            ("startTimeUnixNano", json_u64 (eh_start_time_unix_nano dp));
            ("timeUnixNano", json_u64 (eh_time_unix_nano dp));
            ("count", json_u64 (eh_count dp));
            ("scale", json_int (eh_scale dp));
            ("zeroCount", json_u64 (eh_zero_count dp))] ++
           member "sum" (json_f64 <$> eh_sum dp) ++ member "positive" (json_buckets <$> eh_positive dp) ++
           member "negative" (json_buckets <$> eh_negative dp)).

Definition json_summary_point (dp : SummaryDataPoint) : Value :=
  JObject [("attributes", json_attrs base64 (sd_attributes dp));
           ("startTimeUnixNano", json_u64 (sd_start_time_unix_nano dp));
           ("timeUnixNano", json_u64 (sd_time_unix_nano dp));
           ("count", json_u64 (sd_count dp));
           ("sum", json_f64 (sd_sum dp));
           ("quantileValues", JArray (map (fun q => JObject [("quantile", json_f64 (vq_quantile q));
                                                             ("value", json_f64 (vq_value q))]) (sd_quantile_values dp)))].

Definition json_data (d : MetricData) : string * Value :=
  match d with
  | DGauge dps => ("gauge", JObject [("dataPoints", JArray (map json_number_point dps))])
  | DSum dps t mono =>
      ("sum", JObject [("dataPoints", JArray (map json_number_point dps)); ("aggregationTemporality", json_int t);
                       ("isMonotonic", JBool mono)])
  | DHistogram dps t =>
      ("histogram", JObject [("dataPoints", JArray (map json_histogram_point dps)); ("aggregationTemporality", json_int t)])
  | DExponentialHistogram dps t =>
      ("exponentialHistogram",
       JObject [("dataPoints", JArray (map json_exponential_point dps)); ("aggregationTemporality", json_int t)])
  | DSummary dps => ("summary", JObject [("dataPoints", JArray (map json_summary_point dps))])
  end.

Definition json_metric (m : ProtoMetric) : Value :=
  JObject ([("name", JString (pm_name m)); ("description", JString (pm_description m)); ("unit", JString (pm_unit m))] ++
           to_list (json_data <$> pm_data m)).

Definition json_scope_metrics (sm : ScopeMetrics) : Value :=
  JObject ([("metrics", JArray (map json_metric (sm_metrics sm))); ("schemaUrl", JString (sm_schema_url sm))] ++
           member "scope" (json_scope base64 <$> sm_scope sm)).

Definition json_resource_metrics (rm : ResourceMetrics) : Value :=
  JObject ([("scopeMetrics", JArray (map json_scope_metrics (rm_scope_metrics rm))); ("schemaUrl", JString (rm_schema_url rm))] ++
           member "resource" (json_resource base64 <$> rm_resource rm)).

Definition json_metrics (rms : list ResourceMetrics) : Value :=
  JObject [("resourceMetrics", JArray (map json_resource_metrics rms))].
End MetricEncoder.

Definition number_point_common (dp : NumberDataPoint) : bool :=
  attrs_common (nd_attributes dp) && in_u64 (nd_start_time_unix_nano dp) && in_u64 (nd_time_unix_nano dp) &&
  opt_all (fun v => match v with AsDouble d => finite d | AsInt i => in_i64 i end) (nd_value dp).

Definition metric_common (m : ProtoMetric) : bool :=
  match pm_data m with
  | Some (DGauge dps) => forallb number_point_common dps
  | Some (DSum dps t _) => forallb number_point_common dps && in_i32 t
  | _ => true
  end.

Definition metrics_common (rms : list ResourceMetrics) : bool :=
  forallb (fun rm => resource_common (rm_resource rm) &&
    forallb (fun sm => scope_common (sm_scope sm) && forallb metric_common (sm_metrics sm)) (rm_scope_metrics rm)) rms.

(** What the JSON decoder keeps of a point. *)
Definition is_number (p : MetricPoint) : bool := match mp_histogram p with None => true | Some _ => false end.

Definition forget_int (p : MetricPoint) : MetricPoint :=
  {| mp_timestamp_ns := mp_timestamp_ns p; mp_start_timestamp_ns := mp_start_timestamp_ns p; mp_name := mp_name p;
     mp_description := mp_description p; mp_unit := mp_unit p; mp_metric_type := mp_metric_type p;
     mp_value_double := mp_value_double p; mp_value_int := None; mp_histogram := mp_histogram p;
     mp_attributes := mp_attributes p; mp_resource_attributes := mp_resource_attributes p; mp_scope := mp_scope p;
     mp_schema_url := mp_schema_url p |}.

Lemma decode_point_json base64 m t ra sc url dp :
  number_point_common dp = true ->
  decode_point (pm_name m) (pm_description m) (pm_unit m) t ra sc url (json_number_point base64 dp) =
  forget_int (number_point m t ra sc url dp).
Proof.
  unfold number_point_common. intros H. split_common. unfold decode_point.
  rewrite (u64_or_json _ "timeUnixNano" (nd_time_unix_nano dp)) by done.
  rewrite (u64_or_json _ "startTimeUnixNano" (nd_start_time_unix_nano dp)) by done.
  rewrite (attributes_of_json _ base64 (nd_attributes dp)) by done. unfold forget_int, number_point. simpl.
  by destruct dp as [? ? ? [[]|]].
Qed.

Lemma filter_all {A} (p : A -> bool) l : (forall a, In a l -> p a = true) -> List.filter p l = l.
Proof.
  induction l as [|a l IH]; intros H; simpl; [done|]. rewrite H by (by left). rewrite IH; [done|]. intros; apply H; by right.
Qed.

Lemma points_json base64 m t ra sc url dps :
  forallb number_point_common dps = true ->
  map (decode_point (pm_name m) (pm_description m) (pm_unit m) t ra sc url) (map (json_number_point base64) dps) =
  map forget_int (List.filter is_number (map (number_point m t ra sc url) dps)).
Proof.
  intros H. rewrite (filter_all is_number) by (intros p Hp; apply in_map_iff in Hp as (dp & <- & _); done).
  rewrite !map_map. apply (map_ext_common _ _ _ _ H). intros dp Hdp. by apply decode_point_json.
Qed.

Lemma decode_metric_json base64 ra sc url m :
  metric_common m = true ->
  decode_metric ra sc url (json_metric base64 m) =
  map forget_int (List.filter is_number (normalise_metric m ra sc url)).
Proof.
  unfold metric_common. intros H. unfold decode_metric, normalise_metric.
  rewrite (str_or_empty_json _ "name" (pm_name m)), (str_or_empty_json _ "description" (pm_description m)),
    (str_or_empty_json _ "unit" (pm_unit m)) by done.
  destruct m as [name desc unit data]. cbn [pm_data pm_name pm_description pm_unit] in *.
  set (m := {| pm_name := name; pm_description := desc; pm_unit := unit; pm_data := data |}).
  destruct data as [[dps|dps t mono|dps t|dps t|dps]|]; try done.
  - etransitivity; [|apply (points_json base64 m Gauge ra sc url dps H)]. cbn. by rewrite app_nil_r.
  - split_common. etransitivity; [|apply (points_json base64 m (Sum mono t) ra sc url dps); done].
    cbn -[i32_or_zero]. by rewrite (i32_or_zero_json _ _ t).
  - cbn. induction dps; [done|]. exact IHdps.
Qed.

(** C32: the JSON format of a metric request loses exactly two things.  For a
    request of the common part (no key-value lists and bytes among the
    values, finite floats, a value for every attribute), decoding its JSON document gives the points
    the normaliser makes of the protobuf message, in order, except that
    histogram points are left out and integer values, which the format
    writes as strings, are gone (an integer sent as a JSON number would be
    kept). *)
Theorem metrics_formats_differ base64 rms :
  metrics_common rms = true ->
  decode_metrics (json_metrics base64 rms) = map forget_int (List.filter is_number (normalise_metrics rms)).
Proof.
  intros H. unfold decode_metrics, json_metrics, normalise_metrics. cbn -[json_resource_metrics].
  rewrite flat_map_over_map, filter_flat_map, map_flat_map.
  apply flat_map_ext_on. intros rm Hrm.
  unfold metrics_common in H. rewrite forallb_forall in H. specialize (H rm Hrm). apply andb_true_iff in H as [Hr H].
  rewrite forallb_forall in H.
  rewrite (resource_json _ base64 (rm_resource rm)) by (done || by destruct rm as [[]]).
  rewrite (items_json _ _ (json_scope_metrics base64) (rm_scope_metrics rm)) by done.
  rewrite flat_map_over_map, filter_flat_map, map_flat_map.
  apply flat_map_ext_on. intros sm Hsm. specialize (H sm Hsm). apply andb_true_iff in H as [Hs H]. rewrite forallb_forall in H.
  rewrite (scope_json _ base64 (sm_scope sm)) by (done || by destruct sm as [[]]).
  rewrite (items_json _ _ (json_metric base64) (sm_metrics sm)), (str_or_empty_json _ _ (sm_schema_url sm)) by done.
  rewrite flat_map_over_map, filter_flat_map, map_flat_map.
  apply flat_map_ext_on. intros m Hm. apply decode_metric_json. auto.
Qed.

(** ** A request of every kind *)

Definition sample_attrs : list KeyValue :=
  [ {| kv_key := "env"; kv_value := Some (StringValue "prod") |};
    {| kv_key := "n"; kv_value := Some (ArrayValue [IntValue (-5); BoolValue true; NoValue]) |};
    {| kv_key := "env"; kv_value := Some (StringValue "test") |} ].

Definition sample_resource : option Resource :=
  Some {| res_attributes := sample_attrs; res_dropped_attributes_count := 0 |}.

Definition sample_logs : list ResourceLogs :=
  [ {| rl_resource := sample_resource;
       rl_scope_logs :=
         [ {| sc_scope := None;
              sc_log_records :=
                [ {| pl_time_unix_nano := 1000000; pl_observed_time_unix_nano := 0; pl_severity_number := 9;
                     pl_severity_text := "INFO"; pl_body := Some (StringValue "hello"); pl_attributes := sample_attrs;
                     pl_dropped_attributes_count := 0; pl_flags := 0; pl_trace_id := repeat 171 16; pl_span_id := [1; 2] |} ];
              sc_schema_url := "u" |} ];
       rl_schema_url := "" |} ].

Lemma logs_formats_agree_witness :
  decode_logs (json_logs (fun _ => "") sample_logs) = Ret (normalise_logs sample_logs) /\
  length (normalise_logs sample_logs) = 1%nat.
Proof. split; [apply logs_formats_agree; vm_compute; reflexivity|reflexivity]. Defined.

Definition sample_span (id : list Z) : ProtoSpan :=
  {| sp_trace_id := id; sp_span_id := repeat 2 8; sp_trace_state := ""; sp_parent_span_id := []; sp_name := "s"; sp_kind := 1;
     sp_start_time_unix_nano := 5; sp_end_time_unix_nano := 3; sp_attributes := sample_attrs; sp_dropped_attributes_count := 0;
     sp_events := [{| pe_time_unix_nano := 4; pe_name := "e"; pe_attributes := []; pe_dropped_attributes_count := 0 |}];
     sp_dropped_events_count := 0;
     sp_links := [{| pk_trace_id := repeat 7 16; pk_span_id := repeat 8 8; pk_trace_state := ""; pk_attributes := [];
                     pk_dropped_attributes_count := 0; pk_flags := 0 |}];
     sp_dropped_links_count := 0; sp_status := Some {| st_message := "m"; st_code := 2 |}; sp_flags := 0 |}.

Definition sample_spans : list ResourceSpans :=
  [ {| rs_resource := sample_resource;
       rs_scope_spans := [ {| ss_scope := None; ss_spans := [sample_span (repeat 255 16); sample_span [1]]; ss_schema_url := "u" |} ];
       rs_schema_url := "" |} ].

Lemma spans_formats_agree_witness :
  decode_spans (json_spans (fun _ => "") sample_spans) = Ret (normalise_spans sample_spans) /\
  length (normalise_spans sample_spans) = 1%nat.
Proof. split; [apply spans_formats_agree; vm_compute; reflexivity|reflexivity]. Defined.

Definition sample_point (v : NumberValue) : NumberDataPoint :=
  {| nd_attributes := []; nd_start_time_unix_nano := 1; nd_time_unix_nano := 2; nd_value := Some v; nd_exemplars := []; nd_flags := 0 |}.

Definition sample_metric (d : MetricData) : ProtoMetric :=
  {| pm_name := "m"; pm_description := ""; pm_unit := "1"; pm_data := Some d |}.

Definition sample_metrics : list ResourceMetrics :=
  [ {| rm_resource := sample_resource;
       rm_scope_metrics :=
         [ {| sm_scope := None;
              sm_metrics :=
                [ sample_metric (DGauge [sample_point (AsInt 7); sample_point (AsDouble f64_zero)]);
                  sample_metric (DHistogram [{| hp_attributes := []; hp_start_time_unix_nano := 0; hp_time_unix_nano := 1; hp_count := 1;
                    hp_sum := None; hp_bucket_counts := [1]; hp_explicit_bounds := []; hp_exemplars := []; hp_flags := 0;
                    hp_min := None; hp_max := None |}] 2) ];
              sm_schema_url := "" |} ];
       rm_schema_url := "" |} ].

Lemma metrics_formats_differ_witness :
  decode_metrics (json_metrics (fun _ => "") sample_metrics) =
    map forget_int (List.filter is_number (normalise_metrics sample_metrics)) /\
  length (normalise_metrics sample_metrics) = 3%nat /\
  map mp_value_int (normalise_metrics sample_metrics) = [Some 7; None; None] /\
  map mp_value_int (decode_metrics (json_metrics (fun _ => "") sample_metrics)) = [None; None].
Proof.
  split; [apply metrics_formats_differ; vm_compute; reflexivity|]. split_and!; vm_compute; reflexivity.
Defined.
