(* ===== verification/Ingest.v ===== *)
(** * The ingest pipeline

    [crates/infralens-ingest/src/processor.rs] and [error.rs]: the bounded
    channel between the protocol handlers and the storage engine, with the
    background writer.  The writer runs concurrently with the handlers: a
    schedule interleaves calls of [submit] and turns of the writer. *)

From Stdlib Require Import ZArith Lia.
From stdpp Require Import base tactics list numbers option strings gmap.
From S2P Require Import Prelude Text Float64 Model Wal MemTable Fs Hash ZoneMap Bloom Arrow SSTable Partition Compaction Engine EngineSafety.

(** ** Errors *)

Inductive IngestError : Type :=
| BufferFull
| Storage (e : StorageError)
| Normalisation (msg : string).

Definition is_retriable (e : IngestError) : bool :=
  match e with BufferFull => true | _ => false end.

(** ** The store behind the pipeline *)

(** What the writer asks of the storage engine. *)
Class StorageSink (W : Type) := { sink_write : IngestBatch -> st W StorageError unit }.

#[export] Instance engine_sink {libs : EngineLibs} : StorageSink (Fs * Engine) := {| sink_write := write_batch |}.

(** ** State *)

(** An increment of [infralens_storage_writes_total]: signal, whether the
    status is [ok], count. *)
Record Increment := { in_signal : SignalType; in_ok : bool; in_count : Z }.

Record IngestPipeline (W : Type) := {
  ip_config : IngestConfig;
  ip_queue : list IngestBatch;
  ip_alive : bool;
  ip_store : W;
  ip_backpressure : Z;
  ip_writes : list Increment
}.
Arguments ip_config {W} _.
Arguments ip_queue {W} _.
Arguments ip_alive {W} _.
Arguments ip_store {W} _.
Arguments ip_backpressure {W} _.
Arguments ip_writes {W} _.

(** The most permits a channel of the runtime can have. *)
Definition MAX_PERMITS : Z := 2305843009213693951.

Section Pipeline.
Context {W : Type} {sink : StorageSink W}.

(** [IngestPipeline::new]: a channel without room panics. *)
Definition pipeline_new (config : IngestConfig) (engine : W) : outcome IngestError (IngestPipeline W) :=
  if (buffer_depth config =? 0)%nat || (MAX_PERMITS <? Z.of_nat (buffer_depth config)) then Panic
  else Ret {| ip_config := config; ip_queue := []; ip_alive := true; ip_store := engine; ip_backpressure := 0;
              ip_writes := [] |}.

(** [submit]: [try_send] on a closed, a free and a full channel. *)
Definition submit (batch : IngestBatch) : st (IngestPipeline W) IngestError unit := fun p =>
  if negb (ip_alive p) then (Fail BufferFull, p)
  else if (length (ip_queue p) <? buffer_depth (ip_config p))%nat then
    (Ret tt, {| ip_config := ip_config p; ip_queue := ip_queue p ++ [batch]; ip_alive := true; ip_store := ip_store p;
                ip_backpressure := ip_backpressure p; ip_writes := ip_writes p |})
  else
    (Fail BufferFull, {| ip_config := ip_config p; ip_queue := ip_queue p; ip_alive := true; ip_store := ip_store p;
                         ip_backpressure := ip_backpressure p + 1; ip_writes := ip_writes p |}).

(** One turn of [writer_task]: a failed write is only counted; a panic ends
    the task, which drops the receiver with what waits in the channel. *)
Definition writer_turn (p : IngestPipeline W) : option (IngestBatch * outcome StorageError unit) * IngestPipeline W :=
  match ip_alive p, ip_queue p with
  | true, batch :: q =>
      let signal := signal_type batch in
      let count := batch_len batch in
      let '(r, w) := sink_write batch (ip_store p) in
      (Some (batch, r),
       match r with
       | Panic => {| ip_config := ip_config p; ip_queue := []; ip_alive := false; ip_store := w;
                     ip_backpressure := ip_backpressure p; ip_writes := ip_writes p |}
       | Ret _ => {| ip_config := ip_config p; ip_queue := q; ip_alive := true; ip_store := w;
                     ip_backpressure := ip_backpressure p;
                     ip_writes := ip_writes p ++ [{| in_signal := signal; in_ok := true; in_count := count |}] |}
       | Fail _ => {| ip_config := ip_config p; ip_queue := q; ip_alive := true; ip_store := w;
                      ip_backpressure := ip_backpressure p;
                      ip_writes := ip_writes p ++ [{| in_signal := signal; in_ok := false; in_count := count |}] |}
       end)
  | _, _ => (None, p)
  end.

(** ** Schedules *)

Inductive ingest_op := OpSubmit (batch : IngestBatch) | OpWrite.

Inductive ingest_event :=
| Accepted (batch : IngestBatch)
| Refused (batch : IngestBatch)
| Written (batch : IngestBatch) (r : outcome StorageError unit)
| Idle.

Definition ingest_step (p : IngestPipeline W) (op : ingest_op) : ingest_event * IngestPipeline W :=
  match op with
  | OpSubmit batch => let '(r, p') := submit batch p in
                      (match r with Ret _ => Accepted batch | _ => Refused batch end, p')
  | OpWrite => let '(o, p') := writer_turn p in
               (match o with Some (batch, r) => Written batch r | None => Idle end, p')
  end.

Fixpoint ingest_run (ops : list ingest_op) (p : IngestPipeline W) : list ingest_event * IngestPipeline W :=
  match ops with
  | [] => ([], p)
  | op :: ops => let '(ev, p1) := ingest_step p op in let '(evs, p2) := ingest_run ops p1 in (ev :: evs, p2)
  end.

Definition accepted : list ingest_event -> list IngestBatch :=
  filter_map (fun ev => match ev with Accepted b => Some b | _ => None end).

Definition written : list ingest_event -> list (IngestBatch * outcome StorageError unit) :=
  filter_map (fun ev => match ev with Written b r => Some (b, r) | _ => None end).

(** The writes one after the other, whatever each returns. *)
Fixpoint write_batches (bs : list IngestBatch) (w : W) : list (IngestBatch * outcome StorageError unit) * W :=
  match bs with
  | [] => ([], w)
  | b :: bs => let '(r, w1) := sink_write b w in let '(rs, w2) := write_batches bs w1 in ((b, r) :: rs, w2)
  end.

(** ** Facts about runs *)

Lemma ingest_run_app ops1 ops2 p :
  ingest_run (ops1 ++ ops2) p =
  let '(evs1, p1) := ingest_run ops1 p in let '(evs2, p2) := ingest_run ops2 p1 in (evs1 ++ evs2, p2).
Proof.
  revert p; induction ops1 as [|op ops1 IH]; intros p; simpl; [by destruct (ingest_run ops2 p)|].
  destruct (ingest_step p op) as [ev p1]. rewrite IH. destruct (ingest_run ops1 p1) as [evs1 p2].
  by destruct (ingest_run ops2 p2).
Qed.

Lemma accepted_app e1 e2 : accepted (e1 ++ e2) = accepted e1 ++ accepted e2.
Proof. apply filter_map_app. Qed.

Lemma written_app e1 e2 : written (e1 ++ e2) = written e1 ++ written e2.
Proof. apply filter_map_app. Qed.

Lemma write_batches_app b1 b2 w :
  write_batches (b1 ++ b2) w =
  let '(r1, w1) := write_batches b1 w in let '(r2, w2) := write_batches b2 w1 in (r1 ++ r2, w2).
Proof.
  revert w; induction b1 as [|b b1 IH]; intros w; simpl; [by destruct (write_batches b2 w)|].
  destruct (sink_write b w) as [r w1]. rewrite IH. destruct (write_batches b1 w1) as [r1 w2].
  by destruct (write_batches b2 w2).
Qed.

(** The increments the writes cause: a panic counts nothing. *)
Definition increment_of (br : IngestBatch * outcome StorageError unit) : option Increment :=
  match snd br with
  | Panic => None
  | Ret _ => Some {| in_signal := signal_type (fst br); in_ok := true; in_count := batch_len (fst br) |}
  | Fail _ => Some {| in_signal := signal_type (fst br); in_ok := false; in_count := batch_len (fst br) |}
  end.

(** What holds after the events [evs] of a run from a fresh pipeline over
    the store [w]. *)
Record fifo (config : IngestConfig) (w : W) (evs : list ingest_event) (p : IngestPipeline W) : Prop := {
  fifo_config : ip_config p = config;
  fifo_order : exists lost, accepted evs = map fst (written evs) ++ ip_queue p ++ lost /\
                            (ip_alive p = true -> lost = []) /\ (ip_alive p = false -> ip_queue p = []);
  fifo_bound : (length (ip_queue p) <= buffer_depth config)%nat;
  fifo_store : write_batches (map fst (written evs)) w = (written evs, ip_store p);
  fifo_writes : ip_writes p = filter_map increment_of (written evs)
}.

Lemma fifo_step config w evs p op :
  fifo config w evs p -> let '(ev, p') := ingest_step p op in fifo config w (evs ++ [ev]) p'.
Proof.
  intros [Hc (lost & Ho & Ha & Hd) Hb Hs Hw]. destruct op as [batch|]; simpl.
  - unfold submit. destruct (ip_alive p) eqn:Eal; simpl; [|].
    + destruct (Nat.ltb_spec (length (ip_queue p)) (buffer_depth (ip_config p))) as [Hlt|Hge];
        split; simpl; rewrite ?accepted_app, ?written_app; simpl; rewrite ?app_nil_r; try done.
      * rewrite Ha in Ho by done. exists []. rewrite !app_nil_r in *. split; [|done].
        rewrite Ho. by rewrite <- app_assoc.
      * rewrite length_app. simpl. rewrite <- Hc. lia.
      * exists lost. done.
    + split; rewrite ?accepted_app, ?written_app; simpl; rewrite ?app_nil_r; try done. exists lost. by rewrite Eal.
  - unfold writer_turn. destruct (ip_alive p) eqn:Eal; [destruct (ip_queue p) as [|b q] eqn:Eq|]; cycle 1.
    + destruct (sink_write b (ip_store p)) as [r w'] eqn:Er. simpl.
      assert (write_batches (map fst (written evs ++ [(b, r)])) w = (written evs ++ [(b, r)], w')) as Hs'.
      { rewrite map_app, write_batches_app, Hs. simpl. by rewrite Er. }
      rewrite (Ha eq_refl), app_nil_r in Ho.
      destruct r; split; simpl; rewrite ?accepted_app, ?written_app; simpl; rewrite ?filter_map_app, ?app_nil_r;
        simpl; rewrite ?app_nil_r; try done; try (simpl in Hb; lia); try (by rewrite Hw).
      * exists []. rewrite map_app, app_nil_r, Ho. simpl. by rewrite <- app_assoc.
      * exists []. rewrite map_app, app_nil_r, Ho. simpl. by rewrite <- app_assoc.
      * exists q. rewrite map_app, Ho. simpl. by rewrite <- app_assoc.
    + split; simpl; rewrite ?accepted_app, ?written_app; simpl; rewrite ?app_nil_r; try done. by exists lost; rewrite Eal.
    + split; simpl; rewrite ?accepted_app, ?written_app; simpl; rewrite ?app_nil_r, ?Eq; try done.
      exists lost. by rewrite Eal.
Qed.

Lemma fifo_run config w ops evs p :
  fifo config w evs p -> let '(evs', p') := ingest_run ops p in fifo config w (evs ++ evs') p'.
Proof.
  revert evs p; induction ops as [|op ops IH]; intros evs p H; simpl; [by rewrite app_nil_r|].
  pose proof (fifo_step config w evs p op H) as H1. destruct (ingest_step p op) as [ev p1].
  specialize (IH _ _ H1). destruct (ingest_run ops p1) as [evs' p2]. by rewrite <- app_assoc in IH.
Qed.

(** ** Progress *)

(** The state before step [n] of an endless schedule, and the event there. *)
Fixpoint state_at (sched : nat -> ingest_op) (p : IngestPipeline W) (n : nat) : IngestPipeline W :=
  match n with
  | O => p
  | S n => snd (ingest_step (state_at sched p n) (sched n))
  end.

Definition event_at (sched : nat -> ingest_op) (p : IngestPipeline W) (n : nat) : ingest_event :=
  fst (ingest_step (state_at sched p n) (sched n)).

(** The writer always gets another turn. *)
Definition fair (sched : nat -> ingest_op) : Prop := forall n, exists m, (n <= m)%nat /\ sched m = OpWrite.

(** [b] waits behind the batches [q]. *)
Definition waits (q : list IngestBatch) (b : IngestBatch) (p : IngestPipeline W) : Prop :=
  ip_alive p = true /\ exists rest, ip_queue p = q ++ b :: rest.

Lemma submit_waits q b batch p : waits q b p -> waits q b (snd (submit batch p)).
Proof.
  intros (Ha & rest & Hq). unfold submit. rewrite Ha. simpl. destruct (_ <? _)%nat; simpl.
  - split; [done|]. exists (rest ++ [batch]). simpl. by rewrite Hq, <- app_assoc.
  - split; [done|]. by exists rest.
Qed.

(** Steps before the next turn of the writer leave a waiting batch in place. *)
Lemma waits_until sched p q b k n :
  waits q b (state_at sched p n) -> sched (n + k)%nat = OpWrite ->
  exists m, (n <= m)%nat /\ sched m = OpWrite /\ waits q b (state_at sched p m).
Proof.
  revert n; induction k as [|k IH]; intros n Hw Hk.
  { exists n. rewrite Nat.add_0_r in Hk. done. }
  destruct (sched n) as [batch|] eqn:E; [|by exists n].
  destruct (IH (S n)) as (m & Hm & Es & Hwm).
  - simpl. rewrite E. pose proof (submit_waits q b batch _ Hw) as Hs. simpl.
    by destruct (submit batch (state_at sched p n)).
  - by replace (S n + k)%nat with (n + S k)%nat by lia.
  - exists m. split; [lia|done].
Qed.

Lemma waits_written sched p q b n :
  fair sched -> waits q b (state_at sched p n) ->
  exists m, (n <= m)%nat /\ ((exists r, event_at sched p m = Written b r) \/ (exists b', event_at sched p m = Written b' Panic)).
Proof.
  intros Hf. revert n; induction q as [|b0 q IH]; intros n Hw;
    destruct (Hf n) as (k & Hk & Ek);
    destruct (waits_until sched p _ b (k - n) n Hw) as (m & Hm & Es & Ha & rest & Hq);
    try (by replace (n + (k - n))%nat with k by lia); simpl in Hq;
    unfold event_at; pose (ev := ingest_step (state_at sched p m) (sched m)); fold ev.
  - exists m. split; [done|]. left. fold ev. unfold ev. rewrite Es. simpl. unfold writer_turn. rewrite Ha, Hq.
    destruct (sink_write b _) as [r w]. by exists r.
  - destruct (sink_write b0 (ip_store (state_at sched p m))) as [r w] eqn:Er.
    destruct r as [u|e|]; [| |exists m; split; [done|right; exists b0; rewrite Es; simpl; unfold writer_turn; by rewrite Ha, Hq, Er]].
    all: destruct (IH (S m)) as (m' & Hm' & Hev);
      [simpl; rewrite Es; simpl; unfold writer_turn; rewrite Ha, Hq, Er; split; [done|by exists rest]
      |exists m'; split; [lia|done]].
Qed.
End Pipeline.

(** C11: the pipeline is a bounded first-in first-out buffer in front of the
    store.  Under any interleaving of submissions and turns of the writer,
    the batches handed to the storage engine are the accepted ones in the
    order of their acceptance, each once; those not yet written wait in the
    queue, which never exceeds the configured depth, and only a panic of the
    engine loses them; the store is the one sequential writes would give,
    and the counters record every write that returned. *)
Theorem pipeline_fifo {W} {sink : StorageSink W} config w p ops :
  pipeline_new config w = Ret p ->
  let '(evs, p') := ingest_run ops p in
  (exists lost, accepted evs = map fst (written evs) ++ ip_queue p' ++ lost /\ (ip_alive p' = true -> lost = [])) /\
  (length (ip_queue p') <= buffer_depth config)%nat /\
  write_batches (map fst (written evs)) w = (written evs, ip_store p') /\
  ip_writes p' = filter_map increment_of (written evs).
Proof.
  intros Hn. assert (fifo config w [] p) as H0.
  { unfold pipeline_new in Hn. destruct (_ || _); simplify_eq. split; simpl; try done; [by exists []|lia]. }
  pose proof (fifo_run config w ops [] p H0) as H. destruct (ingest_run ops p) as [evs p'].
  destruct H as [_ (lost & Ho & Ha & _) Hb Hs Hw]. split_and!; [|done..]. by exists lost.
Qed.

(** C19: an accepted batch is eventually written.  On every endless schedule
    that gives the writer turns for ever, a batch accepted at some step is
    handed to the storage engine at a later step, unless the engine panics
    first; no number of later submissions delays it. *)
Theorem pipeline_live {W} {sink : StorageSink W} sched (p : IngestPipeline W) n b :
  fair sched -> event_at sched p n = Accepted b ->
  exists m, (n < m)%nat /\ ((exists r, event_at sched p m = Written b r) \/ (exists b', event_at sched p m = Written b' Panic)).
Proof.
  intros Hf He. destruct (waits_written sched p (ip_queue (state_at sched p n)) b (S n) Hf) as (m & Hm & H).
  - unfold event_at in He. simpl. destruct (sched n) as [batch|]; simpl in *.
    + unfold submit in *. destruct (ip_alive _) eqn:Ea; [|done]. simpl in *.
      destruct (_ <? _)%nat; simpl in *; [|done]. injection He as ->. split; [done|]. by exists [].
    + destruct (writer_turn _) as [[[]|] ?]; done.
  - exists m. split; [lia|done].
Qed.

(** ** The pipeline over the storage engine *)

Definition test_pipeline : IngestPipeline (Fs * Engine) :=
  {| ip_config := {| buffer_depth := 1; max_batch_records := 10 |}; ip_queue := []; ip_alive := true;
     ip_store := (opened_disk test_room, opened 64); ip_backpressure := 0; ip_writes := [] |}.

(** Two submissions find room for one batch; two turns of the writer. *)
Definition test_ops : list ingest_op :=
  [OpSubmit (Logs [log_at 5]); OpSubmit (Metrics []); OpWrite; OpSubmit (Spans []); OpWrite].

Lemma pipeline_fifo_witness :
  let '(evs, p') := @ingest_run _ (@engine_sink engine_reference) test_ops test_pipeline in
  accepted evs = [Logs [log_at 5]; Spans []] /\ accepted evs = map fst (written evs) ++ ip_queue p' /\
  ip_backpressure p' = 1.
Proof.
  pose proof (@pipeline_fifo _ (@engine_sink engine_reference) {| buffer_depth := 1; max_batch_records := 10 |}
    (opened_disk test_room, opened 64) test_pipeline test_ops eq_refl) as H.
  assert (let '(evs, p') := @ingest_run _ (@engine_sink engine_reference) test_ops test_pipeline in
    accepted evs = [Logs [log_at 5]; Spans []] /\ ip_alive p' = true /\ ip_backpressure p' = 1) as E
    by (vm_compute; auto).
  destruct (ingest_run test_ops test_pipeline) as [evs p'].
  destruct H as ((lost & Ho & Ha) & _). destruct E as (E1 & E2 & E3). rewrite (Ha E2), app_nil_r in Ho.
  split; [exact E1|split; [exact Ho|exact E3]].
Defined.

(** Submissions and turns of the writer alternate. *)
Definition alternating (n : nat) : ingest_op := if Nat.even n then OpSubmit (Logs [log_at 5]) else OpWrite.

Lemma pipeline_live_witness :
  exists m, (0 < m)%nat /\
    ((exists r, @event_at _ (@engine_sink engine_reference) alternating test_pipeline m = Written (Logs [log_at 5]) r) \/
     (exists b', @event_at _ (@engine_sink engine_reference) alternating test_pipeline m = Written b' Panic)).
Proof.
  apply (@pipeline_live _ (@engine_sink engine_reference) alternating test_pipeline 0 (Logs [log_at 5])).
  - intros n. exists (S (2 * n)). split; [lia|]. unfold alternating. by rewrite Nat.even_succ, Nat.odd_mul, andb_comm, andb_false_r.
  - reflexivity.
Defined.
