(* ===== verification/Handlers.v ===== *)
(** * The OTLP endpoints

    [crates/infralens-ingest/src/http.rs] (the three POST handlers) and
    [grpc.rs] (the three collector services), over the pipeline.  The parsers
    of the request bodies ([serde_json], [prost]) are an interface. *)

From Stdlib Require Import ZArith Lia.
From stdpp Require Import base tactics list numbers option strings gmap.
From S2P Require Import Prelude Text Float64 Model Wal Fs Engine EngineSafety SSTable Otlp Normalizer Json JsonDecoder Ingest.

Local Open Scope string_scope.
Local Open Scope list_scope.
Local Open Scope Z_scope.

(** [serde_json::from_slice] and the [decode] of the three request messages:
    an error with its text, or the message; the bytes of the default response
    messages; and the [Bytes] extractor of the web framework, which refuses a
    body above its limit (2 MB by default) with a text of its own. *)
Class BodyCodecs := {
  json_from_slice : list Z -> string + Value;
  proto_logs : list Z -> string + list ResourceLogs;
  proto_metrics : list Z -> string + list ResourceMetrics;
  proto_spans : list Z -> string + list ResourceSpans;
  proto_default_response : list Z;
  body_limit : Z;
  too_large_text : string
}.

(** ** HTTP *)

Definition CONTENT_TYPE_PROTO : string := "application/x-protobuf".
Definition CONTENT_TYPE_JSON : string := "application/json".

Inductive StatusCode : Type := OK | BAD_REQUEST | PAYLOAD_TOO_LARGE | UNSUPPORTED_MEDIA_TYPE | TOO_MANY_REQUESTS | INTERNAL_SERVER_ERROR.

(** The body of a response; the text of an ingest error is its [Display]. *)
Inductive Body : Type :=
| BText (s : string)
| BBytes (bs : list Z)
| BError (e : IngestError).

Record Response := { rsp_status : StatusCode; rsp_content_type : option string; rsp_body : Body }.

(** The header fields in order, their names in lower case. *)
Abbreviation HeaderMap := (list (string * list Z)).

Fixpoint header_get (headers : HeaderMap) (name : string) : option (list Z) :=
  match headers with
  | [] => None
  | (n, v) :: headers => if (n =? name)%string then Some v else header_get headers name
  end.

(** [HeaderValue::to_str]: visible ASCII and tabs. *)
Definition header_to_str (v : list Z) : option string :=
  if forallb (fun b => ((32 <=? b) && (b <? 127)) || (b =? 9)) v then Some (string_of_bytes v) else None.

(** [content_type]. *)
Definition content_type (headers : HeaderMap) : string :=
  default "" (header_get headers "content-type" ≫= header_to_str).

Definition unsupported_text : string := "Content-Type must be application/json or application/x-protobuf".
Definition json_success : string :=
  let quote := string_of_bytes [34] in "{" +:+ quote +:+ "partialSuccess" +:+ quote +:+ ":{}}".

(** The content type the framework gives to text. *)
Definition TEXT_PLAIN : string := "text/plain; charset=utf-8".

Section Handlers.
Context {W : Type} {codecs : BodyCodecs}.

(** The answer to [submit]. *)
Definition submit_response (ct : string) (r : outcome IngestError unit) : outcome Empty_set Response :=
  match r with
  | Ret _ =>
      Ret (if starts_with CONTENT_TYPE_JSON ct then
             {| rsp_status := OK; rsp_content_type := Some CONTENT_TYPE_JSON; rsp_body := BText json_success |}
           else
             {| rsp_status := OK; rsp_content_type := Some CONTENT_TYPE_PROTO; rsp_body := BBytes proto_default_response |})
  | Fail e =>
      if is_retriable e then Ret {| rsp_status := TOO_MANY_REQUESTS; rsp_content_type := Some TEXT_PLAIN; rsp_body := BError e |}
      else Ret {| rsp_status := INTERNAL_SERVER_ERROR; rsp_content_type := Some TEXT_PLAIN; rsp_body := BError e |}
  | Panic => Panic
  end.

(** What the three handlers do with the headers and the body: the records,
    or the response of an early return. *)
Definition decode_request {R} (from_json : Value -> outcome Empty_set (list R)) (from_proto : list Z -> string + list R)
    (ct : string) (body : list Z) : outcome Empty_set (Response + list R) :=
  if starts_with CONTENT_TYPE_JSON ct then
    match json_from_slice body with
    | inr v => inr <$> from_json v
    | inl e => Ret (inl {| rsp_status := BAD_REQUEST; rsp_content_type := Some TEXT_PLAIN; rsp_body := BText e |})
    end
  else if starts_with CONTENT_TYPE_PROTO ct then
    match from_proto body with
    | inr r => Ret (inr r)
    | inl e => Ret (inl {| rsp_status := BAD_REQUEST; rsp_content_type := Some TEXT_PLAIN; rsp_body := BText e |})
    end
  else Ret (inl {| rsp_status := UNSUPPORTED_MEDIA_TYPE; rsp_content_type := Some TEXT_PLAIN; rsp_body := BText unsupported_text |}).

Definition handle {R} (from_json : Value -> outcome Empty_set (list R)) (from_proto : list Z -> string + list R)
    (wrap : list R -> IngestBatch) (headers : HeaderMap) (body : list Z) : st (IngestPipeline W) Empty_set Response := fun p =>
  let ct := content_type headers in
  match decode_request from_json from_proto ct body with
  | Panic => (Panic, p)
  | Fail e => (Fail e, p)
  | Ret (inl response) => (Ret response, p)
  | Ret (inr records) => let '(r, p') := submit (wrap records) p in (submit_response ct r, p')
  end.

(** [r.map(|r| normalise(&r))]. *)
Definition normalised {A R} (normalise : list A -> list R) (decoded : string + list A) : string + list R :=
  match decoded with inl e => inl e | inr m => inr (normalise m) end.

Definition handle_logs : HeaderMap -> list Z -> st (IngestPipeline W) Empty_set Response :=
  handle decode_logs (fun body => normalised normalise_logs (proto_logs body)) Logs.

Definition handle_metrics : HeaderMap -> list Z -> st (IngestPipeline W) Empty_set Response :=
  handle (fun v => Ret (decode_metrics v)) (fun body => normalised normalise_metrics (proto_metrics body)) Metrics.

Definition handle_traces : HeaderMap -> list Z -> st (IngestPipeline W) Empty_set Response :=
  handle decode_spans (fun body => normalised normalise_spans (proto_spans body)) Spans.

(** The [body : Bytes] argument of the handlers: they run only on a body
    within the limit. *)
Definition with_bytes (handler : HeaderMap -> list Z -> st (IngestPipeline W) Empty_set Response)
    (headers : HeaderMap) (body : list Z) : st (IngestPipeline W) Empty_set Response :=
  if body_limit <? zlen body then
    mret {| rsp_status := PAYLOAD_TOO_LARGE; rsp_content_type := Some TEXT_PLAIN; rsp_body := BText too_large_text |}
  else handler headers body.

(** [router]: the handlers of a POST to one of three paths. *)
Definition router (path : string) : option (HeaderMap -> list Z -> st (IngestPipeline W) Empty_set Response) :=
  if (path =? "/v1/logs")%string then Some (with_bytes handle_logs)
  else if (path =? "/v1/metrics")%string then Some (with_bytes handle_metrics)
  else if (path =? "/v1/traces")%string then Some (with_bytes handle_traces)
  else None.

(** *** The HTTP application of the server ([main.rs]) *)

Inductive Method := GET | HEAD | POST | OtherMethod (name : string).

Inductive AppReply := Replied (r : Response) | MethodNotAllowed | NotFound.

Definition text_ok (body : string) : Response :=
  {| rsp_status := OK; rsp_content_type := Some TEXT_PLAIN; rsp_body := BText body |}.

(** The probes of [main] merged with the routes of [router]. *)
Definition app (method : Method) (path : string) (headers : HeaderMap) (body : list Z) : st (IngestPipeline W) Empty_set AppReply :=
  if ((path =? "/healthz")%string || (path =? "/readyz")%string) then
    match method with
    | GET => mret (Replied (text_ok "ok"))
    | HEAD => mret (Replied (text_ok ""))
    | _ => mret MethodNotAllowed
    end
  else
    match router path with
    | Some handler =>
        match method with
        | POST => r ← handler headers body; mret (Replied r)
        | _ => mret MethodNotAllowed
        end
    | None => mret NotFound
    end.
End Handlers.

(** ** gRPC *)

(** [ExportLogsServiceResponse] and its siblings: how many records were
    rejected, and why. *)
Record PartialSuccess := { ps_rejected : Z; ps_error_message : string }.

Inductive GrpcStatus : Type := ResourceExhausted (e : IngestError) | Internal (e : IngestError).

Section Grpc.
Context {W : Type}.

(** The body of the three [export]s over a normalised batch. *)
Definition export (batch : IngestBatch) : st (IngestPipeline W) GrpcStatus PartialSuccess := fun p =>
  let '(r, p') := submit batch p in
  (match r with
   | Ret _ => Ret {| ps_rejected := 0; ps_error_message := "" |}
   | Fail e => Fail (if is_retriable e then ResourceExhausted e else Internal e)
   | Panic => Panic
   end, p').

Definition export_logs (resource_logs : list ResourceLogs) : st (IngestPipeline W) GrpcStatus PartialSuccess :=
  export (Logs (normalise_logs resource_logs)).
Definition export_metrics (resource_metrics : list ResourceMetrics) : st (IngestPipeline W) GrpcStatus PartialSuccess :=
  export (Metrics (normalise_metrics resource_metrics)).
Definition export_traces (resource_spans : list ResourceSpans) : st (IngestPipeline W) GrpcStatus PartialSuccess :=
  export (Spans (normalise_spans resource_spans)).
End Grpc.

(** ** What a request holds *)

Section Contract.
Context {W : Type} {codecs : BodyCodecs}.

Definition is_json (ct : string) : Prop := starts_with CONTENT_TYPE_JSON ct = true.
Definition is_proto (ct : string) : Prop := starts_with CONTENT_TYPE_JSON ct = false /\ starts_with CONTENT_TYPE_PROTO ct = true.

(** The batch of a well-formed request. *)
Inductive request_batch (ct : string) (body : list Z) : string -> IngestBatch -> Prop :=
| rb_logs_json v rs : is_json ct -> json_from_slice body = inr v -> decode_logs v = Ret rs ->
    request_batch ct body "/v1/logs" (Logs rs)
| rb_logs_proto m : is_proto ct -> proto_logs body = inr m -> request_batch ct body "/v1/logs" (Logs (normalise_logs m))
| rb_metrics_json v : is_json ct -> json_from_slice body = inr v ->
    request_batch ct body "/v1/metrics" (Metrics (decode_metrics v))
| rb_metrics_proto m : is_proto ct -> proto_metrics body = inr m ->
    request_batch ct body "/v1/metrics" (Metrics (normalise_metrics m))
| rb_spans_json v rs : is_json ct -> json_from_slice body = inr v -> decode_spans v = Ret rs ->
    request_batch ct body "/v1/traces" (Spans rs)
| rb_spans_proto m : is_proto ct -> proto_spans body = inr m -> request_batch ct body "/v1/traces" (Spans (normalise_spans m)).

(** The body does not parse in the format its type names. *)
Inductive unparsable (ct : string) (body : list Z) : string -> Prop :=
| up_json path e : is_json ct -> json_from_slice body = inl e -> unparsable ct body path
| up_logs e : is_proto ct -> proto_logs body = inl e -> unparsable ct body "/v1/logs"
| up_metrics e : is_proto ct -> proto_metrics body = inl e -> unparsable ct body "/v1/metrics"
| up_spans e : is_proto ct -> proto_spans body = inl e -> unparsable ct body "/v1/traces".

Lemma submit_cases batch (p : IngestPipeline W) :
  (ip_alive p = true /\ (length (ip_queue p) < buffer_depth (ip_config p))%nat /\
   exists p', submit batch p = (Ret tt, p') /\ ip_queue p' = ip_queue p ++ [batch] /\ ip_store p' = ip_store p) \/
  ((ip_alive p = false \/ (buffer_depth (ip_config p) <= length (ip_queue p))%nat) /\
   exists p', submit batch p = (Fail BufferFull, p') /\ ip_queue p' = ip_queue p /\ ip_store p' = ip_store p).
Proof.
  unfold submit. destruct (ip_alive p); simpl; [|right; split; [by left|by exists p]].
  destruct (Nat.ltb_spec (length (ip_queue p)) (buffer_depth (ip_config p))).
  - left. split_and!; [done|done|]. eexists. split; [reflexivity|done].
  - right. split; [by right|]. eexists. split; [reflexivity|done].
Qed.

(** The outcome of a handler on a request of type [ct] and path [path], whose
    body is within the limit. *)
Definition contract (path ct : string) (body : list Z) (p : IngestPipeline W) (r : outcome Empty_set Response)
    (p' : IngestPipeline W) : Prop :=
  match r with
  | Ret resp =>
      match rsp_status resp with
      | OK => exists batch, request_batch ct body path batch /\ ip_alive p = true /\
                (length (ip_queue p) < buffer_depth (ip_config p))%nat /\ ip_queue p' = ip_queue p ++ [batch]
      | TOO_MANY_REQUESTS => (exists batch, request_batch ct body path batch) /\ ip_queue p' = ip_queue p /\
                (ip_alive p = false \/ (buffer_depth (ip_config p) <= length (ip_queue p))%nat)
      | BAD_REQUEST => p' = p /\ unparsable ct body path
      | UNSUPPORTED_MEDIA_TYPE => p' = p /\ ~ is_json ct /\ ~ is_proto ct
      | PAYLOAD_TOO_LARGE | INTERNAL_SERVER_ERROR => False
      end
  | Fail _ => False
  | Panic => p' = p /\ is_json ct
  end.

Lemma handle_contract {R} from_json from_proto (wrap : list R -> IngestBatch) path headers body p :
  (forall v rs, is_json (content_type headers) -> json_from_slice body = inr v -> from_json v = Ret rs ->
     request_batch (content_type headers) body path (wrap rs)) ->
  (forall rs, is_proto (content_type headers) -> from_proto body = inr rs ->
     request_batch (content_type headers) body path (wrap rs)) ->
  (forall e, is_proto (content_type headers) -> from_proto body = inl e -> unparsable (content_type headers) body path) ->
  let '(r, p') := handle from_json from_proto wrap headers body p in contract path (content_type headers) body p r p'.
Proof.
  intros Hj Hp Hu. unfold handle, decode_request. set (ct := content_type headers) in *.
  assert (forall rs, request_batch ct body path (wrap rs) ->
    let '(r, p') := (let '(r, p') := submit (wrap rs) p in (submit_response ct r, p')) in contract path ct body p r p') as Hs.
  { intros rs Hrs. destruct (submit_cases (wrap rs) p) as [(Ha & Hl & p' & E & Hq & _)|(Hc & p' & E & Hq & _)]; rewrite E.
    - unfold contract, submit_response. destruct (starts_with _ ct); simpl; by exists (wrap rs).
    - simpl. split_and!; [by exists (wrap rs)|done|done]. }
  destruct (starts_with CONTENT_TYPE_JSON ct) eqn:Ej; [destruct (json_from_slice body) as [e|v] eqn:Eb|].
  - simpl. split; [done|]. by eapply up_json.
  - destruct (from_json v) as [rs|[]|] eqn:Ev; simpl; [|done]. apply Hs. by apply (Hj v).
  - destruct (starts_with CONTENT_TYPE_PROTO ct) eqn:Ep; [destruct (from_proto body) as [e|rs] eqn:Eb|].
    + simpl. split; [done|]. by apply (Hu e).
    + apply Hs. by apply Hp.
    + simpl. unfold is_json, is_proto. rewrite Ej, Ep. naive_solver.
Qed.
End Contract.

Lemma handlers_contract {W} {codecs : BodyCodecs} headers body (p : IngestPipeline W) :
  let ct := content_type headers in
  (let '(r, p') := handle_logs headers body p in contract "/v1/logs" ct body p r p') /\
  (let '(r, p') := handle_metrics headers body p in contract "/v1/metrics" ct body p r p') /\
  (let '(r, p') := handle_traces headers body p in contract "/v1/traces" ct body p r p').
Proof.
  split_and!; apply handle_contract; try by (intros; econstructor).
  - intros rs Hp E. unfold normalised in E. destruct (proto_logs body) eqn:Eb; simplify_eq. by apply rb_logs_proto.
  - intros e Hp E. unfold normalised in E. destruct (proto_logs body) eqn:Eb; simplify_eq. by eapply up_logs.
  - intros v rs Hj E Ev. simplify_eq. by apply rb_metrics_json.
  - intros rs Hp E. unfold normalised in E. destruct (proto_metrics body) eqn:Eb; simplify_eq. by apply rb_metrics_proto.
  - intros e Hp E. unfold normalised in E. destruct (proto_metrics body) eqn:Eb; simplify_eq. by eapply up_metrics.
  - intros rs Hp E. unfold normalised in E. destruct (proto_spans body) eqn:Eb; simplify_eq. by apply rb_spans_proto.
  - intros e Hp E. unfold normalised in E. destruct (proto_spans body) eqn:Eb; simplify_eq. by eapply up_spans.
Qed.

Definition otlp_path (path : string) : bool := existsb (String.eqb path) ["/v1/logs"; "/v1/metrics"; "/v1/traces"].
Definition probe_path (path : string) : bool := existsb (String.eqb path) ["/healthz"; "/readyz"].

(** What the server promises for a request: the probes are answered without
    a look at anything, the three paths take a POST only, and a body above
    the limit is refused before its handler runs. *)
Definition app_contract {W} {codecs : BodyCodecs} (method : Method) (path : string) (headers : HeaderMap) (body : list Z)
    (p : IngestPipeline W) (r : outcome Empty_set AppReply) (p' : IngestPipeline W) : Prop :=
  if otlp_path path then
    match method with
    | POST =>
        if body_limit <? zlen body then
          p' = p /\ exists resp, r = Ret (Replied resp) /\ rsp_status resp = PAYLOAD_TOO_LARGE
        else exists o, contract path (content_type headers) body p o p' /\ r = Replied <$> o
    | _ => p' = p /\ r = Ret MethodNotAllowed
    end
  else p' = p /\ r = Ret (if probe_path path then match method with
                                                | GET => Replied (text_ok "ok")
                                                | HEAD => Replied (text_ok "")
                                                | _ => MethodNotAllowed
                                                end
                           else NotFound).

Lemma otlp_post {W} {codecs : BodyCodecs} path handler headers body (p : IngestPipeline W) :
  (let '(r, p') := handler headers body p in contract path (content_type headers) body p r p') ->
  let '(r, p') := (r ← with_bytes handler headers body; mret (Replied r)) p in
  if body_limit <? zlen body then p' = p /\ exists resp, r = Ret (Replied resp) /\ rsp_status resp = PAYLOAD_TOO_LARGE
  else exists o, contract path (content_type headers) body p o p' /\ r = Replied <$> o.
Proof.
  intros Hc. unfold with_bytes, mbind, st_bind. destruct (body_limit <? zlen body); [cbn; eauto|].
  destruct (handler headers body p) as [[resp|e|] p']; cbn; eexists; (split; [exact Hc|done]).
Qed.

(** C21: what the HTTP server promises, for a request of any method and
    path.  A POST to one of the three OTLP paths is answered 413 when its
    body is above the limit of the framework; otherwise 200 exactly when the
    batch it decodes to was put at the end of the queue, 429 when it decodes
    but the queue is full or the writer is gone, 400 when the body does not
    parse, 415 when the content type is neither of the two, and never 500;
    only decoding JSON can panic.  The two probes are answered 200 to GET and
    HEAD, another method on these paths 405, any other path 404.  In all
    cases but the 200 of an OTLP path nothing is enqueued. *)
Theorem http_contract {W} {codecs : BodyCodecs} method path headers body (p : IngestPipeline W) :
  let '(r, p') := app method path headers body p in app_contract method path headers body p r p'.
Proof.
  destruct (handlers_contract headers body p) as (Hl & Hm & Ht). unfold app, app_contract, otlp_path, probe_path, router. cbn [existsb].
  destruct (String.eqb_spec path "/healthz") as [->|_]; [by destruct method|].
  destruct (String.eqb_spec path "/readyz") as [->|_]; [by destruct method|]. cbn [orb].
  destruct (String.eqb_spec path "/v1/logs") as [->|_]; [destruct method; try done; by apply otlp_post|].
  destruct (String.eqb_spec path "/v1/metrics") as [->|_]; [destruct method; try done; by apply otlp_post|].
  destruct (String.eqb_spec path "/v1/traces") as [->|_]; [destruct method; try done; by apply otlp_post|]. done.
Qed.

Lemma export_accepts {W} batch (p : IngestPipeline W) r p' :
  export batch p = (Ret r, p') -> ps_rejected r = 0 /\ ip_queue p' = ip_queue p ++ [batch].
Proof.
  unfold export. destruct (submit_cases batch p) as [(_ & _ & p1 & -> & Hq & _)|(_ & p1 & -> & _ & _)]; intros H; simplify_eq.
  done.
Qed.

(** An accepted export reports no rejections, whatever was dropped.  The
    metrics service enqueues only the points of gauges, sums and histograms,
    the trace service only the spans with ids of the right length, and both
    answer that zero records were rejected. *)
Theorem export_hides_rejections {W} (p : IngestPipeline W) rms rss :
  (forall r p', export_metrics rms p = (Ret r, p') ->
     ps_rejected r = 0 /\ exists recs, ip_queue p' = ip_queue p ++ [Metrics recs] /\
       zlen recs = zsum (map kept_points (request_metrics rms))) /\
  (forall r p', export_traces rss p = (Ret r, p') ->
     ps_rejected r = 0 /\ exists recs, ip_queue p' = ip_queue p ++ [Spans recs] /\
       zlen recs = zlen (List.filter span_has_ids (request_spans rss))).
Proof.
  split; intros r p' E; apply export_accepts in E as [Hr Hq]; (split; [done|]); eexists; (split; [exact Hq|]).
  - apply normalise_metrics_count.
  - apply normalise_spans_count.
Qed.

(** ** Requests *)

(** Bodies that parse to nothing, except one. *)
Definition test_codecs : BodyCodecs :=
  {| json_from_slice := fun bs => match bs with [] => inl "EOF while parsing a value" | _ => inr (JObject []) end;
     proto_logs := fun _ => inr []; proto_metrics := fun _ => inr []; proto_spans := fun _ => inr [];
     proto_default_response := []; body_limit := 2097152; too_large_text := "length limit exceeded" |}.

Definition json_headers : HeaderMap := [("content-type", bytes_of_string "application/json; charset=utf-8")].

Example post_enqueues :
  let '(r, p') := @app _ test_codecs POST "/v1/logs" json_headers [123; 125] test_pipeline in
  r = Ret (Replied {| rsp_status := OK; rsp_content_type := Some CONTENT_TYPE_JSON; rsp_body := BText json_success |}) /\ ip_queue p' = [Logs []].
Proof. vm_compute. auto. Qed.

(** A summary with one point. *)
Definition summary_request : list ResourceMetrics :=
  [ {| rm_resource := None;
       rm_scope_metrics := [ {| sm_scope := None;
         sm_metrics := [ {| pm_name := "s"; pm_description := ""; pm_unit := "";
           pm_data := Some (DSummary [ {| sd_attributes := []; sd_start_time_unix_nano := 0; sd_time_unix_nano := 1; sd_count := 1;
             sd_sum := f64_zero; sd_quantile_values := []; sd_flags := 0 |} ]) |} ];
         sm_schema_url := "" |} ];
       rm_schema_url := "" |} ].

Lemma export_hides_rejections_witness :
  exists r p' recs, export_metrics summary_request test_pipeline = (Ret r, p') /\ ps_rejected r = 0 /\
    ip_queue p' = [Metrics recs] /\ zlen recs = 0.
Proof.
  destruct (export_hides_rejections test_pipeline summary_request []) as [H _].
  destruct (H _ _ eq_refl) as (Hr & recs & Hq & Hz). eexists _, _, recs. split; [reflexivity|].
  split; [exact Hr|]. split; [exact Hq|]. rewrite Hz. reflexivity.
Defined.
