(* ===== verification/EndToEnd.v ===== *)
(** * From a request to the disk

    The composition of the ingest path: an HTTP request through its handler
    ([Handlers]), the pipeline ([Ingest]) and the storage engine ([Engine]). *)

From Stdlib Require Import ZArith Lia.
From stdpp Require Import base tactics list numbers option strings gmap.
From S2P Require Import Prelude Text BTree Float64 Codec Model Wal MemTable Fs Hash ZoneMap Bloom Arrow SSTable Partition Compaction Engine EngineSafety Otlp Normalizer Json JsonDecoder Ingest Handlers.

Local Open Scope string_scope.
Local Open Scope list_scope.
Local Open Scope Z_scope.

(** A POST of a well-formed request within the limit submits its batch. *)
Lemma app_submits {W} {codecs : BodyCodecs} path headers body batch (p : IngestPipeline W) :
  request_batch (content_type headers) body path batch -> zlen body <= body_limit ->
  app POST path headers body p = let '(r, p') := submit batch p in (Replied <$> submit_response (content_type headers) r, p').
Proof.
  intros Hb Hl.
  assert (forall h, h headers body p = (let '(r, p') := submit batch p in (submit_response (content_type headers) r, p')) ->
    (r ← with_bytes h headers body; mret (Replied r)) p =
    let '(r, p') := submit batch p in (Replied <$> submit_response (content_type headers) r, p')) as Hw.
  { intros h Hh. unfold mbind, st_bind, with_bytes. destruct (Z.ltb_spec body_limit (zlen body)); [lia|]. rewrite Hh.
    destruct (submit batch p) as [o p']. by destruct (submit_response _ o) as [?|[]|]. }
  destruct Hb as [v rs Hj Ej Ed|m [Hj Hp] Em|v Hj Ej|m [Hj Hp] Em|v rs Hj Ej Ed|m [Hj Hp] Em]; unfold app; simpl; apply Hw;
    unfold handle_logs, handle_metrics, handle_traces, handle, decode_request, normalised, is_json in *.
  - by rewrite Hj, Ej, Ed.
  - by rewrite Hj, Hp, Em.
  - by rewrite Hj, Ej.
  - by rewrite Hj, Hp, Em.
  - by rewrite Hj, Ej, Ed.
  - by rewrite Hj, Hp, Em.
Qed.

(** A request and the next turn of the writer. *)
Definition ingest_one {libs : EngineLibs} {codecs : BodyCodecs} (path : string) (headers : HeaderMap) (body : list Z)
    (p : IngestPipeline (Fs * Engine))
    : outcome Empty_set AppReply * option (IngestBatch * outcome StorageError unit) * IngestPipeline (Fs * Engine) :=
  let '(r, p1) := app POST path headers body p in
  let '(o, p2) := writer_turn p1 in (r, o, p2).

(** Where the writer is alive and has nothing else to do, it takes the batch
    of the request to the engine. *)
Lemma ingest_one_writes {libs : EngineLibs} {codecs : BodyCodecs} path headers body batch p s s' :
  request_batch (content_type headers) body path batch -> zlen body <= body_limit ->
  ip_alive p = true -> ip_queue p = [] -> (0 < buffer_depth (ip_config p))%nat -> ip_store p = s ->
  write_batch batch s = (Ret tt, s') ->
  exists resp p2, ingest_one path headers body p = (Ret (Replied resp), Some (batch, Ret tt), p2) /\ rsp_status resp = OK /\
    ip_queue p2 = [] /\ ip_store p2 = s'.
Proof.
  intros Hb Hl Ha Hq Hd Hs Ew. unfold ingest_one. rewrite (app_submits path headers body batch p Hb Hl).
  unfold submit. rewrite Ha, Hq. cbn [negb length]. rewrite (proj2 (Nat.ltb_lt _ _) Hd).
  unfold writer_turn. cbn [ip_alive ip_queue Datatypes.app ip_store]. rewrite Hs. cbn [sink_write engine_sink]. rewrite Ew.
  unfold submit_response. destruct (starts_with CONTENT_TYPE_JSON (content_type headers)); eexists _, _; split_and!; reflexivity.
Qed.

(** C5: a request reaches the disk.  The pipeline is alive with an empty
    queue, over an open engine in a reachable state that has room in its
    flush queue, on a healthy disk with room for what the log buffers and the
    entry.  A POST within the body limit, in either format, that decodes to
    one record of any signal, which serialises, is answered 200, and the next
    turn of the writer puts its encoding at the end of the log of its
    partition and into a table that is active or queued for flushing, losing
    no earlier row. *)
Theorem request_reaches_storage {libs : EngineLibs} {codecs : BodyCodecs} config path headers body batch p w e ts t sig d :
  request_batch (content_type headers) body path batch -> zlen body <= body_limit ->
  ip_alive p = true -> ip_queue p = [] -> (0 < buffer_depth (ip_config p))%nat -> ip_store p = (w, e) ->
  reachable config (w, e) -> en_closed e = false -> 0 < bucket_of config -> healthy w -> tables_young e ->
  (length (en_queue e) < FLUSH_QUEUE)%nat -> one_record batch = Some (ts, t, sig, Some d) ->
  let key := bucket_of config * (ts / bucket_of config) in
  let entry := {| entry_type := t; entry_data := d |} in
  (buffered key e + length (encode entry) <= fs_room w)%nat ->
  exists resp p2 w' e' s base,
    ingest_one path headers body p = (Ret (Replied resp), Some (batch, Ret tt), p2) /\ rsp_status resp = OK /\
    ip_queue p2 = [] /\ ip_store p2 = (w', e') /\
    log_stream key w' e' = base ++ encode entry /\
    pending e' key ({| rk_timestamp_ns := ts; rk_signal_type := sig; rk_sequence := s |}, d) /\
    (forall k row, pending e k row -> pending e' k row).
Proof.
  intros Hb Hl Ha Hq Hd Hs Hre Hc Hbk Hh Hy Hfl Ho key entry Hroom.
  destruct (write_one_accepted config batch ts t sig d w e Hre Hc Hbk Hh Hy Hfl Ho Hroom)
    as (w' & e' & s & base & Ew & Hls & _ & Hp & Hk).
  destruct (ingest_one_writes path headers body batch p (w, e) (w', e') Hb Hl Ha Hq Hd Hs Ew) as (resp & p2 & E & Hok & Hq2 & Hs2).
  by exists resp, p2, w', e', s, base.
Qed.

(** ** A protobuf request with one log record *)

Definition proto_log_at (ts : Z) : list ResourceLogs :=
  [ {| rl_resource := None;
       rl_scope_logs := [ {| sc_scope := None;
         sc_log_records := [ {| pl_time_unix_nano := ts; pl_observed_time_unix_nano := ts; pl_severity_number := 9;
           pl_severity_text := "INFO"; pl_body := None; pl_attributes := []; pl_dropped_attributes_count := 0; pl_flags := 0;
           pl_trace_id := []; pl_span_id := [] |} ];
         sc_schema_url := "" |} ];
       rl_schema_url := "" |} ].

Definition proto_codecs : BodyCodecs :=
  {| json_from_slice := fun _ => inl "expected value"; proto_logs := fun _ => inr (proto_log_at 5); proto_metrics := fun _ => inr [];
     proto_spans := fun _ => inr []; proto_default_response := []; body_limit := 2097152; too_large_text := "length limit exceeded" |}.

Definition proto_headers : HeaderMap := [("content-type", bytes_of_string CONTENT_TYPE_PROTO)].

Lemma request_reaches_storage_witness :
  exists resp p2 w' e' s base,
    @ingest_one engine_reference proto_codecs "/v1/logs" proto_headers [1] test_pipeline =
      (Ret (Replied resp), Some (Logs [log_at 5], Ret tt), p2) /\ rsp_status resp = OK /\ ip_store p2 = (w', e') /\
    log_stream 0 w' e' = base ++ @encode Crc32_ieee test_entry /\
    pending e' 0 ({| rk_timestamp_ns := 5; rk_signal_type := 0; rk_sequence := s |}, codec_encode (log_encode (log_at 5))).
Proof.
  destruct (@request_reaches_storage engine_reference proto_codecs (test_config 64) "/v1/logs" proto_headers [1]
    (Logs [log_at 5]) test_pipeline (opened_disk test_room) (opened 64) 5 ENTRY_LOG 0 (codec_encode (log_encode (log_at 5))))
    as (resp & p2 & w' & e' & s & base & E & H1 & _ & H2 & H3 & H4 & _).
  - apply (@rb_logs_proto proto_codecs _ [1] (proto_log_at 5)); [split; reflexivity|reflexivity].
  - vm_compute. discriminate.
  - reflexivity.
  - reflexivity.
  - apply Nat.ltb_lt. reflexivity.
  - reflexivity.
  - apply opened_reachable.
  - reflexivity.
  - reflexivity.
  - reflexivity.
  - intros l m Hl. discriminate Hl.
  - apply Nat.ltb_lt. reflexivity.
  - reflexivity.
  - change (buffered _ (opened 64)) with O. cbn [fs_room opened_disk]. unfold test_room. apply le_n.
  - exists resp, p2, w', e', s, base. split; [exact E|]. split; [exact H1|]. split; [exact H2|]. split; [exact H3|exact H4].
Defined.
