(* ===== verification/IngestQuery.v ===== *)
(** * From a request to the answer of a query

    The whole way of a log record: an HTTP request through its handler and
    the pipeline into the engine ([EndToEnd]), the freeze of the table it
    fills, the flush of the table, and a query that reads the files
    ([FlushQuery]). *)

From Stdlib Require Import ZArith Lia Permutation.
From stdpp Require Import base tactics list numbers option strings gmap sorting.
From S2P Require Import Prelude Text Float64 Codec Model Arrow Fs Wal MemTable ZoneMap Bloom SSTable Partition Compaction Engine EngineSafety Durability Ast Lexer Parser Plan Eval Executor Sort Query FlushQuery Otlp Normalizer Json JsonDecoder Ingest Handlers EndToEnd.

Local Open Scope string_scope.
Local Open Scope list_scope.
Local Open Scope Z_scope.

(** An engine at work on the partition [key]: the partition and its log are
    open, and no table waits for the flush worker. *)
Record at_work (key : Z) (p : Partition) (wal : Wal) (e : Engine) : Prop := {
  aw_open : en_closed e = false;
  aw_bucket : 0 < en_bucket_ns e;
  aw_partition : en_partitions e !! key = Some p;
  aw_wal : en_wals e !! key = Some (sp_wal_path (p_logs p), wal);
  aw_queue : en_queue e = [];
  aw_active : forall l, en_memtables e !! key = Some l -> is_Some (en_heap e !! l)
}.

Section Write.
Context {libs : EngineLibs}.

Lemma get_memtable_at_work key p wal w e : at_work key p wal e ->
  exists l e', get_or_create_memtable key (w, e) = (Ret l, (w, e')) /\ at_work key p wal e' /\ en_heap e' !! l = Some (table_for key e) /\
    en_partitions e' = en_partitions e.
Proof.
  intros [H1 H2 H3 H4 H5 H6]. unfold get_or_create_memtable. rewrite (st_bind_Ret _ _ (w, e) e (w, e)) by done. unfold table_for.
  destruct (en_memtables e !! key) as [l|] eqn:El.
  - destruct (H6 l eq_refl) as [m Em]. exists l, e. rewrite Em. split_and!; try done. by split; try done; rewrite ?El.
  - eexists _, _. split; [reflexivity|]. cbn. split_and!; [|by apply list_lookup_middle|done].
    split; cbn; try done. intros l [= <-]%lookup_insert_rev. rewrite lookup_app_r by lia. by rewrite Nat.sub_diag.
Qed.

(** The record that fills the table of a partition: it is appended to the
    buffer of the log, and the table goes to the flush worker. *)
Lemma write_fills_table key p wal w e ts t sig d :
  at_work key p wal e -> key = en_bucket_ns e * (ts / en_bucket_ns e) ->
  zlen (wal_writer wal) + zlen (encode {| entry_type := t; entry_data := d |}) < WRITER_CAPACITY ->
  is_full (MemTable.insert (table_for key e) ts sig d) = true ->
  exists l e', write_record ts t (Some d) (fun m => Ret (MemTable.insert m ts sig d)) (w, e) =
      (Ret tt, (put_view (sp_wal_path (p_logs p)) (file_view (sp_wal_path (p_logs p)) w) w, e')) /\
    en_queue e' = [{| fr_imm := l; fr_partition := key |}] /\ en_heap e' !! l = Some (MemTable.insert (table_for key e) ts sig d) /\
    en_partitions e' = en_partitions e.
Proof.
  intros Hw Hk Hc Hf. set (wp := sp_wal_path (p_logs p)). set (w' := put_view wp (file_view wp w) w).
  destruct (get_memtable_at_work key p wal w e Hw) as (l & e1 & E1 & [O1 B1 P1 W1 Q1 _] & El & Ep).
  destruct (append_buffered (file_view wp w) wal t d Hc) as (wal' & Ea & _).
  set (e2 := set_wals (<[key := (wp, wal')]>) e1). set (m := MemTable.insert (table_for key e) ts sig d).
  set (e3 := set_heap (<[l := m]>) e2). set (fresh := MemTable.new (memtable_size_bytes (en_config e3))).
  set (e4 := set_memtables (<[key := length (en_heap e3)]>) (set_heap (fun h => h ++ [fresh]) e3)).
  assert (en_heap e3 !! l = Some m) as Em.
  { cbn. apply list_lookup_insert_eq. by eapply lookup_lt_Some. }
  exists l, (set_queue (fun q => if (length q <? FLUSH_QUEUE)%nat then q ++ [{| fr_imm := l; fr_partition := key |}] else q) e4).
  split_and!.
  - unfold write_record. rewrite (st_bind_Ret _ _ (w, e) e (w, e)) by done.
    rewrite (st_bind_Ret _ _ (w, e) key (w, e)) by (unfold st_lift; by rewrite for_timestamp_spec, <- Hk by apply Hw).
    rewrite (st_bind_Ret _ _ _ _ _ E1), (st_bind_Ret _ _ (w, e1) d (w, e1)) by done.
    rewrite (st_bind_Ret _ _ (w, e1) tt (w, e1)) by (unfold get_or_create_wal; rewrite (st_bind_Ret _ _ (w, e1) e1 (w, e1)) by done; by rewrite W1).
    rewrite (st_bind_Ret _ _ (w, e1) tt (w', e2)) by (unfold wal_append; rewrite W1; unfold run_wal; fold wp; by rewrite Ea).
    rewrite (st_bind_Ret _ _ (w', e2) tt (w', e3)) by (unfold update_table; change (en_heap e2) with (en_heap e1); by rewrite El).
    unfold maybe_freeze. rewrite (st_bind_Ret _ _ (w', e3) e3 (w', e3)) by done. rewrite Em. unfold m at 1. rewrite Hf. cbn [negb].
    erewrite st_bind_Ret by reflexivity. erewrite st_bind_Ret by reflexivity.
    rewrite (st_bind_Ret _ _ (w', e4) p (w', e4)); [reflexivity|].
    unfold get_or_create_partition. rewrite (st_bind_Ret _ _ (w', e4) e4 (w', e4)) by done. change (en_partitions e4) with (en_partitions e1).
    by rewrite P1.
  - cbn. by rewrite Q1.
  - cbn [set_queue en_heap]. unfold e4. cbn [set_memtables set_heap en_heap]. by apply lookup_app_l_Some.
  - exact Ep.
Qed.

(** Writing the buffer's view of the log back changes no table. *)
Lemma put_view_reads sp w n paths files : healthy w -> (forall q, In q paths -> exists d k, q = parquet_path d k) -> reads w n paths files ->
  reads (put_view (sp_wal_path sp) (file_view (sp_wal_path sp) w) w) n paths files.
Proof.
  intros Hh Hp. apply reads_same; [done|done|]. intros q Hq. destruct (Hp q Hq) as (d & k & ->). cbn.
  apply lookup_insert_ne. intros E. by apply (parquet_not_wal d k sp).
Qed.
End Write.

(** C1: a log that is posted is in the answer of a query.  The pipeline is
    alive with an empty queue; the engine has the partition and the log of
    the record open, has nothing queued for flushing, and its table for the
    partition holds log records only; the disk is healthy and takes the files
    of the flush; and bincode reads back the records of the table and the
    record of the request, which it does for records without bodies and
    attributes only.  A POST within the body limit that decodes to this one
    log record, in either format, is answered 200; where the record fills the
    table, the next turns of the writer and of the flush worker succeed, and
    then the text SELECT * FROM logs gives the rows of the files there were,
    and one row for each record of the table and for the record of the
    request, and no others. *)
Theorem posted_log_queried {libs : EngineLibs} {codecs : BodyCodecs} {kernels : Kernels} {slices : SliceKernel} {sorts : SortKernels}
    {laws : SortLaws sorts} now c headers body r n ws (enc : LogRecord -> list Z) rs pl w e key p wal old :
  request_batch (content_type headers) body "/v1/logs" (Logs [r]) ->
  zlen body <= body_limit -> ip_alive pl = true -> ip_queue pl = [] -> (0 < buffer_depth (ip_config pl))%nat -> ip_store pl = (w, e) ->
  at_work key p wal e -> key = en_bucket_ns e * (lr_timestamp_ns r / en_bucket_ns e) -> healthy w ->
  table_for key e = insert_all (MemTable.new n) ws -> serialize r = Some (enc r) ->
  let arrived := ws ++ [(lr_timestamp_ns r, signal_u8 Log, enc r)] in
  logs_only arrived enc (rs ++ [r]) -> is_full (insert_all (MemTable.new n) arrived) = true ->
  zlen (wal_writer wal) + zlen (encode {| entry_type := ENTRY_LOG; entry_data := enc r |}) < WRITER_CAPACITY ->
  accepts_logs w p (sort_by_key lr_timestamp_ns (rs ++ [r])) ->
  reads w (Z.to_nat 8192) (sstable_paths_for_signal e 0 []) old -> Forall (has_schema log_schema) (concat old) ->
  ~ In (parquet_path (sp_dir (p_logs p)) (sp_next_seq (p_logs p))) (sstable_paths_for_signal e 0 []) ->
  exists resp pl' s1 w2 e2 outs,
    ingest_one "/v1/logs" headers body pl = (Ret (Replied resp), Some (Logs [r], Ret tt), pl') /\ rsp_status resp = OK /\
    ip_store pl' = s1 /\ flush_step s1 = (Ret tt, (w2, e2)) /\
    execute now "SELECT * FROM logs" e2 c w2 = (Ret outs, w2) /\
    batches_rows outs ≡ₚ batches_rows (concat old) ++ batch_rows (batch_of log_schema (log_columns (sort_by_key lr_timestamp_ns (rs ++ [r])))).
Proof.
  intros Hb Hbl Ha Hq Hd Hs Hw Hk Hh Ht He arrived Hl Hf Hc Hacc Hr Hsc Hnew.
  assert (insert_all (MemTable.new n) arrived = MemTable.insert (table_for key e) (lr_timestamp_ns r) (signal_u8 Log) (enc r)) as Hm.
  { unfold arrived, insert_all. rewrite fold_left_app, Ht. done. }
  rewrite Hm in Hf. destruct (write_fills_table key p wal w e _ ENTRY_LOG _ _ Hw Hk Hc Hf) as (l & e1 & Ew & Eq & El & Ep).
  set (w1 := put_view _ _ w) in Ew. rewrite <- Hm in El.
  assert (write_batch (Logs [r]) (w, e) = (Ret tt, (w1, e1))) as Ewb.
  { rewrite (write_batch_one (Logs [r]) (lr_timestamp_ns r) ENTRY_LOG (signal_u8 Log) (enc r)); [|by cbn; rewrite He|apply Hw].
    by rewrite (st_bind_Ret _ _ _ _ _ Ew). }
  assert (sstable_paths_for_signal e1 0 [] = sstable_paths_for_signal e 0 []) as Epath by (unfold sstable_paths_for_signal; by rewrite Ep).
  destruct (flushed_logs_queried now c n arrived enc (rs ++ [r]) w1 e1 {| fr_imm := l; fr_partition := key |} [] p old)
    as (w2 & e2 & outs & Hfl & Hx & Hrows); try done.
  - cbn [fr_partition]. rewrite Ep. apply Hw.
  - rewrite Epath. apply put_view_reads; [done|apply paths_are_parquet|done].
  - by rewrite Epath.
  - destruct (ingest_one_writes "/v1/logs" headers body (Logs [r]) pl (w, e) (w1, e1) Hb Hbl Ha Hq Hd Hs Ewb) as (resp & pl' & E & Hok & _ & Hs').
    by exists resp, pl', (w1, e1), w2, e2, outs.
Qed.

(** ** A record that joins another in the table of hour zero *)

Definition work_wal : Wal := {| wal_path := "wal.log"; wal_writer := []; wal_offset := 0 |}.

Definition work_engine : Engine :=
  set_memtables (fun _ => {[ 0 := 0%nat ]}) (set_heap (fun _ => [insert_all (MemTable.new 64) [(7, 0, encode_log (log_at 7))]])
    (set_wals (fun _ => {[ 0 := (sp_wal_path (p_logs test_partition), work_wal) ]})
      (set_partitions (fun _ => {[ 0 := test_partition ]}) (opened 64)))).

Definition work_pipeline : IngestPipeline (Fs * Engine) :=
  {| ip_config := {| buffer_depth := 2; max_batch_records := 10 |}; ip_queue := []; ip_alive := true;
     ip_store := (log_disk [log_at 5; log_at 7], work_engine); ip_backpressure := 0; ip_writes := [] |}.

Lemma posted_log_queried_witness :
  exists resp pl' s1 w2 e2 outs,
    @ingest_one engine_reference proto_codecs "/v1/logs" proto_headers [1] work_pipeline = (Ret (Replied resp), Some (Logs [log_at 5], Ret tt), pl') /\
    rsp_status resp = OK /\ ip_store pl' = s1 /\ @flush_step engine_reference s1 = (Ret tt, (w2, e2)) /\
    @execute engine_reference kernels_reference slices_reference sorts_reference clock_ticks "SELECT * FROM logs" e2 catalog_new w2 = (Ret outs, w2) /\
    batches_rows outs ≡ₚ [log_row 5; log_row 7].
Proof.
  apply (@posted_log_queried engine_reference proto_codecs kernels_reference slices_reference sorts_reference sort_laws_reference clock_ticks catalog_new
    proto_headers [1] (log_at 5) 64 [(7, 0, encode_log (log_at 7))] encode_log [log_at 7] work_pipeline (log_disk [log_at 5; log_at 7])
    work_engine 0 test_partition work_wal []).
  - apply (@rb_logs_proto proto_codecs _ [1] (proto_log_at 5)); [split; reflexivity|reflexivity].
  - vm_compute. discriminate.
  - reflexivity.
  - reflexivity.
  - apply Nat.ltb_lt. reflexivity.
  - reflexivity.
  - split; try reflexivity. intros l Hl. injection Hl as <-. eexists. reflexivity.
  - reflexivity.
  - reflexivity.
  - reflexivity.
  - reflexivity.
  - split; try reflexivity; [|discriminate]. intros r [<-|[<-|[]]]; apply log_at_roundtrips.
  - vm_compute. reflexivity.
  - vm_compute. reflexivity.
  - apply log_disk_accepts. vm_compute. reflexivity.
  - apply List.Forall2_nil.
  - apply List.Forall_nil.
  - intros [].
Defined.
