(* ===== verification/Server.v ===== *)
(** * The server process

    [crates/infralens-server/src/main.rs], [telemetry.rs] and the whole of
    [crates/infralens-common/src/config.rs]: the configuration and where it
    is read from, what starting the process sets up, the steps a running
    server takes, and what shutting it down does to the data that is still
    on its way. *)

From Stdlib Require Import ZArith Lia Ascii.
From stdpp Require Import base tactics list numbers option strings gmap relations.
From S2P Require Import Prelude Text Float64 Model Wal MemTable Fs Hash ZoneMap Bloom Arrow SSTable Partition Compaction Engine EngineSafety Otlp Normalizer Json JsonDecoder Ingest Handlers EndToEnd.

(** ** Configuration *)

Record ServerConfig := { grpc_addr : string; http_addr : string; metrics_addr : string }.

Record TelemetryConfig := { log_level : string; json_logs : bool }.

Record InfraLensConfig := {
  cfg_server : ServerConfig;
  cfg_storage : StorageConfig;
  cfg_ingest : IngestConfig;
  cfg_telemetry : TelemetryConfig
}.

(** [InfraLensConfig::default()]. *)
Definition default_config : InfraLensConfig :=
  {| cfg_server := {| grpc_addr := "0.0.0.0:4317"; http_addr := "0.0.0.0:4318"; metrics_addr := "0.0.0.0:9090" |};
     cfg_storage := default_storage;
     cfg_ingest := {| buffer_depth := Z.to_nat 4096; max_batch_records := Z.to_nat 1000 |};
     cfg_telemetry := {| log_level := "info"; json_logs := true |} |}.

(** The sources the loader names, the later over the earlier. *)
Inductive ConfigSource :=
| SourceFile (name : string) (required : bool)
| SourceEnvironment (prefix separator : string).

(** The [config] crate: merging the sources, and reading the merged value as
    a configuration. *)
Class ConfigLib := {
  config_value : Type;
  config_build : list ConfigSource -> string + config_value;
  try_deserialize : config_value -> string + InfraLensConfig
}.

Definition config_sources (env : string) : list ConfigSource :=
  [ SourceFile "config/default" false; SourceFile ("config/" +:+ env) false; SourceEnvironment "INFRALENS" "__" ].

(** [InfraLensConfig::load]. *)
Definition load {lib : ConfigLib} (env : string) : string + InfraLensConfig :=
  match config_build (config_sources env) with
  | inr cfg => try_deserialize cfg
  | inl e => inl e
  end.

(** The configuration of [main]: what [load] returns, or the defaults as a
    whole when it fails. *)
Definition load_or_default {lib : ConfigLib} (env : string) : InfraLensConfig :=
  match load env with inr cfg => cfg | inl _ => default_config end.

(** ** Socket addresses

    [str::parse::<SocketAddr>], the parser of [std::net]: each reader takes
    the rest of the text and returns what it leaves, or nothing, in which
    case the caller goes on from where it was. *)

Inductive SocketAddr :=
| SockV4 (octets : list Z) (port : Z)
| SockV6 (segments : list Z) (port scope_id : Z).

(** [char::to_digit]. *)
Definition to_digit (radix : Z) (c : ascii) : option Z :=
  let n := Z.of_nat (nat_of_ascii c) in
  let d := if (48 <=? n) && (n <=? 57) then Some (n - 48)
           else if (97 <=? n) && (n <=? 122) then Some (n - 87)
           else if (65 <=? n) && (n <=? 90) then Some (n - 55)
           else None in
  match d with Some k => if k <? radix then Some k else None | None => None end.

(** The digits of [read_number]: at most [max_digits] of them, or as long as
    the type of the result, whose greatest value is [bound], holds them. *)
Fixpoint read_digits (radix : Z) (max_digits : option Z) (bound : Z) (s : string) (result count : Z) : option (Z * Z * string) :=
  match s with
  | String c s' =>
      match to_digit radix c with
      | Some d =>
          let result := result * radix + d in
          let count := count + 1 in
          if match max_digits with Some m => m <? count | None => bound <? result end then None
          else read_digits radix max_digits bound s' result count
      | None => Some (result, count, s)
      end
  | EmptyString => Some (result, count, s)
  end.

Definition read_number (radix : Z) (max_digits : option Z) (allow_zero_prefix : bool) (bound : Z) (s : string) : option (Z * string) :=
  '(result, count, rest) ← read_digits radix max_digits bound s 0 0;
  if count =? 0 then None
  else if negb allow_zero_prefix && starts_with "0" s && (1 <? count) then None
  else if result <=? bound then Some (result, rest) else None.

Definition read_given_char (c : ascii) (s : string) : option string :=
  match s with String c' s' => if Ascii.eqb c c' then Some s' else None | EmptyString => None end.

(** [read_separator]: the separator before all but the first item. *)
Definition read_separator {A} (sep : ascii) (first : bool) (inner : string -> option (A * string)) (s : string) : option (A * string) :=
  if first then inner s else read_given_char sep s ≫= inner.

Definition read_ipv4_addr (s : string) : option (list Z * string) :=
  let octet := read_number 10 (Some 3) false 255 in
  '(a, s) ← octet s;
  '(b, s) ← read_separator "."%char false octet s;
  '(c, s) ← read_separator "."%char false octet s;
  '(d, s) ← read_separator "."%char false octet s;
  Some ([a; b; c; d], s).

(** [read_groups]: at most [n] groups; two of them can be an IPv4 address at
    the end, which the flag tells. *)
Fixpoint read_groups (n : nat) (first : bool) (s : string) : list Z * bool * string :=
  match n with
  | O => ([], false, s)
  | S n' =>
      match (if (0 <? n')%nat then read_separator ":"%char first read_ipv4_addr s else None) with
      | Some ([a; b; c; d], s') => ([a * 256 + b; c * 256 + d], true, s')
      | _ =>
          match read_separator ":"%char first (read_number 16 (Some 4) true 65535) s with
          | Some (g, s') => let '(gs, v4, s'') := read_groups n' false s' in (g :: gs, v4, s'')
          | None => ([], false, s)
          end
      end
  end.

Definition read_ipv6_addr (s : string) : option (list Z * string) :=
  let '(head, head_ipv4, s) := read_groups 8 true s in
  if (length head =? 8)%nat then Some (head, s)
  else if head_ipv4 then None
  else
    s ← read_given_char ":"%char s;
    s ← read_given_char ":"%char s;
    let '(tail, _, s) := read_groups (8 - (length head + 1)) true s in
    Some (head ++ repeat 0 (8 - length head - length tail) ++ tail, s).

Definition read_port (s : string) : option (Z * string) :=
  read_given_char ":"%char s ≫= read_number 10 None true 65535.

Definition read_scope_id (s : string) : option (Z * string) :=
  read_given_char "%"%char s ≫= read_number 10 None true 4294967295.

Definition read_socket_addr_v4 (s : string) : option (SocketAddr * string) :=
  '(ip, s) ← read_ipv4_addr s;
  '(port, s) ← read_port s;
  Some (SockV4 ip port, s).

Definition read_socket_addr_v6 (s : string) : option (SocketAddr * string) :=
  s ← read_given_char "["%char s;
  '(ip, s) ← read_ipv6_addr s;
  let '(scope_id, s) := default (0, s) (read_scope_id s) in
  s ← read_given_char "]"%char s;
  '(port, s) ← read_port s;
  Some (SockV6 ip port scope_id, s).

(** [parse]: the whole text has to be read. *)
Definition parse_socket_addr (s : string) : option SocketAddr :=
  match (match read_socket_addr_v4 s with Some r => Some r | None => read_socket_addr_v6 s end) with
  | Some (a, EmptyString) => Some a
  | _ => None
  end.

(** ** Telemetry ([telemetry.rs]) *)

(** The logging and metrics crates: the filter the environment names, if it
    is valid, the filter of a level, and the listener of the exporter. *)
Class TelemetryLib := {
  env_filter : Type;
  filter_from_env : option env_filter;
  filter_new : string -> env_filter;
  install_exporter : SocketAddr -> string + unit
}.

Record Subscriber {lib : TelemetryLib} := { sub_filter : env_filter; sub_json : bool }.

(** [init_logging]; a process can have one global subscriber. *)
Definition init_logging {lib : TelemetryLib} (cfg : TelemetryConfig) (global : option Subscriber) : outcome Empty_set Subscriber :=
  let filter := default (filter_new (log_level cfg)) filter_from_env in
  match global with
  | Some _ => Panic
  | None => Ret {| sub_filter := filter; sub_json := json_logs cfg |}
  end.

(** [init_metrics]. *)
Definition init_metrics {lib : TelemetryLib} (addr : string) : string + unit :=
  match parse_socket_addr addr with
  | None => inl "invalid socket address syntax"%string
  | Some socket =>
      match install_exporter socket with
      | inr _ => inr tt
      | inl e => inl ("Prometheus install error: " +:+ e)
      end
  end.

Section Server.
Context {libs : EngineLibs} {codecs : BodyCodecs} {lib : ConfigLib} {telemetry : TelemetryLib}.

(** ** Starting and stopping *)

Inductive MainError := OpenError (e : StorageError) | AddrParseError (addr : string).

Record Server := { sv_grpc : SocketAddr; sv_http : SocketAddr; sv_pipeline : IngestPipeline (Fs * Engine) }.

(** [main] from the engine to the two servers. *)
Definition server_start (cfg : InfraLensConfig) (w : Fs) : outcome MainError Server :=
  match engine_open (cfg_storage cfg) w with
  | (Ret engine, w') =>
      match pipeline_new (cfg_ingest cfg) (w', engine) with
      | Ret p =>
          grpc ← ok_or (parse_socket_addr (grpc_addr (cfg_server cfg))) (AddrParseError (grpc_addr (cfg_server cfg)));
          http ← ok_or (parse_socket_addr (http_addr (cfg_server cfg))) (AddrParseError (http_addr (cfg_server cfg)));
          Ret {| sv_grpc := grpc; sv_http := http; sv_pipeline := p |}
      | _ => Panic
      end
  | (Fail e, _) => Fail (OpenError e)
  | (Panic, _) => Panic
  end.

Definition with_store (p : IngestPipeline (Fs * Engine)) (s : Fs * Engine) : IngestPipeline (Fs * Engine) :=
  {| ip_config := ip_config p; ip_queue := ip_queue p; ip_alive := ip_alive p; ip_store := s;
     ip_backpressure := ip_backpressure p; ip_writes := ip_writes p |}.

(** The end of [main], after a server ended or on Ctrl-C: the engine is
    closed, its error only logged, while the writer of the pipeline still
    runs. *)
Definition server_shutdown (p : IngestPipeline (Fs * Engine)) : IngestPipeline (Fs * Engine) :=
  with_store p (snd (close (ip_store p))).

(** What [main] writes to its log. *)
Inductive LogLine :=
| ConfigLoadError (e : string)
| ExporterFailed (e : string)
| ServerStarting (server : ServerConfig) (data_dir : string)
| ServerTaskFailed
| ReceivedCtrlC
| FlushingStorage
| CloseError (e : StorageError)
| ShutdownComplete.

Definition error_line {A} (line : string -> LogLine) (r : string + A) : list LogLine :=
  match r with inl e => [line e] | inr _ => [] end.

(** [main] up to the [select!]: its log, and the server or the error it
    returns. *)
Definition main_start (env_var : option string) (w : Fs) : list LogLine * outcome MainError Server :=
  let env := default "default"%string env_var in
  let cfg := load_or_default env in
  let before := error_line ConfigLoadError (load env) in
  match init_logging (cfg_telemetry cfg) None with
  | Ret _ =>
      (before ++ error_line ExporterFailed (init_metrics (metrics_addr (cfg_server cfg))) ++
         [ServerStarting (cfg_server cfg) (data_dir (cfg_storage cfg))], server_start cfg w)
  | _ => (before, Panic)
  end.

(** How a server task ends: with its result, or by a panic, which joining
    it reports as a [JoinError]. *)
Inductive TaskEnd := TaskOk | TaskErr (e : string) | TaskPanicked.

(** The branch of the [select!] that is taken. *)
Inductive Stopped := JoinNext (res : option TaskEnd) | CtrlC.

(** [main] from there on. *)
Definition main_stop (ended : Stopped) (p : IngestPipeline (Fs * Engine)) :
    list LogLine * outcome MainError unit * IngestPipeline (Fs * Engine) :=
  let before := match ended with
                | JoinNext (Some TaskPanicked) => [ServerTaskFailed]
                | JoinNext _ => []
                | CtrlC => [ReceivedCtrlC]
                end in
  let '(r, p') := (fst (close (ip_store p)), server_shutdown p) in
  match r with
  | Ret _ => (before ++ [FlushingStorage; ShutdownComplete], Ret tt, p')
  | Fail e => (before ++ [FlushingStorage; CloseError e; ShutdownComplete], Ret tt, p')
  | Panic => (before ++ [FlushingStorage], Panic, p')
  end.

(** ** A running server

    A request of either protocol, a turn of the writer, of the flush worker
    or of the compaction worker, the closing of the engine, or a change of
    the disk from outside. *)
Inductive server_step : IngestPipeline (Fs * Engine) -> IngestPipeline (Fs * Engine) -> Prop :=
| ss_http method path headers body p r p' : app method path headers body p = (r, p') -> server_step p p'
| ss_logs rl p r p' : export_logs rl p = (r, p') -> server_step p p'
| ss_metrics rm p r p' : export_metrics rm p = (r, p') -> server_step p p'
| ss_traces rs p r p' : export_traces rs p = (r, p') -> server_step p p'
| ss_writer p o p' : writer_turn p = (o, p') -> server_step p p'
| ss_flush p r s' : flush_step (ip_store p) = (r, s') -> server_step p (with_store p s')
| ss_compact p r s' : compaction_pass (ip_store p) = (r, s') -> server_step p (with_store p s')
| ss_close p : server_step p (server_shutdown p)
| ss_disk p w' : server_step p (with_store p (w', snd (ip_store p))).

(** What every step keeps. *)
Record sv_inv (cfg : InfraLensConfig) (p : IngestPipeline (Fs * Engine)) : Prop := {
  svi_config : ip_config p = cfg_ingest cfg;
  svi_queue : (length (ip_queue p) <= buffer_depth (cfg_ingest cfg))%nat;
  svi_store : reachable (cfg_storage cfg) (ip_store p)
}.

Lemma reachable_step config s s' : reachable config s -> engine_step s s' -> reachable config s'.
Proof. intros (w0 & e0 & w1 & Eo & Hr) Hs. exists w0, e0, w1. split; [done|]. by apply (rtc_r _ s). Qed.

Lemma submit_keeps cfg batch p r p' : sv_inv cfg p -> submit batch p = (r, p') -> sv_inv cfg p'.
Proof.
  intros [Hc Hq Hs] E. unfold submit in E. destruct (ip_alive p); cbn [negb] in E; [|by simplify_eq].
  destruct (Nat.ltb_spec (length (ip_queue p)) (buffer_depth (ip_config p))); simplify_eq; split; cbn; try done.
  rewrite length_app. cbn [length]. rewrite Hc in *. lia.
Qed.

Lemma handle_keeps {R} from_json from_proto (wrap : list R -> IngestBatch) cfg headers body p r p' :
  sv_inv cfg p -> handle from_json from_proto wrap headers body p = (r, p') -> sv_inv cfg p'.
Proof.
  intros Hi. unfold handle. destruct (decode_request _ _ _ _) as [[resp|records]|e|]; try by intros [= _ <-].
  destruct (submit _ p) as [r1 p1] eqn:Es. intros [= _ <-]. by eapply submit_keeps.
Qed.

Lemma app_keeps cfg method path headers body p r p' :
  sv_inv cfg p -> app method path headers body p = (r, p') -> sv_inv cfg p'.
Proof.
  intros Hi. unfold app. destruct (_ || _); [by destruct method; intros [= _ <-]|].
  destruct (router path) as [h|] eqn:Er; [|by intros [= _ <-]]. destruct method; try by intros [= _ <-].
  unfold mbind, st_bind. destruct (h headers body p) as [r1 p1] eqn:Eh. intros E.
  assert (p' = p1) as -> by (destruct r1; by injection E).
  unfold router in Er. repeat destruct (_ =? _)%string in Er; simplify_eq;
    (unfold with_bytes in Eh; destruct (_ <? _); [by injection Eh as _ <-|by eapply handle_keeps]).
Qed.

Lemma export_keeps cfg batch p r p' : sv_inv cfg p -> export batch p = (r, p') -> sv_inv cfg p'.
Proof. unfold export. intros Hi. destruct (submit batch p) as [r1 p1] eqn:Es. intros [= _ <-]. by eapply submit_keeps. Qed.

Lemma with_store_keeps cfg p s : sv_inv cfg p -> engine_step (ip_store p) s -> sv_inv cfg (with_store p s).
Proof. intros [Hc Hq Hs] H. split; [done|done|]. by apply (reachable_step _ (ip_store p)). Qed.

Lemma writer_keeps cfg p o p' : sv_inv cfg p -> writer_turn p = (o, p') -> sv_inv cfg p'.
Proof.
  intros [Hc Hq Hs]. unfold writer_turn. destruct (ip_alive p), (ip_queue p) as [|b q] eqn:Eq; try (intros [= _ <-]; by split; rewrite ?Eq).
  cbn [sink_write engine_sink]. destruct (write_batch b (ip_store p)) as [r s] eqn:Ew. intros [= _ <-].
  assert (reachable (cfg_storage cfg) s) by (eapply reachable_step; [exact Hs|by eapply step_write]).
  destruct r; split; cbn in *; try done; lia.
Qed.

Lemma server_step_inv cfg p p' : server_step p p' -> sv_inv cfg p -> sv_inv cfg p'.
Proof.
  intros Hs Hi. destruct Hs;
    eauto using app_keeps, export_keeps, writer_keeps, with_store_keeps, step_flush, step_compact.
  - apply with_store_keeps; [done|]. eapply step_close, surjective_pairing.
  - apply with_store_keeps; [done|]. destruct (ip_store p) as [w e]. apply step_env.
Qed.

Lemma server_start_inv cfg w s : server_start cfg w = Ret s -> sv_inv cfg (sv_pipeline s).
Proof.
  unfold server_start. destruct (engine_open (cfg_storage cfg) w) as [[e|?|] w'] eqn:Eo; [|done|done].
  unfold pipeline_new. destruct (_ || _); [done|]. intros E. inv_ret. split; cbn; [done|lia|]. by exists w, e, w'.
Qed.

Lemma server_run_inv cfg w s p : server_start cfg w = Ret s -> rtc server_step (sv_pipeline s) p -> sv_inv cfg p.
Proof.
  intros Hs Hr. apply server_start_inv in Hs. revert Hs. induction Hr as [|p p1 p2 H1 Hr IH]; [done|].
  intros Hi. apply IH. by eapply server_step_inv.
Qed.

(** Without a readable configuration the process still starts, on the
    defaults and whatever the exporter does. *)
Lemma main_starts_on_defaults env_var w e :
  healthy w -> load (default "default"%string env_var) = inl e ->
  exists s, snd (main_start env_var w) = Ret s /\ sv_grpc s = SockV4 [0; 0; 0; 0] 4317 /\ sv_http s = SockV4 [0; 0; 0; 0] 4318 /\
    In (ConfigLoadError e) (fst (main_start env_var w)) /\ en_config (snd (ip_store (sv_pipeline s))) = default_storage.
Proof.
  intros Hh He. unfold main_start, load_or_default. rewrite He. cbn [init_logging snd fst error_line].
  unfold server_start, engine_open, create_dir_all. cbn [cfg_storage cfg_ingest cfg_server default_config].
  unfold mbind at 1, st_bind at 1. rewrite syscall_healthy by done. cbn [mret st_ret]. unfold pipeline_new. cbn [buffer_depth].
  assert ((Z.to_nat 4096 =? 0)%nat || (MAX_PERMITS <? Z.of_nat (Z.to_nat 4096)) = false) as -> by (rewrite Z2Nat.id by lia; reflexivity).
  eexists. split; [reflexivity|]. split_and!; [reflexivity|reflexivity|by left|reflexivity].
Qed.

(** A panic of the writer is for ever. *)
Lemma writer_stays_dead p p' : server_step p p' -> ip_alive p = false -> ip_alive p' = false.
Proof.
  assert (forall batch (q : IngestPipeline (Fs * Engine)) r q', submit batch q = (r, q') -> ip_alive q = false -> ip_alive q' = false) as Hs.
  { intros batch q r q' E Ha. unfold submit in E. rewrite Ha in E. by injection E as _ <-. }
  assert (forall batch (q : IngestPipeline (Fs * Engine)) r q', export batch q = (r, q') -> ip_alive q = false -> ip_alive q' = false) as He.
  { intros batch q r q' E. unfold export in E. destruct (submit batch q) as [r1 q1] eqn:Es. injection E as _ <-. by eapply Hs. }
  assert (forall R from_json from_proto (wrap : list R -> IngestBatch) headers body (q : IngestPipeline (Fs * Engine)) r q',
    handle from_json from_proto wrap headers body q = (r, q') -> ip_alive q = false -> ip_alive q' = false) as Hh.
  { intros R fj fp wrap headers body q r q' E. unfold handle in E. destruct (decode_request _ _ _ _) as [[?|?]|?|]; try by injection E as _ <-.
    destruct (submit _ q) as [r1 q1] eqn:Es. injection E as _ <-. by eapply Hs. }
  intros H Ha. destruct H as [method path headers body p r p' E|rl p r p' E|rl p r p' E|rl p r p' E|p o p' E|p r s' E|p r s' E|p|p w'];
    try by eapply He. all: try done.
  - unfold app in E. destruct (_ || _); [by destruct method; injection E as _ <-|]. destruct (router path) as [h|] eqn:Er; [|by injection E as _ <-].
    destruct method; try by injection E as _ <-. unfold mbind, st_bind in E. destruct (h headers body p) as [r1 p1] eqn:Eh.
    assert (p' = p1) as -> by (destruct r1; by injection E).
    unfold router in Er. repeat destruct (_ =? _)%string in Er; simplify_eq;
      (unfold with_bytes in Eh; destruct (_ <? _); [by injection Eh as _ <-|by eapply Hh]).
  - unfold writer_turn in E. rewrite Ha in E. by injection E as _ <-.
Qed.

Lemma writer_dead_run p p' : rtc server_step p p' -> ip_alive p = false -> ip_alive p' = false.
Proof. induction 1; eauto using writer_stays_dead. Qed.

(** Without a writer no request that carries data is answered 200. *)
Lemma dead_handle {R} from_json from_proto (wrap : list R -> IngestBatch) headers body (p : IngestPipeline (Fs * Engine)) resp :
  ip_alive p = false -> fst (handle from_json from_proto wrap headers body p) = Ret resp -> rsp_status resp <> OK.
Proof.
  intros Ha. unfold handle, decode_request, submit. rewrite Ha.
  destruct (starts_with CONTENT_TYPE_JSON _); [destruct (json_from_slice body) as [?|v]; [|destruct (from_json v)]|
    destruct (starts_with CONTENT_TYPE_PROTO _); [destruct (from_proto body)|]]; cbn; intros [= <-]; done.
Qed.

Lemma dead_app method path headers body (p : IngestPipeline (Fs * Engine)) resp :
  ip_alive p = false -> path <> "/healthz"%string -> path <> "/readyz"%string ->
  fst (app method path headers body p) = Ret (Replied resp) -> rsp_status resp <> OK.
Proof.
  intros Ha H1 H2. unfold app. apply String.eqb_neq in H1, H2. rewrite H1, H2. cbn [orb].
  destruct (router path) as [h|] eqn:Er; [|done]. destruct method; try done. unfold mbind, st_bind.
  destruct (h headers body p) as [r1 p1] eqn:Eh. destruct r1 as [resp1|?|]; try done. cbn. intros [= <-].
  apply (f_equal fst) in Eh. unfold router in Er. repeat destruct (_ =? _)%string in Er; simplify_eq;
    (unfold with_bytes in Eh; destruct (_ <? _); [by injection Eh as <-|by eapply dead_handle]).
Qed.

Lemma dead_export batch (p : IngestPipeline (Fs * Engine)) : ip_alive p = false -> fst (export batch p) = Fail (ResourceExhausted BufferFull).
Proof. intros Ha. unfold export, submit. by rewrite Ha. Qed.

Lemma main_stop_no_error ended p e : snd (fst (main_stop ended p)) <> Fail e.
Proof. unfold main_stop. by destruct (fst (close (ip_store p))). Qed.

(** ** Shutdown *)

Lemma closed_turn (p : IngestPipeline (Fs * Engine)) op :
  is_closed (snd (ip_store p)) ->
  let '(ev, p') := ingest_step p op in
  ip_store p' = ip_store p /\ match ev with Written _ r => r = Fail Closed | _ => True end.
Proof.
  intros Hc. destruct op as [batch|]; simpl.
  - unfold submit. by destruct (ip_alive p); simpl; [destruct (_ <? _)%nat|].
  - unfold writer_turn. destruct (ip_alive p), (ip_queue p) as [|b q]; try done.
    destruct (ip_store p) as [w e] eqn:Es. simpl in Hc.
    cbn [sink_write engine_sink]. by rewrite (proj1 (closed_engine_refuses b w e) Hc).
Qed.

Lemma closed_run (p : IngestPipeline (Fs * Engine)) ops :
  is_closed (snd (ip_store p)) ->
  let '(evs, p') := ingest_run ops p in
  ip_store p' = ip_store p /\ Forall (fun br => snd br = Fail Closed) (written evs).
Proof.
  revert p; induction ops as [|op ops IH]; intros p Hc; [done|]. cbn [ingest_run].
  pose proof (closed_turn p op Hc) as H1. destruct (ingest_step p op) as [ev p1]. destruct H1 as [Hs Hev].
  specialize (IH p1). rewrite Hs in IH. specialize (IH Hc). destruct (ingest_run ops p1) as [evs p2].
  destruct IH as [Hs' Hw]. split; [done|]. by destruct ev; [..|simpl]; try constructor.
Qed.

(** The writer reaches every queued batch. *)
Lemma closed_drain q (p : IngestPipeline (Fs * Engine)) :
  is_closed (snd (ip_store p)) -> ip_alive p = true -> ip_queue p = q ->
  map fst (written (fst (ingest_run (repeat OpWrite (length q)) p))) = q.
Proof.
  revert p; induction q as [|b q IH]; intros p Hc Ha Eq; [done|]. cbn [length repeat ingest_run ingest_step].
  destruct (ip_store p) as [w e] eqn:Es. simpl in Hc.
  unfold writer_turn. rewrite Ha, Eq, Es. cbn [sink_write engine_sink].
  rewrite (proj1 (closed_engine_refuses b w e) Hc). cbn beta iota.
  match goal with |- context [ingest_run _ ?p'] => specialize (IH p' Hc eq_refl eq_refl); destruct (ingest_run _ p') end.
  simpl in *. f_equal. exact IH.
Qed.
End Server.

(** C9: the server keeps the invariants of its parts.  From a start with
    any configuration, through requests of both protocols, turns of the
    three workers, failures, closing and changes of the disk in any order,
    the channel holds at most [buffer_depth] batches, the flush queue at
    most 64 requests, no active table is queued for flushing, and every row
    held for a partition belongs to the bucket of that partition under the
    configured width. *)
Theorem server_run_safe {libs : EngineLibs} {codecs : BodyCodecs} cfg w s p :
  server_start cfg w = Ret s -> rtc server_step (sv_pipeline s) p ->
  let e := snd (ip_store p) in
  (length (ip_queue p) <= buffer_depth (cfg_ingest cfg))%nat /\ (length (en_queue e) <= FLUSH_QUEUE)%nat /\
  (forall k l, en_memtables e !! k = Some l -> ~ In l (map fr_imm (en_queue e))) /\
  (forall k row, pending e k row -> for_timestamp (rk_timestamp_ns (fst row)) (bucket_of (cfg_storage cfg)) = Ret k).
Proof.
  intros Hs Hr e. pose proof (server_run_inv _ _ _ _ Hs Hr) as [_ Hq Hst]. apply reachable_inv in Hst. fold e in Hst.
  split_and!; [done|apply Hst| |].
  - intros k l Hk Hin. apply in_map_iff in Hin as (q & Eq & Hin). by apply (ei_sep _ _ Hst k l q).
  - intros k row. by apply pending_routed.
Qed.

(** C38: a server whose writer has panicked looks healthy for ever.  From then
    on, in every state the process can get to, the probes [/healthz] and
    [/readyz] answer 200, while no other request is answered 200 and every
    export over gRPC is refused as if the queue were full; and however the
    process ends, a failed server task included, [main] returns no error. *)
Theorem dead_writer_looks_ready {libs : EngineLibs} {codecs : BodyCodecs} p p' :
  ip_alive p = false -> rtc server_step p p' ->
  (forall path headers body, path = "/healthz"%string \/ path = "/readyz"%string ->
     app GET path headers body p' = (Ret (Replied (text_ok "ok")), p')) /\
  (forall method path headers body resp, path <> "/healthz"%string -> path <> "/readyz"%string ->
     fst (app method path headers body p') = Ret (Replied resp) -> rsp_status resp <> OK) /\
  (forall rl, fst (export_logs rl p') = Fail (ResourceExhausted BufferFull)) /\
  (forall rm, fst (export_metrics rm p') = Fail (ResourceExhausted BufferFull)) /\
  (forall rs, fst (export_traces rs p') = Fail (ResourceExhausted BufferFull)) /\
  (forall ended e, snd (fst (main_stop ended p')) <> Fail e).
Proof.
  intros Ha Hr. apply writer_dead_run in Hr as Ha'; [|done]. split_and!; try (intros; by apply dead_export).
  - by intros path headers body [->| ->].
  - intros. by eapply dead_app.
  - intros. apply main_stop_no_error.
Qed.

(** Shutting the server down loses every batch that is still queued.
    Once the engine is closed, whatever the writer and the handlers do until
    the process ends, each queued batch the writer reaches is refused by the
    engine and nothing more reaches the log or the tables, although the
    client has been told that the batch was accepted. *)
Theorem shutdown_loses_queue {libs : EngineLibs} (p : IngestPipeline (Fs * Engine)) ops :
  let '(evs, p') := ingest_run ops (server_shutdown p) in
  ip_store p' = snd (close (ip_store p)) /\ Forall (fun br => snd br = Fail Closed) (written evs) /\
  (ip_alive p = true -> ops = repeat OpWrite (length (ip_queue p)) -> map fst (written evs) = ip_queue p).
Proof.
  assert (is_closed (snd (ip_store (server_shutdown p)))) as Hc.
  { simpl. destruct (ip_store p) as [w e]. destruct (close (w, e)) as [r s'] eqn:E.
    by apply (proj2 (closed_engine_refuses (Logs []) w e) r s'). }
  pose proof (closed_run (server_shutdown p) ops Hc) as H.
  destruct (ingest_run ops (server_shutdown p)) as [evs p'] eqn:Er. destruct H as [Hs Hw]. split_and!; [done|done|].
  intros Ha ->. pose proof (closed_drain (ip_queue p) (server_shutdown p) Hc Ha eq_refl) as Hd. by rewrite Er in Hd.
Qed.

(** One queued batch, over an open engine. *)
Lemma shutdown_loses_queue_witness :
  let p := {| ip_config := {| buffer_depth := 1; max_batch_records := 10 |}; ip_queue := [Logs [log_at 5]]; ip_alive := true;
              ip_store := (opened_disk test_room, opened 64); ip_backpressure := 0; ip_writes := [] |} in
  written (fst (@ingest_run _ (@engine_sink engine_reference) [OpWrite] (@server_shutdown engine_reference p))) =
    [(Logs [log_at 5], Fail Closed)].
Proof.
  intros p. pose proof (@shutdown_loses_queue engine_reference p [OpWrite]) as H.
  destruct (ingest_run [OpWrite] (server_shutdown p)) as [evs p']. destruct H as (_ & H1 & H2).
  specialize (H2 eq_refl eq_refl). cbn [fst]. change (ip_queue p) with [Logs [log_at 5]] in H2.
  destruct (written evs) as [|[b r] [|? ?]]; simpl in H2; try discriminate H2.
  injection H2 as ->. inversion H1 as [|? ? E _]; subst. simpl in E. rewrite E. reflexivity.
Defined.

(** ** A server at work *)

Definition test_server_config : InfraLensConfig :=
  {| cfg_server := {| grpc_addr := "0.0.0.0:4317"; http_addr := "[::]:4318"; metrics_addr := "localhost:9090" |};
     cfg_storage := test_config 64; cfg_ingest := {| buffer_depth := 2; max_batch_records := 10 |};
     cfg_telemetry := {| log_level := "info"; json_logs := true |} |}.

Definition test_server : IngestPipeline (Fs * Engine) :=
  {| ip_config := {| buffer_depth := 2; max_batch_records := 10 |}; ip_queue := []; ip_alive := true;
     ip_store := (opened_disk 4000, opened 64); ip_backpressure := 0; ip_writes := [] |}.

(** One record comes in over gRPC and is written; the row it leaves in the
    table of hour zero belongs there. *)
Lemma server_run_safe_witness :
  let p := snd (@writer_turn _ (@engine_sink engine_reference) (snd (export_logs (proto_log_at 5) test_server))) in
  exists row, pending (snd (ip_store p)) 0 row /\ for_timestamp (rk_timestamp_ns (fst row)) (bucket_of (test_config 64)) = Ret 0.
Proof.
  intros p.
  pose proof (@server_run_safe engine_reference proto_codecs test_server_config (empty_disk 4000)
    {| sv_grpc := SockV4 [0; 0; 0; 0] 4317; sv_http := SockV6 [0; 0; 0; 0; 0; 0; 0; 0] 4318 0; sv_pipeline := test_server |} p
    eq_refl) as H.
  assert (@rtc _ (@server_step engine_reference proto_codecs) test_server p) as Hr.
  { eapply rtc_l; [eapply ss_logs, surjective_pairing|]. eapply rtc_l; [eapply ss_writer, surjective_pairing|]. apply rtc_refl. }
  specialize (H Hr). cbn zeta in H. destruct H as (_ & _ & _ & H).
  assert (exists row, pending (snd (ip_store p)) 0 row) as [row Hp].
  { eexists _, 0%nat, _. split; [right; vm_compute; left; reflexivity|]. split; [vm_compute; reflexivity|]. left. reflexivity. }
  exists row. split; [exact Hp|]. exact (H 0 _ Hp).
Defined.

(** A server with partitions of zero hours, and what its first record leaves
    of it. *)
Definition zero_hour_server : IngestPipeline (Fs * Engine) :=
  with_store test_server (opened_disk 4000,
    {| en_config := test_config 64; en_partitions := ∅; en_memtables := ∅; en_heap := []; en_wals := ∅; en_queue := [];
       en_closed := false; en_bucket_ns := 0 |}).

Definition dead_server : IngestPipeline (Fs * Engine) :=
  snd (@writer_turn _ (@engine_sink engine_reference) (snd (export_logs (proto_log_at 5) zero_hour_server))).

Lemma dead_writer_looks_ready_witness :
  let p' := snd (@app _ proto_codecs POST "/v1/logs" proto_headers [] dead_server) in
  @app _ proto_codecs GET "/readyz" [] [] p' = (Ret (Replied (text_ok "ok")), p') /\
  fst (export_logs (proto_log_at 5) p') = Fail (ResourceExhausted BufferFull) /\
  snd (fst (@main_stop engine_reference (JoinNext (Some (TaskErr "address in use"))) p')) <> Fail (AddrParseError "0.0.0.0:4317").
Proof.
  intros p'.
  destruct (@dead_writer_looks_ready engine_reference proto_codecs dead_server p') as (H1 & _ & H3 & _ & _ & H6).
  - vm_compute. reflexivity.
  - eapply rtc_l; [eapply (ss_http POST "/v1/logs" proto_headers []), surjective_pairing|]. apply rtc_refl.
  - split; [apply H1; right; reflexivity|]. split; [apply H3|]. apply H6.
Defined.
