(* ===== verification/Rpc.v ===== *)
(** * Node-to-node calls

    [crates/infralens-rpc/src/server.rs] (the service every storage node
    runs) and [scatter_gather.rs] (the coordinator of a distributed query).
    The transport and the Arrow IPC reader are interfaces; the tasks of a
    scatter run concurrently, so its result is a relation over the orders in
    which they can finish. *)

From Stdlib Require Import ZArith Lia Sorted Permutation.
From stdpp Require Import base tactics list numbers option strings gmap.
From S2P Require Import Prelude Text BTree Float64 Model Wal MemTable Fs Hash ZoneMap Bloom Arrow SSTable Partition Compaction Engine EngineSafety Ring Cluster.

Local Open Scope string_scope.
Local Open Scope list_scope.
Local Open Scope Z_scope.

(** ** Messages ([proto/infralens/internal/v1/internal.proto]) *)

Record ShardQueryRequest := {
  sq_query_id : string;
  sq_plan_bytes : list Z;
  sq_start_ns : Z;
  sq_end_ns : Z;
  sq_signal : string;
  sq_max_rows : Z
}.

Record ShardQueryResponse := {
  sr_record_batch_ipc : list Z;
  sr_is_last : bool;
  sr_rows_returned : Z;
  sr_error : string
}.

Record ReplicateRequest := {
  rr_sequence : Z;
  rr_wal_entry : list Z;
  rr_partition_key : string;
  rr_signal : string;
  rr_node_id : string
}.

Record ReplicateAck := { ra_sequence : Z; ra_accepted : bool; ra_error : string }.

Record SyncShardRequest := { sy_shard_id : string; sy_signal : string; sy_from_sequence : Z }.

Record SyncShardChunk := { ck_filename : string; ck_data : list Z; ck_is_last_chunk : bool; ck_is_last_file : bool }.

Record NodeStats := {
  ns_memtable_bytes : Z;
  ns_sstable_count : Z;
  ns_ingested_total : Z;
  ns_ingest_rate_per_s : f64
}.

Record GetNodeInfoResponse := {
  ni_node_id : string;
  ni_version : string;
  ni_primary_shards : list string;
  ni_replica_shards : list string;
  ni_ring_version : Z;
  ni_ready : bool;
  ni_stats : option NodeStats
}.

(** ** The service of a node *)

(** [query_shard]: the responses of the stream. *)
Definition query_shard (req : ShardQueryRequest) : list ShardQueryResponse :=
  [{| sr_record_batch_ipc := []; sr_is_last := true; sr_rows_returned := 0; sr_error := "" |}].

(** [sync_shard]. *)
Definition sync_shard (req : SyncShardRequest) : list SyncShardChunk :=
  [{| ck_filename := ""; ck_data := []; ck_is_last_chunk := true; ck_is_last_file := true |}].

(** [get_node_info] of a node, with the version of the package. *)
Definition get_node_info (node_id : string) : GetNodeInfoResponse :=
  {| ni_node_id := node_id; ni_version := "0.1.0"; ni_primary_shards := []; ni_replica_shards := []; ni_ring_version := 0;
     ni_ready := true;
     ni_stats := Some {| ns_memtable_bytes := 0; ns_sstable_count := 0; ns_ingested_total := 0; ns_ingest_rate_per_s := f64_zero |} |}.

(** The entry a request carries. *)
Definition replica_entry (en : ReplicateRequest) : ReplicationEntry :=
  {| re_sequence := rr_sequence en; re_partition_key := rr_partition_key en; re_signal := rr_signal en;
     re_wal_bytes := rr_wal_entry en |}.

(** The loop of [replicate] over the entries that arrive before the stream
    ends: the acknowledgements it sends.  A panic ends the task. *)
Fixpoint replicate_loop {libs : EngineLibs} (entries : list ReplicateRequest) (s : Fs * Engine)
    : list ReplicateAck * (Fs * Engine) :=
  match entries with
  | [] => ([], s)
  | en :: entries =>
      match apply_replica_entry (replica_entry en) s with
      | (Panic, s') => ([], s')
      | (r, s') =>
          let accepted := match r with Ret _ => true | _ => false end in
          let '(acks, s2) := replicate_loop entries s' in
          ({| ra_sequence := rr_sequence en; ra_accepted := accepted; ra_error := "" |} :: acks, s2)
      end
  end.

(** ** Scatter and gather *)

(** [Channel::from_shared], [connect] and the call of [query_shard] on an
    address: an error, or the messages of the stream, the last of which can
    be an error. *)
Class ShardNet := { open_stream : string -> ShardQueryRequest -> string + list (string + ShardQueryResponse) }.

(** [StreamReader] on the bytes of a message: an error on opening it, or its
    batches, each of which can be an error; it can panic. *)
Class IpcReader := { stream_reader : list Z -> outcome string (list (string + RecordBatch)) }.

Record ScatterResult := { sc_batches : list RecordBatch; sc_error_nodes : list string }.

Section Scatter.
Context {net : ShardNet} {ipc : IpcReader}.

(** [while let Some(batch) = rdr.next() { batches.push(batch?) }]. *)
Definition push_batches (batches : list RecordBatch) (items : list (string + RecordBatch)) : outcome string (list RecordBatch) :=
  foldM (fun acc item => match item with inl e => Fail e | inr b => Ret (acc ++ [b]) end) batches items.

(** The loop over the messages of the stream. *)
Fixpoint collect_stream (msgs : list (string + ShardQueryResponse)) (batches : list RecordBatch) : outcome string (list RecordBatch) :=
  match msgs with
  | [] => Ret batches
  | inl e :: _ => Fail e
  | inr resp :: msgs =>
      if negb (sr_error resp =? "")%string then Fail (sr_error resp)
      else
        batches ← match sr_record_batch_ipc resp with
                  | [] => Ret batches
                  | bytes => items ← stream_reader bytes; push_batches batches items
                  end;
        if sr_is_last resp then Ret batches else collect_stream msgs batches
  end.

(** [query_single_shard]. *)
Definition query_single_shard (addr : string) (req : ShardQueryRequest) : outcome string (list RecordBatch) :=
  match open_stream ("http://" +:+ addr) req with
  | inl e => Fail e
  | inr msgs => collect_stream msgs []
  end.

(** The tasks [execute] spawns: one per target in the view, with the result
    it will have. *)
Definition spawn_tasks (view : ClusterView) (req : ShardQueryRequest) (target_nodes : list string)
    : list (string * outcome string (list RecordBatch)) :=
  filter_map (fun node_id =>
    (fun n => (node_id, query_single_shard (nm_internal_grpc_addr n) req)) <$>
      find (fun n => (nm_node_id n =? node_id)%string) (cv_nodes view)) target_nodes.

(** The loop over the tasks in the order they finish; one that panicked is
    only logged. *)
Definition gather (finished : list (string * outcome string (list RecordBatch))) : ScatterResult :=
  fold_left (fun acc t =>
    match t with
    | (_, Ret batches) => {| sc_batches := sc_batches acc ++ batches; sc_error_nodes := sc_error_nodes acc |}
    | (node_id, Fail _) => {| sc_batches := sc_batches acc; sc_error_nodes := sc_error_nodes acc ++ [node_id] |}
    | (_, Panic) => acc
    end) finished {| sc_batches := []; sc_error_nodes := [] |}.

(** [ScatterGather::execute]. *)
Definition shard_request (query_id : string) (plan_bytes : list Z) (start_ns end_ns : Z) (signal : string) : ShardQueryRequest :=
  {| sq_query_id := query_id; sq_plan_bytes := plan_bytes; sq_start_ns := start_ns; sq_end_ns := end_ns; sq_signal := signal;
     sq_max_rows := 0 |}.

Inductive execute (view : ClusterView) (query_id : string) (plan_bytes : list Z) (start_ns end_ns : Z) (signal : string)
    (target_nodes : list string) : ScatterResult -> Prop :=
| execute_in_order finished :
    Permutation finished (spawn_tasks view (shard_request query_id plan_bytes start_ns end_ns signal) target_nodes) ->
    execute view query_id plan_bytes start_ns end_ns signal target_nodes (gather finished).
End Scatter.

(** ** Facts about a scatter *)

Definition task_batches (t : string * outcome string (list RecordBatch)) : list RecordBatch :=
  match snd t with Ret bs => bs | _ => [] end.

Definition task_error (t : string * outcome string (list RecordBatch)) : option string :=
  match snd t with Fail _ => Some (fst t) | _ => None end.

Lemma gather_spec finished :
  gather finished = {| sc_batches := flat_map task_batches finished; sc_error_nodes := filter_map task_error finished |}.
Proof.
  unfold gather. set (step := fun acc t => _).
  enough (forall acc, fold_left step finished acc =
    {| sc_batches := sc_batches acc ++ flat_map task_batches finished;
       sc_error_nodes := sc_error_nodes acc ++ filter_map task_error finished |}) as H by exact (H _).
  induction finished as [|[id [bs|e|]] finished IH]; intros [b e']; simpl; [by rewrite !app_nil_r|..]; rewrite IH; simpl;
    by rewrite <- ?app_assoc.
Qed.

#[export] Instance filter_map_Permutation {A B} (f : A -> option B) :
  Proper (Permutation ==> Permutation) (filter_map f).
Proof.
  intros l l' H. induction H as [|x l l' _ IH|x y l|l1 l2 l3 _ IH1 _ IH2]; simpl; [done| | |by etransitivity].
  - destruct (f x); [by constructor|done].
  - destruct (f x), (f y); done || constructor.
Qed.



(** A network whose nodes all run the service of this crate. *)
Definition served (net : ShardNet) : Prop :=
  forall uri req, exists msgs, @open_stream net uri req = inr msgs /\ msgs = map inr (query_shard req).

(** A distributed query over nodes that run this service returns no rows
    and reports no error, whatever the nodes store, the plan and the targets
    are. *)
Theorem cluster_query_empty {net : ShardNet} {ipc : IpcReader} view query_id plan start_ns end_ns signal targets res :
  served net -> execute view query_id plan start_ns end_ns signal targets res ->
  sc_batches res = [] /\ sc_error_nodes res = [].
Proof.
  intros Hs [finished Hp]. rewrite gather_spec. cbn [sc_batches sc_error_nodes].
  assert (Forall (fun t => snd t = Ret []) finished) as Hf.
  { rewrite Hp. apply List.Forall_forall. intros t Ht. unfold spawn_tasks in Ht.
    apply in_filter_map in Ht as (id & _ & Ef). destruct (find _ _) as [n|]; simplify_eq/=.
    unfold query_single_shard. destruct (Hs ("http://" +:+ nm_internal_grpc_addr n) (shard_request query_id plan start_ns end_ns signal))
      as (msgs & -> & ->). done. }
  clear Hp. induction Hf as [|[id r] l Hr _ IH]; [done|]. simpl in Hr. subst r. simpl. apply IH.
Qed.

(** ** The replication stream *)

(** An entry that applying skips: empty, of an unknown type, or with a record
    that does not decode. *)
Definition skipped {libs : EngineLibs} (en : ReplicateRequest) : Prop :=
  match rr_wal_entry en with
  | [] => True
  | t :: d => (t = WAL_ENTRY_LOG -> @deserialize LogRecord _ d = None) /\
              (t = WAL_ENTRY_METRIC -> @deserialize MetricPoint _ d = None) /\
              (t = WAL_ENTRY_SPAN -> @deserialize SpanRecord _ d = None)
  end.

Lemma apply_skipped {libs : EngineLibs} en s :
  skipped en -> apply_replica_entry (replica_entry en) s = (Ret tt, s).
Proof.
  unfold skipped, apply_replica_entry, replica_entry. simpl. destruct (rr_wal_entry en) as [|t d]; [done|].
  intros (H1 & H2 & H3). destruct (Z.eqb_spec t WAL_ENTRY_LOG) as [E|_]; [by rewrite H1|].
  destruct (Z.eqb_spec t WAL_ENTRY_METRIC) as [E|_]; [by rewrite H2|].
  destruct (Z.eqb_spec t WAL_ENTRY_SPAN) as [E|_]; [by rewrite H3|done].
Qed.

(** An entry whose record decodes is written as a batch of one. *)
Definition entry_batch {libs : EngineLibs} (en : ReplicateRequest) : option IngestBatch :=
  match rr_wal_entry en with
  | [] => None
  | t :: d => if t =? WAL_ENTRY_LOG then (fun r => Logs [r]) <$> deserialize d
              else if t =? WAL_ENTRY_METRIC then (fun r => Metrics [r]) <$> deserialize d
              else if t =? WAL_ENTRY_SPAN then (fun r => Spans [r]) <$> deserialize d
              else None
  end.

Lemma apply_entry_batch {libs : EngineLibs} en s :
  apply_replica_entry (replica_entry en) s =
  match entry_batch en with
  | Some b => let '(r, s') := write_batch b s in (map_err (ReplicationFailed "local") r, s')
  | None => (Ret tt, s)
  end.
Proof.
  unfold entry_batch, apply_replica_entry, replica_entry. simpl. destruct (rr_wal_entry en) as [|t d]; [done|].
  by destruct (t =? WAL_ENTRY_LOG); [destruct (deserialize d)|destruct (t =? WAL_ENTRY_METRIC);
    [destruct (deserialize d)|destruct (t =? WAL_ENTRY_SPAN); [destruct (deserialize d)|]]].
Qed.

(** The reference: the entries that hold a record, written one after the
    other until a write panics. *)
Fixpoint apply_all {libs : EngineLibs} (entries : list ReplicateRequest) (s : Fs * Engine) : list bool * (Fs * Engine) :=
  match entries with
  | [] => ([], s)
  | en :: entries =>
      match entry_batch en with
      | None => let '(oks, s2) := apply_all entries s in (true :: oks, s2)
      | Some b => match write_batch b s with
                  | (Ret _, s') => let '(oks, s2) := apply_all entries s' in (true :: oks, s2)
                  | (Fail _, s') => let '(oks, s2) := apply_all entries s' in (false :: oks, s2)
                  | (Panic, s') => ([], s')
                  end
      end
  end.

Lemma replicate_loop_spec {libs : EngineLibs} entries s :
  let '(acks, s1) := replicate_loop entries s in
  let '(oks, s2) := apply_all entries s in
  s1 = s2 /\ map ra_accepted acks = oks /\ map ra_sequence acks = firstn (length oks) (map rr_sequence entries).
Proof.
  revert s; induction entries as [|en entries IH]; intros s; [done|]. cbn [replicate_loop apply_all].
  rewrite apply_entry_batch. destruct (entry_batch en) as [b|].
  - destruct (write_batch b s) as [[u|e|] s']; simpl; [| |done]; specialize (IH s');
      destruct (replicate_loop entries s') as [acks s1], (apply_all entries s') as [oks s2];
      destruct IH as (-> & <- & E); simpl; by rewrite <- E.
  - specialize (IH s). destruct (replicate_loop entries s) as [acks s1], (apply_all entries s) as [oks s2].
    destruct IH as (-> & <- & E); simpl; by rewrite <- E.
Qed.

(** The replica acknowledges entries in order, and accepts what it
    drops.  The acknowledgements carry the sequence numbers of a prefix of
    the entries (all of them unless a write panics); each says whether the
    write of the record returned, the engine being left as by those writes
    alone; and entries that are empty, of an unknown type or do not decode
    are all accepted while the engine does not change. *)
Theorem replicate_acks {libs : EngineLibs} entries s :
  (let '(acks, s1) := replicate_loop entries s in
   let '(oks, s2) := apply_all entries s in
   s1 = s2 /\ map ra_accepted acks = oks /\ map ra_sequence acks = firstn (length oks) (map rr_sequence entries)) /\
  (Forall skipped entries ->
   replicate_loop entries s =
   (map (fun en => {| ra_sequence := rr_sequence en; ra_accepted := true; ra_error := "" |}) entries, s)).
Proof.
  split; [apply replicate_loop_spec|]. induction 1 as [|en entries He _ IH]; [done|]. cbn [replicate_loop map].
  by rewrite apply_skipped, IH.
Qed.

(** ** At work *)

Definition test_meta (id : string) : NodeMeta :=
  {| nm_node_id := id; nm_internal_grpc_addr := "h:1"; nm_version := "1"; nm_started_at_ns := 0 |}.

Definition test_view : ClusterView := {| cv_nodes := [test_meta "a"; test_meta "b"]; cv_ring := ring_new 1 |}.

Definition served_net : ShardNet := {| open_stream := fun _ req => inr (map inr (query_shard req)) |}.
Definition no_ipc : IpcReader := {| stream_reader := fun _ => Fail "not an Arrow stream"%string |}.

Lemma cluster_query_empty_witness :
  exists res, @execute served_net no_ipc test_view "q" [] 0 1 "logs" ["a"; "b"; "c"] res /\ sc_batches res = [] /\ sc_error_nodes res = [].
Proof.
  eexists. split; [apply execute_in_order; reflexivity|].
  apply (@cluster_query_empty served_net no_ipc test_view "q" [] 0 1 "logs" ["a"; "b"; "c"]);
    [intros uri req; eexists; split; reflexivity|apply execute_in_order; reflexivity].
Defined.



Lemma replicate_acks_witness :
  let en := {| rr_sequence := 7; rr_wal_entry := [1; 0]; rr_partition_key := "p"; rr_signal := "logs"; rr_node_id := "a" |} in
  @replicate_loop engine_reference [en] (opened_disk 0, opened 64) =
  ([{| ra_sequence := 7; ra_accepted := true; ra_error := "" |}], (opened_disk 0, opened 64)).
Proof.
  intros en. apply (proj2 (@replicate_acks engine_reference [en] (opened_disk 0, opened 64))).
  constructor; [|constructor]. unfold skipped. cbn [rr_wal_entry en]. split_and!; [vm_compute; reflexivity|discriminate..].
Defined.
