(* ===== verification/Operator.v ===== *)
(** * The Kubernetes operator

    [deploy/kubernetes/operator/src/crd.rs] (the custom resource),
    [reconciler.rs] (the objects a cluster stands for, and the calls that
    apply them) and [main.rs] (the turns of the controller).  The API server is an interface: a patch of an object can
    fail, and server-side apply leaves an object that already has the applied
    fields alone. *)

From Stdlib Require Import ZArith Lia.
From stdpp Require Import base tactics list numbers option strings gmap.
From S2P Require Import Prelude Text Float64 Json Model Wal MemTable Fs Hash ZoneMap Bloom Arrow SSTable Partition Compaction Engine EngineSafety Ingest.

Local Open Scope string_scope.
Local Open Scope list_scope.
Local Open Scope Z_scope.

(** ** The custom resource ([crd.rs]) *)

Record CrdConfig := {
  crd_memtable_size_bytes : Z;
  crd_partition_hours : Z;
  crd_l0_compaction_trigger : Z
}.

Record ResourceQuantity := { rq_cpu : string; rq_memory : string }.

Record ResourceSpec := { rsp_requests : ResourceQuantity; rsp_limits : ResourceQuantity }.

Record ClusterSpec := {
  spec_replicas : Z;
  spec_storage_class : string;
  spec_storage_size : string;
  spec_image : string;
  spec_etcd_endpoints : list string;
  spec_config : CrdConfig;
  spec_resources : ResourceSpec
}.

Inductive ClusterPhase := Pending | Provisioning | Running | Degraded | Failed.

Record ClusterStatus := {
  stt_phase : ClusterPhase;
  stt_ready_replicas : Z;
  stt_observed_generation : Z;
  stt_message : option string
}.

(** The functions the [serde] attributes name. *)
Definition default_storage_class : string := "standard".
Definition default_storage_size : string := "50Gi".
Definition default_image : string := "ghcr.io/infralens/infralens-server:latest".
Definition default_memtable_size : Z := 64 * 1024 * 1024.
Definition default_partition_hours : Z := 1.
Definition default_l0_trigger : Z := 4.

(** The derived [Default] of [ClusterConfig] and [ResourceSpec]; the
    written one of [ResourceQuantity]. *)
Definition crd_config_default : CrdConfig :=
  {| crd_memtable_size_bytes := 0; crd_partition_hours := 0; crd_l0_compaction_trigger := 0 |}.
Definition quantity_default : ResourceQuantity := {| rq_cpu := "1"; rq_memory := "2Gi" |}.
Definition resources_default : ResourceSpec := {| rsp_requests := quantity_default; rsp_limits := quantity_default |}.

(** *** The derived [Deserialize], on the objects the schema admits

    A missing field takes its default, or is an error when it has none. *)

Definition field {A} (v : Value) (key : string) (missing : option A) (parse : Value -> outcome string A) : outcome string A :=
  match get v key with
  | Some x => parse x
  | None => ok_or missing ("missing field `" +:+ key +:+ "`")
  end.

Definition parse_string (v : Value) : outcome string string := ok_or (as_str v) "invalid type".
Definition parse_max (max : Z) (v : Value) : outcome string Z :=
  match as_u64 v with
  | Some n => if n <=? max then Ret n else Fail "invalid value"
  | None => Fail "invalid type"
  end.
Definition parse_strings (v : Value) : outcome string (list string) :=
  match as_array v with Some l => mapM_out parse_string l | None => Fail "invalid type" end.

Definition parse_crd_config (v : Value) : outcome string CrdConfig :=
  m ← field v "memtable_size_bytes" (Some default_memtable_size) (parse_max u64_max);
  h ← field v "partition_hours" (Some default_partition_hours) (parse_max u64_max);
  l ← field v "l0_compaction_trigger" (Some default_l0_trigger) (parse_max u64_max);
  Ret {| crd_memtable_size_bytes := m; crd_partition_hours := h; crd_l0_compaction_trigger := l |}.

Definition parse_quantity (v : Value) : outcome string ResourceQuantity :=
  c ← field v "cpu" None parse_string;
  m ← field v "memory" None parse_string;
  Ret {| rq_cpu := c; rq_memory := m |}.

Definition parse_resources (v : Value) : outcome string ResourceSpec :=
  r ← field v "requests" (Some quantity_default) parse_quantity;
  l ← field v "limits" (Some quantity_default) parse_quantity;
  Ret {| rsp_requests := r; rsp_limits := l |}.

Definition parse_spec (v : Value) : outcome string ClusterSpec :=
  replicas ← field v "replicas" None (parse_max u32_max);
  storage_class ← field v "storage_class" (Some default_storage_class) parse_string;
  storage_size ← field v "storage_size" (Some default_storage_size) parse_string;
  image ← field v "image" (Some default_image) parse_string;
  etcd_endpoints ← field v "etcd_endpoints" None parse_strings;
  config ← field v "config" (Some crd_config_default) parse_crd_config;
  resources ← field v "resources" (Some resources_default) parse_resources;
  Ret {| spec_replicas := replicas; spec_storage_class := storage_class; spec_storage_size := storage_size;
         spec_image := image; spec_etcd_endpoints := etcd_endpoints; spec_config := config; spec_resources := resources |}.

Record InfraLensCluster := {
  ilc_name : option string;
  ilc_generate_name : option string;
  ilc_namespace : option string;
  ilc_generation : option Z;
  ilc_spec : ClusterSpec
}.

(** [ResourceExt::name_any]. *)
Definition name_any (c : InfraLensCluster) : string :=
  match ilc_name c with
  | Some n => n
  | None => default "" (ilc_generate_name c)
  end.

(** ** The objects ([k8s_openapi]): the fields the operator sets *)

Abbreviation Labels := (gmap string string).

Record ObjectMeta := { om_name : option string; om_namespace : option string; om_labels : option Labels }.

Record ConfigMap := { cm_metadata : ObjectMeta; cm_data : Labels }.

Record Port := { port_name : string; port_number : Z }.

Record Service := {
  svc_metadata : ObjectMeta;
  svc_cluster_ip : string;
  svc_selector : Labels;
  svc_ports : list Port
}.

Record Container := {
  ct_name : string;
  ct_image : string;
  ct_env_from_config_map : string;
  ct_env_from_field : list (string * string);
  ct_ports : list Port;
  ct_volume_mounts : list (string * string)
}.

Record VolumeClaim := {
  vc_metadata : ObjectMeta;
  vc_access_modes : list string;
  vc_storage_class_name : string;
  vc_requests : Labels
}.

Record StatefulSet := {
  sts_metadata : ObjectMeta;
  sts_replicas : Z;
  sts_match_labels : Labels;
  sts_service_name : string;
  sts_template_labels : Labels;
  sts_containers : list Container;
  sts_volume_claim_templates : list VolumeClaim
}.

(** A patch: its object, or the status of the custom resource. *)
Inductive Patch :=
| ApplyConfigMap (ns name : string) (cm : ConfigMap)
| ApplyService (ns name : string) (svc : Service)
| ApplyStatefulSet (ns name : string) (sts : StatefulSet)
| MergeStatus (ns name : string) (status : ClusterStatus).

Inductive Action := Requeue (secs : Z).

(** The API server: a patch against its state. *)
Class KubeApi (W E : Type) := { kube_patch : Patch -> st W E unit }.

(** ** Reconciliation ([reconciler.rs]) *)

(** [labels]. *)
Definition labels (name : string) : Labels :=
  <["app.kubernetes.io/component" := "server"]>
    (<["app.kubernetes.io/instance" := name]> (<["app.kubernetes.io/name" := "infralens"]> ∅)).

(** [<[String]>::join]. *)
Fixpoint str_join (sep : string) (l : list string) : string :=
  match l with
  | [] => ""
  | [s] => s
  | s :: l => s +:+ sep +:+ str_join sep l
  end.

Definition config_data (spec : ClusterSpec) : Labels :=
  <["INFRALENS__CLUSTER__ETCD_ENDPOINTS" := str_join "," (spec_etcd_endpoints spec)]>
    (<["INFRALENS__STORAGE__PARTITION_HOURS" := show_u64 (crd_partition_hours (spec_config spec))]>
      (<["INFRALENS__STORAGE__MEMTABLE_SIZE_BYTES" := show_u64 (crd_memtable_size_bytes (spec_config spec))]> ∅)).

Section Reconcile.
Context {W E : Type} {api : KubeApi W E}.

Definition the_configmap (cluster : InfraLensCluster) (ns : string) : ConfigMap :=
  {| cm_metadata := {| om_name := Some (name_any cluster +:+ "-config"); om_namespace := Some ns;
                       om_labels := Some (labels (name_any cluster)) |};
     cm_data := config_data (ilc_spec cluster) |}.

Definition reconcile_configmap (cluster : InfraLensCluster) (ns : string) : st W E unit :=
  kube_patch (ApplyConfigMap ns (name_any cluster +:+ "-config") (the_configmap cluster ns)).

Definition the_service (cluster : InfraLensCluster) (ns : string) : Service :=
  let name := name_any cluster in
  {| svc_metadata := {| om_name := Some name; om_namespace := Some ns; om_labels := Some (labels name) |};
     svc_cluster_ip := "None";
     svc_selector := labels name;
     svc_ports := [ {| port_name := "otlp-grpc"; port_number := 4317 |}; {| port_name := "otlp-http"; port_number := 4318 |};
                    {| port_name := "metrics"; port_number := 9090 |}; {| port_name := "internal"; port_number := 5317 |} ] |}.

Definition reconcile_service (cluster : InfraLensCluster) (ns : string) : st W E unit :=
  kube_patch (ApplyService ns (name_any cluster) (the_service cluster ns)).

(** The stateful set; [replicas as i32] wraps. *)
Definition the_statefulset (cluster : InfraLensCluster) (ns : string) : StatefulSet :=
  let name := name_any cluster in
  let lbls := labels name in
  {| sts_metadata := {| om_name := Some name; om_namespace := Some ns; om_labels := Some lbls |};
     sts_replicas := wrap_i32 (spec_replicas (ilc_spec cluster));
     sts_match_labels := lbls;
     sts_service_name := name;
     sts_template_labels := lbls;
     sts_containers :=
       [ {| ct_name := "infralens";
            ct_image := spec_image (ilc_spec cluster);
            ct_env_from_config_map := name +:+ "-config";
            ct_env_from_field := [("POD_NAME", "metadata.name")];
            ct_ports := [ {| port_name := "otlp-grpc"; port_number := 4317 |}; {| port_name := "otlp-http"; port_number := 4318 |};
                          {| port_name := "metrics"; port_number := 9090 |} ];
            ct_volume_mounts := [("data", "/data")] |} ];
     sts_volume_claim_templates :=
       [ {| vc_metadata := {| om_name := Some "data"; om_namespace := None; om_labels := None |};
            vc_access_modes := ["ReadWriteOnce"];
            vc_storage_class_name := spec_storage_class (ilc_spec cluster);
            vc_requests := {[ "storage" := spec_storage_size (ilc_spec cluster) ]} |} ] |}.

Definition reconcile_statefulset (cluster : InfraLensCluster) (ns : string) : st W E unit :=
  kube_patch (ApplyStatefulSet ns (name_any cluster) (the_statefulset cluster ns)).

Definition the_status (cluster : InfraLensCluster) : ClusterStatus :=
  {| stt_phase := Running; stt_ready_replicas := spec_replicas (ilc_spec cluster);
     stt_observed_generation := default 0 (ilc_generation cluster); stt_message := None |}.

Definition update_status (cluster : InfraLensCluster) (ns : string) : st W E unit :=
  kube_patch (MergeStatus ns (name_any cluster) (the_status cluster)).

(** [reconcile]. *)
Definition reconcile (cluster : InfraLensCluster) : st W E Action :=
  let ns := default "" (ilc_namespace cluster) in
  _ ← reconcile_configmap cluster ns;
  _ ← reconcile_service cluster ns;
  _ ← reconcile_statefulset cluster ns;
  _ ← update_status cluster ns;
  mret (Requeue 30).

(** [error_policy], whatever the error. *)
Definition error_policy (e : E) : Action := Requeue 10.

(** ** The controller ([main.rs])

    What the process does first: the client is made before the arguments are
    looked at. *)
Inductive OperatorStart := PrintCrd | RunController.

Definition operator_main (client : outcome E unit) (args : list string) : outcome E OperatorStart :=
  _ ← client;
  if existsb (fun a => a =? "--print-crd")%string args then Ret PrintCrd else Ret RunController.

Inductive ReconcileLog := Reconciled (name : string) (ns : option string) | ReconcileError (e : E).

(** What the controller does for one resource: [reconcile], [error_policy]
    when it fails, and a line of the log. *)
Definition controller_turn (cluster : InfraLensCluster) (s : W) : option (ReconcileLog * Action) * W :=
  match reconcile cluster s with
  | (Ret a, s') => (Some (Reconciled (name_any cluster) (ilc_namespace cluster), a), s')
  | (Fail e, s') => (Some (ReconcileError e, error_policy e), s')
  | (Panic, s') => (None, s')
  end.

(** Turns for resources in the order the watch and the timers give them. *)
Fixpoint controller_run (turns : list InfraLensCluster) (s : W) : list (InfraLensCluster * (ReconcileLog * Action)) * W :=
  match turns with
  | [] => ([], s)
  | cluster :: turns =>
      match controller_turn cluster s with
      | (Some o, s1) => let '(os, s2) := controller_run turns s1 in ((cluster, o) :: os, s2)
      | (None, s1) => ([], s1)
      end
  end.
End Reconcile.
Arguments ReconcileError {E} e.
Arguments Reconciled {E} name ns.

(** ** Convergence *)

(** The object a patch is about. *)
Definition patch_key (p : Patch) : string * string * string :=
  match p with
  | ApplyConfigMap ns name _ => ("ConfigMap", ns, name)
  | ApplyService ns name _ => ("Service", ns, name)
  | ApplyStatefulSet ns name _ => ("StatefulSet", ns, name)
  | MergeStatus ns name _ => ("InfraLensCluster/status", ns, name)
  end.

(** What the API server promises: an accepted patch is applied, a patch of
    another object does not undo it, and patching what is applied changes
    nothing. *)
Class KubeLaws (W E : Type) {api : KubeApi W E} := {
  applied : Patch -> W -> Prop;
  patch_applies : forall p s s', kube_patch p s = (Ret tt, s') -> applied p s';
  patch_keeps : forall p q s r s', kube_patch p s = (r, s') -> patch_key q <> patch_key p -> applied q s -> applied q s';
  patch_noop : forall p s, applied p s -> snd (kube_patch p s) = s
}.

(** The four patches of a reconciliation, in order. *)
Definition patches (cluster : InfraLensCluster) : list Patch :=
  let ns := default "" (ilc_namespace cluster) in
  let name := name_any cluster in
  [ ApplyConfigMap ns (name +:+ "-config") (the_configmap cluster ns);
    ApplyService ns name (the_service cluster ns);
    ApplyStatefulSet ns name (the_statefulset cluster ns);
    MergeStatus ns name (the_status cluster) ].

Section Convergence.
Context {W E : Type} {api : KubeApi W E} {laws : KubeLaws W E}.

(** Patches one after the other, up to the first that fails. *)
Fixpoint patch_all (ps : list Patch) : st W E unit :=
  match ps with
  | [] => mret tt
  | p :: ps => _ ← kube_patch p; patch_all ps
  end.

Lemma reconcile_patches cluster s :
  reconcile cluster s =
  match patch_all (patches cluster) s with
  | (Ret _, s') => (Ret (Requeue 30), s')
  | (Fail e, s') => (Fail e, s')
  | (Panic, s') => (Panic, s')
  end.
Proof.
  unfold reconcile, reconcile_configmap, reconcile_service, reconcile_statefulset, update_status, patches.
  cbn [patch_all]. unfold mbind, st_bind, mret, st_ret.
  repeat match goal with |- context [kube_patch ?p ?s] => destruct (kube_patch p s) as [[[]| |] ?] end; done.
Qed.

Lemma patch_all_applied ps s s' :
  NoDup (map patch_key ps) -> patch_all ps s = (Ret tt, s') -> Forall (fun p => applied p s') ps.
Proof.
  enough (forall done s, NoDup (map patch_key (done ++ ps)) -> Forall (fun p => applied p s) done ->
    patch_all ps s = (Ret tt, s') -> Forall (fun p => applied p s') (done ++ ps)) as H
    by (intros; by apply (H [] s)).
  induction ps as [|p ps IH]; intros done s1 Hn Hd Hp; simpl in Hp.
  - unfold mret, st_ret in Hp. simplify_eq. by rewrite app_nil_r.
  - apply st_bind_inv in Hp as ([] & s2 & E1 & E2). rewrite cons_middle, app_assoc. rewrite cons_middle, app_assoc in Hn.
    apply (IH (done ++ [p]) s2 Hn); [|done]. apply Forall_app. split.
    + rewrite List.Forall_forall in Hd |- *. intros q Hq. eapply patch_keeps; [exact E1| |by apply Hd].
      rewrite !map_app, <- app_assoc in Hn. apply NoDup_app in Hn as (_ & Hn & _).
      intros Ek. apply (Hn (patch_key q)); [apply list_elem_of_In, in_map, Hq|]. rewrite Ek. simpl. by left.
    + constructor; [|constructor]. by apply patch_applies in E1.
Qed.

Lemma patch_all_noop ps s : Forall (fun p => applied p s) ps -> snd (patch_all ps s) = s.
Proof.
  induction 1 as [|p ps Hp _ IH]; [done|]. simpl. unfold mbind, st_bind.
  pose proof (patch_noop p s Hp) as En. destruct (kube_patch p s) as [[u| |] s']; simpl in En; subst; done.
Qed.

Lemma patches_distinct cluster : NoDup (map patch_key (patches cluster)).
Proof. unfold patches. simpl. repeat constructor; set_solver. Qed.

(** The identity of a resource, and the objects of two resources. *)
Definition ident (cluster : InfraLensCluster) : string * string := (default "" (ilc_namespace cluster), name_any cluster).

Lemma patches_apart c c' p q : ident c <> ident c' -> In p (patches c) -> In q (patches c') -> patch_key p <> patch_key q.
Proof.
  unfold ident, patches. cbn [In]. intros Hi Hp Hq Hk. apply Hi.
  destruct Hp as [<-|[<-|[<-|[<-|[]]]]], Hq as [<-|[<-|[<-|[<-|[]]]]]; cbn in Hk; try discriminate Hk; injection Hk; intros Hn Hs;
    rewrite ?Hs; f_equal; try done. by apply string_app_inj_r in Hn.
Qed.

Lemma patch_all_keeps ps q s : Forall (fun p => patch_key q <> patch_key p) ps -> applied q s -> applied q (snd (patch_all ps s)).
Proof.
  intros Hps. revert s. induction Hps as [|p ps Hp _ IH]; intros s Hq; [done|]. cbn [patch_all]. unfold mbind, st_bind.
  destruct (kube_patch p s) as [r s1] eqn:Ek. pose proof (patch_keeps _ _ _ _ _ Ek Hp Hq) as H1. destruct r; [by apply IH|done|done].
Qed.

(** A turn, for this resource or another, leaves what is applied for it. *)
Lemma controller_turn_keeps c c' s : (ident c = ident c' -> c = c') -> Forall (fun p => applied p s) (patches c) ->
  Forall (fun p => applied p (snd (controller_turn c' s))) (patches c).
Proof.
  intros Hu Ha. assert (snd (controller_turn c' s) = snd (patch_all (patches c') s)) as ->.
  { unfold controller_turn. rewrite reconcile_patches. by destruct (patch_all (patches c') s) as [[?|?|] ?]. }
  destruct (decide (ident c = ident c')) as [Hi|Hi].
  - rewrite <- (Hu Hi). by rewrite patch_all_noop.
  - rewrite List.Forall_forall in Ha |- *. intros q Hq. apply patch_all_keeps; [|by apply Ha].
    apply List.Forall_forall. intros p Hp. by apply (patches_apart c c').
Qed.

Lemma controller_run_keeps turns c s os s' : (forall c', In c' turns -> ident c = ident c' -> c = c') ->
  Forall (fun p => applied p s) (patches c) -> controller_run turns s = (os, s') -> Forall (fun p => applied p s') (patches c).
Proof.
  revert s os. induction turns as [|c1 turns IH]; intros s os Hu Ha Ec; cbn [controller_run] in Ec; [by injection Ec as _ <-|].
  pose proof (controller_turn_keeps c c1 s (Hu c1 (or_introl eq_refl)) Ha) as H1.
  destruct (controller_turn c1 s) as [[o|] s1]; [|by injection Ec as _ <-]. destruct (controller_run turns s1) as [os1 s2] eqn:Er.
  injection Ec as _ <-. apply (IH s1 os1); [|done|done]. intros c' Hc. apply Hu. by right.
Qed.

Lemma controller_turn_success c s l a s' : controller_turn c s = (Some (l, a), s') ->
  match l with
  | Reconciled _ _ => a = Requeue 30 /\ Forall (fun p => applied p s') (patches c)
  | ReconcileError _ => a = Requeue 10
  end.
Proof.
  unfold controller_turn. rewrite reconcile_patches. destruct (patch_all (patches c) s) as [[[]|e|] s1] eqn:Ep; intros [= <- <- <-]; [|done].
  split; [done|]. eapply patch_all_applied; [apply patches_distinct|exact Ep].
Qed.
End Convergence.

(** The set of objects fits together. *)
Record coherent (cluster : InfraLensCluster) (cm : ConfigMap) (svc : Service) (sts : StatefulSet) : Prop := {
  co_selects : svc_selector svc ⊆ sts_template_labels sts;
  co_matches : sts_match_labels sts = sts_template_labels sts;
  co_service : om_name (svc_metadata svc) = Some (sts_service_name sts);
  co_config : Forall (fun c => om_name (cm_metadata cm) = Some (ct_env_from_config_map c)) (sts_containers sts);
  co_mounts : Forall (fun c => Forall (fun m => In (Some (fst m)) (map (fun v => om_name (vc_metadata v)) (sts_volume_claim_templates sts)))
                                 (ct_volume_mounts c)) (sts_containers sts);
  co_replicas : spec_replicas (ilc_spec cluster) < 2147483648 -> sts_replicas sts = spec_replicas (ilc_spec cluster)
}.

(** C30: reconciliation converges.  When a reconciliation succeeds, its
    config map, service, stateful set and status are all applied, the
    objects refer to each other (the service selects the pods and governs
    the set, the pods read the config map and mount the claimed volume, the
    replicas are those of the resource below [2^31]), and reconciling again
    changes nothing at all. *)
Theorem reconcile_converges {W E} {api : KubeApi W E} {laws : KubeLaws W E} cluster s a s' :
  0 <= spec_replicas (ilc_spec cluster) ->
  reconcile cluster s = (Ret a, s') ->
  a = Requeue 30 /\ snd (reconcile cluster s') = s' /\
  exists ns name cm svc sts status,
    applied (ApplyConfigMap ns (name +:+ "-config") cm) s' /\ applied (ApplyService ns name svc) s' /\
    applied (ApplyStatefulSet ns name sts) s' /\ applied (MergeStatus ns name status) s' /\ coherent cluster cm svc sts.
Proof.
  intros H0 Hr. rewrite reconcile_patches in Hr.
  destruct (patch_all (patches cluster) s) as [[[]| |] s1] eqn:Ep; simplify_eq. split; [done|].
  pose proof (patch_all_applied _ _ _ (patches_distinct cluster) Ep) as Ha. split.
  - rewrite reconcile_patches. pose proof (patch_all_noop _ _ Ha) as En.
    by destruct (patch_all (patches cluster) s') as [[?| |] s2].
  - unfold patches in Ha. inversion Ha as [|? ? A1 Ha1]; subst. inversion Ha1 as [|? ? A2 Ha2]; subst.
    inversion Ha2 as [|? ? A3 Ha3]; subst. inversion Ha3 as [|? ? A4 _]; subst.
    eexists _, (name_any cluster), _, _, _, _. split_and!; [exact A1|exact A2|exact A3|exact A4|].
    split; simpl; [done|done|done| | |].
    + by repeat constructor.
    + repeat constructor. 
    + intros Hlt. apply wrap_i32_small. int_lia.
Qed.

(** C20: the controller converges and stays converged.  Over any sequence of
    turns for any resources, distinct in namespace and name, with calls
    refused anywhere: once a turn for a resource is logged as reconciled, its
    config map, service, stateful set and status are applied at the end of
    the sequence, whatever was refused and whatever other resources were
    reconciled in between; a success is looked at again after 30 seconds, a
    failure after 10. *)
Theorem controller_converges {W E} {api : KubeApi W E} {laws : KubeLaws W E} turns s os s' :
  (forall c c', In c turns -> In c' turns -> ident c = ident c' -> c = c') ->
  controller_run turns s = (os, s') ->
  (forall c name ns a, In (c, (Reconciled name ns, a)) os -> Forall (fun p => applied p s') (patches c)) /\
  (forall c l a, In (c, (l, a)) os -> a = match l with Reconciled _ _ => Requeue 30 | ReconcileError _ => Requeue 10 end).
Proof.
  revert s os. induction turns as [|c1 turns IH]; intros s os Hu Ec; cbn [controller_run] in Ec; [by injection Ec as <- _|].
  destruct (controller_turn c1 s) as [[[l1 a1]|] s1] eqn:Et; [|by injection Ec as <- _].
  destruct (controller_run turns s1) as [os1 s2] eqn:Er. injection Ec as <- <-.
  apply controller_turn_success in Et.
  destruct (IH s1 os1) as [IH1 IH2]; [intros c c' Hc Hc'; apply Hu; by right|done|]. split.
  - intros c name ns a [[= -> -> ->]|Hin]; [|by eapply IH1]. destruct Et as [_ Ha].
    apply (controller_run_keeps turns c s1 os1); [|done|done]. intros c' Hc. apply Hu; [by left|by right].
  - intros c l a [[= -> -> ->]|Hin]; [|by eapply IH2]. destruct l; [by destruct Et|done].
Qed.

(** ** A reference API server

    Objects under their keys; [denied] says which patches are refused. *)

Abbreviation KubeStore := (gmap (string * string * string) Patch).

Definition kube_reference (denied : Patch -> bool) : KubeApi KubeStore string :=
  {| kube_patch := fun p s => if denied p then (Fail "forbidden", s) else (Ret tt, <[patch_key p := p]> s) |}.

Definition kube_reference_laws (denied : Patch -> bool) : @KubeLaws _ _ (kube_reference denied).
Proof.
  refine {| applied := fun p s => s !! patch_key p = Some p |}; simpl.
  - intros p s s' H. destruct (denied p); simplify_eq. apply lookup_insert_eq.
  - intros p q s r s' H Hk Hq. destruct (denied p); simplify_eq; [done|]. by rewrite lookup_insert_ne.
  - intros p s H. destruct (denied p); [done|]. simpl. by apply insert_id.
Defined.

Definition test_spec : ClusterSpec :=
  {| spec_replicas := 3; spec_storage_class := default_storage_class; spec_storage_size := default_storage_size;
     spec_image := default_image; spec_etcd_endpoints := ["http://etcd:2379"]; spec_config := crd_config_default;
     spec_resources := resources_default |}.

Definition test_cluster : InfraLensCluster :=
  {| ilc_name := Some "prod"; ilc_generate_name := None; ilc_namespace := Some "obs"; ilc_generation := Some 1; ilc_spec := test_spec |}.

Lemma reconcile_converges_witness :
  let api := kube_reference (fun _ => false) in
  let s' := snd (@reconcile _ _ api test_cluster ∅) in
  snd (@reconcile _ _ api test_cluster s') = s' /\ size s' = 4%nat.
Proof.
  intros api s'.
  destruct (@reconcile_converges _ _ api (kube_reference_laws (fun _ => false)) test_cluster ∅ (Requeue 30) s')
    as (_ & H & _); [simpl; lia|reflexivity|]. split; [exact H|]. vm_compute. reflexivity.
Defined.

(** Two clusters; patches of the second are refused. *)
Definition other_cluster : InfraLensCluster :=
  {| ilc_name := Some "test"; ilc_generate_name := None; ilc_namespace := Some "obs"; ilc_generation := Some 1; ilc_spec := test_spec |}.

Definition refuses_test (p : Patch) : bool :=
  match p with ApplyService _ name _ => (name =? "test")%string | _ => false end.

Lemma controller_converges_witness :
  let api := kube_reference refuses_test in
  let r := @controller_run _ _ api [test_cluster; other_cluster; other_cluster] ∅ in
  map snd (fst r) = [(Reconciled "prod" (Some "obs"), Requeue 30); (ReconcileError "forbidden", Requeue 10); (ReconcileError "forbidden", Requeue 10)] /\
  Forall (fun p => @applied _ _ api (kube_reference_laws refuses_test) p (snd r)) (patches test_cluster).
Proof.
  intros api r. split; [vm_compute; reflexivity|].
  destruct (@controller_converges _ _ api (kube_reference_laws refuses_test) [test_cluster; other_cluster; other_cluster] ∅ (fst r) (snd r)) as [H1 _].
  - intros c c' [<-|[<-|[<-|[]]]] [<-|[<-|[<-|[]]]] H; first [reflexivity|discriminate H].
  - apply surjective_pairing.
  - apply (H1 test_cluster "prod" (Some "obs") (Requeue 30)). left. reflexivity.
Defined.
