(* ===== verification/Deploy.v ===== *)
(** * A deployed server

    What the objects of the operator ([Operator]) make of the server process
    ([Server]): the variables a container gets, what the loader of the
    configuration does with them, and the configuration the server runs
    with. *)

From Stdlib Require Import ZArith Lia Ascii.
From stdpp Require Import base tactics list numbers option strings gmap.
From S2P Require Import Prelude Text Float64 Json Model Wal MemTable Fs Hash ZoneMap Bloom Arrow SSTable Partition Compaction Engine EngineSafety Ingest Handlers Server Operator.

Local Open Scope string_scope.
Local Open Scope list_scope.
Local Open Scope Z_scope.

(** ** The configuration crate

    What a process finds: the keys each configuration file sets (none where
    there is no file) and its environment variables. *)

Record Process := { pr_files : string -> list string; pr_environment : list (string * string) }.

(** A separator becomes a point. *)
Fixpoint dotted (sep : string) (skip : nat) (s : string) : string :=
  match s with
  | EmptyString => EmptyString
  | String c s' =>
      match skip with
      | S skip => dotted sep skip s'
      | O => if starts_with sep s then String "."%char (dotted sep (String.length sep - 1) s') else String c (dotted sep 0 s')
      end
  end.

(** The key a variable sets: its name in lower case, without the prefix and
    the separator after it. *)
Definition variable_key (prefix sep name : string) : option string :=
  let start := to_ascii_lowercase prefix +:+ sep in
  if starts_with start (to_ascii_lowercase name) then
    Some (dotted sep 0 (String.substring (String.length start) (String.length name) (to_ascii_lowercase name)))
  else None.

Definition source_keys (pr : Process) (source : ConfigSource) : list string :=
  match source with
  | SourceFile name _ => pr_files pr name
  | SourceEnvironment prefix sep => filter_map (variable_key prefix sep) (map fst (pr_environment pr))
  end.

(** The fields of [InfraLensConfig], none of which has a default for
    [serde]. *)
Definition required_keys : list string :=
  [ "server.grpc_addr"; "server.http_addr"; "server.metrics_addr";
    "storage.data_dir"; "storage.memtable_size_bytes"; "storage.l0_compaction_trigger"; "storage.compaction_interval_secs";
    "storage.partition_hours"; "storage.parquet_row_group_size"; "storage.wal_sync_interval_ms";
    "ingest.buffer_depth"; "ingest.max_batch_records"; "telemetry.log_level"; "telemetry.json_logs" ].

(** A key of the merged value comes from one of its sources, and a value that
    lacks a field is not read as a configuration. *)
Class ConfigLaws (pr : Process) (lib : ConfigLib) := {
  has_key : config_value -> string -> Prop;
  build_keys : forall sources v k, config_build sources = inr v -> has_key v k -> exists s, In s sources /\ In k (source_keys pr s);
  deserialize_keys : forall v cfg k, try_deserialize v = inr cfg -> In k required_keys -> has_key v k
}.

Lemma load_needs_keys pr {lib : ConfigLib} {laws : ConfigLaws pr lib} env cfg k :
  load env = inr cfg -> In k required_keys -> exists s, In s (config_sources env) /\ In k (source_keys pr s).
Proof.
  unfold load. destruct (config_build (config_sources env)) as [|v] eqn:Eb; [done|]. intros Hd Hk.
  by eapply build_keys, deserialize_keys.
Qed.

(** ** What a container gets *)

(** The names of its variables: those of the config map it refers to, and
    those taken from fields of the pod. *)
Definition container_variables (cm : ConfigMap) (c : Container) : list string :=
  (if bool_decide (om_name (cm_metadata cm) = Some (ct_env_from_config_map c)) then map fst (map_to_list (cm_data cm)) else []) ++
  map fst (ct_env_from_field c).

(** A process in a container of the cluster: there are no configuration files
    in its image, and the variables of the loader are those of the container;
    others, such as those of the services, do not have its prefix. *)
Record runs_in (cluster : InfraLensCluster) (ns : string) (c : Container) (pr : Process) : Prop := {
  ri_container : In c (sts_containers (the_statefulset cluster ns));
  ri_files : forall name, pr_files pr name = [];
  ri_variables : forall n, In n (map fst (pr_environment pr)) ->
    In n (container_variables (the_configmap cluster ns) c) \/ variable_key "INFRALENS" "__" n = None
}.

Lemma map_names (m : Labels) n : In n (map fst (map_to_list m)) -> exists v, m !! n = Some v.
Proof.
  intros Hn. apply in_map_iff in Hn as ([k v] & <- & Hk). apply base.list_elem_of_In, elem_of_map_to_list in Hk. eauto.
Qed.

Lemma container_variables_names cluster ns c n :
  In c (sts_containers (the_statefulset cluster ns)) -> In n (container_variables (the_configmap cluster ns) c) ->
  In n ["INFRALENS__STORAGE__MEMTABLE_SIZE_BYTES"; "INFRALENS__STORAGE__PARTITION_HOURS"; "INFRALENS__CLUSTER__ETCD_ENDPOINTS"; "POD_NAME"].
Proof.
  intros [<-|[]] Hn. unfold container_variables in Hn. apply in_app_iff in Hn as [Hn|Hn]; [|cbn in Hn; cbn; tauto].
  case_bool_decide; [|done]. apply map_names in Hn as [v Hk]. cbn [the_configmap cm_data] in Hk. unfold config_data in Hk.
  apply lookup_insert_Some in Hk as [[<- _]|[_ Hk]]; [cbn; tauto|].
  apply lookup_insert_Some in Hk as [[<- _]|[_ Hk]]; [cbn; tauto|].
  apply lookup_insert_Some in Hk as [[<- _]|[_ Hk]]; [cbn; tauto|]. by rewrite lookup_empty in Hk.
Qed.

(** The container does not name the address of a server. *)
Lemma no_server_key cluster ns c pr env s : runs_in cluster ns c pr -> In s (config_sources env) ->
  ~ In "server.grpc_addr" (source_keys pr s).
Proof.
  intros [Hc Hf Hv] [<-|[<-|[<-|[]]]] Hk; cbn [source_keys] in Hk; [by rewrite Hf in Hk|by rewrite Hf in Hk|].
  apply in_filter_map in Hk as (n & Hn & Hk). destruct (Hv n Hn) as [Hin|Hnone]; [|congruence].
  apply (container_variables_names cluster ns c n Hc) in Hin. destruct Hin as [<-|[<-|[<-|[<-|[]]]]]; vm_compute in Hk; discriminate Hk.
Qed.

(** C39: a deployed server runs on the defaults, whatever its resource says.
    The image of the repository has no configuration files, and the operator
    sets variables for two of the fourteen fields and for one the
    configuration does not have.  So in every container of a cluster, with
    any specification, loading the configuration fails; the process starts
    all the same, with the default configuration as a whole: the sizes and
    hours of the resource have no effect, and the data goes to a directory
    below the working directory and not to the volume the container mounts. *)
Theorem deployed_settings_ignored pr {libs : EngineLibs} {lib : ConfigLib} {laws : ConfigLaws pr lib} {telemetry : TelemetryLib}
    cluster ns c env_var w :
  runs_in cluster ns c pr -> healthy w ->
  load_or_default (default "default" env_var) = default_config /\
  exists s e, snd (main_start env_var w) = Ret s /\ In (ConfigLoadError e) (fst (main_start env_var w)) /\
    en_config (snd (ip_store (sv_pipeline s))) = cfg_storage default_config /\
    data_dir (en_config (snd (ip_store (sv_pipeline s)))) = "./data" /\ map snd (ct_volume_mounts c) = ["/data"].
Proof.
  intros Hr Hw. set (env := default "default" env_var).
  assert (exists e, load env = inl e) as [e He].
  { destruct (load env) as [e|cfg] eqn:El; [by exists e|]. exfalso.
    destruct (load_needs_keys pr env cfg "server.grpc_addr" El) as (s & Hs & Hk); [by left|]. by eapply no_server_key. }
  destruct (main_starts_on_defaults env_var w e Hw He) as (s & Hm & _ & _ & Hl & Hc).
  split; [unfold load_or_default; by rewrite He|]. exists s, e. rewrite Hc. split_and!; try done.
  by destruct (ri_container _ _ _ _ Hr) as [<-|[]].
Qed.

(** ** A reference loader *)

(** The merged value is the list of its keys. *)
Definition loader_reference (pr : Process) : ConfigLib :=
  {| config_value := list string;
     config_build := fun sources => inr (concat (map (source_keys pr) sources));
     try_deserialize := fun keys =>
       if forallb (fun k => existsb (String.eqb k) keys) required_keys then inr default_config else inl "missing field" |}.

Definition loader_reference_laws pr : ConfigLaws pr (loader_reference pr).
Proof.
  refine {| has_key := fun (v : @config_value (loader_reference pr)) k => In k v |}.
  - intros sources v k [= <-] Hk. apply in_concat in Hk as (l & Hl & Hk). apply in_map_iff in Hl as (s & <- & Hs). by exists s.
  - intros v cfg k Hd Hk. cbn [try_deserialize loader_reference] in Hd.
    destruct (forallb (fun k => existsb (String.eqb k) v) required_keys) eqn:E; [|done]. rewrite forallb_forall in E. specialize (E k Hk).
    apply existsb_exists in E as (k' & Hk' & Ek). by apply String.eqb_eq in Ek as ->.
Defined.

(** A pod of the test cluster, with a variable of its service. *)
Definition test_pod : Process :=
  {| pr_files := fun _ => [];
     pr_environment := [("INFRALENS__STORAGE__PARTITION_HOURS", "6"); ("INFRALENS__STORAGE__MEMTABLE_SIZE_BYTES", "1024");
                        ("INFRALENS__CLUSTER__ETCD_ENDPOINTS", "http://etcd:2379"); ("POD_NAME", "prod-0");
                        ("INFRALENS_SERVICE_HOST", "None")] |}.

Example partition_hours_key : variable_key "INFRALENS" "__" "INFRALENS__STORAGE__PARTITION_HOURS" = Some "storage.partition_hours".
Proof. reflexivity. Qed.

Definition silent_telemetry : TelemetryLib :=
  {| env_filter := unit; filter_from_env := None; filter_new := fun _ => tt; install_exporter := fun _ => inr tt |}.

Definition test_container : Container := nth 0 (sts_containers (the_statefulset test_cluster "obs"))
  {| ct_name := ""; ct_image := ""; ct_env_from_config_map := ""; ct_env_from_field := []; ct_ports := []; ct_volume_mounts := [] |}.

Lemma deployed_settings_ignored_witness :
  exists s, snd (@main_start (loader_reference test_pod) silent_telemetry None (empty_disk 0)) = Ret s /\
    data_dir (en_config (snd (ip_store (sv_pipeline s)))) = "./data" /\ map snd (ct_volume_mounts test_container) = ["/data"].
Proof.
  destruct (@deployed_settings_ignored test_pod engine_reference (loader_reference test_pod) (loader_reference_laws test_pod) silent_telemetry
    test_cluster "obs" test_container None (empty_disk 0)) as (_ & s & e & H1 & _ & _ & H2 & H3).
  - split; [left; reflexivity|reflexivity|]. intros n [<-|[<-|[<-|[<-|[<-|[]]]]]]; [left|left|left|left|right; reflexivity];
      vm_compute; tauto.
  - reflexivity.
  - exists s. split; [exact H1|]. split; [exact H2|exact H3].
Defined.

(** ** Partitions of no hours *)

(** A resource without a [config] section asks for them. *)
Lemma missing_config_zero v sp : get v "config" = None -> parse_spec v = Ret sp ->
  config_data sp !! "INFRALENS__STORAGE__PARTITION_HOURS" = Some "0".
Proof.
  intros Hv Hs. unfold parse_spec in Hs. inv_ret.
  match goal with H : field v "config" _ _ = Ret _ |- _ => unfold field in H; rewrite Hv in H; injection H as <- end.
  unfold config_data. by rewrite lookup_insert_ne, lookup_insert_eq by done.
Qed.

(** An engine whose buckets have no width panics on every record. *)
Lemma zero_bucket_panics {libs : EngineLibs} b w e :
  en_bucket_ns e = 0 -> en_closed e = false -> batch_len b <> 0 -> fst (write_batch b (w, e)) = Panic.
Proof.
  intros Hb Hc Hl. unfold write_batch. rewrite (st_bind_Ret _ _ (w, e) e (w, e)) by done. rewrite Hc.
  assert (forall ts t enc put, write_record ts t enc put (w, e) = (Panic, (w, e))) as Hr.
  { intros ts t enc put. unfold write_record. rewrite (st_bind_Ret _ _ (w, e) e (w, e)) by done.
    unfold mbind, st_bind, st_lift, for_timestamp. by rewrite Hb. }
  destruct b as [[|r rs]|[|r rs]|[|r rs]]; try done;
    cbn [engine_write_logs engine_write_metrics engine_write_spans]; unfold engine_write_logs, engine_write_metrics, engine_write_spans;
    cbn [st_iter]; unfold mbind at 1, st_bind at 1; by rewrite Hr.
Qed.

(** A server that does run with partitions of no hours starts, but the first
    batch with a record makes the writer panic, after which the pipeline
    refuses every batch. *)
Theorem zero_hours_stop_ingest {libs : EngineLibs} cfg w s (p : IngestPipeline (Fs * Engine)) b q b' :
  partition_hours (cfg_storage cfg) = 0 -> server_start cfg w = Ret s ->
  ip_store p = ip_store (sv_pipeline s) -> ip_alive p = true -> ip_queue p = b :: q -> batch_len b <> 0 ->
  let p' := snd (writer_turn p) in
  ip_alive p' = false /\ ip_queue p' = [] /\ fst (submit b' p') = Fail BufferFull.
Proof.
  intros Hz Hs Hst Ha Hq Hl.
  assert (en_bucket_ns (snd (ip_store p)) = 0 /\ en_closed (snd (ip_store p)) = false) as [Hb Hc].
  { rewrite Hst. unfold server_start in Hs. destruct (engine_open (cfg_storage cfg) w) as [[e| |] w'] eqn:Ho; try done.
    unfold engine_open in Ho. apply st_bind_inv in Ho as (u & w1 & _ & E). unfold mret, st_ret in E. injection E as <- <-.
    destruct (pipeline_new _ _) as [p0| |] eqn:Ep; try done. unfold pipeline_new in Ep. destruct (_ || _) in Ep; [done|]. injection Ep as <-.
    inv_ret. cbn. by rewrite Hz. }
  destruct (ip_store p) as [w1 e] eqn:Es. cbn [snd] in *.
  pose proof (zero_bucket_panics b w1 e Hb Hc Hl) as Hp. unfold writer_turn. rewrite Ha, Hq, Es.
  cbn [sink_write engine_sink]. destruct (write_batch b (w1, e)) as [r s'] eqn:Ew. simpl in Hp. subst r. done.
Qed.
